(* ===== verification/_CoqProject ===== *)
-Q . S2P
Prelude.v
CMonad.v
Chain.v
State.v
MemoryManagement.v
MemorySpec.v
MemoryRefine.v
CString.v
Parser.v
ParserRefine.v
ParserPrint.v
Scheduler.v
Frame.v
QueueRefine.v
QueueOrder.v
ProcessRefine.v
FcfsRefine.v
MlfqSpec.v
MlfqFacts.v
MlfqRefine.v
Simulation.v
SecretCode.v
SecretCodeRefine.v
Messages.v
Server.v
ServerRefine.v
Client.v
ClientRefine.v
PrintHelpers.v
ResourceUsage.v
ServerMain.v
ServerMainRefine.v
Threads.v
ServerThreads.v
ServerCode.v
ServerRun.v
ServerFate.v
ServerSim.v
ServerEnds.v
ServerAdmission.v
BoundedBuffer.v
ProducerConsumer.v
ProducerConsumerRefine.v
ProducerConsumerSem.v
ProducerConsumerSemRefine.v
Shell.v
ShellRefine.v
Primes.v
PlayProps.v
ConcurrencyProps.v
WorkshopProps.v
LinkedList.v
LinkedListRefine.v
MemoryProps.v
SchedulerProps.v
ParserProps.v
ProcessProps.v
GameProps.v
ServerProps.v
ListProps.v
StringHelpers.v
StringHelpersRefine.v
TokenizerRefine.v
LabThreads.v
LabThreadsRefine.v
Sockets.v
SocketsRefine.v
FileSystem.v
FileSystemRefine.v
Processes.v
Labs.v
TextProps.v
LabThreadsProps.v
NetworkProps.v
SystemProps.v
DebugPrint.v
