(* ===== verification/Prelude.v ===== *)
(** * A verification of the projects of COMP30023

    The repository holds three C programs: a simulator of process scheduling
    with memory management ([project1]), an on-line game of Mastermind
    ([project2]) and the exercises of the workshops ([workshop]).  This
    development models the code as functions in a monad for sequential C, and as
    step relations where threads run at the same time, and proves what it does.

    ** The parts of the programs

    [project1].  [simulation.c] reads the command line and starts one of the two
    schedulers of [process-scheduler.c].  A scheduler parses the process data
    file ([process-data-file-parser.c]) into an array of scheduled processes and
    then advances a clock: it creates the processes that have arrived, puts
    their control blocks into queues, loads the next one when the processor is
    free, and prints a status line.  Loading a process swaps its memory in, and
    swaps others out to make room ([memory-management.c]: a list of the free
    segments, sorted by address and without adjacent ones, and a list of the
    process memories).

    [project2].  The server accepts clients and starts a thread for each
    ([server.c]); the thread draws a secret code ([secret-code.c]), exchanges
    messages of a fixed size with the client ([message-helpers.c]), gives
    feedback on the guesses, and keeps a log and counters under mutexes.  The
    main thread refuses clients when there are 40, and a signal ends the server
    with a report in the log, for which [print-helpers.c] writes times and
    addresses and [resource-usage.c] reads the memory in use.  The client
    ([client.c]) shows what the server sends and sends what the user types.

    [workshop].  [linked-list.c] is a singly linked list of integers with a test
    program; [my-shell.c] a shell with a time limit for its commands;
    [producer-consumer-problem.c] and [producer-consumer-problem-semaphore.c]
    are threads that share a bounded buffer under a mutex and under semaphores;
    [signal-prime-number.c] a process that announces primes to its child;
    [my-stat.c] and [badbuf.c] are small exercises.  [sample_code] holds the
    examples of the course: string functions, threads, sockets, files, processes.

    ** The files

    - [Prelude]: the bounds of [int], tactics, hint databases, lemmas on lists.
    - [CMonad]: the monad [C S A].  A computation takes a state and returns
      ([Ok]), exits ([Exit]), has undefined behaviour ([UB]) or exceeds the bound
      on its loops ([NoFuel]).  Signed arithmetic is checked.  [wp m Q s] is total
      correctness, [safe m Q E s] excludes undefined behaviour on every path.
    - [Chain]: typed heaps ([HeapOf]), [malloc] with a script of failures, the two
      loops over linked lists ([scan], [walk]), and the representation predicates
      [chain] and [owns].
    - [State]: the structs of the headers of [project1] and the state [sim], with
      one heap per struct and the lines printed.
    - [MemoryManagement]: every function of [memory-management.c].  [MemorySpec]:
      the same on lists of segments (insertion with merging, first fit, the
      choice of the process to swap out, [make_room]) and the invariant [wf_mem].
      [MemoryRefine]: the functions implement the list operations.
    - [CString]: [fgets], [strtok], [atoi] and [printf("%d")] as the C standard
      defines them.  [Parser]: [process-data-file-parser.c].  [ParserRefine]: the
      meaning [file_procs] of a file, and that the parser computes it.
      [ParserPrint]: writing a file and reading it back.
    - [Scheduler]: every function of [process-scheduler.c].  [Frame]: which
      functions leave the list headers alone.  [QueueRefine], [QueueOrder]: the
      queues of control blocks as lists.  [ProcessRefine]: the operations on one
      process.  [FcfsRefine]: the first come first served loop prints
      [fcfs_lines].  [MlfqSpec], [MlfqFacts]: the multi-level feedback queue,
      slice by slice, as a relation [mlfq_run], and what it guarantees.
      [MlfqRefine]: the loop implements [mlfq_run].  [Simulation]:
      [simulation.c].
    - [SecretCode], [SecretCodeRefine]: [secret-code.c] and the rules of the game.
      [Messages]: [message-helpers.c] over a connection whose [read] and [write]
      calls follow an arbitrary script.  [Server], [ServerRefine]: the thread of
      [server.c] that serves a client, its helpers and its counters.
    - [Client], [ClientRefine]: [client.c], and that client and server fit.
      [PrintHelpers]: [print-helpers.c] and reading its output back.
      [ResourceUsage]: [resource-usage.c].  [ServerMain], [ServerMainRefine]:
      [main] and [sig_handler] of [server.c].
    - [Threads]: interleavings of threads with mutexes and counters, with a class
      [Locking] for the order of the mutexes and what they protect; programs that
      keep to the discipline have no deadlock and lose no update.
      [ServerThreads]: the mutexes and counters of [server.c], their order and
      what they protect.
    - [ServerCode]: the code of the threads of [server.c] as trees ([prog]) of lock
      operations, accesses to counters, lines of the log and calls on the thread's
      own connection, one definition for each part of the code, and that each tree,
      run alone ([interp]), is the function of [Server].  [ServerRun]: the server
      as a whole: [accept] is a round of the main thread, [wstep] a step of a thread,
      [wreach] the states that can be reached.  [ServerFate]: what a thread does to
      the mutexes and counters, by cases on how it ends.  [ServerSim], [ServerEnds]:
      the server simulates the instructions of [Threads], so that its theorems apply;
      each thread does what it does alone.  [ServerAdmission]: the number of
      clients.
    - [BoundedBuffer]: the buffer of the two producer-consumer programs.
      [ProducerConsumer] (Module [Polling]), [ProducerConsumerRefine]: the version
      with a mutex as a step relation.  [ProducerConsumerSem] (Module
      [Semaphores]), [ProducerConsumerSemRefine]: the one with semaphores.
    - [Shell], [ShellRefine]: [my-shell.c] on blocks of memory whose cells may be
      uninitialised.  [Primes]: [signal-prime-number.c].
    - [LinkedList], [LinkedListRefine]: [workshop/linked-list.c].
    - [DebugPrint]: the functions of [project1] that print a structure.
    - [StringHelpers], [StringHelpersRefine], [TokenizerRefine]:
      [sample_code/workshop(lab)3/string-helper-functions.c] on blocks of memory.
      [LabThreads], [LabThreadsRefine]: the programs of [sample_code/threads], on
      [Threads] and as sequences of calls on semaphores.  [Sockets],
      [SocketsRefine]: the clients and servers of [sample_code/sockets].
      [FileSystem], [FileSystemRefine]: [sample_code/filesystems] on a file system
      with directories, links, modes and descriptors.  [Processes]:
      [sample_code/processes], a parent and a child whose calls are interleaved.
      [Labs]: [my-stat.c], [badbuf.c] and [buggy.c].
    - [MemoryProps], [SchedulerProps], [ParserProps], [ProcessProps],
      [GameProps], [ServerProps] (all threads of the server), [PlayProps] (client,
      main thread, log), [ConcurrencyProps] (producers and consumers),
      [WorkshopProps] (shell, primes), [ListProps], [TextProps] (strings),
      [LabThreadsProps], [NetworkProps], [SystemProps] (files, processes, logins):
      the theorems, with examples.

    ** What the theorems show

    Whole runs of the simulator are equal to (first come first served) or
    refine (multi-level feedback queue) specifications that know neither
    pointers nor clock ticks nor memory; they end, leak nothing, never leave the
    range of [int] and never touch memory they do not own.  The memory manager
    keeps the invariant that holes and resident processes tile the memory.  The
    parser reads exactly the processes of the file.  The feedback of the game is
    the one of the rules of Mastermind; a session is safe on every behaviour of
    the network and follows the protocol when the network delivers; client and
    server fit, each sending what the other expects.  The main thread of the
    server, run from its arguments to the signal that ends it, starts a thread for
    exactly the clients that it has room for, turns the others away, and ends with
    the report in the log; the text of the status file decides what the report says
    of the memory.  The threads of the server are followed from their code: in every
    interleaving no step is undefined, the threads can be brought to their ends, no
    update of a counter is lost, every mutex is released and every socket closed
    once, and every client is served as if it were alone; the threads that do not end
    are those whose client no longer sends.  The two
    producer-consumer programs keep the buffer in bounds and first in first out
    for any number of threads; the one with the mutex ends after the flag is set,
    the one with semaphores has no deadlock before.  The shell executes, for
    each line and in order, the program that its words name, kills it at the time
    limit, and gives its memory back; [isprimeno] decides primality.  The
    linked list implements a sequence.  Of the sample programs: the tokenizer
    makes the fields of a line, and its memory is given back; counting under the
    mutex is exact; producer and consumer take turns; what is typed at a client is what the server prints; the
    example with files leaves the file system as it was; a parent that waits
    writes its last line after its child.  Some theorems state where the code fails:
    a process larger than the memory, a status line with more than 21474836 units
    in use, a data line of three tokens, a missing option, a client or a server
    that stops sending, a refusal that cannot be sent, more clients than the
    limit, a signal while the log is written, a number that starts late in a line
    of the status file, the exit of the version with semaphores, the end of the
    input in the shell and in the prime numbers, a blank line in the shell,
    popping the last element, a line for the tokenizer without a second terminator
    or with a blank at its end, counting without a mutex, two messages in one
    [recv], a link that is in the way, a word too long for its array, a signal
    before its handler.

    ** Bounds and fuel

    A loop over a linked list gets one iteration more than the heap has nodes,
    the loop of the parser one more than the file has characters, which is
    enough because the nodes of a list are distinct and each [fgets] consumes a
    character.  The main loops of the schedulers and the loop that awaits a
    guess take their bound as an argument; the theorems require it to exceed
    the end of the simulation ([fcfs_end], [horizon]), the number of messages,
    of rounds or of characters typed, and conclude that the result is reached, never only that it is right if
    reached.  A thread of the server that spends the fuel of the loop that awaits a
    valid guess ([Spins], counted by [over]) is told apart from one that has ended:
    with a fuel larger than what its network can still offer ([demand]) it has read
    everything ([drained]), so that the loop of the code would go on for ever; a
    client that plays its game to the end is never in this case ([server_runs]).  Memory is assumed not to run out in the refinement theorems
    ([sim_faults s = []]); an allocation that fails is [exit(1)] in the model,
    as in the code.

    ** What is not modelled

    Test programs that are commented out.  The log of the server is a sequence of
    events: their texts are not written out, and the time and address in front of
    each are verified separately, in [PrintHelpers].  The texts that [perror] adds
    to its argument, the layout of the addresses of sockets, and the duration of
    [sleep] and [alarm] are left out.  The interleaving in [ServerRun] is
    sequentially consistent; a call on a thread's own connection is one step,
    since no other thread can see it.  Two places of [server.c] are outside of the C
    standard and are read as the usual implementations behave: [main] looks at
    [clients_now_count] without its mutex, a data race, which [accept] takes for one
    read of the value last written; and [clients_now_count_mutex] is never
    initialised ([main_thread_run] says which mutexes are), so that it is the free
    mutex only because static memory is zero.  The same holds of [count] in
    [thread2.c].  The sections under the mutex, or between the semaphores, of the
    producer-consumer programs are single steps, which the mutual exclusion proved of
    them justifies.  The calls of the operating system and of the C library are
    written out from their documentation where a program uses them ([mkdir], [recv],
    [strncpy] and the like).  The signal handler of the server is verified
    on its own ([ServerMain]) and does not take part in [ServerRun].  Threads that
    create no further threads are all that [LabThreads] has: there the failures of
    [pthread_create] and [sem_init] are arguments where the program tests them
    for its result, and are left out in [producer-consumer.c].  [%p], the numbers of
    processes and the output of [/bin/ls] are parameters.  Python scripts,
    headers without definitions, and answers to questions of the course are not
    programs in C.

    To be added: the signal handler as an interruption of a state of [ServerRun],
    and fairness of the producer-consumer programs. *)
From stdpp Require Import prelude.
#[global] Open Scope Z_scope.

(** ** The range of [int] *)
Notation INT_MIN := (-2147483648).
Notation INT_MAX := 2147483647.
Definition in_int (z : Z) : bool := (INT_MIN <=? z) && (z <=? INT_MAX).

Lemma in_int_spec z : in_int z = true ↔ INT_MIN ≤ z ≤ INT_MAX.
Proof. unfold in_int. rewrite andb_true_iff, !Z.leb_le. done. Qed.

(** ** Automation

    [chain]: facts about linked lists.  [mem]: the frames of the operations on
    the simulator's state.  [frame]: the functions that preserve a relation
    between the states before and after. *)
Create HintDb chain.
Create HintDb mem.
Create HintDb frame discriminated.

(** Laws of record updates: by cases on the record. *)
Ltac record_cases := by first [ intros [] | intros ? [] | intros ? ? [] ].

(** ** Lists *)

(** Overwriting the element after a prefix. *)
Lemma insert_mid {A} (l1 : list A) x y l2 : <[length l1 := x]> (l1 ++ y :: l2) = l1 ++ x :: l2.
Proof. rewrite <- (Nat.add_0_r (length l1)) at 1. by rewrite insert_app_r. Qed.

(** The last element, when there is one. *)
Lemma snoc_cases {A} (l : list A) : l = [] ∨ ∃ l' x, l = l' ++ [x].
Proof. destruct l as [|x l _] using rev_ind; eauto. Qed.

Lemma drop_S_tail {A} (l : list A) i x r : drop i l = x :: r → drop (S i) l = r.
Proof.
  intros Hd. change (S i) with (1 + i)%nat. rewrite Nat.add_comm, <- drop_drop, Hd. done.
Qed.

(** A sum over a list of which one element changes. *)
Lemma sum_list_with_insert {A} (f : A → nat) (l : list A) i x y :
  l !! i = Some x → (sum_list_with f (<[i := y]> l) + f x = sum_list_with f l + f y)%nat.
Proof.
  revert i. induction l as [|z l IH]; intros [|i] Hi; simplify_eq/=; [lia|]. specialize (IH i Hi). lia.
Qed.
