(* ===== verification/CMonad.v ===== *)
(** * CMonad: a shallow embedding of sequential C

    The sources are C.  An operation of the program is a Rocq function into the
    monad [C S A]: it takes the current program state [S] and either returns
    normally with a value and a new state, leaves the program through
    [exit(code)], runs into undefined behaviour (a NULL, dangling or
    uninitialised pointer is dereferenced, a signed operation overflows, an
    array is indexed out of bounds), or runs out of the fuel that bounds its
    loops.  The instances of stdpp's [MRet] and [MBind] give the notations
    [x <- m; k] and [m;; k].

    [wp m Q s] is total correctness: [m], started in [s], returns normally and
    its result and final state satisfy [Q].  It excludes [Exit], [UB] and
    [NoFuel] alike, so a theorem stated with [wp] also says that the code does
    terminate. *)
From stdpp Require Import prelude.
From S2P Require Import Prelude.

Inductive outcome (S A : Type) : Type :=
  | Ok (a : A) (s : S)
  | Exit (code : Z) (s : S)
  | UB
  | NoFuel.
Arguments Ok {S A} a s.
Arguments Exit {S A} code s.
Arguments UB {S A}.
Arguments NoFuel {S A}.

Definition C (S A : Type) : Type := S → outcome S A.

#[export] Instance C_ret {S} : MRet (C S) := λ A a s, Ok a s.

#[export] Instance C_bind {S} : MBind (C S) := λ A B f m s,
  match m s with
  | Ok a s' => f a s'
  | Exit c s' => Exit c s'
  | UB => UB
  | NoFuel => NoFuel
  end.

Definition ub {S A} : C S A := λ _, UB.
Definition exit {S A} (code : Z) : C S A := λ s, Exit code s.
Definition get {S A} (f : S → A) : C S A := λ s, Ok (f s) s.
Definition modify {S} (f : S → S) : C S () := λ s, Ok () (f s).

(** Signed arithmetic: the mathematical result when it fits in an [int],
    undefined behaviour otherwise. *)
Definition chk {S} (z : Z) : C S Z := if in_int z then mret z else ub.
Definition int_add {S} (x y : Z) : C S Z := chk (x + y).
Definition int_sub {S} (x y : Z) : C S Z := chk (x - y).
Definition int_mul {S} (x y : Z) : C S Z := chk (x * y).

(** [x / y] and [x % y]: truncating; undefined on a zero divisor and on the
    one quotient that does not fit. *)
Definition int_div {S} (x y : Z) : C S Z :=
  if bool_decide (y = 0) then ub else chk (Z.quot x y).
Definition int_rem {S} (x y : Z) : C S Z :=
  if bool_decide (y = 0) then ub else
  if in_int (Z.quot x y) then mret (Z.rem x y) else ub.

(** Loops.  [iter n body l] runs [body] on the loop variables [l] at most [n]
    times: [inl l'] goes round again, [inr r] is [break] with [r]. *)
Fixpoint iter {S L R} (n : nat) (body : L → C S (L + R)) (l : L) : C S R :=
  match n with
  | O => λ _, NoFuel
  | Datatypes.S n =>
      r ← body l;
      match r with
      | inl l' => iter n body l'
      | inr r => mret r
      end
  end.

#[global] Arguments iter : simpl never.

(** Running a sequence step by step. *)
Lemma run_bind {S A B} (m : C S A) (f : A → C S B) s a s' :
  m s = Ok a s' → (m ≫= f) s = f a s'.
Proof. intros Hm. unfold mbind, C_bind. by rewrite Hm. Qed.

Lemma run_bind_eq {S A B} (m : C S A) (f : A → C S B) s a s' r :
  m s = Ok a s' → f a s' = r → (m ≫= f) s = r.
Proof. intros Hm <-. by apply run_bind. Qed.

Lemma run_bind_ub {S A B} (m : C S A) (f : A → C S B) s :
  m s = UB → (m ≫= f) s = UB.
Proof. intros Hm. unfold mbind, C_bind. by rewrite Hm. Qed.

Lemma run_bind_nofuel {S A B} (m : C S A) (f : A → C S B) s :
  m s = NoFuel → (m ≫= f) s = NoFuel.
Proof. intros Hm. unfold mbind, C_bind. by rewrite Hm. Qed.

Lemma run_iter {S L R} n (body : L → C S (L + R)) l s l' s' :
  body l s = Ok (inl l') s' → iter (Datatypes.S n) body l s = iter n body l' s'.
Proof. intros Hb. exact (run_bind _ _ _ _ _ Hb). Qed.

Lemma run_iter_ub {S L R} n (body : L → C S (L + R)) l s :
  body l s = UB → iter (Datatypes.S n) body l s = UB.
Proof. intros Hb. exact (run_bind_ub _ _ _ Hb). Qed.

(** ** Total correctness *)
Definition wp {S A} (m : C S A) (Q : A → S → Prop) (s : S) : Prop :=
  match m s with Ok a s' => Q a s' | _ => False end.

#[global] Arguments wp : simpl never.

Section wp.
Context {S : Type}.
Implicit Types s : S.

Lemma wp_ret {A} (a : A) Q s : Q a s → wp (mret a) Q s.
Proof. done. Qed.

Lemma wp_bind {A B} (m : C S A) (f : A → C S B) Q s :
  wp m (λ a s', wp (f a) Q s') s → wp (m ≫= f) Q s.
Proof. unfold wp, mbind, C_bind. by destruct (m s). Qed.

Lemma wp_bind_inv {A B} (m : C S A) (f : A → C S B) Q s :
  wp (m ≫= f) Q s → wp m (λ a s', wp (f a) Q s') s.
Proof. unfold wp, mbind, C_bind. by destruct (m s). Qed.

(** Regrouping a sequence. *)
Lemma wp_bind_assoc {A B D} (m : C S A) (f : A → C S B) (g : B → C S D) Q s :
  wp ((m ≫= f) ≫= g) Q s → wp (m ≫= (λ a, f a ≫= g)) Q s.
Proof. unfold wp, mbind, C_bind. by destruct (m s). Qed.

Lemma wp_mono {A} (m : C S A) (P Q : A → S → Prop) s :
  wp m P s → (∀ a s', P a s' → Q a s') → wp m Q s.
Proof. unfold wp. destruct (m s); naive_solver. Qed.

Lemma wp_get {A} (f : S → A) Q s : Q (f s) s → wp (get f) Q s.
Proof. done. Qed.

Lemma wp_modify (f : S → S) Q s : Q () (f s) → wp (modify f) Q s.
Proof. done. Qed.

Lemma wp_chk z Q s : INT_MIN ≤ z ≤ INT_MAX → Q z s → wp (chk z) Q s.
Proof. intros Hz HQ. unfold chk. by rewrite (proj2 (in_int_spec z) Hz). Qed.

Lemma wp_run {A} (m : C S A) Q s :
  wp m Q s ↔ ∃ a s', m s = Ok a s' ∧ Q a s'.
Proof. unfold wp. destruct (m s); naive_solver. Qed.

(** The loop rule: an invariant indexed by a bound on the iterations left. *)
Lemma wp_iter_idx {L R} (I : nat → L → S → Prop)
    (body : L → C S (L + R)) (Q : R → S → Prop) n k l s :
  (∀ k l s, I k l s →
    wp (body l) (λ r s', match r with
      | inl l' => ∃ k', (k' < k)%nat ∧ I k' l' s'
      | inr r => Q r s' end) s) →
  I k l s → (k < n)%nat → wp (iter n body l) Q s.
Proof.
  intros Hbody. revert k l s. induction n as [|n IH]; intros k l s HI Hn; [lia|].
  cbn [iter]. apply wp_bind. eapply wp_mono; [by apply Hbody|].
  intros [l'|r] s'; simpl; [|done]. intros (k' & Hk & HI'). apply (IH k'); [done|lia].
Qed.

(** The same with the bound as a measure of the loop variables and state. *)
Lemma wp_iter {L R} (I : L → S → Prop) (μ : L → S → nat)
    (body : L → C S (L + R)) (Q : R → S → Prop) n l s :
  (∀ l s, I l s →
    wp (body l) (λ r s', match r with
      | inl l' => I l' s' ∧ (μ l' s' < μ l s)%nat
      | inr r => Q r s' end) s) →
  I l s → (μ l s < n)%nat → wp (iter n body l) Q s.
Proof.
  intros Hbody HI Hn.
  apply (wp_iter_idx (λ k l s, I l s ∧ k = μ l s)) with (k := μ l s); [|done..].
  intros k l' s' [HI' ->]. eapply wp_mono; [by apply Hbody|].
  intros [l''|r] s'' Hr; naive_solver.
Qed.
End wp.

(** A sequence in which the part after a normal return spends all the fuel. *)
Lemma nofuel_bind {S A B} (m : C S A) (f : A → C S B) s :
  wp m (λ a s', f a s' = NoFuel) s → (m ≫= f) s = NoFuel.
Proof. intros (a & s' & Hm & Hf)%wp_run. by rewrite (run_bind _ _ _ _ _ Hm). Qed.

(** ** Safety

    [safe m Q E s]: no run of [m] from [s] has undefined behaviour, [Q] holds
    when it returns and [E] when it leaves through [exit]. *)
Definition safe {S A} (m : C S A) (Q : A → S → Prop) (E : S → Prop) (s : S) : Prop :=
  match m s with
  | Ok a s' => Q a s'
  | Exit _ s' => E s'
  | UB => False
  | NoFuel => True
  end.

#[global] Arguments safe : simpl never.

Section safe.
Context {S : Type}.
Implicit Types s : S.

Lemma safe_wp {A} (m : C S A) Q E s : wp m Q s → safe m Q E s.
Proof. unfold wp, safe. by destruct (m s). Qed.

Lemma safe_ret {A} (a : A) (Q : A → S → Prop) E s : Q a s → safe (mret a) Q E s.
Proof. done. Qed.

Lemma safe_exit {A} z (Q : A → S → Prop) (E : S → Prop) s : E s → safe (exit z) Q E s.
Proof. done. Qed.

Lemma safe_bind {A B} (m : C S A) (f : A → C S B) Q E s :
  safe m (λ a s', safe (f a) Q E s') E s → safe (m ≫= f) Q E s.
Proof. unfold safe, mbind, C_bind. by destruct (m s). Qed.

Lemma safe_mono {A} (m : C S A) (P Q : A → S → Prop) E s :
  safe m P E s → (∀ a s', P a s' → Q a s') → safe m Q E s.
Proof. unfold safe. destruct (m s); naive_solver. Qed.

Lemma safe_conseq {A} (m : C S A) (P Q : A → S → Prop) (E E' : S → Prop) s :
  safe m P E s → (∀ a s', P a s' → Q a s') → (∀ s', E s' → E' s') → safe m Q E' s.
Proof. unfold safe. destruct (m s); naive_solver. Qed.

Lemma safe_iter {L R} (I : L → S → Prop) n (body : L → C S (L + R)) Q E l s :
  (∀ l s, I l s → safe (body l) (λ r s', match r with inl l' => I l' s' | inr r => Q r s' end) E s) →
  I l s → safe (iter n body l) Q E s.
Proof.
  intros Hb. revert l s. induction n as [|n IH]; intros l s HI; [done|].
  apply safe_bind. eapply safe_mono; [by apply Hb|]. intros [l'|r] s' Hr; [by apply IH|done].
Qed.
End safe.

(** ** Leaving the program

    [exits m E s]: [m], started in [s], leaves through [exit]; [E] holds of the
    code and the state. *)
Definition exits {S A} (m : C S A) (E : Z → S → Prop) (s : S) : Prop :=
  match m s with Exit c s' => E c s' | _ => False end.

#[global] Arguments exits : simpl never.

Section exits.
Context {S : Type}.
Implicit Types s : S.

Lemma exits_exit {A} z (E : Z → S → Prop) s : E z s → exits (exit z : C S A) E s.
Proof. done. Qed.

Lemma exits_bind {A B} (m : C S A) (f : A → C S B) E s : exits m E s → exits (m ≫= f) E s.
Proof. unfold exits, mbind, C_bind. by destruct (m s). Qed.

Lemma exits_after {A B} (m : C S A) (f : A → C S B) E s :
  wp m (λ a s', exits (f a) E s') s → exits (m ≫= f) E s.
Proof. unfold exits, wp, mbind, C_bind. by destruct (m s). Qed.

Lemma exits_mono {A} (m : C S A) (E E' : Z → S → Prop) s :
  exits m E s → (∀ c s', E c s' → E' c s') → exits m E' s.
Proof. unfold exits. destruct (m s); naive_solver. Qed.

Lemma safe_exits {A} (m : C S A) (Q : A → S → Prop) (E : S → Prop) s : exits m (λ _, E) s → safe m Q E s.
Proof. unfold exits, safe. by destruct (m s). Qed.
End exits.

(** One symbolic step of a [wp] goal. *)
Ltac wp_step :=
  match goal with
  | |- wp (mbind _ _) _ _ => apply wp_bind
  | |- wp (mret _) _ _ => apply wp_ret
  | |- wp (get _) _ _ => apply wp_get
  | |- wp (modify _) _ _ => apply wp_modify
  | |- wp (int_add _ _) _ _ => apply wp_chk; [try lia|]
  | |- wp (int_sub _ _) _ _ => apply wp_chk; [try lia|]
  | |- wp (int_mul _ _) _ _ => apply wp_chk; [try lia|]
  | |- wp (chk _) _ _ => apply wp_chk; [try lia|]
  end.
