(* ===== verification/Chain.v ===== *)
(** * Chain: typed heaps and singly linked lists

    Every structure of the program that grows is a singly linked list of
    [malloc]ed records.  A location is a positive, a pointer an optional
    location ([None] is NULL), and the state holds one finite map per C struct
    type; [HeapOf S T] is the interface through which an operation reaches the
    map of the structs [T] in the state [S].  A list node is its [next] pointer
    and its payload.

    [chain h p l q] is the representation predicate: following [next] from [p]
    in the heap [h] visits the locations and payloads of [l] and ends at [q].
    The loops of the sources that walk a list are instances of [scan] (with a
    [break] condition, keeping the previous node) and [walk] (a fold over the
    whole list). *)
From stdpp Require Import prelude gmap fin_maps.
From S2P Require Import Prelude CMonad.

Notation loc := positive.
Notation ptr := (option loc).
Notation NULL := (@None loc).

Record node (V : Type) : Type := Node { next : ptr; data : V }.
Arguments Node {V} next data.
Arguments next {V} n.
Arguments data {V} n.

(** The part of the state that holds the structs of type [T]. *)
Class HeapOf (S T : Type) := {
  heap : S → gmap loc T;
  set_heap : gmap loc T → S → S;
  heap_set_heap h s : heap (set_heap h s) = h;
  set_heap_set_heap h h' s : set_heap h (set_heap h' s) = set_heap h s;
  set_heap_heap s : set_heap (heap s) s = s
}.

(** Failures of [malloc]: the outcomes of the coming calls, [true] for NULL;
    every call after the last one listed succeeds. *)
Class MallocFaults (S : Type) := {
  faults : S → list bool;
  set_faults : list bool → S → S;
  set_faults_faults s : set_faults (faults s) s = s
}.

Section ops.
Context {S T : Type} `{HeapOf S T}.

Definition load (p : ptr) : C S T := λ s,
  match p with
  | Some l => match heap s !! l with Some v => Ok v s | None => UB end
  | None => UB
  end.

Definition store (p : ptr) (v : T) : C S () := λ s,
  match p with
  | Some l => match heap s !! l with
              | Some _ => Ok () (set_heap (<[l:=v]> (heap s)) s)
              | None => UB
              end
  | None => UB
  end.

(** [p->f = ...] *)
Definition update (p : ptr) (f : T → T) : C S () := v ← load p; store p (f v).

Definition fresh_loc (h : gmap loc T) : loc := fresh (dom h).

(** [malloc] of one struct, which the sources initialise at once (with [v]). *)
Definition malloc `{MallocFaults S} (v : T) : C S ptr := λ s,
  let s' := set_faults (tail (faults s)) s in
  match faults s with
  | true :: _ => Ok NULL s'
  | _ => let l := fresh_loc (heap s') in
         Ok (Some l) (set_heap (<[l:=v]> (heap s')) s')
  end.

(** [if (p == NULL) { perror(...); exit(1); }] *)
Definition malloc_or_exit `{MallocFaults S} (v : T) : C S loc :=
  p ← malloc v;
  match p with Some l => mret l | None => exit 1 end.

Definition free (p : ptr) : C S () := λ s,
  match p with
  | None => Ok () s
  | Some l => match heap s !! l with
              | Some _ => Ok () (set_heap (delete l (heap s)) s)
              | None => UB
              end
  end.
End ops.

Section node_ops.
Context {S V : Type} `{HeapOf S (node V)}.

Definition set_next (p q : ptr) : C S () := update p (λ n, Node q (data n)).
Definition set_data (p : ptr) (f : V → V) : C S () :=
  update p (λ n, Node (next n) (f (data n))).

(** Enough iterations to visit every node of the heap and leave the loop. *)
Definition list_fuel : C S nat := get (λ s, Datatypes.S (size (heap (T:=node V) s))).

(** [prev = NULL; curr = p;
     while (curr != NULL) { if (stop) break; prev = curr; curr = curr->next; }] *)
Definition scan (stop : V → bool) (p : ptr) : C S (ptr * ptr) :=
  n ← list_fuel;
  iter n (λ '(prev, curr),
    match curr with
    | None => mret (inr (prev, curr))
    | Some _ =>
        nd ← load curr;
        if stop (data nd) then mret (inr (prev, curr))
        else mret (inl (curr, next nd))
    end) (NULL, p).

(** [curr = p; while (curr != NULL) { body; curr = curr->next; }] *)
Definition walk {A} (f : A → loc → V → C S A) (a : A) (p : ptr) : C S A :=
  n ← list_fuel;
  iter n (λ '(a, curr),
    match curr with
    | None => mret (inr a)
    | Some c =>
        nd ← load curr;
        a' ← f a c (data nd);
        mret (inl (a', next nd))
    end) (a, p).
End node_ops.

(** ** The representation predicate *)
Section chain.
Context {V : Type}.
Implicit Types (h : gmap loc (node V)) (p q r : ptr) (l : list (loc * V)).

Fixpoint chain h p l q : Prop :=
  match l with
  | [] => p = q
  | (a, v) :: l' => p = Some a ∧ ∃ r, h !! a = Some (Node r v) ∧ chain h r l' q
  end.

Definition head_ptr l : ptr := fst <$> head l.
Definition last_ptr l : ptr := fst <$> last l.

Lemma chain_app h p l1 l2 q :
  chain h p (l1 ++ l2) q ↔ ∃ r, chain h p l1 r ∧ chain h r l2 q.
Proof.
  revert p. induction l1 as [|[a v] l1 IH]; intros p; simpl; [naive_solver|].
  setoid_rewrite IH. naive_solver.
Qed.

Lemma chain_head h p l : chain h p l NULL → p = head_ptr l.
Proof. destruct l as [|[a v] l]; simpl; naive_solver. Qed.

Lemma chain_lookup h p l q a v :
  chain h p l q → (a, v) ∈ l → ∃ r, h !! a = Some (Node r v).
Proof.
  revert p. induction l as [|[b w] l IH]; intros p Hc Hin; [by apply not_elem_of_nil in Hin|].
  destruct Hc as (-> & r & Hb & Hc). apply elem_of_cons in Hin as [Heq|Hin]; naive_solver.
Qed.

Lemma chain_det h p l l' : chain h p l NULL → chain h p l' NULL → l = l'.
Proof.
  revert p l'. induction l as [|[a v] l IH]; intros p [|[b w] l']; simpl; [naive_solver..|].
  intros (-> & r & Ha & Hc) (? & r' & Hb & Hc'). simplify_eq. f_equal; eauto.
Qed.

Lemma chain_NoDup h p l : chain h p l NULL → NoDup l.*1.
Proof.
  revert p. induction l as [|[a v] l IH]; intros p; simpl; [by constructor|].
  intros (-> & r & Ha & Hc). constructor; [|by eauto].
  intros ([? v'] & ? & Hin)%list_elem_of_fmap; simpl in *; subst.
  apply list_elem_of_split in Hin as (l1 & l2 & ->).
  pose proof Hc as Hc0. apply chain_app in Hc as (q & Hc1 & Hq & r' & Ha' & Hc2). subst.
  rewrite Ha in Ha'. simplify_eq.
  pose proof (chain_det _ _ _ _ Hc2 Hc0) as Hl.
  apply (f_equal length) in Hl. rewrite length_app in Hl. simpl in Hl. lia.
Qed.

Lemma chain_frame_insert h p l q a n :
  a ∉ l.*1 → chain (<[a:=n]> h) p l q ↔ chain h p l q.
Proof.
  revert p. induction l as [|[b w] l IH]; intros p Hn; simpl; [done|].
  rewrite fmap_cons, not_elem_of_cons in Hn. destruct Hn as [Hn1 Hn2].
  rewrite lookup_insert_ne by done. setoid_rewrite (IH _ Hn2). done.
Qed.

Lemma chain_agree h h' p l q :
  chain h p l q → (∀ a, a ∈ l.*1 → h' !! a = h !! a) → chain h' p l q.
Proof.
  revert p. induction l as [|[a v] l IH]; intros p; simpl; [done|].
  intros (-> & r & Ha & Hc) Hag. split; [done|]. exists r.
  rewrite Hag by set_solver. split; [done|]. apply IH; [done|]. set_solver.
Qed.

Lemma chain_frame_delete h p l q a :
  a ∉ l.*1 → chain (delete a h) p l q ↔ chain h p l q.
Proof.
  revert p. induction l as [|[b w] l IH]; intros p Hn; simpl; [done|].
  rewrite fmap_cons, not_elem_of_cons in Hn. destruct Hn as [Hn1 Hn2].
  rewrite lookup_delete_ne by done. setoid_rewrite (IH _ Hn2). done.
Qed.

Lemma chain_subset_size h p l : chain h p l NULL → (length l ≤ size h)%nat.
Proof.
  intros Hc. pose proof (chain_NoDup _ _ _ Hc) as Hnd.
  rewrite <- (length_fmap fst), <- (size_list_to_set (C:=gset loc) _ Hnd), <- size_dom.
  apply subseteq_size. intros a. rewrite elem_of_list_to_set, list_elem_of_fmap.
  intros ([a' v] & -> & Hin). apply elem_of_dom.
  destruct (chain_lookup _ _ _ _ _ _ Hc Hin); eauto.
Qed.

Lemma chain_not_in h p l q a : chain h p l q → h !! a = None → a ∉ l.*1.
Proof.
  intros Hc Ha ([a' v] & -> & Hin)%list_elem_of_fmap.
  destruct (chain_lookup _ _ _ _ _ _ Hc Hin). simpl in *. congruence.
Qed.

(** Splitting off the node at [a], with the two pointers around it. *)
Lemma chain_split h p l1 a v l2 :
  chain h p (l1 ++ (a, v) :: l2) NULL →
  chain h p l1 (Some a) ∧ h !! a = Some (Node (head_ptr l2) v) ∧
  chain h (head_ptr l2) l2 NULL.
Proof.
  intros (q & H1 & -> & r & Ha & H2)%chain_app.
  rewrite <- (chain_head _ _ _ H2). done.
Qed.

Lemma chain_NoDup_mid h p l1 a v l2 :
  chain h p (l1 ++ (a, v) :: l2) NULL → a ∉ l1.*1 ∧ a ∉ l2.*1.
Proof.
  intros Hc%chain_NoDup. rewrite fmap_app, fmap_cons in Hc. simpl in Hc.
  apply NoDup_app in Hc as (_ & Hd & Hc). apply NoDup_cons in Hc as [Hc _].
  split; [|done]. intros Ha. apply (Hd a Ha). by left.
Qed.

(** Writing the node at [a] in place. *)
Lemma chain_update h p l1 a v w l2 :
  chain h p (l1 ++ (a, v) :: l2) NULL →
  chain (<[a:=Node (head_ptr l2) w]> h) p (l1 ++ (a, w) :: l2) NULL.
Proof.
  intros Hc. pose proof (chain_NoDup_mid _ _ _ _ _ _ Hc) as [Hn1 Hn2].
  apply chain_split in Hc as (H1 & Ha & H2).
  apply chain_app. exists (Some a). rewrite chain_frame_insert by done. split; [done|].
  split; [done|]. exists (head_ptr l2). rewrite lookup_insert_eq, chain_frame_insert; done.
Qed.

(** Relinking the node at [a] to a list [l2'] already in place. *)
Lemma chain_relink h p l1 a v l2 q l2' :
  chain h p (l1 ++ (a, v) :: l2) NULL →
  chain h q l2' NULL → a ∉ l2'.*1 →
  chain (<[a:=Node q v]> h) p (l1 ++ (a, v) :: l2') NULL.
Proof.
  intros Hc Hq Hn. pose proof (chain_NoDup_mid _ _ _ _ _ _ Hc) as [Hn1 _].
  apply chain_split in Hc as (H1 & Ha & _).
  apply chain_app. exists (Some a). rewrite chain_frame_insert by done. split; [done|].
  split; [done|]. exists q. rewrite lookup_insert_eq, chain_frame_insert; done.
Qed.

(** Unlinking the node at [a]; its struct stays allocated, outside the list. *)
Lemma chain_unlink h p l1 b w a v l2 :
  chain h p (l1 ++ (b, w) :: (a, v) :: l2) NULL →
  chain (<[b:=Node (head_ptr l2) w]> h) p (l1 ++ (b, w) :: l2) NULL.
Proof.
  intros Hc. eapply chain_relink; [done| |].
  - apply chain_split in Hc as (_ & _ & Hc). destruct Hc as (_ & r & _ & Hc).
    by rewrite <- (chain_head _ _ _ Hc).
  - pose proof (chain_NoDup_mid _ _ _ _ _ _ Hc) as [_ Hn].
    rewrite fmap_cons, not_elem_of_cons in Hn. tauto.
Qed.

(** Inserting the struct [c], already linked to what follows, after [b]. *)
Lemma chain_insert_after h p l1 b w c v l2 :
  chain h p (l1 ++ (b, w) :: l2) NULL → h !! c = None →
  chain (<[b:=Node (Some c) w]> (<[c:=Node (head_ptr l2) v]> h)) p
    (l1 ++ (b, w) :: (c, v) :: l2) NULL.
Proof.
  intros Hc Hf. pose proof (chain_not_in _ _ _ _ _ Hc Hf) as Hn.
  pose proof (chain_NoDup_mid _ _ _ _ _ _ Hc) as [_ Hb2].
  rewrite fmap_app, fmap_cons, not_elem_of_app, not_elem_of_cons in Hn.
  destruct Hn as (Hn1 & Hnb & Hn2). simpl in *.
  eapply chain_relink with (l2 := l2).
  - apply chain_frame_insert; [|done].
    rewrite fmap_app, fmap_cons, not_elem_of_app, not_elem_of_cons. done.
  - split; [done|]. exists (head_ptr l2). rewrite lookup_insert_eq. split; [done|].
    apply chain_frame_insert; [done|]. apply chain_split in Hc. tauto.
  - rewrite fmap_cons, not_elem_of_cons. split; [by intros ->|done].
Qed.

Lemma last_ptr_snoc l a v : last_ptr (l ++ [(a, v)]) = Some a.
Proof. unfold last_ptr. by rewrite last_snoc. Qed.

Lemma last_ptr_Some l a :
  last_ptr l = Some a → ∃ l' v, l = l' ++ [(a, v)].
Proof.
  destruct l as [|[b w] l] using rev_ind; [done|].
  rewrite last_ptr_snoc. intros [= ->]. eauto.
Qed.
End chain.

#[export] Hint Resolve chain_NoDup chain_subset_size : chain.

Lemma fresh_loc_spec {T} (h : gmap loc T) : h !! fresh_loc h = None.
Proof. apply not_elem_of_dom. unfold fresh_loc. apply is_fresh. Qed.

(** ** Rules for the heap operations and the list loops *)
Section rules.
Context {S T : Type} `{HeapOf S T}.
Implicit Types s : S.

Lemma wp_load a v Q s : heap s !! a = Some v → Q v s → wp (load (Some a)) Q s.
Proof. intros Ha HQ. unfold wp, load. by rewrite Ha. Qed.

Lemma run_load a v s : heap s !! a = Some v → load (Some a) s = Ok v s.
Proof. intros Ha. unfold load. by rewrite Ha. Qed.

Lemma wp_store a v w Q s :
  heap s !! a = Some v → Q () (set_heap (<[a:=w]> (heap s)) s) →
  wp (store (Some a) w) Q s.
Proof. intros Ha HQ. unfold wp, store. by rewrite Ha. Qed.

Lemma wp_update a v f Q s :
  heap s !! a = Some v → Q () (set_heap (<[a:=f v]> (heap s)) s) →
  wp (update (Some a) f) Q s.
Proof.
  intros Ha HQ. apply wp_bind. eapply wp_load; [done|]. by eapply wp_store.
Qed.

(** Allocation when [malloc] does not fail. *)
Lemma wp_malloc `{MallocFaults S} v Q s :
  faults s = [] →
  (∀ l, heap s !! l = None → Q l (set_heap (<[l:=v]> (heap s)) s)) →
  wp (malloc_or_exit v) Q s.
Proof.
  intros Hf HQ. unfold wp, malloc_or_exit, malloc, mbind, C_bind. simpl. rewrite Hf. simpl.
  rewrite <- Hf, set_faults_faults. simpl. apply HQ. apply fresh_loc_spec.
Qed.

(** When it fails, the program prints an error and exits with status 1. *)
Lemma malloc_or_exit_fails `{MallocFaults S} v s f :
  faults s = true :: f → malloc_or_exit v s = Exit 1 (set_faults f s).
Proof. intros Hf. unfold malloc_or_exit, malloc, mbind, C_bind. by rewrite Hf. Qed.

Lemma wp_free a v Q s :
  heap s !! a = Some v → Q () (set_heap (delete a (heap s)) s) →
  wp (free (Some a)) Q s.
Proof. intros Ha HQ. unfold wp, free. by rewrite Ha. Qed.
End rules.

Section list_rules.
Context {S V : Type} `{HeapOf S (node V)}.
Implicit Types (s : S) (l : list (loc * V)).

Lemma wp_set_next a r v q Q s :
  heap s !! a = Some (Node r v) → Q () (set_heap (<[a:=Node q v]> (heap s)) s) →
  wp (set_next (V:=V) (Some a) q) Q s.
Proof. intros Ha HQ. by eapply wp_update. Qed.

Lemma wp_set_data a r v f Q s :
  heap s !! a = Some (Node r v) → Q () (set_heap (<[a:=Node r (f v)]> (heap s)) s) →
  wp (set_data (V:=V) (Some a) f) Q s.
Proof. intros Ha HQ. by eapply wp_update. Qed.

Lemma wp_scan stop p l Q s :
  chain (heap s) p l NULL →
  (∀ l1 a v l2, l = l1 ++ (a, v) :: l2 → Forall (λ x, stop x.2 = false) l1 →
     stop v = true → Q (last_ptr l1, Some a) s) →
  (Forall (λ x, stop x.2 = false) l → Q (last_ptr l, NULL) s) →
  wp (scan stop p) Q s.
Proof.
  intros Hc Hhit Hmiss. apply wp_bind, wp_get.
  apply (wp_iter_idx
    (λ k '(prev, curr) s', s' = s ∧ ∃ l1 l2, l = l1 ++ l2 ∧ prev = last_ptr l1 ∧
       k = length l2 ∧ chain (heap s) curr l2 NULL ∧
       Forall (λ x, stop x.2 = false) l1)) with (k := length l).
  - intros k [prev curr] s' (-> & l1 & l2 & -> & -> & -> & Hc2 & Hl1).
    destruct l2 as [|[a v] l2].
    { simpl in Hc2. subst. apply wp_ret. rewrite app_nil_r in *. auto. }
    destruct Hc2 as (-> & r & Ha & Hc2). apply wp_bind. eapply wp_load; [done|]. simpl.
    destruct (stop v) eqn:Hs; apply wp_ret; [by eapply Hhit|].
    exists (length l2). split; [simpl; lia|]. split; [done|].
    exists (l1 ++ [(a, v)]), l2. rewrite last_ptr_snoc, <- app_assoc.
    repeat split; [done|]. apply Forall_app; auto.
  - split; [done|]. by exists [], l.
  - pose proof (chain_subset_size _ _ _ Hc). lia.
Qed.

Lemma wp_walk {A} (f : A → loc → V → C S A) (I : list (loc * V) → A → S → Prop)
    a0 p l (Q : A → S → Prop) s :
  chain (heap s) p l NULL →
  (∀ l1 a v l2 acc s, l = l1 ++ (a, v) :: l2 → I l1 acc s →
     chain (heap s) (Some a) ((a, v) :: l2) NULL →
     wp (f acc a v) (λ acc' s', I (l1 ++ [(a, v)]) acc' s' ∧
                                chain (heap s') (head_ptr l2) l2 NULL) s) →
  I [] a0 s →
  (∀ acc s', I l acc s' → Q acc s') →
  wp (walk f a0 p) Q s.
Proof.
  intros Hc Hf HI HQ. apply wp_bind, wp_get.
  apply (wp_iter_idx
    (λ k '(acc, curr) s', ∃ l1 l2, l = l1 ++ l2 ∧ k = length l2 ∧
       chain (heap s') curr l2 NULL ∧ I l1 acc s')) with (k := length l).
  - intros k [acc curr] s' (l1 & l2 & -> & -> & Hc2 & HI1).
    destruct l2 as [|[a v] l2].
    { simpl in Hc2. subst. apply wp_ret, HQ. by rewrite app_nil_r. }
    pose proof Hc2 as (-> & r & Ha & Hc3). apply wp_bind. eapply wp_load; [done|]. simpl.
    apply wp_bind. eapply wp_mono; [by eapply Hf|]. simpl.
    intros acc' s'' [HI' Hc'']. apply wp_ret.
    exists (length l2). split; [simpl; lia|].
    exists (l1 ++ [(a, v)]), l2. rewrite <- app_assoc, (chain_head _ _ _ Hc3). done.
  - by exists [], l.
  - pose proof (chain_subset_size _ _ _ Hc). lia.
Qed.

(** A loop that only reads: the fold of [g] over the payloads. *)
Lemma wp_walk_fold {A} (f : A → loc → V → C S A) (g : A → V → A) a0 p l Q s :
  chain (heap s) p l NULL →
  (∀ l1 a v l2, l = l1 ++ (a, v) :: l2 →
     wp (f (foldl g a0 l1.*2) a v) (λ r s', s' = s ∧ r = g (foldl g a0 l1.*2) v) s) →
  Q (foldl g a0 l.*2) s →
  wp (walk f a0 p) Q s.
Proof.
  intros Hc Hf HQ.
  apply wp_walk with (I := λ l1 acc s', s' = s ∧ acc = foldl g a0 l1.*2) (l := l);
    [done| |done|by intros acc s' [-> ->]].
  intros l1 a v l2 acc s' Hsp [-> ->] (_ & r & Ha & Hc2).
  eapply wp_mono; [by eapply Hf|]. intros r' s' [-> ->].
  rewrite fmap_app, foldl_app. split; [done|]. by rewrite <- (chain_head _ _ _ Hc2).
Qed.
End list_rules.

(** ** A heap that holds exactly one list

    [owns h l]: the structs allocated in [h] are the nodes of the list [l], and
    nothing else: no node of the list is missing and none has leaked. *)
Section owns.
Context {V : Type}.
Implicit Types (h : gmap loc (node V)) (l : list (loc * V)).

Definition owns h l : Prop :=
  chain h (head_ptr l) l NULL ∧ dom h = (list_to_set l.*1 : gset loc).

Lemma head_ptr_mid l1 a v w l2 l2' :
  head_ptr (l1 ++ (a, v) :: l2) = head_ptr (V:=V) (l1 ++ (a, w) :: l2').
Proof. by destruct l1. Qed.

Lemma owns_lookup h l1 a v l2 :
  owns h (l1 ++ (a, v) :: l2) → h !! a = Some (Node (head_ptr l2) v).
Proof. intros [Hc _]. apply chain_split in Hc. tauto. Qed.

Lemma owns_NoDup h l : owns h l → NoDup l.*1.
Proof. intros [Hc _]. eauto with chain. Qed.

(** A node that has a predecessor is not the head. *)
Lemma chain_not_head h p l1 a v l2 :
  chain h p (l1 ++ (a, v) :: l2) NULL → l1 ≠ [] → Some a ≠ p.
Proof.
  intros Hc Hl1 <-. destruct (chain_NoDup_mid _ _ _ _ _ _ Hc) as [Hn _].
  destruct l1 as [|[b w] l1]; [done|]. destruct Hc as ([= ->] & _). simpl in Hn. set_solver.
Qed.

Lemma owns_empty : owns ∅ [].
Proof. split; [done|]. by rewrite dom_empty_L. Qed.

Lemma owns_fresh h l a : owns h l → a ∉ l.*1 ↔ h !! a = None.
Proof. intros [_ Hd]. rewrite <- not_elem_of_dom, Hd, elem_of_list_to_set. done. Qed.

Lemma owns_update h l1 a v w l2 :
  owns h (l1 ++ (a, v) :: l2) →
  owns (<[a:=Node (head_ptr l2) w]> h) (l1 ++ (a, w) :: l2).
Proof.
  intros [Hc Hd]. split.
  - rewrite (head_ptr_mid l1 a w v l2 l2). by apply chain_update with (v := v).
  - rewrite dom_insert_L, Hd, !fmap_app, !fmap_cons. set_solver.
Qed.

Lemma owns_push h c v l :
  h !! c = None → owns h l → owns (<[c:=Node (head_ptr l) v]> h) ((c, v) :: l).
Proof.
  intros Hf Ho. pose proof Ho as [Hc Hd]. split.
  - split; [done|]. exists (head_ptr l). rewrite lookup_insert_eq. split; [done|].
    apply chain_frame_insert; [|done]. by eapply owns_fresh.
  - rewrite dom_insert_L, Hd, fmap_cons. set_solver.
Qed.

Lemma owns_insert_after h l1 b w c v l2 :
  owns h (l1 ++ (b, w) :: l2) → h !! c = None →
  owns (<[b:=Node (Some c) w]> (<[c:=Node (head_ptr l2) v]> h))
    (l1 ++ (b, w) :: (c, v) :: l2).
Proof.
  intros [Hc Hd] Hf. split.
  - rewrite (head_ptr_mid l1 b w w _ l2). by apply chain_insert_after.
  - rewrite !dom_insert_L, Hd, !fmap_app, !fmap_cons. set_solver.
Qed.

Lemma owns_pop h a v l : owns h ((a, v) :: l) → owns (delete a h) l.
Proof.
  intros [(_ & r & Ha & Hc) Hd].
  pose proof (chain_not_in (delete a h) r l) as Hni.
  assert (Hn : a ∉ l.*1).
  { assert (Hnd : NoDup ((a, v) :: l).*1).
    { apply (chain_NoDup h (Some a)). split; [done|]. eauto. }
    by apply NoDup_cons in Hnd as [? _]. }
  rewrite (chain_head _ _ _ Hc) in Hc. split; [by apply chain_frame_delete|].
  rewrite dom_delete_L, Hd, fmap_cons. set_solver.
Qed.

Lemma owns_remove_after h l1 b w a v l2 :
  owns h (l1 ++ (b, w) :: (a, v) :: l2) →
  owns (delete a (<[b:=Node (head_ptr l2) w]> h)) (l1 ++ (b, w) :: l2).
Proof.
  intros Ho. pose proof (owns_NoDup _ _ Ho) as Hnd. destruct Ho as [Hc Hd].
  rewrite fmap_app, !fmap_cons in Hnd. simpl in Hnd.
  apply NoDup_app in Hnd as (_ & Hx & Hnd). apply NoDup_cons in Hnd as [Hb Hnd].
  apply NoDup_cons in Hnd as [Ha _].
  assert (Hn : a ∉ (l1 ++ (b, w) :: l2).*1).
  { rewrite fmap_app, fmap_cons, not_elem_of_app, not_elem_of_cons. simpl.
    repeat split; [|set_solver..]. intros Hin. apply (Hx a Hin). set_solver. }
  split.
  - apply chain_frame_delete; [done|]. rewrite (head_ptr_mid l1 b w w l2 ((a, v) :: l2)).
    by apply chain_unlink in Hc.
  - rewrite dom_delete_L, dom_insert_L, Hd. revert Hn.
    rewrite !fmap_app, !fmap_cons, !list_to_set_app_L. simpl. set_solver.
Qed.
End owns.

(** Freeing every node of a list that owns its heap leaves the heap empty. *)
Lemma wp_free_all {S V} `{HeapOf S (node V)} l (s : S) :
  owns (heap s) l →
  wp (walk (V:=V) (λ _ c _, free (T:=node V) (Some c)) () (head_ptr l))
    (λ _ s', s' = set_heap ∅ s) s.
Proof.
  intros Ho.
  eapply wp_walk with (I := λ l1 _ s', ∃ l2 h, l = l1 ++ l2 ∧ s' = set_heap h s ∧ owns h l2);
    [apply Ho| | |].
  - intros l1 a v l2 _ s' -> (l2' & h & Heq & -> & Ho') _.
    apply app_inv_head in Heq. subst l2'.
    eapply wp_free; [rewrite heap_set_heap; by eapply (owns_lookup _ [])|].
    rewrite !heap_set_heap, set_heap_set_heap. apply owns_pop in Ho'.
    split; [|apply Ho']. exists l2, (delete a h). by rewrite <- app_assoc.
  - exists l, (heap s). by rewrite set_heap_heap.
  - intros _ s' (l2 & h & Heq & -> & Ho').
    assert (l2 = []) as ->.
    { apply (f_equal length) in Heq. rewrite length_app in Heq. destruct l2; [done|]. simpl in Heq. lia. }
    destruct Ho' as [_ Hd]. by apply dom_empty_inv_L in Hd as ->.
Qed.

(** Freeing every node of one list among others. *)
Lemma wp_free_chain {S V} `{HeapOf S (node V)} l (s : S) :
  chain (heap s) (head_ptr l) l NULL →
  wp (walk (V:=V) (λ _ c _, free (T:=node V) (Some c)) () (head_ptr l))
    (λ _ s', ∃ h, s' = set_heap h s ∧ (∀ b, b ∉ l.*1 → h !! b = heap s !! b) ∧
       dom h = dom (heap s) ∖ list_to_set l.*1) s.
Proof.
  intros Hc.
  eapply wp_walk with (I := λ l1 _ s', ∃ h, s' = set_heap h s ∧
    (∀ b, b ∉ l1.*1 → h !! b = heap s !! b) ∧ dom h = dom (heap s) ∖ list_to_set l1.*1);
    [exact Hc| | |].
  - intros l1 a v l2 _ s' -> (h & -> & Hag & Hd) Hc2.
    pose proof (chain_NoDup_mid _ _ _ _ _ _ Hc) as [Hn1 Hn2].
    rewrite heap_set_heap in Hc2. destruct Hc2 as (_ & r & Ha & Hc2).
    eapply wp_free; [rewrite heap_set_heap; exact Ha|]. rewrite !heap_set_heap, set_heap_set_heap.
    split.
    + exists (delete a h). split; [done|]. rewrite fmap_app. split.
      * intros b Hb. simpl in Hb. rewrite lookup_delete_ne by set_solver. apply Hag. set_solver.
      * rewrite dom_delete_L, Hd, list_to_set_app_L. simpl. set_solver.
    + rewrite <- (chain_head _ _ _ Hc2). by apply chain_frame_delete.
  - exists (heap s). rewrite set_heap_heap. split; [done|]. split; [done|]. simpl. set_solver.
  - done.
Qed.
