(* ===== verification/State.v ===== *)
(** * State: the structs and the state of the scheduling simulator

    The struct declarations of [memory-management.h], [process-scheduler.h] and
    [process-data-file-parser.h], and [sim], the state of the running program:
    one typed heap per struct, the pending [malloc] failures, and the lines
    printed so far.  A struct with a [next] field is a [node] whose payload
    holds the other fields. *)
From stdpp Require Import prelude gmap.
From S2P Require Import Prelude CMonad Chain.

(** ** memory-management.h *)
Record segment := Seg { seg_start : Z; seg_size : Z }.
Notation free_memory_segment_t := (node segment).
Record free_memory_segments_list_t := FreeList { fl_head : ptr }.

Record process_memory := PM {
  pm_start : Z;
  pm_size : Z;
  pm_swap_in_time : Z;
  pm_process_id : Z
}.
Notation process_memory_t := (node process_memory).
Record process_memories_list_t := PMList { pml_head : ptr }.

(** ** process-scheduler.h *)
Inductive process_state_t := ready | running | terminated.

Record pcb := Pcb {
  pcb_process_id : Z;
  pcb_process_state : process_state_t;
  pcb_process_memory : ptr;
  pcb_priority : Z;
  pcb_job_time : Z;
  pcb_burst_time : Z;
  pcb_cpu_time : Z
}.
Notation process_control_block_t := (node pcb).
Record pcbs_queue_t := Queue { q_head : ptr }.

(** ** process-data-file-parser.h *)
Record scheduled_process_t := SP {
  sp_start_time : Z;
  sp_process_id : Z;
  sp_memory_size : Z;
  sp_job_time : Z
}.

(** ** Output: the arguments of the two [printf] calls of the simulation. *)
Inductive event :=
  | Status (time process_id numprocesses numholes memusage : Z)
  | Finished (time : Z).

(** An array of [scheduled_process_t*]: a cell is uninitialised ([None]) or holds
    a pointer. *)
Notation sp_array := (list (option ptr)).

(** ** The state of the program *)
Record sim := Sim {
  segs : gmap loc free_memory_segment_t;
  seg_lists : gmap loc free_memory_segments_list_t;
  pms : gmap loc process_memory_t;
  pm_lists : gmap loc process_memories_list_t;
  pcbs : gmap loc process_control_block_t;
  pcb_queues : gmap loc pcbs_queue_t;
  sps : gmap loc scheduled_process_t;
  sp_arrays : gmap loc sp_array;
  sim_faults : list bool;
  out : list event
}.

Definition set_segs x s :=
  Sim x (seg_lists s) (pms s) (pm_lists s) (pcbs s)
      (pcb_queues s) (sps s) (sp_arrays s) (sim_faults s) (out s).
Definition set_seg_lists x s :=
  Sim (segs s) x (pms s) (pm_lists s) (pcbs s)
      (pcb_queues s) (sps s) (sp_arrays s) (sim_faults s) (out s).
Definition set_pms x s :=
  Sim (segs s) (seg_lists s) x (pm_lists s) (pcbs s)
      (pcb_queues s) (sps s) (sp_arrays s) (sim_faults s) (out s).
Definition set_pm_lists x s :=
  Sim (segs s) (seg_lists s) (pms s) x (pcbs s)
      (pcb_queues s) (sps s) (sp_arrays s) (sim_faults s) (out s).
Definition set_pcbs x s :=
  Sim (segs s) (seg_lists s) (pms s) (pm_lists s) x
      (pcb_queues s) (sps s) (sp_arrays s) (sim_faults s) (out s).
Definition set_pcb_queues x s :=
  Sim (segs s) (seg_lists s) (pms s) (pm_lists s) (pcbs s)
      x (sps s) (sp_arrays s) (sim_faults s) (out s).
Definition set_sps x s :=
  Sim (segs s) (seg_lists s) (pms s) (pm_lists s) (pcbs s)
      (pcb_queues s) x (sp_arrays s) (sim_faults s) (out s).
Definition set_sp_arrays x s :=
  Sim (segs s) (seg_lists s) (pms s) (pm_lists s) (pcbs s)
      (pcb_queues s) (sps s) x (sim_faults s) (out s).
Definition set_sim_faults x s :=
  Sim (segs s) (seg_lists s) (pms s) (pm_lists s) (pcbs s)
      (pcb_queues s) (sps s) (sp_arrays s) x (out s).
Definition set_out x s :=
  Sim (segs s) (seg_lists s) (pms s) (pm_lists s) (pcbs s)
      (pcb_queues s) (sps s) (sp_arrays s) (sim_faults s) x.

(** The program starts with nothing allocated and nothing printed. *)
Definition init_sim (f : list bool) : sim := Sim ∅ ∅ ∅ ∅ ∅ ∅ ∅ ∅ f [].

#[export] Program Instance segs_heap : HeapOf sim free_memory_segment_t :=
  {| heap := segs; set_heap := set_segs |}.
Solve All Obligations with record_cases.
#[export] Program Instance seg_lists_heap : HeapOf sim free_memory_segments_list_t :=
  {| heap := seg_lists; set_heap := set_seg_lists |}.
Solve All Obligations with record_cases.
#[export] Program Instance pms_heap : HeapOf sim process_memory_t :=
  {| heap := pms; set_heap := set_pms |}.
Solve All Obligations with record_cases.
#[export] Program Instance pm_lists_heap : HeapOf sim process_memories_list_t :=
  {| heap := pm_lists; set_heap := set_pm_lists |}.
Solve All Obligations with record_cases.
#[export] Program Instance pcbs_heap : HeapOf sim process_control_block_t :=
  {| heap := pcbs; set_heap := set_pcbs |}.
Solve All Obligations with record_cases.
#[export] Program Instance pcb_queues_heap : HeapOf sim pcbs_queue_t :=
  {| heap := pcb_queues; set_heap := set_pcb_queues |}.
Solve All Obligations with record_cases.
#[export] Program Instance sps_heap : HeapOf sim scheduled_process_t :=
  {| heap := sps; set_heap := set_sps |}.
Solve All Obligations with record_cases.
#[export] Program Instance sp_arrays_heap : HeapOf sim sp_array :=
  {| heap := sp_arrays; set_heap := set_sp_arrays |}.
Solve All Obligations with record_cases.

#[export] Program Instance sim_malloc_faults : MallocFaults sim :=
  {| faults := sim_faults; set_faults := set_sim_faults |}.
Solve All Obligations with record_cases.
