(* ===== verification/MemoryManagement.v ===== *)
(** * MemoryManagement: memory-management.c

    Every function of [project1/memory-management.c] that takes part in the
    simulation, on the pointer structures of [State].  The free segments are a
    list sorted by descending start address; a segment or a process memory of
    start address [a] and size [n] occupies the addresses [a-n+1 .. a]. *)
From stdpp Require Import prelude gmap.
From S2P Require Import Prelude CMonad Chain State.

Definition IN_DISK : Z := -1.

(** Field assignments. *)
Definition set_seg_start a v := Seg a (seg_size v).
Definition set_seg_size n v := Seg (seg_start v) n.
Definition set_pm_start a v := PM a (pm_size v) (pm_swap_in_time v) (pm_process_id v).
Definition set_pm_swap_in_time t v := PM (pm_start v) (pm_size v) t (pm_process_id v).

(** [p->next = q] on a free segment and on a process memory. *)
Definition seg_set_next (p q : ptr) : C sim () := set_next (V:=segment) p q.
Definition pm_set_next (p q : ptr) : C sim () := set_next (V:=process_memory) p q.

Definition new_free_memory_segments_list (size : Z) : C sim loc :=
  mem_seg ← malloc_or_exit (T:=free_memory_segment_t) (Node NULL (Seg size size));
  malloc_or_exit (FreeList (Some mem_seg)).

Definition get_free_memory_segment_end_address (mem_seg : ptr) : C sim Z :=
  m ← load (T:=free_memory_segment_t) mem_seg;
  int_sub (seg_start (data m)) (seg_size (data m)).

Definition consolidate_free_memory_segments_list (mem_segs_list : loc) : C sim () :=
  hd ← load (T:=free_memory_segments_list_t) (Some mem_segs_list);
  n ← list_fuel (V:=segment);
  iter n (λ curr_mem_seg,
    match curr_mem_seg with
    | None => mret (inr ())
    | Some _ =>
        curr ← load (T:=free_memory_segment_t) curr_mem_seg;
        let next_mem_seg := next curr in
        match next_mem_seg with
        | None => mret (inr ())
        | Some _ =>
            curr_mem_seg_end_add ← get_free_memory_segment_end_address curr_mem_seg;
            nxt ← load (T:=free_memory_segment_t) next_mem_seg;
            if curr_mem_seg_end_add =? seg_start (data nxt) then
              seg_set_next curr_mem_seg (next nxt);;
              size ← int_add (seg_size (data curr)) (seg_size (data nxt));
              set_data curr_mem_seg (set_seg_size size);;
              free (T:=free_memory_segment_t) next_mem_seg;;
              mret (inl curr_mem_seg)
            else mret (inl next_mem_seg)
        end
    end) (fl_head hd).

Definition add_new_free_memory_segment_to_free_memory_segments_list
    (start_address size : Z) (mem_segs_list : loc) : C sim () :=
  mem_seg ← malloc_or_exit (T:=free_memory_segment_t) (Node NULL (Seg start_address size));
  hd ← load (T:=free_memory_segments_list_t) (Some mem_segs_list);
  (match fl_head hd with
   | None => store (Some mem_segs_list) (FreeList (Some mem_seg))
   | Some _ =>
       '(prev_mem_seg, curr_mem_seg) ←
         scan (V:=segment) (λ curr, seg_start curr <=? start_address) (fl_head hd);
       match curr_mem_seg with
       | Some _ =>
           if bool_decide (curr_mem_seg = fl_head hd) then
             store (Some mem_segs_list) (FreeList (Some mem_seg));;
             seg_set_next (Some mem_seg) curr_mem_seg
           else
             seg_set_next prev_mem_seg (Some mem_seg);;
             seg_set_next (Some mem_seg) curr_mem_seg
       | None =>
           seg_set_next prev_mem_seg (Some mem_seg);;
           seg_set_next (Some mem_seg) curr_mem_seg
       end
   end);;
  consolidate_free_memory_segments_list mem_segs_list.

Definition get_free_memory_segments_list_count (mem_segs_list : loc) : C sim Z :=
  hd ← load (T:=free_memory_segments_list_t) (Some mem_segs_list);
  walk (V:=segment) (λ count _ _, int_add count 1) 0 (fl_head hd).

Definition new_process_memories_list : C sim loc :=
  malloc_or_exit (T:=process_memories_list_t) (PMList NULL).

Definition new_process_memory (size process_id : Z) : C sim loc :=
  malloc_or_exit (T:=process_memory_t) (Node NULL (PM IN_DISK size 0 process_id)).

Definition add_process_memory_to_process_memories_list
    (new_proc_mem : ptr) (proc_mems_list : loc) : C sim () :=
  hd ← load (T:=process_memories_list_t) (Some proc_mems_list);
  match pml_head hd with
  | None => store (Some proc_mems_list) (PMList new_proc_mem)
  | Some _ =>
      '(curr_proc_mem, _) ← scan (V:=process_memory) (λ _, false) (pml_head hd);
      pm_set_next curr_proc_mem new_proc_mem
  end.

Definition add_new_process_memory_to_process_memories_list
    (size process_id : Z) (proc_mems_list : loc) : C sim () :=
  proc_mem ← new_process_memory size process_id;
  add_process_memory_to_process_memories_list (Some proc_mem) proc_mems_list.

Definition get_process_memory_end_address (proc_mem : ptr) : C sim Z :=
  m ← load (T:=process_memory_t) proc_mem;
  int_sub (pm_start (data m)) (pm_size (data m)).

(** The test of [is_process_memory_in_disk] on the struct's contents. *)
Definition in_disk (v : process_memory) : bool := pm_start v =? IN_DISK.

Definition is_process_memory_in_disk (proc_mem : ptr) : C sim bool :=
  m ← load (T:=process_memory_t) proc_mem;
  mret (in_disk (data m)).

Definition remove_process_memory_by_process_id
    (process_id : Z) (proc_mems_list mem_segs_list : loc) : C sim Z :=
  hd ← load (T:=process_memories_list_t) (Some proc_mems_list);
  '(prev_proc_mem, curr_proc_mem) ←
    scan (V:=process_memory) (λ c, pm_process_id c =? process_id) (pml_head hd);
  match curr_proc_mem with
  | None => mret 0
  | Some _ =>
      curr ← load (T:=process_memory_t) curr_proc_mem;
      (if bool_decide (curr_proc_mem = pml_head hd) then
         store (Some proc_mems_list) (PMList (next curr))
       else pm_set_next prev_proc_mem (next curr));;
      d ← is_process_memory_in_disk curr_proc_mem;
      (if negb d then
         add_new_free_memory_segment_to_free_memory_segments_list
           (pm_start (data curr)) (pm_size (data curr)) mem_segs_list
       else mret ());;
      free (T:=process_memory_t) curr_proc_mem;;
      mret 1
  end.

Definition get_process_memory_by_process_id
    (process_id : Z) (proc_mems_list : loc) : C sim ptr :=
  hd ← load (T:=process_memories_list_t) (Some proc_mems_list);
  '(_, proc_mem) ←
    scan (V:=process_memory) (λ c, pm_process_id c =? process_id) (pml_head hd);
  mret proc_mem.

(** [swap_out_proc_mem] is uninitialised when no process is in RAM; reading
    through it is undefined behaviour, as reading through NULL is here. *)
Definition swap_out_process_memory (proc_mems_list mem_segs_list : loc) : C sim () :=
  hd ← load (T:=process_memories_list_t) (Some proc_mems_list);
  '(_, proc_mem) ← scan (V:=process_memory) (λ c, negb (in_disk c)) (pml_head hd);
  swap_out_proc_mem ←
    walk (V:=process_memory) (λ swap_out_proc_mem c v,
      if negb (in_disk v) then
        best ← load (T:=process_memory_t) swap_out_proc_mem;
        if pm_size (data best) <? pm_size v then mret (Some c)
        else if (pm_size v =? pm_size (data best)) &&
                (pm_swap_in_time v <=? pm_swap_in_time (data best)) then mret (Some c)
        else mret swap_out_proc_mem
      else mret swap_out_proc_mem) proc_mem proc_mem;
  best ← load (T:=process_memory_t) swap_out_proc_mem;
  add_new_free_memory_segment_to_free_memory_segments_list
    (pm_start (data best)) (pm_size (data best)) mem_segs_list;;
  set_data swap_out_proc_mem (set_pm_start IN_DISK);;
  set_data swap_out_proc_mem (set_pm_swap_in_time 0).

(** Deleting a free segment that has become empty. *)
Definition delete_free_memory_segment (mem_segs_list : loc)
    (prev_mem_seg curr_mem_seg : ptr) : C sim () :=
  hd ← load (T:=free_memory_segments_list_t) (Some mem_segs_list);
  curr ← load (T:=free_memory_segment_t) curr_mem_seg;
  (if bool_decide (curr_mem_seg = fl_head hd) then
     store (Some mem_segs_list) (FreeList (next curr))
   else seg_set_next prev_mem_seg (next curr));;
  free (T:=free_memory_segment_t) curr_mem_seg.

(** The body of the [if] in the search loop of [swap_in_process_memory]: the
    process takes the top of the free segment, which shrinks or disappears. *)
Definition occupy_free_memory_segment (proc_mem : ptr) (time : Z) (mem_segs_list : loc)
    (prev_mem_seg curr_mem_seg : ptr) : C sim () :=
  curr ← load (T:=free_memory_segment_t) curr_mem_seg;
  set_data proc_mem (set_pm_start (seg_start (data curr)));;
  set_data proc_mem (set_pm_swap_in_time time);;
  end_add ← get_process_memory_end_address proc_mem;
  set_data curr_mem_seg (set_seg_start end_add);;
  pm ← load (T:=process_memory_t) proc_mem;
  size ← int_sub (seg_size (data curr)) (pm_size (data pm));
  set_data curr_mem_seg (set_seg_size size);;
  if size =? 0 then delete_free_memory_segment mem_segs_list prev_mem_seg curr_mem_seg
  else mret ().

Definition swap_in_process_memory
    (proc_mem : ptr) (time : Z) (proc_mems_list mem_segs_list : loc) : C sim () :=
  n ← list_fuel (V:=process_memory);
  iter n (λ _,
    d ← is_process_memory_in_disk proc_mem;
    if negb d then mret (inr ()) else
    pm ← load (T:=process_memory_t) proc_mem;
    hd ← load (T:=free_memory_segments_list_t) (Some mem_segs_list);
    '(prev_mem_seg, curr_mem_seg) ←
      scan (V:=segment) (λ c, pm_size (data pm) <=? seg_size c) (fl_head hd);
    match curr_mem_seg with
    | Some _ =>
        occupy_free_memory_segment proc_mem time mem_segs_list prev_mem_seg curr_mem_seg;;
        mret (inr ())
    | None =>
        swap_out_process_memory proc_mems_list mem_segs_list;;
        mret (inl ())
    end) ().

Definition swap_out_process_memory_by_process_memory
    (proc_mem : ptr) (mem_segs_list : loc) : C sim () :=
  d ← is_process_memory_in_disk proc_mem;
  if negb d then
    m ← load (T:=process_memory_t) proc_mem;
    add_new_free_memory_segment_to_free_memory_segments_list
      (pm_start (data m)) (pm_size (data m)) mem_segs_list;;
    set_data proc_mem (set_pm_start IN_DISK);;
    set_data proc_mem (set_pm_swap_in_time 0)
  else mret ().

Definition free_process_memories_list (proc_mems_list : ptr) : C sim () :=
  curr_proc_mem ←
    match proc_mems_list with
    | Some _ => hd ← load (T:=process_memories_list_t) proc_mems_list; mret (pml_head hd)
    | None => mret NULL
    end;
  walk (V:=process_memory) (λ _ c _, free (T:=process_memory_t) (Some c)) () curr_proc_mem;;
  free (T:=process_memories_list_t) proc_mems_list.

Definition free_free_memory_segments_list (mem_segs_list : ptr) : C sim () :=
  curr_mem_seg ←
    match mem_segs_list with
    | Some _ => hd ← load (T:=free_memory_segments_list_t) mem_segs_list; mret (fl_head hd)
    | None => mret NULL
    end;
  walk (V:=segment) (λ _ c _, free (T:=free_memory_segment_t) (Some c)) () curr_mem_seg;;
  free (T:=free_memory_segments_list_t) mem_segs_list.

Definition get_process_memories_list_not_in_disk_count (proc_mems_list : loc) : C sim Z :=
  hd ← load (T:=process_memories_list_t) (Some proc_mems_list);
  walk (V:=process_memory)
    (λ count _ v, if negb (in_disk v) then int_add count 1 else mret count)
    0 (pml_head hd).

Definition get_process_memories_list_not_in_disk_size (proc_mems_list : loc) : C sim Z :=
  hd ← load (T:=process_memories_list_t) (Some proc_mems_list);
  walk (V:=process_memory)
    (λ size _ v, if negb (in_disk v) then int_add size (pm_size v) else mret size)
    0 (pml_head hd).
