(* ===== verification/MemorySpec.v ===== *)
(** * MemorySpec: what the memory manager promises, on plain lists

    The abstract memory of the simulator is a list of free segments and a list
    of process memories.  This file gives the list-level counterpart of each
    pointer operation of [MemoryManagement] and the invariant [wf_mem] that the
    operations keep: the free segments are in descending order and maximally
    consolidated, and free segments and resident processes together tile the
    addresses [1 .. memsize], each address belonging to exactly one of them. *)
From stdpp Require Import prelude.
From S2P Require Import Prelude CMonad Chain State MemoryManagement.

Definition seg_end (v : segment) : Z := seg_start v - seg_size v.

(** ** Operations *)
Fixpoint insert_seg (v : segment) (l : list segment) : list segment :=
  match l with
  | [] => [v]
  | w :: l' => if seg_start w <=? seg_start v then v :: l else w :: insert_seg v l'
  end.

Fixpoint merge_from (c : segment) (l : list segment) : list segment :=
  match l with
  | [] => [c]
  | n :: l' =>
      if seg_end c =? seg_start n
      then merge_from (set_seg_size (seg_size c + seg_size n) c) l'
      else c :: merge_from n l'
  end.

Definition merge_segs (l : list segment) : list segment :=
  match l with [] => [] | c :: l' => merge_from c l' end.

Definition add_free (v : segment) (l : list segment) : list segment :=
  merge_segs (insert_seg v l).

(** First fit: what is left of the free list when [n] units are taken from the
    first segment that is large enough, and the address they start at. *)
Fixpoint take_fit (n : Z) (l : list segment) : option (Z * list segment) :=
  match l with
  | [] => None
  | c :: l' =>
      if n <=? seg_size c then
        Some (seg_start c,
              if seg_size c - n =? 0 then l' else Seg (seg_end (Seg (seg_start c) n)) (seg_size c - n) :: l')
      else prod_map id (cons c) <$> take_fit n l'
  end.

(** The process memory that is preferred for swapping out. *)
Definition better (v best : process_memory) : bool :=
  (pm_size best <? pm_size v) ||
  ((pm_size v =? pm_size best) && (pm_swap_in_time v <=? pm_swap_in_time best)).

Definition select_step (best : loc * process_memory) (x : loc * process_memory) :=
  if in_disk x.2 then best else if better x.2 best.2 then x else best.

Fixpoint victim (l : list (loc * process_memory)) : option (loc * process_memory) :=
  match l with
  | [] => None
  | x :: l' => if in_disk x.2 then victim l' else Some (foldl select_step x l)
  end.

Definition to_disk (v : process_memory) : process_memory :=
  set_pm_swap_in_time 0 (set_pm_start IN_DISK v).
Definition to_ram (a t : Z) (v : process_memory) : process_memory :=
  set_pm_swap_in_time t (set_pm_start a v).

(** ** The invariant *)

(** The addresses a process memory occupies. *)
Definition block_of (v : process_memory) : segment := Seg (pm_start v) (pm_size v).
Definition ram (l : list process_memory) : list segment :=
  block_of <$> filter (λ v, in_disk v = false) l.

Definition covers (a : Z) (v : segment) : Z :=
  if (seg_end v <? a) && (a <=? seg_start v) then 1 else 0.
Definition cov (a : Z) (l : list segment) : Z := foldr (λ v n, covers a v + n) 0 l.
Definition total (l : list segment) : Z := foldr (λ v n, seg_size v + n) 0 l.

Definition positive_sizes (l : list segment) : Prop := Forall (λ v, 0 < seg_size v) l.

(** Descending and non overlapping; [gapped]: also not adjacent. *)
Fixpoint descending (l : list segment) : Prop :=
  match l with
  | c :: (n :: _) as t => seg_start n ≤ seg_end c ∧ descending t
  | _ => True
  end.
Fixpoint gapped (l : list segment) : Prop :=
  match l with
  | c :: (n :: _) as t => seg_start n < seg_end c ∧ gapped t
  | _ => True
  end.

Record wf_mem (memsize : Z) (F : list segment) (P : list process_memory) : Prop := {
  wf_memsize : 0 < memsize ≤ INT_MAX;
  wf_positive : positive_sizes F;
  wf_gapped : gapped F;
  wf_sizes : Forall (λ v, 0 < pm_size v) P;
  wf_tiles a : cov a (F ++ ram P) = if (0 <? a) && (a <=? memsize) then 1 else 0;
  wf_total : total (F ++ ram P) = memsize
}.

(** ** Coverage and totals *)
Lemma cov_app a l1 l2 : cov a (l1 ++ l2) = cov a l1 + cov a l2.
Proof. unfold cov. induction l1; simpl; lia. Qed.

Lemma total_app l1 l2 : total (l1 ++ l2) = total l1 + total l2.
Proof. unfold total. induction l1; simpl; lia. Qed.

Lemma covers_bounds a v : 0 ≤ covers a v ≤ 1.
Proof. unfold covers. case_match; lia. Qed.

Lemma cov_nonneg a l : 0 ≤ cov a l.
Proof. unfold cov. induction l as [|v l IH]; simpl; [lia|]. pose proof (covers_bounds a v). lia. Qed.

Lemma covers_true a v : seg_end v < a ≤ seg_start v → covers a v = 1.
Proof. intros ?. unfold covers. case_match; [done|]. lia. Qed.

Lemma covers_pos a v : 0 < covers a v → seg_end v < a ≤ seg_start v.
Proof. unfold covers. case_match; lia. Qed.

Lemma cov_in a v l : v ∈ l → seg_end v < a ≤ seg_start v → 0 < cov a l.
Proof.
  intros Hin Ha. apply list_elem_of_split in Hin as (l1 & l2 & ->).
  rewrite cov_app. simpl. pose proof (cov_nonneg a l1). pose proof (cov_nonneg a l2).
  unfold cov at 2. simpl. fold (cov a l2). rewrite covers_true by done. lia.
Qed.

Lemma cov_elem a l : 0 < cov a l → ∃ v, v ∈ l ∧ seg_end v < a ≤ seg_start v.
Proof.
  unfold cov. induction l as [|v l IH]; simpl; [lia|]. intros Hc.
  destruct (decide (0 < covers a v)) as [Hv|Hv].
  - exists v. split; [by left|by apply covers_pos].
  - pose proof (covers_bounds a v). destruct IH as (w & ? & ?); [lia|].
    exists w. split; [by right|done].
Qed.

Lemma total_nonneg l : positive_sizes l → 0 ≤ total l.
Proof. unfold total. induction 1; simpl; lia. Qed.

(** These measures do not depend on the order of the blocks. *)
#[export] Instance cov_proper a : Proper ((≡ₚ) ==> (=)) (cov a).
Proof. unfold cov. induction 1; simpl; lia. Qed.
#[export] Instance total_proper : Proper ((≡ₚ) ==> (=)) total.
Proof. unfold total. induction 1; simpl; lia. Qed.
#[export] Instance positive_sizes_proper : Proper ((≡ₚ) ==> iff) positive_sizes.
Proof. intros l1 l2 Hl. unfold positive_sizes. by rewrite Hl. Qed.

(** ** Insertion and consolidation *)
Lemma insert_seg_cov a v l : cov a (insert_seg v l) = covers a v + cov a l.
Proof.
  unfold cov. induction l as [|w l IH]; simpl; [done|].
  case_match; simpl; [done|]. rewrite IH. lia.
Qed.

Lemma insert_seg_total v l : total (insert_seg v l) = seg_size v + total l.
Proof.
  unfold total. induction l as [|w l IH]; simpl; [done|].
  case_match; simpl; [done|]. rewrite IH. lia.
Qed.

Lemma insert_seg_positive v l :
  0 < seg_size v → positive_sizes l → positive_sizes (insert_seg v l).
Proof.
  intros Hv. induction 1 as [|w l Hw Hl IH]; simpl; [by repeat constructor|].
  case_match; repeat constructor; auto.
Qed.

Lemma gapped_descending l : gapped l → descending l.
Proof.
  induction l as [|c [|n l] IH]; simpl; [done..|]. intros [H1 H2].
  split; [lia|by apply IH].
Qed.

Lemma descending_cons c l :
  (∀ n, head l = Some n → seg_start n ≤ seg_end c) → descending l → descending (c :: l).
Proof. destruct l; simpl; auto. Qed.

Definition disjoint_from (v : segment) (l : list segment) : Prop :=
  Forall (λ w, seg_start v ≤ seg_end w ∨ seg_start w ≤ seg_end v) l.

Lemma insert_seg_descending v l :
  0 < seg_size v → positive_sizes l → disjoint_from v l →
  descending l → descending (insert_seg v l).
Proof.
  intros Hv. induction l as [|w l IH]; intros Hp Hd Hl; [done|].
  inversion Hp as [|?? Hw Hp']; inversion Hd as [|?? Hvw Hd']; subst.
  unfold seg_end in *. simpl. case_match.
  - split; [unfold seg_end; lia|done].
  - apply descending_cons; [|apply IH; [done..|by destruct l; [|destruct Hl]]].
    intros n. destruct l as [|x l]; simpl.
    + intros [= <-]. unfold seg_end. lia.
    + destruct Hl as [Hl _]. case_match; intros [= <-]; unfold seg_end in *; lia.
Qed.

Lemma merge_from_cov a c l :
  0 < seg_size c → positive_sizes l → cov a (merge_from c l) = covers a c + cov a l.
Proof.
  intros Hc Hl. revert c Hc. unfold cov. induction Hl as [|n l Hn Hl IH]; intros c Hc; simpl; [done|].
  case_match; simpl; rewrite IH; simpl; try lia.
  unfold covers, seg_end, set_seg_size in *. simpl. repeat case_match; lia.
Qed.

Lemma merge_from_total c l : total (merge_from c l) = seg_size c + total l.
Proof.
  revert c. unfold total. induction l as [|n l IH]; intros c; simpl; [done|].
  case_match; simpl; rewrite IH; simpl; lia.
Qed.

Lemma merge_from_positive c l :
  0 < seg_size c → positive_sizes l → positive_sizes (merge_from c l).
Proof.
  intros Hc Hl. revert c Hc. induction Hl as [|n l Hn Hl IH]; intros c Hc; simpl.
  - by repeat constructor.
  - case_match; [apply IH; simpl; lia|]. constructor; [done|]. by apply IH.
Qed.

(** The merged list starts where the first segment starts. *)
Lemma merge_from_head c l : ∃ d t, merge_from c l = d :: t ∧ seg_start d = seg_start c.
Proof.
  revert c. induction l as [|n l IH]; intros c; simpl; [eauto|].
  case_match; [|eauto]. destruct (IH (set_seg_size (seg_size c + seg_size n) c)) as (d & t & -> & Hd).
  eauto.
Qed.

Lemma merge_from_gapped c l : descending (c :: l) → gapped (merge_from c l).
Proof.
  revert c. induction l as [|n l IH]; intros c Hd; [done|].
  destruct Hd as [Hcn Hd]. cbn [merge_from]. destruct (Z.eqb_spec (seg_end c) (seg_start n)).
  - apply IH. destruct l as [|x l]; [done|]. destruct Hd as [Hd1 Hd2].
    split; [|done]. unfold seg_end, set_seg_size in *. simpl. lia.
  - specialize (IH n Hd). destruct (merge_from_head n l) as (d & t & Hm & Hs).
    rewrite Hm in *. simpl in *. split; [|done]. rewrite Hs. lia.
Qed.

Lemma add_free_cov a v l :
  0 < seg_size v → positive_sizes l → cov a (add_free v l) = covers a v + cov a l.
Proof.
  intros Hv Hl. pose proof (insert_seg_positive v l Hv Hl) as Hp.
  pose proof (insert_seg_cov a v l) as Hc. unfold add_free.
  destruct (insert_seg v l) as [|c t]; [done|]. inversion Hp; subst.
  simpl. by rewrite merge_from_cov.
Qed.

Lemma add_free_total v l : total (add_free v l) = seg_size v + total l.
Proof.
  pose proof (insert_seg_total v l) as Hc. unfold add_free.
  destruct (insert_seg v l) as [|c t]; [done|]. simpl. by rewrite merge_from_total.
Qed.

Lemma add_free_positive v l :
  0 < seg_size v → positive_sizes l → positive_sizes (add_free v l).
Proof.
  intros Hv Hl. pose proof (insert_seg_positive v l Hv Hl) as Hp. unfold add_free.
  destruct (insert_seg v l) as [|c t]; [done|]. inversion Hp; subst.
  by apply merge_from_positive.
Qed.

Lemma add_free_gapped v l :
  0 < seg_size v → positive_sizes l → disjoint_from v l → gapped l →
  gapped (add_free v l).
Proof.
  intros Hv Hl Hd Hg. unfold add_free.
  pose proof (insert_seg_descending v l Hv Hl Hd (gapped_descending _ Hg)) as Hi.
  destruct (insert_seg v l) as [|c t]; [done|]. by apply merge_from_gapped.
Qed.

(** ** First fit *)
Lemma take_fit_cov b n l a l' :
  0 < n → positive_sizes l → take_fit n l = Some (a, l') →
  covers b (Seg a n) + cov b l' = cov b l.
Proof.
  intros Hn Hl. revert a l'. induction Hl as [|c l Hc Hl IH]; intros a l'; simpl; [done|].
  destruct (Z.leb_spec n (seg_size c)).
  - intros [= <- <-]. case_match; unfold cov, covers, seg_end; simpl; repeat case_match; lia.
  - destruct (take_fit n l) as [[a0 l0]|]; simpl; [|done]. intros [= <- <-].
    specialize (IH _ _ eq_refl). unfold cov in *. simpl. unfold id. lia.
Qed.

Lemma take_fit_total n l a l' : take_fit n l = Some (a, l') → n + total l' = total l.
Proof.
  revert a l'. induction l as [|c l IH]; intros a l'; simpl; [done|].
  destruct (Z.leb_spec n (seg_size c)).
  - intros [= <- <-]. case_match; unfold total; simpl; lia.
  - destruct (take_fit n l) as [[a0 l0]|]; simpl; [|done]. intros [= <- <-].
    specialize (IH _ _ eq_refl). unfold total in *. simpl. lia.
Qed.

Lemma take_fit_positive n l a l' :
  positive_sizes l → take_fit n l = Some (a, l') → positive_sizes l'.
Proof.
  intros Hl. revert a l'. induction Hl as [|c l Hc Hl IH]; intros a l'; simpl; [done|].
  destruct (Z.leb_spec n (seg_size c)).
  - intros [= <- <-]. case_match; [done|]. constructor; [simpl; lia|done].
  - destruct (take_fit n l) as [[a0 l0]|]; simpl; [|done]. intros [= <- <-].
    constructor; [done|by eapply IH].
Qed.

Lemma gapped_tail c l : gapped (c :: l) → gapped l.
Proof. destruct l; simpl; [done|tauto]. Qed.

Lemma gapped_cons c l :
  (∀ n, head l = Some n → seg_start n < seg_end c) → gapped l → gapped (c :: l).
Proof. destruct l; simpl; auto. Qed.

Lemma gapped_head_lt c n l : gapped (c :: n :: l) → seg_start n < seg_end c.
Proof. simpl. tauto. Qed.

(** What first fit leaves starts no higher than before. *)
Lemma take_fit_head n l a l' x :
  0 < n → positive_sizes l → gapped l → take_fit n l = Some (a, l') → head l' = Some x →
  ∃ y, head l = Some y ∧ seg_start x ≤ seg_start y.
Proof.
  intros Hn Hl Hg. destruct l as [|c l]; simpl; [done|]. inversion Hl; subst.
  destruct (Z.leb_spec n (seg_size c)).
  - intros [= <- <-]. exists c. split; [done|]. case_match eqn:E.
    + destruct l as [|d l]; simplify_eq/=. destruct Hg. unfold seg_end in *. lia.
    + simplify_eq/=. unfold seg_end. simpl. lia.
  - destruct (take_fit n l) as [[a0 l0]|]; simpl; [|done]. intros [= <- <-] [= <-].
    exists c. split; [done|lia].
Qed.

Lemma take_fit_gapped n l a l' :
  0 < n → positive_sizes l → gapped l → take_fit n l = Some (a, l') → gapped l'.
Proof.
  intros Hn Hl. revert a l'. induction Hl as [|c l Hc Hl IH]; intros a l' Hg; simpl; [done|].
  destruct (Z.leb_spec n (seg_size c)).
  - intros [= <- <-]. destruct (Z.eqb_spec (seg_size c - n) 0); [by eapply gapped_tail|].
    destruct l as [|d l]; [done|]. destruct Hg. split; [|done]. unfold seg_end in *. simpl. lia.
  - destruct (take_fit n l) as [[a0 l0]|] eqn:E; simpl; [|done]. intros [= <- <-].
    apply gapped_cons; [|eapply IH; [by eapply gapped_tail|done]].
    intros x Hx. destruct (take_fit_head _ _ _ _ _ Hn Hl (gapped_tail _ _ Hg) E Hx) as (y & Hy & ?).
    destruct l as [|d l]; simplify_eq/=. destruct Hg. lia.
Qed.

Lemma take_fit_None n l : take_fit n l = None ↔ Forall (λ c, seg_size c < n) l.
Proof.
  induction l as [|c l IH]; simpl; [split; auto|].
  rewrite Forall_cons, <- IH. destruct (Z.leb_spec n (seg_size c)); [split; [done|lia]|].
  destruct (take_fit n l) as [[]|]; simpl; split; naive_solver.
Qed.

Lemma take_fit_elem n l a l' :
  take_fit n l = Some (a, l') → ∃ c, c ∈ l ∧ a = seg_start c ∧ n ≤ seg_size c.
Proof.
  revert a l'. induction l as [|c l IH]; intros a l'; simpl; [done|].
  destruct (Z.leb_spec n (seg_size c)).
  - intros [= <- <-]. exists c. split; [by left|done].
  - destruct (take_fit n l) as [[a0 l0]|]; simpl; [|done]. intros [= <- <-].
    destruct (IH _ _ eq_refl) as (c' & ? & ?). exists c'. split; [by right|done].
Qed.

(** ** Preservation of the invariant *)
Lemma ram_app P1 P2 : ram (P1 ++ P2) = ram P1 ++ ram P2.
Proof. unfold ram. by rewrite filter_app, fmap_app. Qed.

Lemma ram_cons v P : ram (v :: P) = (if in_disk v then [] else [block_of v]) ++ ram P.
Proof. unfold ram. rewrite filter_cons. by destruct (in_disk v). Qed.

Lemma ram_mid P1 v P2 :
  ram (P1 ++ v :: P2) = ram P1 ++ (if in_disk v then [] else [block_of v]) ++ ram P2.
Proof. by rewrite ram_app, ram_cons. Qed.

Lemma ram_positive P : Forall (λ v, 0 < pm_size v) P → positive_sizes (ram P).
Proof.
  induction 1 as [|v P Hv HP IH]; [constructor|]. rewrite ram_cons.
  apply Forall_app. split; [|done]. by destruct (in_disk v); repeat constructor.
Qed.

Lemma cov_cons a v l : cov a (v :: l) = covers a v + cov a l.
Proof. done. Qed.
Lemma total_cons v l : total (v :: l) = seg_size v + total l.
Proof. done. Qed.
Lemma cov_nil a : cov a [] = 0.
Proof. done. Qed.
Lemma total_nil : total [] = 0.
Proof. done. Qed.
#[export] Hint Rewrite ram_mid ram_app cov_app total_app cov_cons total_cons
  cov_nil total_nil app_nil_l : mem.

Section wf.
Context {memsize : Z} {F : list segment} {P : list process_memory}.
Context (Hwf : wf_mem memsize F P).

Lemma wf_all_positive : positive_sizes (F ++ ram P).
Proof. apply Forall_app. split; [apply Hwf|apply ram_positive, Hwf]. Qed.

Lemma wf_bounds v : v ∈ F ++ ram P → 0 ≤ seg_end v ∧ seg_start v ≤ memsize.
Proof.
  intros Hin. pose proof (proj1 (Forall_forall _ _) wf_all_positive v Hin) as Hv.
  pose proof (cov_in (seg_start v) v _ Hin) as H1.
  pose proof (cov_in (seg_end v + 1) v _ Hin) as H2.
  rewrite !(wf_tiles _ _ _ Hwf) in *. unfold seg_end in *. simpl in *.
  repeat case_match; lia.
Qed.

Lemma wf_total_le l : (∃ l', F ++ ram P ≡ₚ l ++ l') → total l ≤ memsize.
Proof.
  intros [l' Hl]. rewrite <- (wf_total _ _ _ Hwf).
  rewrite Hl, total_app.
  pose proof wf_all_positive as Hpos. rewrite Hl in Hpos. apply Forall_app in Hpos as [_ Hpos].
  pose proof (total_nonneg _ Hpos). lia.
Qed.

(** Two different blocks of the tiling do not overlap. *)
Lemma wf_disjoint v l1 l2 : F ++ ram P = l1 ++ v :: l2 → disjoint_from v (l1 ++ l2).
Proof.
  intros Heq. apply Forall_forall. intros w Hw.
  pose proof wf_all_positive as Hpos. rewrite Heq in Hpos.
  assert (Hw' : w ∈ l1 ++ v :: l2) by set_solver.
  pose proof (proj1 (Forall_forall _ _) Hpos w Hw') as Hw0.
  pose proof (proj1 (Forall_forall _ _) Hpos v ltac:(set_solver)) as Hv0.
  destruct (decide (seg_start v ≤ seg_end w ∨ seg_start w ≤ seg_end v)) as [|Hn]; [done|].
  exfalso. set (a := Z.min (seg_start v) (seg_start w)).
  pose proof (wf_tiles _ _ _ Hwf a) as Ht. rewrite Heq in Ht.
  assert (H1 : 0 < cov a (l1 ++ l2)).
  { apply (cov_in _ w); [done|]. unfold a, seg_end in *. simpl in *. lia. }
  assert (H2 : covers a v = 1).
  { apply covers_true. unfold a, seg_end in *. simpl in *. lia. }
  rewrite cov_app in H1, Ht. rewrite cov_cons in Ht. case_match; lia.
Qed.

Lemma wf_add_process size pid :
  0 < size → wf_mem memsize F (P ++ [PM IN_DISK size 0 pid]).
Proof.
  intros Hs. destruct Hwf as [Hm Hp Hg Hz Ht Hs']. constructor; [done..|apply Forall_app; auto| |].
  - intros a. rewrite <- Ht, ram_app. by rewrite app_nil_r.
  - rewrite <- Hs', ram_app. by rewrite app_nil_r.
Qed.

(** With no process in RAM all of memory is one free segment. *)
Lemma wf_no_ram : ram P = [] → F = [Seg memsize memsize].
Proof.
  intros Hr. pose proof wf_bounds as Hb. rewrite Hr, app_nil_r in Hb.
  destruct Hwf as [Hm Hp Hg _ Ht _]. rewrite Hr, app_nil_r in Ht.
  destruct F as [|c l] eqn:EF.
  { specialize (Ht memsize). rewrite cov_nil in Ht. case_match; [done|lia]. }
  assert (Hlow : ∀ x t, gapped (x :: t) → positive_sizes t →
            ∀ w, w ∈ t → seg_start w < seg_end x).
  { intros x t. revert x. induction t as [|y t IH]; intros x Hgx Hpt w Hw; [set_solver|].
    destruct Hgx as [Hxy Hyt].
    inversion Hpt; subst. apply elem_of_cons in Hw as [->|Hw]; [done|].
    specialize (IH y Hyt ltac:(done) w Hw). unfold seg_end in *. lia. }
  inversion Hp as [|?? Hc Hpl]; subst. specialize (Hlow c l Hg Hpl).
  pose proof (Hb c ltac:(set_solver)) as [Hc1 Hc2].
  assert (Hend : seg_end c = 0).
  { destruct (decide (seg_end c = 0)) as [|Hn]; [done|]. exfalso.
    destruct (cov_elem (seg_end c) (c :: l)) as (w & Hw & Hw').
    { rewrite Ht. unfold seg_end in *. case_match; lia. }
    apply elem_of_cons in Hw as [->|Hw]; [lia|]. specialize (Hlow w Hw). lia. }
  assert (l = []) as ->.
  { destruct l as [|d l]; [done|]. pose proof (Hb d ltac:(set_solver)).
    specialize (Hlow d ltac:(set_solver)). inversion Hpl; subst. unfold seg_end in *. lia. }
  destruct (cov_elem memsize [c]) as (w & Hw & Hw').
  { rewrite Ht. case_match; lia. }
  apply list_elem_of_singleton in Hw as ->. destruct c as [a n]. unfold seg_end in *. simpl in *.
  f_equal. f_equal; lia.
Qed.
End wf.

Lemma wf_init memsize : 0 < memsize ≤ INT_MAX → wf_mem memsize [Seg memsize memsize] [].
Proof.
  intros Hm. constructor; [done|repeat constructor; simpl; lia|done|constructor| |].
  - intros a. simpl. unfold cov, covers, seg_end. simpl. repeat case_match; lia.
  - unfold total. simpl. lia.
Qed.

(** Giving back the memory of a resident process, by swapping it out or by
    deleting it. *)
Lemma wf_release memsize F P1 v P2 l :
  wf_mem memsize F (P1 ++ v :: P2) → in_disk v = false →
  ram l = [] → Forall (λ w, 0 < pm_size w) l →
  wf_mem memsize (add_free (block_of v) F) (P1 ++ l ++ P2).
Proof.
  intros Hwf Hd Hl Hlp. pose proof Hwf as [Hm Hp Hg Hz Ht Hs].
  apply Forall_app in Hz as [Hz1 Hz2]. apply Forall_cons in Hz2 as [Hv Hz3].
  rewrite ram_mid, Hd in Hs. setoid_rewrite ram_mid in Ht. rewrite Hd in Ht.
  constructor; [done|by apply add_free_positive| |rewrite !Forall_app; done| |].
  - apply add_free_gapped; [done..| |done].
    pose proof (wf_disjoint Hwf (block_of v) (F ++ ram P1) (ram P2)) as Hdis.
    rewrite ram_mid, Hd in Hdis. specialize (Hdis ltac:(by rewrite <- app_assoc)).
    unfold disjoint_from in *. rewrite !Forall_app in Hdis. tauto.
  - intros a. rewrite !ram_app, Hl, <- Ht. autorewrite with mem.
    rewrite add_free_cov by done. lia.
  - rewrite !ram_app, Hl, <- Hs. autorewrite with mem. rewrite add_free_total. lia.
Qed.

Lemma in_disk_to_disk v : in_disk (to_disk v) = true.
Proof. done. Qed.

Lemma wf_swap_out memsize F P1 v P2 :
  wf_mem memsize F (P1 ++ v :: P2) → in_disk v = false →
  wf_mem memsize (add_free (block_of v) F) (P1 ++ to_disk v :: P2).
Proof.
  intros Hwf Hd. apply (wf_release _ _ _ _ _ [to_disk v]); [done..|].
  pose proof (wf_sizes _ _ _ Hwf) as Hz. rewrite Forall_app, Forall_cons in Hz.
  constructor; [|constructor]. apply Hz.
Qed.

Lemma wf_swap_in memsize F P1 v P2 a t F' :
  wf_mem memsize F (P1 ++ v :: P2) → in_disk v = true →
  take_fit (pm_size v) F = Some (a, F') →
  wf_mem memsize F' (P1 ++ to_ram a t v :: P2) ∧ in_disk (to_ram a t v) = false.
Proof.
  intros Hwf Hd Hfit. pose proof Hwf as [Hm Hp Hg Hz Ht Hs].
  apply Forall_app in Hz as [Hz1 Hz2]. apply Forall_cons in Hz2 as [Hv Hz3].
  assert (Hram : in_disk (to_ram a t v) = false).
  { destruct (take_fit_elem _ _ _ _ Hfit) as (c & Hc & -> & Hle).
    pose proof (wf_bounds Hwf c ltac:(set_solver)) as [Hb _].
    unfold in_disk, seg_end, IN_DISK in *. simpl. lia. }
  split; [|done].
  rewrite ram_mid, Hd in Hs. setoid_rewrite ram_mid in Ht. rewrite Hd in Ht.
  constructor; [done|by eapply take_fit_positive|by eapply take_fit_gapped| | |].
  - apply Forall_app; split; [done|]. by constructor.
  - intros b. rewrite ram_mid, Hram, <- Ht. autorewrite with mem.
    rewrite <- (take_fit_cov b _ _ _ _ Hv Hp Hfit). unfold block_of. simpl. lia.
  - rewrite ram_mid, Hram, <- Hs. autorewrite with mem.
    rewrite <- (take_fit_total _ _ _ _ Hfit). unfold block_of. simpl. lia.
Qed.

(** ** The choice of the process to swap out *)

(** [v] is at least as good a victim as [w]: larger, or of the same size and
    swapped in no later. *)
Definition dominates (v w : process_memory) : Prop :=
  pm_size w < pm_size v ∨
  (pm_size w = pm_size v ∧ pm_swap_in_time v ≤ pm_swap_in_time w).

Lemma better_spec v w : better v w = true → dominates v w.
Proof. unfold better, dominates. lia. Qed.
Lemma better_false v w : better v w = false → dominates w v.
Proof. unfold better, dominates. lia. Qed.
Lemma dominates_trans u v w : dominates u v → dominates v w → dominates u w.
Proof. unfold dominates. lia. Qed.
Lemma dominates_refl v : dominates v v.
Proof. unfold dominates. lia. Qed.

Lemma foldl_select_spec x l :
  in_disk x.2 = false →
  let y := foldl select_step x l in
  y ∈ x :: l ∧ in_disk y.2 = false ∧ dominates y.2 x.2 ∧
  ∀ z, z ∈ l → in_disk z.2 = false → dominates y.2 z.2.
Proof.
  revert x. induction l as [|z l IH]; intros x Hx; simpl.
  { split; [by left|]. split; [done|]. split; [apply dominates_refl|].
    by intros z Hz%not_elem_of_nil. }
  assert (Hs : in_disk (select_step x z).2 = false ∧ dominates (select_step x z).2 x.2 ∧
               (in_disk z.2 = false → dominates (select_step x z).2 z.2) ∧
               (select_step x z = x ∨ select_step x z = z)).
  { unfold select_step. destruct (in_disk z.2) eqn:Hz.
    - repeat split; [done|apply dominates_refl|done|by left].
    - destruct (better z.2 x.2) eqn:Hb; [apply better_spec in Hb|apply better_false in Hb];
        repeat split; auto using dominates_refl. }
  destruct Hs as (Hd & Hsx & Hsz & Hor). destruct (IH _ Hd) as (Hin & Hd' & Hdom & Hall).
  rewrite !elem_of_cons in *.
  split; [destruct Hin as [->|?]; [destruct Hor as [-> | ->]|]; auto|].
  split; [done|]. split; [by eapply dominates_trans|].
  intros z' [->|Hz']%elem_of_cons Hd0; [|by apply Hall]. eapply dominates_trans; eauto.
Qed.

Lemma victim_None l : victim l = None ↔ Forall (λ x, in_disk x.2 = true) l.
Proof.
  induction l as [|x l IH]; simpl; [split; auto|]. rewrite Forall_cons, <- IH.
  destruct (in_disk x.2); naive_solver.
Qed.

Lemma victim_Some l y :
  victim l = Some y →
  y ∈ l ∧ in_disk y.2 = false ∧ ∀ z, z ∈ l → in_disk z.2 = false → dominates y.2 z.2.
Proof.
  induction l as [|x l IH]; simpl; [done|]. destruct (in_disk x.2) eqn:Hx.
  - intros Hv. destruct (IH Hv) as (? & ? & Hall). split; [by right|]. split; [done|].
    intros z [->|Hz]%elem_of_cons Hd; [congruence|by apply Hall].
  - assert (Hxx : select_step x x = x).
    { unfold select_step. rewrite Hx. by destruct (better x.2 x.2). }
    rewrite Hxx. intros [= <-].
    destruct (foldl_select_spec x l Hx) as (? & ? & ? & Hall). split; [done|]. split; [done|].
    intros z [->|Hz]%elem_of_cons Hd; [done|by apply Hall].
Qed.

(** ** Swapping in: evict until first fit succeeds *)

(** [make_room n F P b F' P']: to place [n] units, the processes chosen by
    [victim] are swapped out one after the other until first fit succeeds, at
    address [b]; [F'] and [P'] are the lists after that. *)
Inductive make_room (n : Z) : list segment → list (loc * process_memory) →
    Z → list segment → list (loc * process_memory) → Prop :=
  | room_fit F P b F' :
      take_fit n F = Some (b, F') → make_room n F P b F' P
  | room_evict F P1 c w P2 b F' P' :
      take_fit n F = None →
      victim (P1 ++ (c, w) :: P2) = Some (c, w) →
      make_room n (add_free (block_of w) F) (P1 ++ (c, to_disk w) :: P2) b F' P' →
      make_room n F (P1 ++ (c, w) :: P2) b F' P'.

(** What may happen to a process memory while another one is swapped in. *)
Definition evicted (x y : loc * process_memory) : Prop :=
  y = x ∨ (in_disk x.2 = false ∧ y = (x.1, to_disk x.2)).

#[export] Instance evicted_preorder : PreOrder evicted.
Proof.
  split; [by left|]. intros x y z [->|[Hx ->]] [->|[Hy ->]]; [by left|by right|by right|].
  simpl in Hy. by rewrite in_disk_to_disk in Hy.
Qed.

Lemma make_room_evicted n F P b F' P' : make_room n F P b F' P' → Forall2 evicted P P'.
Proof.
  induction 1 as [|F P1 c w P2 b F' P' Hf Hv _ IH]; [reflexivity|].
  transitivity (P1 ++ (c, to_disk w) :: P2); [|done].
  apply Forall2_app; [reflexivity|]. constructor; [|reflexivity].
  right. apply victim_Some in Hv. simpl in *. tauto.
Qed.

(** Nobody is swapped out when there is already a hole that is large enough. *)
Lemma make_room_fit n F P b F' P' b0 F0 :
  make_room n F P b F' P' → take_fit n F = Some (b0, F0) → b = b0 ∧ F' = F0 ∧ P' = P.
Proof. destruct 1; intros; simplify_eq; done. Qed.

Lemma make_room_wf memsize n F P b F' P' :
  make_room n F P b F' P' → wf_mem memsize F P.*2 →
  ∃ G, wf_mem memsize G P'.*2 ∧ take_fit n G = Some (b, F').
Proof.
  induction 1 as [|F P1 c w P2 b F' P' Hf Hv _ IH]; intros Hwf; [eauto|].
  apply IH. rewrite !fmap_app, !fmap_cons in *. apply wf_swap_out; [done|].
  apply victim_Some in Hv. simpl in *. tauto.
Qed.

(** Room can always be made for a process no larger than the memory. *)
Lemma ram_count_victim P :
  victim P = None → ram P.*2 = [].
Proof.
  intros Hv%victim_None. induction Hv as [|x P Hx HP IH]; [done|].
  rewrite fmap_cons, ram_cons, Hx, IH. done.
Qed.

Lemma take_fit_split n l1 c l2 :
  Forall (λ x, (n <=? seg_size x) = false) l1 → (n <=? seg_size c) = true →
  take_fit n (l1 ++ c :: l2) =
    Some (seg_start c, l1 ++ if seg_size c - n =? 0 then l2
                             else Seg (seg_start c - n) (seg_size c - n) :: l2).
Proof.
  intros H1 Hc. induction H1 as [|x l1 Hx H1 IH]; simpl; [by rewrite Hc|].
  by rewrite Hx, IH.
Qed.

Lemma take_fit_none n l :
  Forall (λ x, (n <=? seg_size x) = false) l → take_fit n l = None.
Proof.
  intros H. apply take_fit_None. eapply Forall_impl; [done|]. simpl. lia.
Qed.
