(* ===== verification/MemoryRefine.v ===== *)
(** * MemoryRefine: the pointer code implements the list specification

    Each function of [MemoryManagement], run on a heap that represents the
    abstract lists, terminates without undefined behaviour and leaves a heap
    that represents the lists that [MemorySpec] computes; and the invariant of
    the memory manager is kept. *)
From stdpp Require Import prelude gmap.
From S2P Require Import Prelude CMonad Chain State MemoryManagement MemorySpec.

(** [s'] differs from [s] in the free list only. *)
Definition seg_frame (s s' : sim) : Prop :=
  ∃ h hl, s' = set_seg_lists hl (set_segs h s).

#[export] Instance seg_frame_preorder : PreOrder seg_frame.
Proof.
  split.
  - intros s. exists (segs s), (seg_lists s). by destruct s.
  - intros s1 s2 s3 (h & hl & ->) (h' & hl' & ->). by exists h', hl'.
Qed.

Lemma seg_frame_set_segs h s s' : seg_frame s s' → seg_frame s (set_segs h s').
Proof. intros (h0 & hl & ->). by exists h, hl. Qed.
Lemma seg_frame_set_seg_lists hl s s' : seg_frame s s' → seg_frame s (set_seg_lists hl s').
Proof. intros (h0 & hl0 & ->). by exists h0, hl. Qed.
Lemma seg_frame_refl s : seg_frame s s.
Proof. reflexivity. Qed.
#[export] Hint Resolve seg_frame_set_segs seg_frame_set_seg_lists seg_frame_refl : mem.

Definition free_rep (fl : loc) (l : list (loc * segment)) (s : sim) : Prop :=
  seg_lists s !! fl = Some (FreeList (head_ptr l)) ∧ owns (segs s) l.

Definition pm_rep (pl : loc) (l : list (loc * process_memory)) (s : sim) : Prop :=
  pm_lists s !! pl = Some (PMList (head_ptr l)) ∧ owns (pms s) l.

(** The sums and differences the list code computes stay in range. *)
Definition segs_fit (l : list segment) : Prop :=
  Forall (λ v, 0 ≤ seg_start v ≤ INT_MAX ∧ 0 ≤ seg_size v) l ∧ total l ≤ INT_MAX.

Lemma segs_fit_mid l1 c l2 :
  segs_fit (l1 ++ c :: l2) →
  INT_MIN ≤ seg_start c - seg_size c ≤ INT_MAX ∧ 0 ≤ seg_size c ∧
  seg_size c + total l2 ≤ INT_MAX ∧ 0 ≤ total l2.
Proof.
  assert (Hnn : ∀ l, Forall (λ v, 0 ≤ seg_start v ≤ INT_MAX ∧ 0 ≤ seg_size v) l → 0 ≤ total l).
  { unfold total. induction 1; simpl in *; lia. }
  intros [HF HT]. rewrite total_app, total_cons in HT.
  apply Forall_app in HF as [H1 H2]. apply Forall_cons in H2 as [Hc H2].
  pose proof (Hnn _ H1). pose proof (Hnn _ H2). lia.
Qed.

Lemma segs_fit_two l1 c n l2 :
  segs_fit (l1 ++ c :: n :: l2) → INT_MIN ≤ seg_size c + seg_size n ≤ INT_MAX.
Proof.
  intros Hf. pose proof (segs_fit_mid _ _ _ Hf). rewrite cons_middle, app_assoc in Hf.
  pose proof (segs_fit_mid _ _ _ Hf). rewrite total_cons in *. lia.
Qed.

Lemma segs_fit_merge l1 c n l2 :
  segs_fit (l1 ++ c :: n :: l2) →
  segs_fit (l1 ++ set_seg_size (seg_size c + seg_size n) c :: l2).
Proof.
  unfold segs_fit. rewrite !total_app, !total_cons, !Forall_app, !Forall_cons. simpl.
  intuition lia.
Qed.

Lemma wp_get_free_memory_segment_end_address fl l1 a c l2 Q s :
  free_rep fl (l1 ++ (a, c) :: l2) s → INT_MIN ≤ seg_start c - seg_size c ≤ INT_MAX →
  Q (seg_end c) s → wp (get_free_memory_segment_end_address (Some a)) Q s.
Proof.
  intros [_ Ho] Hb HQ. apply wp_bind. eapply wp_load; [by eapply owns_lookup|]. by wp_step.
Qed.

(** ** Consolidation *)

(** The effect of merging the node [b] into its predecessor [a]. *)
Lemma owns_merge h l1 a c b (n c' : segment) l2 :
  owns h (l1 ++ (a, c) :: (b, n) :: l2) →
  owns (delete b (<[a:=Node (head_ptr l2) c']> h)) (l1 ++ (a, c') :: l2).
Proof.
  intros Ho. apply owns_update with (w := c') in Ho.
  apply owns_remove_after in Ho. by rewrite insert_insert_eq in Ho.
Qed.

Lemma owns_lookup_next {V} (h : gmap loc (node V)) l1 a c b n l2 :
  owns h (l1 ++ (a, c) :: (b, n) :: l2) →
  h !! b = Some (Node (head_ptr l2) n) ∧ a ≠ b.
Proof.
  intros Ho. pose proof (owns_NoDup _ _ Ho) as Hnd.
  rewrite cons_middle, app_assoc in Ho. split; [by eapply owns_lookup|].
  rewrite fmap_app, !fmap_cons in Hnd. apply NoDup_app in Hnd as (_ & _ & Hnd).
  apply NoDup_cons in Hnd as [Hnd _]. simpl in *. set_solver.
Qed.

Lemma wp_consolidate fl l s :
  free_rep fl l s → segs_fit l.*2 →
  wp (consolidate_free_memory_segments_list fl)
    (λ _ s', seg_frame s s' ∧ ∃ l', free_rep fl l' s' ∧ l'.*2 = merge_segs l.*2) s.
Proof.
  intros Hrep Hfit. apply wp_bind. eapply wp_load; [apply Hrep|]. apply wp_bind, wp_get. simpl.
  destruct l as [|[a0 c0] l0].
  { apply wp_bind, wp_ret, wp_ret. split; [reflexivity|]. by exists []. }
  apply (wp_iter_idx (λ k curr s', seg_frame s s' ∧ ∃ l1 a c l2,
     curr = Some a ∧ k = length l2 ∧ free_rep fl (l1 ++ (a, c) :: l2) s' ∧
     segs_fit (l1.*2 ++ c :: l2.*2) ∧
     l1.*2 ++ merge_from c l2.*2 = merge_segs ((a0, c0) :: l0).*2)) with (k := length l0).
  - intros k curr s' (Hfr & l1 & a & c & l2 & -> & -> & Hr & Hf & Hm).
    pose proof Hr as [Hh Ho]. apply wp_bind.
    eapply wp_load; [by eapply owns_lookup|]. cbn [next].
    destruct l2 as [|[b n] l2]; simpl head_ptr; cbn iota beta.
    { apply wp_ret. split; [done|]. exists (l1 ++ [(a, c)]). split; [done|].
      by rewrite fmap_app. }
    rewrite fmap_cons in Hf, Hm. pose proof (segs_fit_mid _ _ _ Hf) as (Hb1 & _).
    destruct (owns_lookup_next _ _ _ _ _ _ _ Ho) as [Hb Hab].
    apply wp_bind. eapply wp_get_free_memory_segment_end_address; [done..|].
    apply wp_bind. eapply wp_load; [done|]. cbn [data next].
    cbn [merge_from] in Hm. simpl snd in Hm.
    destruct (Z.eqb_spec (seg_end c) (seg_start n)) as [E|E].
    + apply wp_bind. eapply wp_set_next; [by eapply (owns_lookup _ _ _ _ ((b, n) :: l2))|].
      apply wp_bind, wp_chk; [by eapply segs_fit_two|].
      apply wp_bind. eapply wp_set_data; [apply lookup_insert_eq|].
      apply wp_bind. eapply wp_free.
      { simpl. rewrite !lookup_insert_ne; done. }
      apply wp_ret. exists (length l2). split; [simpl; lia|].
      split; [simpl; auto with mem|].
      exists l1, a, (set_seg_size (seg_size c + seg_size n) c), l2.
      split; [done|]. split; [done|]. split; [|by apply segs_fit_merge in Hf].
      split; simpl; [by rewrite (head_ptr_mid l1 a _ c l2 ((b, n) :: l2))|].
      rewrite insert_insert_eq. by eapply owns_merge.
    + apply wp_ret. exists (length l2). split; [simpl; lia|]. split; [done|].
      exists (l1 ++ [(a, c)]), b, n, l2. rewrite fmap_app, <- !app_assoc. done.
  - split; [reflexivity|]. by exists [], a0, c0, l0.
  - pose proof (chain_subset_size _ _ _ (proj1 (proj2 Hrep))) as Hs. simpl in Hs. lia.
Qed.

(** ** Insertion of a freed segment *)
Lemma insert_seg_split v l1 l2 :
  Forall (λ w, (seg_start w <=? seg_start v) = false) l1 →
  (∀ w, head l2 = Some w → (seg_start w <=? seg_start v) = true) →
  insert_seg v (l1 ++ l2) = l1 ++ v :: l2.
Proof.
  intros H1 H2. induction H1 as [|w l1 Hw H1 IH]; simpl.
  - destruct l2 as [|w l2]; [done|]. simpl. by rewrite H2.
  - by rewrite Hw, IH.
Qed.

(** Linking the new node [m] after [b], as the two assignments do it. *)
Lemma owns_link h l1 b w m (v0 v : segment) l2 :
  h !! m = None → owns h (l1 ++ (b, w) :: l2) →
  owns (<[m:=Node (head_ptr l2) v]> (<[b:=Node (Some m) w]> (<[m:=Node NULL v0]> h)))
    (l1 ++ (b, w) :: (m, v) :: l2).
Proof.
  intros Hm Ho. pose proof (owns_lookup _ _ _ _ _ Ho) as Hb.
  rewrite (insert_insert_ne _ m b) by (intros ->; congruence). rewrite insert_insert_eq.
  by apply owns_insert_after.
Qed.

Lemma wp_link_after fl l1 b w m v l2 (l : list (loc * segment)) s0 s :
  segs s = <[m:=Node NULL v]> (segs s0) → segs s0 !! m = None →
  seg_lists s !! fl = Some (FreeList (head_ptr (l1 ++ (b, w) :: l2))) →
  owns (segs s0) (l1 ++ (b, w) :: l2) → seg_frame s0 s →
  insert_seg v l.*2 = (l1 ++ (b, w) :: (m, v) :: l2).*2 →
  wp (seg_set_next (Some b) (Some m);; seg_set_next (Some m) (head_ptr l2))
    (λ _ s', seg_frame s0 s' ∧ ∃ l', free_rep fl l' s' ∧ l'.*2 = insert_seg v l.*2) s.
Proof.
  intros Hs Hm Hfl Ho Hfr Hl. pose proof (owns_lookup _ _ _ _ _ Ho) as Hb.
  assert (Hne : m ≠ b) by (intros ->; congruence).
  apply wp_bind. eapply wp_set_next.
  { simpl. rewrite Hs, lookup_insert_ne; done. }
  eapply wp_set_next; simpl; rewrite Hs.
  { rewrite lookup_insert_ne by done. apply lookup_insert_eq. }
  split; [auto with mem|]. exists (l1 ++ (b, w) :: (m, v) :: l2). split; [|done].
  split; simpl; [by rewrite (head_ptr_mid l1 b _ w _ l2)|]. by apply owns_link.
Qed.

Lemma wp_add_free fl l a n s :
  free_rep fl l s → sim_faults s = [] → segs_fit (Seg a n :: l.*2) →
  wp (add_new_free_memory_segment_to_free_memory_segments_list a n fl)
    (λ _ s', seg_frame s s' ∧ ∃ l', free_rep fl l' s' ∧ l'.*2 = add_free (Seg a n) l.*2) s.
Proof.
  intros [Hfl Ho] Hft Hfit. apply wp_bind, wp_malloc; [done|]. intros m Hm.
  set (v := Seg a n) in *. simpl in Hm.
  apply wp_bind. eapply wp_load; [exact Hfl|]. apply wp_bind. cbn [fl_head].
  eapply wp_mono with (P := λ _ s', seg_frame s s' ∧ ∃ l', free_rep fl l' s' ∧
    l'.*2 = insert_seg v l.*2); last first.
  { intros _ s1 (Hfr & l1 & Hr1 & Hl1). eapply wp_mono; [apply wp_consolidate; [exact Hr1|]|].
    - rewrite Hl1. destruct Hfit as [HF HT]. split.
      + apply Forall_cons in HF as [Hv HF]. clear -Hv HF. induction HF; simpl; [by constructor|].
        case_match; repeat constructor; auto; apply H || apply Hv.
      + by rewrite insert_seg_total.
    - intros _ s2 (Hfr2 & l2 & Hr2 & Hl2). split; [by etrans|]. exists l2.
      split; [done|]. by rewrite Hl2, Hl1. }
  destruct (head_ptr l) as [p0|] eqn:Eh; cbn iota; last first.
  { destruct l; [|done]. eapply wp_store; [exact Hfl|]. split; [simpl; auto with mem|]. exists [(m, v)].
    split; [|done]. split; [apply lookup_insert_eq|]. by apply (owns_push (segs s) m v []). }
  rewrite <- Eh in Hfl |- *.
  apply wp_bind. eapply wp_scan.
  { simpl. apply chain_frame_insert; [by eapply owns_fresh|]. apply Ho. }
  - intros l1 a1 c1 l2 Hsp Hl1 Hc1. rewrite Hsp in *.
    destruct l1 as [|[b w] l1 _] using rev_ind.
    + rewrite bool_decide_true by done. apply wp_bind. eapply wp_store; [exact Hfl|].
      eapply wp_set_next; [apply lookup_insert_eq|]. split; [simpl; auto with mem|].
      exists ((m, v) :: (a1, c1) :: l2). split.
      * split; simpl; [apply lookup_insert_eq|]. rewrite insert_insert_eq. by apply owns_push.
      * simpl. by rewrite Hc1.
    + rewrite bool_decide_false.
      { rewrite last_ptr_snoc.
        apply wp_link_after with (l1 := l1) (w := w) (v := v) (l2 := (a1, c1) :: l2);
          [done|done|by rewrite <- app_assoc in Hfl|by rewrite <- app_assoc in Ho|simpl; auto with mem|].
        rewrite (fmap_app _ (l1 ++ [(b, w)])), insert_seg_split.
        - by rewrite !fmap_app, <- app_assoc.
        - by apply Forall_fmap.
        - simpl. by intros ? [= <-]. }
      eapply chain_not_head; [apply Ho|by destruct l1].
  - intros Hl. destruct l as [|[b w] l1 _] using rev_ind; [done|].
    rewrite last_ptr_snoc.
    apply wp_link_after with (l1 := l1) (w := w) (v := v) (l2 := []);
      [done..|simpl; auto with mem|].
    rewrite <- (app_nil_r (l1 ++ [(b, w)]).*2), insert_seg_split; [|by apply Forall_fmap|done].
    by rewrite !fmap_app, <- app_assoc.
Qed.

(** ** The memory manager as a whole *)
Record mm_rep (fl pl : loc) (F : list (loc * segment)) (P : list (loc * process_memory))
    (s : sim) : Prop := {
  mm_free : free_rep fl F s;
  mm_pms : pm_rep pl P s;
  mm_faults : sim_faults s = []
}.

(** [s'] differs from [s] in the free list and the process memories only. *)
Definition mm_frame (s s' : sim) : Prop :=
  ∃ h hl hp hpl, s' = set_pm_lists hpl (set_pms hp (set_seg_lists hl (set_segs h s))).

#[export] Instance mm_frame_preorder : PreOrder mm_frame.
Proof.
  split.
  - intros s. exists (segs s), (seg_lists s), (pms s), (pm_lists s). by destruct s.
  - intros s1 s2 s3 (h & hl & hp & hpl & ->) (h' & hl' & hp' & hpl' & ->).
    by exists h', hl', hp', hpl'.
Qed.

Lemma mm_frame_refl s : mm_frame s s.
Proof. reflexivity. Qed.
Lemma mm_frame_seg s s' : seg_frame s s' → mm_frame s s'.
Proof. intros (h & hl & ->). exists h, hl, (pms s), (pm_lists s). by destruct s. Qed.
Lemma mm_frame_set_segs h s s' : mm_frame s s' → mm_frame s (set_segs h s').
Proof. intros (h0 & hl & hp & hpl & ->). by exists h, hl, hp, hpl. Qed.
Lemma mm_frame_set_seg_lists h s s' : mm_frame s s' → mm_frame s (set_seg_lists h s').
Proof. intros (h0 & hl & hp & hpl & ->). by exists h0, h, hp, hpl. Qed.
Lemma mm_frame_set_pms h s s' : mm_frame s s' → mm_frame s (set_pms h s').
Proof. intros (h0 & hl & hp & hpl & ->). by exists h0, hl, h, hpl. Qed.
Lemma mm_frame_set_pm_lists h s s' : mm_frame s s' → mm_frame s (set_pm_lists h s').
Proof. intros (h0 & hl & hp & hpl & ->). by exists h0, hl, hp, h. Qed.
#[export] Hint Resolve mm_frame_refl mm_frame_seg mm_frame_set_segs mm_frame_set_seg_lists
  mm_frame_set_pms mm_frame_set_pm_lists : mem.

Lemma pm_rep_seg_frame pl P s s' : seg_frame s s' → pm_rep pl P s → pm_rep pl P s'.
Proof. by intros (h & hl & ->). Qed.
Lemma faults_seg_frame s s' : seg_frame s s' → sim_faults s' = sim_faults s.
Proof. by intros (h & hl & ->). Qed.

Lemma wf_segs_fit memsize F P : wf_mem memsize F P → segs_fit (F ++ ram P).
Proof.
  intros Hwf. pose proof (wf_memsize _ _ _ Hwf). split.
  - apply Forall_forall. intros v Hv. pose proof (wf_bounds Hwf v Hv) as [H1 H2].
    pose proof (proj1 (Forall_forall _ _) (wf_all_positive Hwf) v Hv) as H3.
    unfold seg_end in *. simpl in *. lia.
  - rewrite (wf_total _ _ _ Hwf). lia.
Qed.

Lemma segs_fit_sub v F R : v ∈ R → segs_fit (F ++ R) → segs_fit (v :: F).
Proof.
  intros Hv [HF HT]. apply list_elem_of_split in Hv as (R1 & R2 & ->).
  rewrite !Forall_app, Forall_cons in HF. destruct HF as (HF & HR1 & Hv & HR2).
  assert (Hnn : ∀ l, Forall (λ v, 0 ≤ seg_start v ≤ INT_MAX ∧ 0 ≤ seg_size v) l → 0 ≤ total l).
  { unfold total. induction 1; simpl in *; lia. }
  pose proof (Hnn _ HR1). pose proof (Hnn _ HR2).
  rewrite !total_app, total_cons in HT. split; [by constructor|]. rewrite total_cons. lia.
Qed.

(** Giving back the memory of the resident process [v] at [a]. *)
Lemma wp_release memsize fl pl F P1 a v P2 s :
  mm_rep fl pl F (P1 ++ (a, v) :: P2) s →
  wf_mem memsize F.*2 (P1 ++ (a, v) :: P2).*2 → in_disk v = false →
  wp (add_new_free_memory_segment_to_free_memory_segments_list (pm_start v) (pm_size v) fl)
    (λ _ s', seg_frame s s' ∧ ∃ F', mm_rep fl pl F' (P1 ++ (a, v) :: P2) s' ∧
             F'.*2 = add_free (block_of v) F.*2) s.
Proof.
  intros [Hf Hp Hft] Hwf Hd. eapply wp_mono; [apply wp_add_free; [done..|]|].
  - eapply segs_fit_sub; [|by eapply wf_segs_fit].
    rewrite fmap_app, fmap_cons, ram_mid. simpl. rewrite Hd. set_solver.
  - intros _ s' (Hfr & F' & Hf' & HF'). split; [done|]. exists F'. split; [|done].
    constructor; [done|by eapply pm_rep_seg_frame|]. by rewrite (faults_seg_frame _ _ Hfr).
Qed.

(** The two assignments that mark the process at [a] as swapped out. *)
Lemma wp_mark_disk fl pl F P1 a v P2 s :
  mm_rep fl pl F (P1 ++ (a, v) :: P2) s →
  wp (set_data (Some a) (set_pm_start IN_DISK);;
      set_data (Some a) (set_pm_swap_in_time 0))
    (λ _ s', mm_frame s s' ∧ mm_rep fl pl F (P1 ++ (a, to_disk v) :: P2) s') s.
Proof.
  intros [Hf [Hpl Hp] Hft]. apply wp_bind.
  eapply wp_set_data; [by eapply owns_lookup|].
  eapply wp_set_data; [apply lookup_insert_eq|].
  split; [simpl; auto with mem|]. constructor; [done| |done]. split; simpl.
  - by rewrite (head_ptr_mid P1 a _ v P2 P2).
  - rewrite insert_insert_eq. by eapply owns_update.
Qed.

(** ** Swapping out *)
Lemma victim_scan l1 x l2 :
  Forall (λ y, negb (in_disk y.2) = false) l1 → negb (in_disk x.2) = true →
  victim (l1 ++ x :: l2) = Some (foldl select_step x (x :: l2)).
Proof.
  intros H1 Hx. apply negb_true_iff in Hx.
  induction H1 as [|y l1 Hy H1 IH]; simpl; [by rewrite Hx|].
  apply negb_false_iff in Hy. by rewrite Hy.
Qed.

Lemma select_in (P : list (loc * process_memory)) x l :
  x ∈ P → (∀ y, y ∈ l → y ∈ P) → foldl select_step x l ∈ P.
Proof.
  revert x. induction l as [|y l IH]; intros x Hx Hl; simpl; [done|].
  apply IH; [|set_solver]. unfold select_step. repeat case_match; set_solver.
Qed.

(** The selection loop computes [select_step] over the rest of the list. *)
Lemma wp_select pl P l1 a0 v0 l2 s :
  pm_rep pl P s → P = l1 ++ (a0, v0) :: l2 → in_disk v0 = false →
  wp (walk (V:=process_memory) (λ swap_out_proc_mem c v,
        if negb (in_disk v) then
          best ← load (T:=process_memory_t) swap_out_proc_mem;
          if pm_size (data best) <? pm_size v then mret (Some c)
          else if (pm_size v =? pm_size (data best)) &&
                  (pm_swap_in_time v <=? pm_swap_in_time (data best)) then mret (Some c)
          else mret swap_out_proc_mem
        else mret swap_out_proc_mem) (Some a0) (Some a0))
    (λ r s', s' = s ∧ r = Some (foldl select_step (a0, v0) ((a0, v0) :: l2)).1) s.
Proof.
  intros [_ [Hc _]] -> Hd. apply chain_app in Hc as (q & _ & Hc).
  assert (q = Some a0) as -> by by destruct Hc.
  eapply wp_walk with
    (I := λ done acc s', s' = s ∧ acc = Some (foldl select_step (a0, v0) done).1);
    [exact Hc| |done|auto].
  intros d1 c v d2 acc s' Hsp [-> ->] Hcc. destruct Hcc as (_ & r & Hcr & Hcd2).
  rewrite <- (chain_head _ _ _ Hcd2), foldl_snoc.
  assert (foldl select_step (a0, v0) d1 ∈ (a0, v0) :: l2) as Hin.
  { apply select_in; [by left|]. intros y Hy. rewrite Hsp. set_solver. }
  destruct (foldl select_step (a0, v0) d1) as [cb vb]. unfold select_step. simpl.
  destruct (in_disk v) eqn:Hv; simpl; [by apply wp_ret|].
  destruct (chain_lookup _ _ _ _ _ _ Hc Hin) as [rb Hb].
  apply wp_bind. eapply wp_load; [exact Hb|]. simpl. unfold better.
  destruct (pm_size vb <? pm_size v); simpl; [by apply wp_ret|].
  by case_match; apply wp_ret.
Qed.

(** The victim goes to disk and its memory to the free list. *)
Lemma wp_swap_out memsize fl pl F P1 c w P2 s :
  mm_rep fl pl F (P1 ++ (c, w) :: P2) s →
  wf_mem memsize F.*2 (P1 ++ (c, w) :: P2).*2 →
  victim (P1 ++ (c, w) :: P2) = Some (c, w) →
  wp (swap_out_process_memory pl fl)
    (λ _ s', mm_frame s s' ∧ ∃ F', mm_rep fl pl F' (P1 ++ (c, to_disk w) :: P2) s' ∧
             F'.*2 = add_free (block_of w) F.*2) s.
Proof.
  intros Hrep Hwf Hv. pose proof Hrep as [Hf Hp Hft].
  apply wp_bind. eapply wp_load; [apply Hp|]. simpl. apply wp_bind.
  eapply wp_scan; [apply Hp| |].
  - intros l1 a0 v0 l2 Hsp Hl1 Hv0.
    rewrite Hsp in Hv. rewrite (victim_scan l1 (a0, v0) l2 Hl1 Hv0) in Hv.
    apply wp_bind. eapply wp_mono; [eapply wp_select; [exact Hp|exact Hsp|by apply negb_true_iff]|].
    intros r s' [-> ->]. injection Hv as Hv. cbn [foldl] in Hv. cbn [foldl]. rewrite Hv. simpl fst.
    pose proof (owns_lookup _ _ _ _ _ (proj2 Hp)) as Hc.
    assert (Hd : in_disk w = false).
    { assert (Hv' : victim (P1 ++ (c, w) :: P2) = Some (c, w)).
      { rewrite Hsp, (victim_scan l1 (a0, v0) l2 Hl1 Hv0). by rewrite <- Hv. }
      apply victim_Some in Hv'. simpl in *. tauto. }
    apply wp_bind. eapply wp_load; [exact Hc|]. cbn [data].
    apply wp_bind. eapply wp_mono; [by eapply wp_release|].
    intros _ s1 (Hfr & F' & Hrep1 & HF').
    eapply wp_mono; [by eapply wp_mark_disk|]. intros _ s2 [Hfr2 Hrep2].
    split; [etrans; [by apply mm_frame_seg|done]|]. eauto.
  - intros Hall. exfalso. assert (Hv' : victim (P1 ++ (c, w) :: P2) = None); [|congruence].
    apply victim_None. eapply Forall_impl; [done|]. simpl. intros x. apply negb_false_iff.
Qed.

(** With no process in RAM the code reads an uninitialised pointer. *)
Lemma swap_out_nobody fl pl F P s :
  mm_rep fl pl F P s → victim P = None → swap_out_process_memory pl fl s = UB.
Proof.
  intros [_ [Hpl [Hc Hd]] _] Hv.
  assert (Hs : wp (scan (V:=process_memory) (λ c, negb (in_disk c)) (head_ptr P))
            (λ r s', s' = s ∧ r.2 = NULL) s).
  { eapply wp_scan; [exact Hc| |done]. intros l1 a v l2 -> _ Hd'. exfalso.
    apply victim_None in Hv. rewrite Forall_app, Forall_cons in Hv. simpl in Hv.
    destruct Hv as (_ & Hv & _). by rewrite Hv in Hd'. }
  apply wp_run in Hs as ([prev r] & s' & Hs & -> & Hr). simpl in Hr. subst r.
  unfold swap_out_process_memory, load, mbind, C_bind. simpl. rewrite Hpl. simpl.
  rewrite Hs. done.
Qed.

(** ** Swapping in *)
Lemma wf_seg_in memsize F P v : wf_mem memsize F P → v ∈ F →
  0 ≤ seg_end v ∧ seg_start v ≤ memsize ≤ INT_MAX ∧ 0 < seg_size v.
Proof.
  intros Hwf Hv. pose proof (wf_bounds Hwf v ltac:(set_solver)) as [H1 H2].
  pose proof (wf_memsize _ _ _ Hwf).
  pose proof (proj1 (Forall_forall _ _) (wf_positive _ _ _ Hwf) v Hv). simpl in *. lia.
Qed.

Lemma wp_delete_free_segment fl l1 c sg l2 s :
  free_rep fl (l1 ++ (c, sg) :: l2) s →
  wp (delete_free_memory_segment fl (last_ptr l1) (Some c))
    (λ _ s', seg_frame s s' ∧ free_rep fl (l1 ++ l2) s') s.
Proof.
  intros [Hfl Ho]. pose proof (owns_lookup _ _ _ _ _ Ho) as Hc.
  apply wp_bind. eapply wp_load; [exact Hfl|]. apply wp_bind. eapply wp_load; [exact Hc|].
  simpl. apply wp_bind. destruct l1 as [|[b w] l1 _] using rev_ind.
  - rewrite bool_decide_true by done. eapply wp_store; [exact Hfl|].
    eapply wp_free; [exact Hc|]. split; [simpl; auto with mem|].
    split; simpl; [apply lookup_insert_eq|by eapply owns_pop].
  - rewrite bool_decide_false.
    2: { eapply chain_not_head; [apply Ho|by destruct l1]. }
    rewrite last_ptr_snoc. rewrite <- app_assoc in *. cbn [app] in *.
    destruct (owns_lookup_next _ _ _ _ _ _ _ Ho) as [_ Hbc].
    eapply wp_set_next; [by eapply owns_lookup|].
    eapply wp_free; [by simpl; rewrite lookup_insert_ne|].
    split; [simpl; auto with mem|]. split; simpl.
    + by rewrite (head_ptr_mid l1 b w w l2 ((c, sg) :: l2)).
    + by eapply owns_remove_after.
Qed.

Lemma wp_occupy memsize fl pl l1 c sg l2 P1 a v P2 t s :
  mm_rep fl pl (l1 ++ (c, sg) :: l2) (P1 ++ (a, v) :: P2) s →
  wf_mem memsize (l1 ++ (c, sg) :: l2).*2 (P1 ++ (a, v) :: P2).*2 →
  (pm_size v <=? seg_size sg) = true →
  wp (occupy_free_memory_segment (Some a) t fl (last_ptr l1) (Some c))
    (λ _ s', mm_frame s s' ∧ ∃ F', mm_rep fl pl F'
               (P1 ++ (a, to_ram (seg_start sg) t v) :: P2) s' ∧
             F'.*2 = l1.*2 ++ if seg_size sg - pm_size v =? 0 then l2.*2
               else Seg (seg_start sg - pm_size v) (seg_size sg - pm_size v) :: l2.*2) s.
Proof.
  intros [[Hfl Hf] [Hpl Hp] Hft] Hwf Hsz. apply Z.leb_le in Hsz.
  rewrite !fmap_app, !fmap_cons in Hwf. simpl in Hwf.
  destruct (wf_seg_in _ _ _ sg Hwf) as (Hb1 & Hb2 & Hb3); [set_solver|].
  assert (0 < pm_size v) as Hv.
  { pose proof (wf_sizes _ _ _ Hwf) as Hz. apply Forall_app in Hz as [_ Hz]. by inversion Hz. }
  unfold seg_end in Hb1. unfold occupy_free_memory_segment.
  apply wp_bind. eapply wp_load; [by eapply owns_lookup|]. cbn [data next].
  apply wp_bind. eapply wp_set_data; [by eapply owns_lookup|].
  apply wp_bind. eapply wp_set_data; [apply lookup_insert_eq|].
  unfold get_process_memory_end_address. apply wp_bind, wp_bind.
  eapply wp_load; [apply lookup_insert_eq|]. simpl. wp_step.
  apply wp_bind. eapply wp_set_data; [by eapply owns_lookup|].
  apply wp_bind. eapply wp_load; [apply lookup_insert_eq|]. simpl. apply wp_bind. wp_step.
  apply wp_bind. eapply wp_set_data; [apply lookup_insert_eq|]. simpl.
  rewrite !insert_insert_eq.
  change (set_pm_swap_in_time t (set_pm_start (seg_start sg) v)) with (to_ram (seg_start sg) t v).
  set (sg' := set_seg_size _ _). set (s1 := set_segs _ _).
  assert (Hrep : mm_rep fl pl (l1 ++ (c, sg') :: l2) (P1 ++ (a, to_ram (seg_start sg) t v) :: P2) s1).
  { constructor; [split|split|done]; simpl.
    - by rewrite (head_ptr_mid l1 c _ sg l2 l2).
    - by eapply owns_update.
    - by rewrite (head_ptr_mid P1 a _ v P2 P2).
    - by eapply owns_update. }
  assert (Hfr : mm_frame s s1) by (unfold s1; auto with mem).
  destruct (Z.eqb_spec (seg_size sg - pm_size v) 0).
  - eapply wp_mono; [eapply wp_delete_free_segment, Hrep|]. intros _ s2 [Hfr2 Hf2].
    split; [etrans; [done|by apply mm_frame_seg]|]. exists (l1 ++ l2).
    rewrite fmap_app. split; [|done]. destruct Hrep as [_ Hpr Hft1].
    constructor; [done|by eapply pm_rep_seg_frame|by rewrite (faults_seg_frame _ _ Hfr2)].
  - apply wp_ret. split; [done|]. exists (l1 ++ (c, sg') :: l2). split; [done|].
    by rewrite fmap_app, fmap_cons.
Qed.

Lemma ram_length P : (length (ram P) ≤ length P)%nat.
Proof. unfold ram. rewrite length_fmap. apply length_filter. Qed.

(** Room for a process that fits into the memory: either first fit succeeds or
    there is a resident process to swap out. *)
Lemma wf_victim memsize F (P : list (loc * process_memory)) n :
  wf_mem memsize F P.*2 → n ≤ memsize → take_fit n F = None → ∃ x, victim P = Some x.
Proof.
  intros Hwf Hn Hf. destruct (victim P) as [x|] eqn:Hv; [eauto|]. exfalso.
  rewrite (wf_no_ram Hwf (ram_count_victim _ Hv)) in Hf. simpl in Hf.
  by destruct (Z.leb_spec n memsize); [|lia].
Qed.

Lemma is_in_disk_run a r v s :
  pms s !! a = Some (Node r v) → is_process_memory_in_disk (Some a) s = Ok (in_disk v) s.
Proof.
  intros Ha. unfold is_process_memory_in_disk, load, mbind, C_bind. simpl. by rewrite Ha.
Qed.

Lemma wp_is_in_disk a r v Q s :
  pms s !! a = Some (Node r v) → Q (in_disk v) s → wp (is_process_memory_in_disk (Some a)) Q s.
Proof. intros Ha HQ. unfold wp. by erewrite is_in_disk_run. Qed.

Lemma wp_swap_in memsize fl pl F P a v t s :
  mm_rep fl pl F P s → wf_mem memsize F.*2 P.*2 →
  (a, v) ∈ P → in_disk v = true → pm_size v ≤ memsize →
  wp (swap_in_process_memory (Some a) t pl fl)
    (λ _ s', mm_frame s s' ∧ ∃ b F' P1 P2,
       make_room (pm_size v) F.*2 P b F'.*2 (P1 ++ (a, v) :: P2) ∧
       mm_rep fl pl F' (P1 ++ (a, to_ram b t v) :: P2) s' ∧
       wf_mem memsize F'.*2 (P1 ++ (a, to_ram b t v) :: P2).*2 ∧
       in_disk (to_ram b t v) = false) s.
Proof.
  intros Hrep Hwf Hin Hd Hle. apply wp_bind, wp_get.
  apply (wp_iter_idx (λ k _ s', mm_frame s s' ∧ ∃ F' P',
     mm_rep fl pl F' P' s' ∧ wf_mem memsize F'.*2 P'.*2 ∧ (a, v) ∈ P' ∧
     k = length (ram P'.*2) ∧
     ∀ b G Q, make_room (pm_size v) F'.*2 P' b G Q → make_room (pm_size v) F.*2 P b G Q))
    with (k := length (ram P.*2)).
  - clear Hrep Hwf Hin. intros k _ s' (Hfr & F' & P' & Hrep & Hwf & Hin & -> & Hroom).
    apply list_elem_of_split in Hin as (P1 & P2 & ->).
    pose proof Hrep as [[Hfl Hf] [Hpl Hp] Hft].
    apply wp_bind. eapply wp_is_in_disk; [by eapply owns_lookup|]. rewrite Hd. simpl.
    apply wp_bind. eapply wp_load; [by eapply owns_lookup|].
    apply wp_bind. eapply wp_load; [exact Hfl|]. simpl.
    apply wp_bind. eapply wp_scan; [apply Hf| |].
    + intros l1 c sg l2 -> Hl1 Hsg. apply wp_bind.
      eapply wp_mono; [by eapply wp_occupy|]. intros _ s2 (Hfr2 & G & Hrep2 & HG).
      apply wp_ret. split; [by etrans|]. exists (seg_start sg), G, P1, P2.
      assert (Hfit : take_fit (pm_size v) (l1 ++ (c, sg) :: l2).*2 = Some (seg_start sg, G.*2)).
      { rewrite HG, fmap_app, fmap_cons. simpl. apply take_fit_split; [|done].
        by apply Forall_fmap. }
      split; [by apply Hroom, room_fit|]. split; [done|].
      rewrite !(fmap_app _ P1), !fmap_cons in *. by eapply wf_swap_in.
    + intros Hall. assert (Hfit : take_fit (pm_size v) F'.*2 = None).
      { apply take_fit_none. by apply Forall_fmap. }
      destruct (wf_victim _ _ _ _ Hwf Hle Hfit) as [[c w] Hv].
      pose proof (victim_Some _ _ Hv) as (Hcw & Hdw & _). simpl in Hdw.
      assert (Hav : (a, v) ∈ P1 ++ (a, v) :: P2) by set_solver.
      apply list_elem_of_split in Hcw as (Q1 & Q2 & Heq). rewrite Heq in *.
      apply wp_bind. eapply wp_mono; [by eapply wp_swap_out|].
      intros _ s2 (Hfr2 & G & Hrep2 & HG). apply wp_ret.
      exists (length (ram (Q1 ++ (c, to_disk w) :: Q2).*2)). split.
      { rewrite !fmap_app, !fmap_cons, !ram_mid. simpl. rewrite Hdw.
        rewrite !length_app. simpl. lia. }
      split; [by etrans|]. exists G, (Q1 ++ (c, to_disk w) :: Q2).
      split; [done|]. split.
      { rewrite HG, !(fmap_app _ Q1), !fmap_cons in *. by apply wf_swap_out. }
      split; [|split; [done|]].
      { apply elem_of_app in Hav as [?|Hav]; [set_solver|].
        apply elem_of_cons in Hav as [[= -> ->]|?]; [congruence|set_solver]. }
      intros b G' Q Hm. apply Hroom, room_evict; [done..|]. by rewrite <- HG.
  - split; [reflexivity|]. exists F, P. done.
  - destruct Hrep as [_ [_ [Hc _]] _]. pose proof (chain_subset_size _ _ _ Hc).
    pose proof (ram_length P.*2) as Hr. rewrite length_fmap in Hr. simpl. lia.
Qed.

(** One round of the loop of [swap_in_process_memory], up to the failed search. *)
Local Ltac run_to_miss :=
  eapply run_bind_eq; [by eapply is_in_disk_run|];
  match goal with Hd : in_disk _ = true |- _ => rewrite Hd end; simpl negb; cbn iota;
  do 2 (eapply run_bind_eq; [by apply run_load|]);
  eapply run_bind_eq; [eassumption|]; cbn iota beta.

(** A process larger than the memory: everybody is swapped out, and then the
    code reads an uninitialised pointer. *)
Lemma swap_in_too_large memsize fl pl F P a v t s :
  mm_rep fl pl F P s → wf_mem memsize F.*2 P.*2 →
  (a, v) ∈ P → in_disk v = true → memsize < pm_size v →
  swap_in_process_memory (Some a) t pl fl s = UB.
Proof.
  intros Hrep Hwf Hin Hd Hlt. unfold swap_in_process_memory. erewrite run_bind by done.
  assert (Hlen : (length (ram P.*2) < Datatypes.S (size (heap (T:=process_memory_t) s)))%nat).
  { pose proof Hrep as [_ [_ [Hc _]] _]. pose proof (chain_subset_size _ _ _ Hc).
    pose proof (ram_length P.*2) as Hr. rewrite length_fmap in Hr. simpl. lia. }
  revert Hlen. generalize (Datatypes.S (size (heap (T:=process_memory_t) s))) as n.
  remember (length (ram P.*2)) as k eqn:Hk. intros n. revert F P s n Hk Hrep Hwf Hin.
  induction k as [k IH] using lt_wf_ind. intros F P s [|n] Hk Hrep Hwf Hin Hn; [lia|].
  pose proof Hin as Hav. apply list_elem_of_split in Hin as (P1 & P2 & ->).
  pose proof Hrep as [[Hfl Hf] [Hpl Hp] Hft].
  pose proof (owns_lookup _ _ _ _ _ Hp) as Ha.
  assert (Hmiss : Forall (λ x, (pm_size v <=? seg_size x.2) = false) F).
  { apply Forall_forall. intros [c sg] Hc. simpl.
    destruct (wf_seg_in _ _ _ sg Hwf) as (? & ? & ?); [by apply (list_elem_of_fmap_2 snd) in Hc|].
    unfold seg_end in *. lia. }
  assert (Hs : wp (scan (V:=segment) (λ c, pm_size v <=? seg_size c) (head_ptr F))
            (λ r s', s' = s ∧ r.2 = NULL) s).
  { eapply wp_scan; [apply Hf| |done]. intros l1 c sg l2 -> _ Hsg. exfalso.
    rewrite Forall_app, Forall_cons in Hmiss. simpl in Hmiss. destruct Hmiss as (_ & ? & _).
    congruence. }
  apply wp_run in Hs as ([prev r] & s' & Hs & -> & Hr). simpl in Hr. subst r.
  destruct (victim (P1 ++ (a, v) :: P2)) as [[c w]|] eqn:Hv.
  - pose proof (victim_Some _ _ Hv) as (Hcw & Hdw & _). simpl in Hdw.
    apply list_elem_of_split in Hcw as (Q1 & Q2 & Heq). rewrite Heq in *.
    pose proof (wp_swap_out _ _ _ _ _ _ _ _ _ Hrep Hwf Hv) as Ho.
    apply wp_run in Ho as ([] & s2 & Ho & Hfr & G & Hrep2 & HG).
    erewrite run_iter.
    2: { run_to_miss. by eapply run_bind_eq; [exact Ho|]. }
    eapply (IH (length (ram (Q1 ++ (c, to_disk w) :: Q2).*2)));
      [|done|exact Hrep2| | |].
    + subst k. rewrite !fmap_app, !fmap_cons, !ram_mid. simpl. rewrite Hdw, !length_app. simpl. lia.
    + rewrite HG, !(fmap_app _ Q1), !fmap_cons in *. by apply wf_swap_out.
    + apply elem_of_app in Hav as [?|Hav]; [set_solver|].
      apply elem_of_cons in Hav as [[= -> ->]|?]; [congruence|set_solver].
    + subst k. rewrite !fmap_app, !fmap_cons, !ram_mid in *. simpl in *. rewrite Hdw in Hn.
      rewrite !length_app in *. simpl in *. lia.
  - apply run_iter_ub. run_to_miss. apply run_bind_ub. by eapply swap_out_nobody.
Qed.

(** ** The other operations on process memories *)
Lemma wp_swap_out_by memsize fl pl F P1 a v P2 s :
  mm_rep fl pl F (P1 ++ (a, v) :: P2) s →
  wf_mem memsize F.*2 (P1 ++ (a, v) :: P2).*2 →
  wp (swap_out_process_memory_by_process_memory (Some a) fl)
    (λ _ s', mm_frame s s' ∧ ∃ F',
       mm_rep fl pl F' (P1 ++ (a, if in_disk v then v else to_disk v) :: P2) s' ∧
       F'.*2 = (if in_disk v then F.*2 else add_free (block_of v) F.*2)) s.
Proof.
  intros Hrep Hwf. pose proof Hrep as [_ [_ Hp] _]. pose proof (owns_lookup _ _ _ _ _ Hp) as Ha.
  apply wp_bind. eapply wp_is_in_disk; [exact Ha|]. destruct (in_disk v) eqn:Hd; simpl.
  { apply wp_ret. split; [reflexivity|]. eauto. }
  apply wp_bind. eapply wp_load; [exact Ha|]. simpl.
  apply wp_bind. eapply wp_mono; [by eapply wp_release|].
  intros _ s1 (Hfr & F' & Hrep1 & HF'). eapply wp_mono; [by eapply wp_mark_disk|].
  intros _ s2 [Hfr2 Hrep2]. split; [etrans; [by apply mm_frame_seg|done]|]. eauto.
Qed.

(** A new process memory goes to the end of the list. *)
Lemma wp_add_pm fl pl F P m v h s :
  free_rep fl F s → sim_faults s = [] →
  pm_lists s !! pl = Some (PMList (head_ptr P)) → owns h P →
  h !! m = None → pms s = <[m:=Node NULL v]> h →
  wp (add_process_memory_to_process_memories_list (Some m) pl)
    (λ _ s', mm_frame s s' ∧ mm_rep fl pl F (P ++ [(m, v)]) s') s.
Proof.
  intros Hf Hft Hpl Ho Hm Hs. apply wp_bind. eapply wp_load; [exact Hpl|]. cbn [pml_head].
  destruct P as [|[b w] P1 _] using rev_ind.
  { eapply wp_store; [exact Hpl|]. split; [simpl; auto with mem|].
    constructor; [done| |done]. split; simpl; [apply lookup_insert_eq|].
    rewrite Hs. by apply (owns_push _ _ _ []). }
  destruct (head_ptr (P1 ++ [(b, w)])) as [p0|] eqn:Eh; [|by destruct P1].
  rewrite <- Eh in Hpl |- *. apply wp_bind. eapply wp_scan.
  { simpl. rewrite Hs. apply chain_frame_insert; [by eapply owns_fresh|]. apply Ho. }
  - done.
  - intros _. rewrite last_ptr_snoc.
    assert (Hne : m ≠ b). { intros ->. apply owns_lookup in Ho. congruence. }
    eapply wp_set_next; [simpl; rewrite Hs, lookup_insert_ne by done; by eapply owns_lookup|].
    split; [simpl; auto with mem|].
    constructor; [done| |done]. split; simpl.
    + rewrite <- app_assoc. cbn [app]. by rewrite (head_ptr_mid P1 b w w _ []).
    + rewrite <- app_assoc, Hs. by apply (owns_insert_after _ _ _ _ _ _ []).
Qed.

Lemma wp_add_new_pm fl pl F P size pid s :
  mm_rep fl pl F P s →
  wp (add_new_process_memory_to_process_memories_list size pid pl)
    (λ _ s', mm_frame s s' ∧ ∃ m, mm_rep fl pl F (P ++ [(m, PM IN_DISK size 0 pid)]) s') s.
Proof.
  intros [Hf [Hpl Ho] Hft]. apply wp_bind, wp_malloc; [done|]. intros m Hm.
  eapply wp_mono; [by eapply wp_add_pm|]. intros _ s' [Hfr Hrep].
  split; [|by eauto]. etrans; [|exact Hfr]. simpl. auto with mem.
Qed.

(** The first process memory with the given process id. *)
Definition find_pid (pid : Z) (P : list (loc * process_memory)) : option (loc * process_memory) :=
  head (filter (λ x, pm_process_id x.2 = pid) P).

Lemma find_pid_miss pid P :
  Forall (λ x, (pm_process_id x.2 =? pid) = false) P → find_pid pid P = None.
Proof.
  unfold find_pid. induction 1 as [|x P Hx HP IH]; [done|].
  rewrite filter_cons_False; [done|]. lia.
Qed.

Lemma find_pid_hit pid P1 a v P2 :
  Forall (λ x, (pm_process_id x.2 =? pid) = false) P1 → (pm_process_id v =? pid) = true →
  find_pid pid (P1 ++ (a, v) :: P2) = Some (a, v).
Proof.
  unfold find_pid. intros HP Hv. induction HP as [|x P1 Hx HP IH]; simpl.
  - rewrite filter_cons_True; [done|]. simpl. lia.
  - rewrite filter_cons_False; [done|]. lia.
Qed.

Lemma wp_get_by_process_id pl P pid s :
  pm_rep pl P s →
  wp (get_process_memory_by_process_id pid pl)
    (λ r s', s' = s ∧ r = fst <$> find_pid pid P) s.
Proof.
  intros [Hpl [Hc _]]. apply wp_bind. eapply wp_load; [exact Hpl|]. apply wp_bind.
  eapply wp_scan; [exact Hc| |].
  - intros P1 a v P2 -> H1 H2. apply wp_ret. by rewrite find_pid_hit.
  - intros H1. apply wp_ret. by rewrite find_pid_miss.
Qed.

(** Unlinking the node [a] from the list of process memories. *)
Lemma wp_unlink_pm fl pl F P1 a v P2 s :
  mm_rep fl pl F (P1 ++ (a, v) :: P2) s →
  wp (if bool_decide (Some a = head_ptr (P1 ++ (a, v) :: P2))
      then store (Some pl) (PMList (head_ptr P2))
      else pm_set_next (last_ptr P1) (head_ptr P2))
    (λ _ s', mm_frame s s' ∧ free_rep fl F s' ∧ sim_faults s' = [] ∧
       pm_lists s' !! pl = Some (PMList (head_ptr (P1 ++ P2))) ∧
       pms s' !! a = Some (Node (head_ptr P2) v) ∧
       owns (delete a (pms s')) (P1 ++ P2)) s.
Proof.
  intros [Hf [Hpl Ho] Hft]. pose proof (owns_lookup _ _ _ _ _ Ho) as Ha.
  destruct P1 as [|[b w] P1 _] using rev_ind.
  - rewrite bool_decide_true by done. eapply wp_store; [exact Hpl|]. simpl.
    split; [auto with mem|]. do 2 (split; [done|]). split; [apply lookup_insert_eq|].
    split; [done|]. by eapply owns_pop.
  - rewrite bool_decide_false; [|eapply chain_not_head; [apply Ho|by destruct P1]].
    rewrite last_ptr_snoc. rewrite <- !app_assoc in *. cbn [app] in *.
    destruct (owns_lookup_next _ _ _ _ _ _ _ Ho) as [_ Hbc].
    eapply wp_set_next; [by eapply owns_lookup|]. simpl.
    split; [auto with mem|]. do 2 (split; [done|]).
    rewrite (head_ptr_mid P1 b w w P2 ((a, v) :: P2)). split; [done|].
    rewrite lookup_insert_ne by done. split; [done|]. by eapply owns_remove_after.
Qed.

Lemma wp_remove_by_process_id memsize fl pl F P pid s :
  mm_rep fl pl F P s → wf_mem memsize F.*2 P.*2 →
  wp (remove_process_memory_by_process_id pid pl fl)
    (λ r s', mm_frame s s' ∧
       match find_pid pid P with
       | None => r = 0 ∧ s' = s
       | Some (a, v) => r = 1 ∧ ∃ P1 P2 F', P = P1 ++ (a, v) :: P2 ∧
           mm_rep fl pl F' (P1 ++ P2) s' ∧ wf_mem memsize F'.*2 (P1 ++ P2).*2 ∧
           F'.*2 = (if in_disk v then F.*2 else add_free (block_of v) F.*2)
       end) s.
Proof.
  intros Hrep Hwf. pose proof Hrep as [_ [Hpl [Hc _]] _].
  apply wp_bind. eapply wp_load; [exact Hpl|]. cbn [pml_head]. apply wp_bind.
  eapply wp_scan; [exact Hc| |].
  2: { intros H1. apply wp_ret. rewrite find_pid_miss by done. split; [reflexivity|done]. }
  intros P1 a v P2 -> H1 H2. rewrite find_pid_hit by done.
  assert (Ha : pms s !! a = Some (Node (head_ptr P2) v)) by (eapply owns_lookup, Hrep).
  apply wp_bind. eapply wp_load; [exact Ha|]. cbn [next data].
  apply wp_bind. eapply wp_mono; [by eapply wp_unlink_pm|].
  intros _ s1 (Hfr & Hf1 & Hft1 & Hpl1 & Ha1 & Ho1).
  apply wp_bind. eapply wp_is_in_disk; [exact Ha1|].
  assert (Hwf' : in_disk v = true → wf_mem memsize F.*2 (P1 ++ P2).*2).
  { intros Hd. rewrite !fmap_app, fmap_cons in *. destruct Hwf as [? ? ? Hz Ht Hs].
    rewrite Forall_app, Forall_cons in Hz. rewrite ram_mid in Hs. setoid_rewrite ram_mid in Ht.
    simpl in *. rewrite Hd in *. constructor; [done..|apply Forall_app; tauto| |];
      by rewrite ram_app. }
  apply wp_bind. eapply wp_mono with (P := λ _ s', mm_frame s s' ∧ ∃ F', free_rep fl F' s' ∧
    F'.*2 = (if in_disk v then F.*2 else add_free (block_of v) F.*2) ∧ seg_frame s1 s').
  - destruct (in_disk v) eqn:Hd; simpl.
    + apply wp_ret. split; [done|]. eauto with mem.
    + eapply wp_mono; [apply wp_add_free; [exact Hf1|done|]|].
      * eapply segs_fit_sub; [|by eapply wf_segs_fit].
        rewrite fmap_app, fmap_cons, ram_mid. simpl. rewrite Hd. set_solver.
      * intros _ s2 (Hfr2 & F' & Hf2 & HF'). split; [by etrans; [|apply mm_frame_seg]|]. eauto.
  - intros _ s2 (Hfr2 & F' & Hf2 & HF' & h & hl & ->). apply wp_bind.
    eapply wp_free; [exact Ha1|]. apply wp_ret. split; [simpl; auto with mem|]. split; [done|].
    exists P1, P2, F'. split; [done|]. split; [by constructor|]. split; [|done].
    rewrite HF', !fmap_app, fmap_cons in *. destruct (in_disk v) eqn:Hd; [by apply Hwf'|].
    by apply (wf_release _ _ _ v _ []).
Qed.

(** ** Counting *)
Lemma length_le_total l : positive_sizes l → Z.of_nat (length l) ≤ total l.
Proof. unfold total. induction 1; simpl length; simpl foldr; lia. Qed.

Lemma foldl_count (l : list segment) n : foldl (λ c _, c + 1) n l = n + Z.of_nat (length l).
Proof. revert n. induction l as [|x l IH]; intros n; simpl; [lia|]. rewrite IH. lia. Qed.

Lemma foldl_ram_count l n :
  foldl (λ c v, if negb (in_disk v) then c + 1 else c) n l = n + Z.of_nat (length (ram l)).
Proof.
  revert n. induction l as [|v l IH]; intros n; [simpl; lia|].
  cbn [foldl]. rewrite IH, ram_cons, length_app. destruct (in_disk v); simpl; lia.
Qed.

Lemma foldl_ram_size l n :
  foldl (λ c v, if negb (in_disk v) then c + pm_size v else c) n l = n + total (ram l).
Proof.
  revert n. induction l as [|v l IH]; intros n; [unfold total; simpl; lia|].
  cbn [foldl]. rewrite IH, ram_cons, total_app.
  destruct (in_disk v); simpl; unfold total; simpl; lia.
Qed.

Section counts.
Context {memsize : Z} {fl pl : loc} {F : list (loc * segment)} {P : list (loc * process_memory)}.
Context {s : sim} (Hrep : mm_rep fl pl F P s) (Hwf : wf_mem memsize F.*2 P.*2).

Lemma counts_bound :
  Z.of_nat (length F) ≤ INT_MAX ∧ Z.of_nat (length (ram P.*2)) ≤ INT_MAX.
Proof.
  pose proof (length_le_total _ (wf_all_positive Hwf)) as H.
  rewrite (wf_total _ _ _ Hwf), length_app, length_fmap in H.
  pose proof (wf_memsize _ _ _ Hwf). lia.
Qed.

Lemma ram_prefix_total P1 (P2 : list process_memory) :
  P.*2 = P1 ++ P2 → 0 ≤ total (ram P1) ≤ memsize ∧ 0 ≤ total (ram P2) ∧
  total (ram P1) + total (ram P2) ≤ memsize.
Proof.
  intros Heq. pose proof (wf_total _ _ _ Hwf) as Ht. pose proof (wf_all_positive Hwf) as Hp.
  unfold positive_sizes in Hp. rewrite Heq, ram_app in *. rewrite !Forall_app in Hp.
  destruct Hp as (H1 & H2 & H3). rewrite !total_app in Ht.
  pose proof (total_nonneg _ H1). pose proof (total_nonneg _ H2). pose proof (total_nonneg _ H3).
  lia.
Qed.

Lemma wp_get_free_count (Q : Z → sim → Prop) :
  Q (Z.of_nat (length F)) s → wp (get_free_memory_segments_list_count fl) Q s.
Proof.
  intros HQ. pose proof counts_bound as [Hb _]. pose proof Hrep as [[Hfl [Hc _]] _ _].
  apply wp_bind. eapply wp_load; [exact Hfl|].
  apply wp_walk_fold with (g := λ c _, c + 1) (l := F); [exact Hc| |].
  - intros l1 a v l2 Hsp. rewrite foldl_count, length_fmap.
    apply (f_equal length) in Hsp. rewrite length_app in Hsp. simpl in Hsp.
    wp_step. done.
  - by rewrite foldl_count, length_fmap.
Qed.

Lemma wp_get_ram_count (Q : Z → sim → Prop) :
  Q (Z.of_nat (length (ram P.*2))) s → wp (get_process_memories_list_not_in_disk_count pl) Q s.
Proof.
  intros HQ. pose proof counts_bound as [_ Hb]. pose proof Hrep as [_ [Hpl [Hc _]] _].
  apply wp_bind. eapply wp_load; [exact Hpl|].
  eapply wp_walk_fold with (g := λ c v, if negb (in_disk v) then c + 1 else c); [exact Hc| |].
  - intros l1 a v l2 Hsp. rewrite foldl_ram_count. rewrite Hsp, fmap_app, fmap_cons in Hb.
    rewrite ram_mid, !length_app in Hb. simpl in Hb.
    destruct (in_disk v); simpl in *; [by apply wp_ret|]. wp_step. done.
  - by rewrite foldl_ram_count.
Qed.

Lemma wp_get_ram_size (Q : Z → sim → Prop) :
  Q (total (ram P.*2)) s → wp (get_process_memories_list_not_in_disk_size pl) Q s.
Proof.
  intros HQ. pose proof (wf_memsize _ _ _ Hwf). pose proof Hrep as [_ [Hpl [Hc _]] _].
  apply wp_bind. eapply wp_load; [exact Hpl|].
  eapply wp_walk_fold with (g := λ c v, if negb (in_disk v) then c + pm_size v else c);
    [exact Hc| |].
  - intros l1 a v l2 Hsp. rewrite foldl_ram_size.
    destruct (in_disk v) eqn:Hd; simpl; [by apply wp_ret|].
    pose proof (ram_prefix_total l1.*2 (v :: l2.*2)) as Hb.
    rewrite ram_cons, Hd in Hb. cbn [app] in Hb. rewrite total_cons in Hb.
    pose proof (wf_sizes _ _ _ Hwf) as Hz. rewrite Hsp, fmap_app, fmap_cons, Forall_app, Forall_cons in Hz.
    destruct Hz as (_ & Hv & Hz). simpl in Hv.
    pose proof (total_nonneg _ (ram_positive _ Hz)).
    specialize (Hb ltac:(by rewrite Hsp, fmap_app)).
    change (seg_size (block_of v)) with (pm_size v) in Hb.
    wp_step. done.
  - by rewrite foldl_ram_size.
Qed.
End counts.

(** ** Creating and releasing the two lists *)
Lemma wp_new_free_list size s :
  sim_faults s = [] → segs s = ∅ →
  wp (new_free_memory_segments_list size)
    (λ fl s', seg_frame s s' ∧ dom (seg_lists s') = {[fl]} ∪ dom (seg_lists s) ∧
              ∃ a, free_rep fl [(a, Seg size size)] s') s.
Proof.
  intros Hft Hs. apply wp_bind, wp_malloc; [done|]. intros a Ha.
  apply wp_malloc; [done|]. intros fl Hfl. simpl in *.
  split; [auto with mem|]. split; [by rewrite dom_insert_L|]. exists a.
  split; [apply lookup_insert_eq|]. simpl. rewrite Hs. apply (owns_push _ _ _ []), owns_empty. done.
Qed.

Lemma wp_free_segments fl F s :
  free_rep fl F s →
  wp (free_free_memory_segments_list (Some fl))
    (λ _ s', s' = set_seg_lists (delete fl (seg_lists s)) (set_segs ∅ s)) s.
Proof.
  intros [Hfl Ho]. apply wp_bind, wp_bind. eapply wp_load; [exact Hfl|]. apply wp_ret.
  apply wp_bind. eapply wp_mono; [by apply wp_free_all|]. intros _ s' ->.
  eapply wp_free; [exact Hfl|]. done.
Qed.

Lemma wp_free_process_memories pl P s :
  pm_rep pl P s →
  wp (free_process_memories_list (Some pl))
    (λ _ s', s' = set_pm_lists (delete pl (pm_lists s)) (set_pms ∅ s)) s.
Proof.
  intros [Hpl Ho]. apply wp_bind, wp_bind. eapply wp_load; [exact Hpl|]. apply wp_ret.
  apply wp_bind. eapply wp_mono; [by apply wp_free_all|]. intros _ s' ->.
  eapply wp_free; [exact Hpl|]. done.
Qed.
