(* ===== verification/CString.v ===== *)
(** * CString: the C library functions on character data that the sources use

    A C string is the list of its characters before the terminating NUL; the
    rest of an input stream is the list of the characters not yet read.
    [fgets], [strtok], [atoi] and [printf("%d")] are part of the C standard
    library, and are written out here as that standard defines them. *)
From Stdlib Require Import Ascii String.
From stdpp Require Import prelude strings.
From S2P Require Import Prelude CMonad.

Definition code (c : ascii) : Z := Z.of_N (N_of_ascii c).
Definition chr (z : Z) : ascii := ascii_of_N (Z.to_N z).
Definition NUL : ascii := chr 0.
Definition NEWLINE : ascii := chr 10.
Definition SPACE : ascii := chr 32.

Fixpoint chars (s : string) : list ascii :=
  match s with
  | EmptyString => []
  | String c s' => c :: chars s'
  end.

(** The contents of a [char] buffer as a string: up to the first NUL. *)
Fixpoint cstr (l : list ascii) : list ascii :=
  match l with
  | [] => []
  | c :: l' => if bool_decide (c = NUL) then [] else c :: cstr l'
  end.

(** ** fgets(buf, n, fp): at most [n-1] characters, up to and with a newline;
    NULL at end of file. *)
Fixpoint take_line (n : nat) (input : list ascii) : list ascii * list ascii :=
  match n, input with
  | S n', c :: input' =>
      if bool_decide (c = NEWLINE) then ([c], input')
      else let '(l, rest) := take_line n' input' in (c :: l, rest)
  | _, _ => ([], input)
  end.

Definition fgets (n : nat) (input : list ascii) : option (list ascii * list ascii) :=
  match input with
  | [] => None
  | _ => Some (take_line (Nat.pred n) input)
  end.

(** ** strncmp(a, b, n) == 0 *)
Fixpoint strncmp_eq (n : nat) (a b : list ascii) : bool :=
  match n, a, b with
  | O, _, _ => true
  | S n', x :: a', y :: b' =>
      bool_decide (x = y) && (bool_decide (x = NUL) || strncmp_eq n' a' b')
  | S _, [], [] => true
  | _, _, _ => false
  end.

(** ** strtok(s, " "): the next token and what follows it, or NULL. *)
Fixpoint skip_delim (delim : ascii) (s : list ascii) : list ascii :=
  match s with
  | [] => []
  | c :: s' => if bool_decide (c = delim) then skip_delim delim s' else s
  end.

Fixpoint take_token (delim : ascii) (s : list ascii) : list ascii * list ascii :=
  match s with
  | [] => ([], [])
  | c :: s' =>
      if bool_decide (c = delim) then ([], s')
      else let '(t, rest) := take_token delim s' in (c :: t, rest)
  end.

Definition strtok (delim : ascii) (s : list ascii) : option (list ascii * list ascii) :=
  match skip_delim delim s with
  | [] => None
  | s' => Some (take_token delim s')
  end.

(** ** atoi: optional white space, an optional sign, decimal digits.  The
    behaviour is undefined when the value does not fit in an [int]. *)
Definition is_space (c : ascii) : bool :=
  (code c =? 32) || ((9 <=? code c) && (code c <=? 13)).
Definition is_digit (c : ascii) : bool := (48 <=? code c) && (code c <=? 57).

Fixpoint skip_space (s : list ascii) : list ascii :=
  match s with
  | [] => []
  | c :: s' => if is_space c then skip_space s' else s
  end.

Fixpoint atoi_digits (acc : Z) (s : list ascii) : Z :=
  match s with
  | [] => acc
  | c :: s' => if is_digit c then atoi_digits (10 * acc + (code c - 48)) s' else acc
  end.

Definition atoi_Z (s : list ascii) : Z :=
  match skip_space s with
  | [] => 0
  | c :: s' =>
      if code c =? 45 then - atoi_digits 0 s'
      else if code c =? 43 then atoi_digits 0 s'
      else atoi_digits 0 (c :: s')
  end.

Definition atoi {S} (s : list ascii) : C S Z := chk (atoi_Z s).

(** ** printf("%d") *)
Definition digit (d : Z) : ascii := chr (48 + d).

Fixpoint dec_digits (fuel : nat) (n : Z) (acc : list ascii) : list ascii :=
  match fuel with
  | O => acc
  | S f => if n <? 10 then digit n :: acc
           else dec_digits f (n / 10) (digit (n mod 10) :: acc)
  end.

(** An [int] has at most ten decimal digits. *)
Definition print_d (n : Z) : list ascii :=
  if n <? 0 then chr 45 :: dec_digits 10 (- n) [] else dec_digits 10 n [].

(** ** Properties *)
Lemma code_digit d : 0 ≤ d < 10 → code (digit d) = 48 + d.
Proof. intros Hd. assert (d = 0 ∨ d = 1 ∨ d = 2 ∨ d = 3 ∨ d = 4 ∨ d = 5 ∨ d = 6 ∨ d = 7 ∨ d = 8 ∨ d = 9) by lia. naive_solver. Qed.

Lemma is_digit_digit d : 0 ≤ d < 10 → is_digit (digit d) = true.
Proof. intros Hd. unfold is_digit. rewrite code_digit by done. lia. Qed.

Lemma is_space_digit d : 0 ≤ d < 10 → is_space (digit d) = false.
Proof. intros Hd. unfold is_space. rewrite code_digit by done. lia. Qed.

Lemma dec_digits_value f n acc a0 :
  0 ≤ n < 10 ^ Z.of_nat f → a0 = 0 →
  atoi_digits a0 (dec_digits f n acc) = atoi_digits n acc.
Proof.
  intros Hn ->. revert n acc Hn. induction f as [|f IH]; intros n acc Hn.
  { assert (n = 0) as -> by (simpl in Hn; lia). done. }
  cbn [dec_digits]. destruct (Z.ltb_spec n 10).
  - simpl. rewrite is_digit_digit, code_digit by lia. f_equal. lia.
  - rewrite Nat2Z.inj_succ, Z.pow_succ_r in Hn by lia.
    rewrite IH.
    + simpl. pose proof (Z.mod_pos_bound n 10). rewrite is_digit_digit, code_digit by lia. f_equal.
      pose proof (Z.div_mod n 10). lia.
    + split; [apply Z.div_pos; lia|]. apply Z.div_lt_upper_bound; lia.
Qed.

(** Printing produces digits only, at least one of them. *)
Lemma dec_digits_digits f n acc :
  0 ≤ n → Forall (λ c, is_digit c = true) acc →
  Forall (λ c, is_digit c = true) (dec_digits f n acc).
Proof.
  revert n acc. induction f as [|f IH]; intros n acc Hn Hacc; [done|].
  cbn [dec_digits]. destruct (Z.ltb_spec n 10); [constructor; [apply is_digit_digit; lia|done]|].
  apply IH; [apply Z.div_pos; lia|]. constructor; [|done].
  apply is_digit_digit, Z.mod_pos_bound. lia.
Qed.

Lemma dec_digits_length f n acc :
  (length (dec_digits f n acc) ≤ f + length acc)%nat.
Proof.
  revert n acc. induction f as [|f IH]; intros n acc; cbn [dec_digits]; [lia|].
  case_match; [simpl; lia|]. etrans; [apply IH|]. simpl. lia.
Qed.

Lemma dec_digits_cons f n acc : ∃ c l, dec_digits (S f) n acc = c :: l.
Proof.
  revert n acc. induction f as [|f IH]; intros n acc; cbn [dec_digits]; case_match; eauto.
Qed.

Lemma dec_digits_short f k n acc :
  (0 < k)%nat → 0 ≤ n < 10 ^ Z.of_nat k → (length (dec_digits f n acc) ≤ k + length acc)%nat.
Proof.
  revert k n acc. induction f as [|f IH]; intros k n acc Hk Hn; cbn [dec_digits]; [lia|].
  destruct (Z.ltb_spec n 10); [simpl; lia|].
  destruct k as [|[|k]]; [lia|change (10 ^ Z.of_nat 1) with 10 in Hn; lia|].
  etrans; [apply (IH (S k)); [lia|]|simpl; lia]. split; [by apply Z.div_pos; lia|].
  apply Z.div_lt_upper_bound; [lia|]. replace (Z.of_nat (S (S k))) with (Z.succ (Z.of_nat (S k))) in Hn by lia.
  rewrite Z.pow_succ_r in Hn by lia. lia.
Qed.

#[global] Arguments dec_digits : simpl never.

(** What [print_d] writes is read back by [atoi], whatever non-digit follows. *)
Lemma atoi_digits_stop l rest :
  match rest with [] => True | c :: _ => is_digit c = false end →
  ∀ a, Forall (λ c, is_digit c = true) l → atoi_digits a (l ++ rest) = atoi_digits a l.
Proof.
  intros Hr a Hl. revert a. induction Hl as [|c l Hc Hl IH]; intros a; simpl.
  - destruct rest; [done|]. simpl. by rewrite Hr.
  - rewrite Hc. apply IH.
Qed.

Lemma digit_not_sign c : is_digit c = true → is_space c = false ∧ code c ≠ 45 ∧ code c ≠ 43.
Proof. unfold is_digit, is_space. lia. Qed.

Lemma atoi_print n rest :
  INT_MIN ≤ n ≤ INT_MAX →
  match rest with [] => True | c :: _ => is_digit c = false end →
  atoi_Z (print_d n ++ rest) = n.
Proof.
  intros Hn Hr. assert (H10 : 10 ^ Z.of_nat 10 = 10000000000) by done.
  unfold print_d, atoi_Z. destruct (Z.ltb_spec n 0).
  - simpl. change (code (chr 45)) with 45. simpl.
    rewrite atoi_digits_stop; [|done|apply dec_digits_digits; [lia|constructor]].
    rewrite dec_digits_value; [simpl; lia|rewrite H10; lia|done].
  - destruct (dec_digits_cons 9 n []) as (c & l & Hd).
    pose proof (dec_digits_digits 10 n [] ltac:(lia) ltac:(constructor)) as HF.
    pose proof (dec_digits_value 10 n [] 0 ltac:(rewrite H10; lia) eq_refl) as Hv.
    rewrite Hd in *. apply Forall_cons in HF as [Hc HF].
    destruct (digit_not_sign _ Hc) as (Hs & H45 & H43). simpl. rewrite Hs.
    destruct (Z.eqb_spec (code c) 45); [done|]. destruct (Z.eqb_spec (code c) 43); [done|].
    rewrite atoi_digits_stop by done. exact Hv.
Qed.

(** ** Lines and terminated strings *)
Definition unlines (lines : list (list ascii)) : list ascii := concat ((λ l, l ++ [NEWLINE]) <$> lines).

Lemma take_line_newline n l rest :
  NEWLINE ∉ l → (length l < n)%nat →
  take_line n (l ++ NEWLINE :: rest) = (l ++ [NEWLINE], rest).
Proof.
  revert n. induction l as [|c l IH]; intros [|n] Hl Hn; cbn [take_line app length] in *; [lia| |lia|].
  - by rewrite bool_decide_true.
  - apply not_elem_of_cons in Hl as [Hc Hl]. rewrite bool_decide_false by done.
    rewrite IH; [done|done|lia].
Qed.

Lemma fgets_line n l rest :
  NEWLINE ∉ l → (length l < Nat.pred n)%nat →
  fgets n (l ++ NEWLINE :: rest) = Some (l ++ [NEWLINE], rest).
Proof.
  intros Hl Hn. rewrite <- (take_line_newline (Nat.pred n) l rest) by done. by destruct l.
Qed.

Lemma strncmp_prefix f b : NUL ∉ f → strncmp_eq (length f) b f = bool_decide (f `prefix_of` b).
Proof.
  revert b. induction f as [|x f IH]; intros b Hf.
  { by rewrite bool_decide_true by apply prefix_nil. }
  apply not_elem_of_cons in Hf as [Hx Hf]. destruct b as [|y b].
  { rewrite bool_decide_false by (by intros ?%prefix_nil_not). done. }
  cbn [length strncmp_eq]. destruct (decide (y = x)) as [->|Hne].
  - rewrite (bool_decide_true (x = x)) by done. rewrite (bool_decide_false (x = NUL)) by (by intros ->).
    cbn [andb orb]. rewrite IH by done. apply bool_decide_ext. split; [apply prefix_cons|apply prefix_cons_inv_2].
  - rewrite (bool_decide_false (y = x)) by done. cbn [andb]. symmetry. apply bool_decide_false.
    intros H%prefix_cons_inv_1. by subst.
Qed.

Lemma cstr_id l : NUL ∉ l → cstr l = l.
Proof.
  induction l as [|c l IH]; simpl; [done|]. intros [Hc Hl]%not_elem_of_cons.
  by rewrite bool_decide_false, IH.
Qed.

Lemma cstr_no_NUL buf : NUL ∉ cstr buf.
Proof.
  induction buf as [|c buf IH]; simpl; [apply not_elem_of_nil|].
  case_bool_decide; [apply not_elem_of_nil|]. rewrite not_elem_of_cons. split; [congruence|done].
Qed.

(** A buffer that holds a terminated string, split at the end of the string. *)
Lemma cstr_split buf : NUL ∈ buf → ∃ rest, buf = cstr buf ++ NUL :: rest.
Proof.
  induction buf as [|c buf IH]; [by intros ?%not_elem_of_nil|]. simpl. intros Hin.
  destruct (decide (c = NUL)) as [->|Hc].
  - rewrite bool_decide_true by done. by exists buf.
  - rewrite bool_decide_false by done. apply elem_of_cons in Hin as [?|Hin]; [congruence|].
    destruct (IH Hin) as [rest Hr]. exists rest. simpl. by rewrite <- Hr.
Qed.

Lemma cstr_app_NUL l rest : NUL ∉ l → cstr (l ++ NUL :: rest) = l.
Proof.
  induction l as [|c l IH]; simpl; [done|]. intros [Hc Hl]%not_elem_of_cons.
  by rewrite bool_decide_false, IH.
Qed.
