(* ===== verification/Parser.v ===== *)
(** * Parser: process-data-file-parser.c

    The process data file has one process per line: start time, process id,
    memory size and job time, separated by single-space delimiters.  The
    scheduled processes are collected in a NULL-terminated array of pointers
    that is doubled when it is full. *)
From Stdlib Require Import Ascii.
From stdpp Require Import prelude gmap.
From S2P Require Import Prelude CMonad Chain State CString.

Definition INITIAL_SCHEDULED_PROCS_MAX_LEN : Z := 4.
Definition SCHEDULED_PROCS_MAX_LEN_GROW_FACTOR : Z := 2.
Definition LINE_MAX_LEN : nat := 100.
Definition TOKEN_DELIMITER : ascii := SPACE.
Definition TOKENS_LEN : nat := 4.

(** ** Arrays of pointers *)
Definition malloc_array (n : Z) : C sim loc :=
  malloc_or_exit (T:=sp_array) (replicate (Z.to_nat n) None).

(** [a = realloc(a, n)], with [exit(1)] when it fails; the cells that were there
    are kept, the new ones are uninitialised. *)
Definition realloc_array (a : loc) (n : Z) : C sim loc :=
  cells ← load (T:=sp_array) (Some a);
  b ← malloc_or_exit (T:=sp_array)
        (take (Z.to_nat n) cells ++ replicate (Z.to_nat n - length cells) None);
  free (T:=sp_array) (Some a);;
  mret b.

(** [a[i] = p] and [a[i]]: undefined out of bounds; reading also when the cell
    is uninitialised. *)
Definition array_set (a : loc) (i : Z) (p : ptr) : C sim () :=
  cells ← load (T:=sp_array) (Some a);
  if bool_decide (0 ≤ i < Z.of_nat (length cells)) then
    store (Some a) (<[Z.to_nat i := Some p]> cells)
  else ub.

Definition array_get (a : loc) (i : Z) : C sim ptr :=
  cells ← load (T:=sp_array) (Some a);
  if bool_decide (0 ≤ i) then
    match cells !! Z.to_nat i with
    | Some (Some p) => mret p
    | _ => ub
    end
  else ub.

(** ** The functions of the file *)
Definition new_scheduled_process (start_time process_id memory_size job_time : Z) : C sim loc :=
  malloc_or_exit (SP start_time process_id memory_size job_time).

(** [tokens[0 .. tokens_count-1]]: [strtok] is called until it returns NULL, and
    at most [n] times. *)
Fixpoint get_tokens (n : nat) (line : list ascii) : list (option (list ascii)) :=
  match n with
  | O => []
  | S n' =>
      match strtok TOKEN_DELIMITER line with
      | None => [None]
      | Some (t, rest) => Some t :: get_tokens n' rest
      end
  end.

(** [atoi(token)]; [atoi(NULL)] is undefined. *)
Definition atoi_token (t : option (list ascii)) : C sim Z :=
  match t with Some t => atoi t | None => ub end.

(** One round of the [while (fgets ...)] loop on the [line] just read. *)
Definition parse_line (line : list ascii) (scheduled_procs : loc)
    (scheduled_procs_len scheduled_procs_max_len : Z) : C sim (loc * Z * Z) :=
  match get_tokens TOKENS_LEN (cstr line) with
  | [t0; t1; t2; t3] =>
      start_time ← atoi_token t0;
      process_id ← atoi_token t1;
      memory_size ← atoi_token t2;
      job_time ← atoi_token t3;
      proc ← new_scheduled_process start_time process_id memory_size job_time;
      '(scheduled_procs, scheduled_procs_max_len) ←
        (if scheduled_procs_len =? scheduled_procs_max_len then
           m ← int_mul scheduled_procs_max_len SCHEDULED_PROCS_MAX_LEN_GROW_FACTOR;
           n ← int_add m 1;
           a ← realloc_array scheduled_procs n;
           mret (a, m)
         else mret (scheduled_procs, scheduled_procs_max_len));
      array_set scheduled_procs scheduled_procs_len (Some proc);;
      len ← int_add scheduled_procs_len 1;
      mret (scheduled_procs, len, scheduled_procs_max_len)
  | _ => mret (scheduled_procs, scheduled_procs_len, scheduled_procs_max_len)
  end.

Definition parse_process_data_file (fp : list ascii) : C sim loc :=
  scheduled_procs ← malloc_array (INITIAL_SCHEDULED_PROCS_MAX_LEN + 1);
  '(scheduled_procs, scheduled_procs_len) ←
    iter (S (length fp)) (λ '(fp, scheduled_procs, len, max_len),
      match fgets LINE_MAX_LEN fp with
      | None => mret (inr (scheduled_procs, len))
      | Some (line, fp') =>
          '(scheduled_procs, len, max_len) ← parse_line line scheduled_procs len max_len;
          mret (inl (fp', scheduled_procs, len, max_len))
      end) (fp, scheduled_procs, 0, INITIAL_SCHEDULED_PROCS_MAX_LEN);
  array_set scheduled_procs scheduled_procs_len NULL;;
  mret scheduled_procs.

(** The loop runs once per array entry; the array is its own bound. *)
Definition free_scheduled_processes (sps : loc) : C sim () :=
  cells ← load (T:=sp_array) (Some sps);
  iter (S (length cells)) (λ i,
    sp ← array_get sps i;
    match sp with
    | None => mret (inr ())
    | Some _ =>
        free (T:=scheduled_process_t) sp;;
        i ← int_add i 1;
        mret (inl i)
    end) 0;;
  free (T:=sp_array) (Some sps).
