(* ===== verification/ParserRefine.v ===== *)
(** * ParserRefine: what the process data file means

    [file_procs] reads the contents of a file as a list of processes, line by
    line; the parser builds the NULL-terminated array of exactly those
    processes, inside the bounds of the array it grows. *)
From Stdlib Require Import Ascii.
From stdpp Require Import prelude gmap.
From S2P Require Import Prelude CMonad Chain State CString Parser.

(** ** Specification *)
Inductive line_result := Skipped | Bad | Process (p : scheduled_process_t).

(** The value of a number token. *)
Definition int_token (t : list ascii) : option Z :=
  let z := atoi_Z t in if in_int z then Some z else None.

(** A line of fewer than three tokens is skipped; of three, it is malformed. *)
Definition read_line (line : list ascii) : line_result :=
  match get_tokens TOKENS_LEN (cstr line) with
  | [Some t0; Some t1; Some t2; Some t3] =>
      match int_token t0, int_token t1, int_token t2, int_token t3 with
      | Some a, Some b, Some c, Some d => Process (SP a b c d)
      | _, _, _, _ => Bad
      end
  | [_; _; _; _] => Bad
  | _ => Skipped
  end.

(** The lines of a file, as [fgets] delivers them; [n] bounds their number. *)
Fixpoint file_lines (n : nat) (fp : list ascii) : list (list ascii) :=
  match n with
  | O => []
  | S n' => match fgets LINE_MAX_LEN fp with
            | None => []
            | Some (line, fp') => line :: file_lines n' fp'
            end
  end.

Fixpoint lines_procs (ls : list (list ascii)) : option (list scheduled_process_t) :=
  match ls with
  | [] => Some []
  | l :: ls' =>
      match read_line l with
      | Skipped => lines_procs ls'
      | Bad => None
      | Process p => cons p <$> lines_procs ls'
      end
  end.

Definition file_procs (fp : list ascii) : option (list scheduled_process_t) :=
  lines_procs (file_lines (length fp) fp).

(** ** The array of processes *)

(** The scheduled processes [ps] as the parser leaves them: an array of
    pointers ended by NULL. *)
Definition sp_rep (arr : loc) (ps : list scheduled_process_t) (s : sim) : Prop :=
  ∃ (ls : list loc) junk,
    sp_arrays s = {[ arr := ((λ l, Some (Some l)) <$> ls) ++ Some NULL :: junk ]} ∧
    Forall2 (λ l p, sps s !! l = Some p) ls ps ∧
    NoDup ls ∧ dom (sps s) = list_to_set ls.

Lemma wp_array_get arr ps1 ps2 k Q s :
  sp_rep arr (ps1 ++ ps2) s → k = Z.of_nat (length ps1) →
  (match ps2 with
   | [] => Q NULL s
   | p :: _ => ∀ l, sps s !! l = Some p → Q (Some l) s
   end) →
  wp (array_get arr k) Q s.
Proof.
  intros (ls & junk & Ha & HF & _) -> HQ. apply wp_bind. eapply wp_load.
  { simpl. rewrite Ha. apply lookup_singleton_eq. }
  rewrite bool_decide_true by lia. rewrite Nat2Z.id.
  apply Forall2_app_inv_r in HF as (ls1 & ls2 & HF1 & HF2 & ->).
  apply Forall2_length in HF1. rewrite fmap_app, <- app_assoc, lookup_app_r;
    rewrite length_fmap, HF1; [|done]. rewrite Nat.sub_diag.
  destruct HF2 as [|l p ls2 ps2 Hl HF2]; simpl; apply wp_ret; auto.
Qed.


(** The array while it is being filled: [max + 1] cells, the first of them in
    use. *)
Definition cells_of (ls : list loc) (max : Z) : sp_array :=
  ((λ l, Some (Some l)) <$> ls) ++ replicate (Z.to_nat (max + 1) - length ls) None.

Definition filling (arr : loc) (max : Z) (ps : list scheduled_process_t) (s : sim) : Prop :=
  ∃ ls : list loc,
    sp_arrays s = {[ arr := cells_of ls max ]} ∧
    Forall2 (λ l p, sps s !! l = Some p) ls ps ∧
    NoDup ls ∧ dom (sps s) = list_to_set ls ∧ Z.of_nat (length ls) ≤ max.

(** [s'] differs from [s] in the scheduled processes only. *)
Definition sp_frame (s s' : sim) : Prop := ∃ h ha, s' = set_sp_arrays ha (set_sps h s).

#[export] Instance sp_frame_preorder : PreOrder sp_frame.
Proof.
  split.
  - intros s. exists (sps s), (sp_arrays s). by destruct s.
  - intros s1 s2 s3 (h & ha & ->) (h' & ha' & ->). by exists h', ha'.
Qed.

Lemma wp_array_set arr cells i p (Q : () → sim → Prop) s :
  sp_arrays s !! arr = Some cells → 0 ≤ i < Z.of_nat (length cells) →
  Q () (set_sp_arrays (<[arr:=<[Z.to_nat i := Some p]> cells]> (sp_arrays s)) s) →
  wp (array_set arr i p) Q s.
Proof.
  intros Ha Hi HQ. apply wp_bind. eapply wp_load; [exact Ha|].
  rewrite bool_decide_true by done. by eapply wp_store.
Qed.

Lemma cells_of_length ls max :
  Z.of_nat (length ls) ≤ max → length (cells_of ls max) = Z.to_nat (max + 1).
Proof.
  intros Hle. unfold cells_of. rewrite length_app, length_fmap, length_replicate. lia.
Qed.

Lemma set_next_cell ls x max :
  Z.of_nat (length ls) ≤ max →
  <[length ls := x]> (cells_of ls max) =
  ((λ l, Some (Some l)) <$> ls) ++ x :: replicate (Z.to_nat (max + 1) - S (length ls)) None.
Proof.
  intros Hle. unfold cells_of.
  replace (Z.to_nat (max + 1) - length ls)%nat
    with (S (Z.to_nat (max + 1) - S (length ls))) by lia.
  rewrite <- (length_fmap (λ l : loc, Some (Some l)) ls) at 1.
  rewrite <- (Nat.add_0_r (length (_ <$> ls))) at 1. by rewrite insert_app_r.
Qed.

Lemma push_cell ls (l : loc) max :
  Z.of_nat (length ls) < max →
  <[length ls := Some (Some l)]> (cells_of ls max) = cells_of (ls ++ [l]) max.
Proof.
  intros Hlt. rewrite set_next_cell by lia. unfold cells_of.
  rewrite fmap_app, <- app_assoc, length_app. simpl. do 3 f_equal. lia.
Qed.

(** Doubling the array keeps its contents. *)
Lemma wp_grow arr ls max Q s :
  sp_arrays s = {[ arr := cells_of ls max ]} → Z.of_nat (length ls) ≤ max →
  sim_faults s = [] →
  (∀ b, Q b (set_sp_arrays {[ b := cells_of ls (max * 2) ]} s)) →
  wp (realloc_array arr (max * 2 + 1)) Q s.
Proof.
  intros Ha Hle Hft HQ.
  apply wp_bind. eapply wp_load; [simpl; rewrite Ha; apply lookup_singleton_eq|].
  apply wp_bind, wp_malloc; [done|]. intros b Hb. simpl in Hb. rewrite Ha in Hb.
  apply lookup_singleton_None in Hb. apply wp_bind. eapply wp_free.
  { simpl. rewrite Ha, lookup_insert_ne by done. apply lookup_singleton_eq. }
  apply wp_ret. simpl. rewrite Ha, delete_insert_ne by done.
  rewrite delete_singleton_eq, insert_empty, take_ge; rewrite cells_of_length by done; [|lia].
  replace (cells_of ls max ++ replicate (Z.to_nat (max * 2 + 1) - Z.to_nat (max + 1)) None)
    with (cells_of ls (max * 2)); [apply HQ|].
  unfold cells_of. rewrite <- app_assoc, <- replicate_add. do 2 f_equal. lia.
Qed.

(** The processes a line adds. *)
Definition line_procs (r : line_result) : list scheduled_process_t :=
  match r with Process p => [p] | _ => [] end.

Lemma wp_int_token t z Q s : int_token t = Some z → Q z s → wp (atoi_token (Some t)) Q s.
Proof.
  unfold int_token. simpl. unfold atoi, chk. destruct (in_int (atoi_Z t)); [|done].
  intros [= <-]. done.
Qed.

(** Storing the new process [l], in an array that is doubled when it is full. *)
Lemma wp_push_process arr ls max (l : loc) s :
  sp_arrays s = {[ arr := cells_of ls max ]} → Z.of_nat (length ls) ≤ max →
  sim_faults s = [] → 0 < max → 2 * Z.of_nat (length ls) + 1 ≤ INT_MAX →
  wp ('(scheduled_procs, scheduled_procs_max_len) ←
        (if Z.of_nat (length ls) =? max then
           m ← int_mul max SCHEDULED_PROCS_MAX_LEN_GROW_FACTOR;
           n ← int_add m 1;
           a ← realloc_array arr n;
           mret (a, m)
         else mret (arr, max));
      array_set scheduled_procs (Z.of_nat (length ls)) (Some l);;
      len ← int_add (Z.of_nat (length ls)) 1;
      mret (scheduled_procs, len, scheduled_procs_max_len))
    (λ '(arr', len, max') s', 0 < max' ∧ len = Z.of_nat (length (ls ++ [l])) ∧
       Z.of_nat (length (ls ++ [l])) ≤ max' ∧
       s' = set_sp_arrays {[ arr' := cells_of (ls ++ [l]) max' ]} s) s.
Proof.
  intros Ha Hle Hft Hm Hlen. apply wp_bind.
  eapply wp_mono with (P := λ '(arr', max') s', 0 < max' ∧ Z.of_nat (length ls) < max' ∧
    s' = set_sp_arrays {[ arr' := cells_of ls max' ]} s).
  - destruct (Z.eqb_spec (Z.of_nat (length ls)) max) as [E|E].
    + unfold SCHEDULED_PROCS_MAX_LEN_GROW_FACTOR. do 2 (apply wp_bind; wp_step).
      apply wp_bind. eapply wp_grow; [done..|]. intros b. apply wp_ret. split; [lia|]. split; [lia|done].
    + apply wp_ret. split; [done|]. split; [lia|]. rewrite <- Ha. by destruct s.
  - intros [arr' max'] s1 (Hm' & Hlt & ->). apply wp_bind. eapply wp_array_set.
    { apply lookup_singleton_eq. }
    { rewrite cells_of_length by lia. lia. }
    apply wp_bind. wp_step. apply wp_ret. rewrite Nat2Z.id, push_cell by done.
    rewrite length_app. simpl. split; [done|]. split; [lia|]. split; [lia|].
    by rewrite insert_singleton_eq.
Qed.

Lemma wp_parse_line line arr max ps s :
  filling arr max ps s → sim_faults s = [] → 0 < max → read_line line ≠ Bad →
  2 * Z.of_nat (length (ps ++ line_procs (read_line line))) ≤ INT_MAX + 1 →
  wp (parse_line line arr (Z.of_nat (length ps)) max)
    (λ '(arr', len, max') s', sp_frame s s' ∧ 0 < max' ∧
       filling arr' max' (ps ++ line_procs (read_line line)) s' ∧
       len = Z.of_nat (length (ps ++ line_procs (read_line line)))) s.
Proof.
  intros Hfill Hft Hm. unfold read_line, parse_line.
  destruct (get_tokens TOKENS_LEN (cstr line)) as [|[t0|] [|[t1|] [|[t2|] [|[t3|] [|]]]]];
    simpl; try done;
    try (intros _ _; apply wp_ret; rewrite app_nil_r; split; [reflexivity|done]).
  destruct (int_token t0) as [z0|] eqn:E0; [|done]. destruct (int_token t1) as [z1|] eqn:E1; [|done].
  destruct (int_token t2) as [z2|] eqn:E2; [|done]. destruct (int_token t3) as [z3|] eqn:E3; [|done].
  intros _ Hlen. rewrite length_app in Hlen. simpl in Hlen.
  do 4 (apply wp_bind; eapply wp_int_token; [done|]).
  apply wp_bind, wp_malloc; [done|]. intros l Hl. simpl in Hl |- *. set (s1 := set_sps _ s).
  destruct Hfill as (ls & Ha & HF & Hnd & Hd & Hle). pose proof (Forall2_length _ _ _ HF) as HL.
  rewrite <- HL in *. eapply wp_mono; [eapply (wp_push_process arr ls max l s1); try done; lia|].
  intros [[arr' len] max'] s' (Hm' & -> & Hle' & ->). split; [by eexists _, _|]. split; [done|].
  split; [|by rewrite !length_app, HL].
  assert (Hnl : l ∉ ls).
  { rewrite <- not_elem_of_dom, Hd, elem_of_list_to_set in Hl. done. }
  exists (ls ++ [l]). split; [done|]. simpl. split; [|split; [|split; [|done]]].
  - apply Forall2_app; [|repeat constructor; apply lookup_insert_eq].
    apply Forall2_same_length_lookup. split; [done|]. intros i x y Hx Hy.
    rewrite lookup_insert_ne; [by eapply (Forall2_lookup_lr _ _ _ _ _ _ HF)|].
    intros ->. apply Hnl. by eapply list_elem_of_lookup_2.
  - apply NoDup_app. split; [done|]. split; [|apply NoDup_singleton]. set_solver.
  - rewrite dom_insert_L, Hd, list_to_set_app_L. set_solver.
Qed.

(** ** Reading the file *)
Lemma take_line_app n input : (take_line n input).1 ++ (take_line n input).2 = input.
Proof.
  revert input. induction n as [|n IH]; intros [|c input]; simpl; [done..|].
  case_bool_decide; [done|]. specialize (IH input). destruct (take_line n input). simpl in *. by f_equal.
Qed.

Lemma fgets_shorter n fp line fp' :
  fgets (S (S n)) fp = Some (line, fp') → (length fp' < length fp)%nat.
Proof.
  destruct fp as [|c fp]; [done|]. unfold fgets. intros [= Ht].
  simpl in Ht. pose proof (take_line_app n fp) as Hl.
  destruct (bool_decide (c = NEWLINE)); [injection Ht as <- <-; simpl; lia|].
  destruct (take_line n fp) as [l r]. injection Ht as <- <-. simpl in Hl.
  rewrite <- Hl. simpl. rewrite length_app. lia.
Qed.

Lemma file_lines_fuel m n fp :
  (length fp ≤ n ≤ m)%nat → file_lines m fp = file_lines n fp.
Proof.
  revert n fp. induction m as [|m IH]; intros [|n] fp Hn; [done|lia| |].
  - destruct fp; [done|]. simpl in Hn. lia.
  - cbn [file_lines]. destruct (fgets LINE_MAX_LEN fp) as [[line fp']|] eqn:E; [|done].
    f_equal. apply IH. apply fgets_shorter in E. lia.
Qed.

Lemma file_procs_step fp line fp' :
  fgets LINE_MAX_LEN fp = Some (line, fp') →
  file_procs fp = match read_line line with
                  | Skipped => file_procs fp'
                  | Bad => None
                  | Process p => cons p <$> file_procs fp'
                  end.
Proof.
  intros E. pose proof (fgets_shorter _ _ _ _ E) as Hlt. unfold file_procs.
  destruct (length fp) as [|n] eqn:En; [lia|]. cbn [file_lines]. rewrite E. cbn [lines_procs].
  rewrite (file_lines_fuel n (length fp')) by lia. done.
Qed.

Lemma wp_parse fp ps s :
  file_procs fp = Some ps → 2 * Z.of_nat (length ps) ≤ INT_MAX + 1 →
  sim_faults s = [] → sps s = ∅ → sp_arrays s = ∅ →
  wp (parse_process_data_file fp) (λ arr s', sp_frame s s' ∧ sp_rep arr ps s') s.
Proof.
  intros Hps Hlen Hft Hsps Harr. apply wp_bind, wp_malloc; [done|]. intros a0 _. simpl.
  apply wp_bind. eapply wp_mono.
  - apply (wp_iter_idx (λ k '(fp', arr, len, max) s', k = length fp' ∧ sp_frame s s' ∧
      ∃ ps1 ps2, ps = ps1 ++ ps2 ∧ len = Z.of_nat (length ps1) ∧ 0 < max ∧
        filling arr max ps1 s' ∧ file_procs fp' = Some ps2))
      with (k := length fp) (Q := λ '(arr, len) s', sp_frame s s' ∧ len = Z.of_nat (length ps) ∧
        ∃ max, filling arr max ps s'); [| |lia].
    + intros k [[[fp' arr] len] max] s' (-> & Hfr & ps1 & ps2 & -> & -> & Hm & Hfill & Hps2).
      destruct (fgets LINE_MAX_LEN fp') as [[line fp'']|] eqn:E.
      * pose proof (file_procs_step _ _ _ E) as Hstep. rewrite Hps2 in Hstep.
        assert (Hft' : sim_faults s' = []) by by destruct Hfr as (h & ha & ->).
        assert (∃ ps2', file_procs fp'' = Some ps2' ∧ ps2 = line_procs (read_line line) ++ ps2' ∧
                  read_line line ≠ Bad) as (ps2' & Hps2' & -> & Hbad).
        { destruct (read_line line); simpl; [by exists ps2|done|].
          destruct (file_procs fp'') as [q|]; [|done]. injection Hstep as ->. by exists q. }
        apply wp_bind. eapply wp_mono; [eapply wp_parse_line; [done..|]|].
        { rewrite !length_app in *. lia. }
        intros [[arr' len'] max'] s2 (Hfr2 & Hm2 & Hfill2 & ->). apply wp_ret.
        exists (length fp''). split; [by eapply fgets_shorter|]. split; [done|]. split; [by etrans|].
        eexists _, ps2'. by rewrite <- app_assoc.
      * apply wp_ret. destruct fp'; [|done]. injection Hps2 as <-. rewrite app_nil_r.
        split; [done|]. split; [done|]. by exists max.
    + split; [done|]. split; [by eexists _, _|]. exists [], ps. do 3 (split; [done|]).
      split; [|done]. exists []. simpl. rewrite Harr, Hsps, insert_empty. split; [done|].
      split; [done|]. split; [constructor|]. split; [by rewrite dom_empty_L|done].
  - intros [arr len] s1 (Hfr & -> & max & ls & Ha & HF & Hnd & Hd & Hle).
    pose proof (Forall2_length _ _ _ HF) as HL. apply wp_bind. eapply wp_array_set.
    { rewrite Ha. apply lookup_singleton_eq. }
    { rewrite cells_of_length by lia. lia. }
    apply wp_ret. split.
    { destruct Hfr as (h & ha & ->). by eexists _, _. }
    eexists ls, _. simpl. split; [|done]. rewrite Ha, insert_singleton_eq, Nat2Z.id, <- HL.
    by rewrite set_next_cell by done.
Qed.

(** ** Releasing it *)
Lemma wp_free_sps arr ps s :
  sp_rep arr ps s → Z.of_nat (length ps) ≤ INT_MAX →
  wp (free_scheduled_processes arr) (λ _ s', s' = set_sp_arrays ∅ (set_sps ∅ s)) s.
Proof.
  intros (ls & junk & Ha & HF & Hnd & Hd) Hlen. pose proof (Forall2_length _ _ _ HF) as HL.
  apply wp_bind. eapply wp_load; [simpl; rewrite Ha; apply lookup_singleton_eq|].
  apply wp_bind. eapply wp_mono.
  - apply (wp_iter_idx (λ k i s', ∃ ls1 ls2 h, ls = ls1 ++ ls2 ∧ k = length ls2 ∧
      i = Z.of_nat (length ls1) ∧ s' = set_sps h s ∧ dom h = list_to_set ls2))
      with (k := length ls) (Q := λ _ s', s' = set_sps ∅ s).
    + intros k i s' (ls1 & ls2 & h & -> & -> & -> & -> & Hh).
      apply wp_bind. apply wp_bind. eapply wp_load; [simpl; rewrite Ha; apply lookup_singleton_eq|].
      rewrite bool_decide_true by lia. rewrite Nat2Z.id, fmap_app, <- app_assoc, lookup_app_r;
        rewrite length_fmap; [|lia]. rewrite Nat.sub_diag. destruct ls2 as [|l ls2]; simpl.
      * apply wp_ret, wp_ret. apply dom_empty_inv_L in Hh. by rewrite Hh.
      * apply wp_ret. assert (is_Some (h !! l)) as [p Hp] by (apply elem_of_dom; set_solver).
        apply wp_bind. eapply wp_free; [exact Hp|]. rewrite length_app in HL. simpl in HL.
        apply wp_bind. wp_step. apply wp_ret. exists (length ls2). split; [simpl; lia|].
        exists (ls1 ++ [l]), ls2, (delete l h). rewrite <- app_assoc, length_app. simpl.
        do 2 (split; [done|]). split; [lia|]. split; [done|].
        apply NoDup_app in Hnd as (_ & _ & Hnd). apply NoDup_cons in Hnd as [Hnl _].
        rewrite dom_delete_L, Hh, list_to_set_cons. set_solver.
    + exists [], ls, (sps s). do 3 (split; [done|]). split; [by destruct s|done].
    + rewrite !length_app, length_fmap. lia.
  - intros [] s' ->. eapply wp_free; [simpl; rewrite Ha; apply lookup_singleton_eq|].
    simpl. by rewrite Ha, delete_singleton_eq.
Qed.
