(* ===== verification/ParserPrint.v ===== *)
(** * ParserPrint: writing a process data file and reading it back

    [print_procs] writes processes in the format of the data files under
    [project1/tests]: four numbers a line, one space apart.  The parser reads
    back exactly the processes that were written. *)
From Stdlib Require Import Ascii.
From stdpp Require Import prelude.
From S2P Require Import Prelude CMonad State CString Parser ParserRefine.

Definition print_proc (p : scheduled_process_t) : list ascii :=
  print_d (sp_start_time p) ++ SPACE :: print_d (sp_process_id p) ++ SPACE ::
  print_d (sp_memory_size p) ++ SPACE :: print_d (sp_job_time p).

Definition print_procs (ps : list scheduled_process_t) : list ascii :=
  concat ((λ p, print_proc p ++ [NEWLINE]) <$> ps).

Definition int_proc (p : scheduled_process_t) : Prop :=
  INT_MIN ≤ sp_start_time p ≤ INT_MAX ∧ INT_MIN ≤ sp_process_id p ≤ INT_MAX ∧
  INT_MIN ≤ sp_memory_size p ≤ INT_MAX ∧ INT_MIN ≤ sp_job_time p ≤ INT_MAX.

(** A character of a number: neither NUL nor white space. *)
Definition numeral (c : ascii) : Prop := is_digit c = true ∨ code c = 45.

Lemma numeral_not c : numeral c → c ≠ NUL ∧ c ≠ NEWLINE ∧ c ≠ SPACE.
Proof.
  intros Hc. repeat split; intros ->; destruct Hc as [Hc|Hc]; vm_compute in Hc; done.
Qed.

Lemma print_d_numeral n : Forall numeral (print_d n).
Proof.
  assert (Hd : ∀ m, 0 ≤ m → Forall numeral (dec_digits 10 m [])).
  { intros m Hm. eapply Forall_impl; [by apply dec_digits_digits; [|constructor]|]. by left. }
  unfold print_d. destruct (Z.ltb_spec n 0).
  - constructor; [by right|]. apply Hd. lia.
  - by apply Hd.
Qed.

Lemma print_d_bounds n : (0 < length (print_d n) ≤ 11)%nat.
Proof.
  unfold print_d. destruct (n <? 0).
  - pose proof (dec_digits_length 10 (- n) []). simpl in *. lia.
  - pose proof (dec_digits_length 10 n []). destruct (dec_digits_cons 9 n []) as (c & l & E).
    rewrite E in *. simpl in *. lia.
Qed.

(** ** The library functions on such text *)
Lemma take_token_delim d t rest : d ∉ t → take_token d (t ++ d :: rest) = (t, rest).
Proof.
  induction t as [|c t IH]; simpl; [by rewrite bool_decide_true|].
  intros [Hc Ht]%not_elem_of_cons. by rewrite bool_decide_false, IH.
Qed.

Lemma take_token_end d t : d ∉ t → take_token d t = (t, []).
Proof.
  induction t as [|c t IH]; simpl; [done|].
  intros [Hc Ht]%not_elem_of_cons. by rewrite bool_decide_false, IH.
Qed.

Lemma skip_delim_id d t rest : t ≠ [] → d ∉ t → skip_delim d (t ++ rest) = t ++ rest.
Proof.
  destruct t as [|c t]; [done|]. simpl. intros _ [Hc _]%not_elem_of_cons.
  by rewrite bool_decide_false.
Qed.

Lemma strtok_delim d t rest : t ≠ [] → d ∉ t → strtok d (t ++ d :: rest) = Some (t, rest).
Proof.
  intros Hne Ht. unfold strtok. rewrite skip_delim_id by done.
  destruct (t ++ d :: rest) eqn:E; [by destruct t|]. by rewrite <- E, take_token_delim.
Qed.

Lemma strtok_end d t : t ≠ [] → d ∉ t → strtok d t = Some (t, []).
Proof.
  intros Hne Ht. unfold strtok. pose proof (skip_delim_id d t [] Hne Ht) as Hs.
  rewrite app_nil_r in Hs. rewrite Hs. destruct t as [|c t]; [done|].
  by rewrite take_token_end.
Qed.

Lemma numerals_without c l : Forall numeral l → ¬ numeral c → c ∉ l.
Proof. rewrite Forall_forall. intros Hl Hc Hin. by apply Hc, Hl. Qed.

Lemma delim_not_numeral : ¬ numeral NUL ∧ ¬ numeral NEWLINE ∧ ¬ numeral SPACE.
Proof. repeat split; intros Hc%numeral_not; tauto. Qed.

Lemma print_d_ne n : print_d n ≠ [].
Proof. pose proof (print_d_bounds n). by destruct (print_d n); simpl in *; [lia|]. Qed.

Lemma int_token_print n rest :
  INT_MIN ≤ n ≤ INT_MAX → match rest with [] => True | c :: _ => is_digit c = false end →
  int_token (print_d n ++ rest) = Some n.
Proof.
  intros Hn Hr. unfold int_token. rewrite atoi_print by done. by rewrite (proj2 (in_int_spec n)).
Qed.

(** ** The round trip *)
Lemma read_print p : int_proc p → read_line (print_proc p ++ [NEWLINE]) = Process p.
Proof.
  intros (H0 & H1 & H2 & H3). destruct delim_not_numeral as (Hnul & Hnl & Hsp).
  assert (Hn : ∀ n c, ¬ numeral c → c ∉ print_d n).
  { intros n c. apply numerals_without, print_d_numeral. }
  assert (Hne : ∀ n, print_d n ≠ []) by apply print_d_ne.
  unfold read_line, print_proc. rewrite cstr_id; last first.
  { rewrite !not_elem_of_app, !not_elem_of_cons, !not_elem_of_app, !not_elem_of_cons,
      !not_elem_of_app, !not_elem_of_cons. repeat split; auto using not_elem_of_nil; by vm_compute. }
  repeat first [rewrite <- app_assoc | progress cbn [app]].
  unfold TOKENS_LEN, TOKEN_DELIMITER. cbn [get_tokens].
  do 3 (rewrite strtok_delim by auto; cbn [get_tokens]).
  rewrite strtok_end; [|by destruct (print_d (sp_job_time p))|].
  2: { rewrite not_elem_of_app. split; [by apply Hn|by vm_compute; set_solver]. }
  assert (Hd : ∀ n, INT_MIN ≤ n ≤ INT_MAX → int_token (print_d n) = Some n).
  { intros n ?. rewrite <- (app_nil_r (print_d n)). by apply int_token_print. }
  rewrite !Hd, int_token_print by done. by destruct p.
Qed.

Lemma print_proc_line p :
  NEWLINE ∉ print_proc p ∧ (length (print_proc p) < 99)%nat.
Proof.
  destruct delim_not_numeral as (_ & Hnl & _).
  assert (Hn : ∀ n, NEWLINE ∉ print_d n).
  { intros n. apply numerals_without; [apply print_d_numeral|done]. }
  unfold print_proc. split.
  - rewrite !not_elem_of_app, !not_elem_of_cons, !not_elem_of_app, !not_elem_of_cons,
      !not_elem_of_app, !not_elem_of_cons. repeat split; auto; by vm_compute.
  - rewrite !length_app. simpl. rewrite !length_app. simpl. rewrite !length_app. simpl.
    pose proof (print_d_bounds (sp_start_time p)). pose proof (print_d_bounds (sp_process_id p)).
    pose proof (print_d_bounds (sp_memory_size p)). pose proof (print_d_bounds (sp_job_time p)). lia.
Qed.

Lemma file_procs_print ps : Forall int_proc ps → file_procs (print_procs ps) = Some ps.
Proof.
  induction 1 as [|p ps Hp Hps IH]; [done|].
  destruct (print_proc_line p) as [Hnl Hlen].
  rewrite (file_procs_step _ (print_proc p ++ [NEWLINE]) (print_procs ps)); last first.
  { unfold fgets. change (print_procs (p :: ps)) with ((print_proc p ++ [NEWLINE]) ++ print_procs ps).
    rewrite <- app_assoc. cbn [app].
    pose proof (take_line_newline (Nat.pred LINE_MAX_LEN) (print_proc p) (print_procs ps) Hnl Hlen) as Ht.
    revert Ht. by destruct (print_proc p ++ NEWLINE :: print_procs ps) eqn:E; [destruct (print_proc p)|intros ->]. }
  rewrite read_print by done. by rewrite IH.
Qed.
