(* ===== verification/Scheduler.v ===== *)
(** * Scheduler: process-scheduler.c

    Process control blocks, the ready queues, and the two simulation loops:
    first come first served, and the multi-level feedback queue. *)
From Stdlib Require Import Ascii.
From stdpp Require Import prelude gmap.
From S2P Require Import Prelude CMonad Chain State MemoryManagement CString Parser.

Definition MIN_PRIORITY : Z := 3.
Definition Q1_QUANTUM : Z := 2.
Definition Q2_QUANTUM : Z := 4.
Definition Q3_QUANTUM : Z := 8.

(** Field assignments. *)
Definition set_pcb_state st v :=
  Pcb (pcb_process_id v) st (pcb_process_memory v) (pcb_priority v)
      (pcb_job_time v) (pcb_burst_time v) (pcb_cpu_time v).
Definition set_pcb_memory m v :=
  Pcb (pcb_process_id v) (pcb_process_state v) m (pcb_priority v)
      (pcb_job_time v) (pcb_burst_time v) (pcb_cpu_time v).
Definition set_pcb_priority p v :=
  Pcb (pcb_process_id v) (pcb_process_state v) (pcb_process_memory v) p
      (pcb_job_time v) (pcb_burst_time v) (pcb_cpu_time v).
Definition set_pcb_burst b v :=
  Pcb (pcb_process_id v) (pcb_process_state v) (pcb_process_memory v) (pcb_priority v)
      (pcb_job_time v) b (pcb_cpu_time v).
Definition set_pcb_cpu c v :=
  Pcb (pcb_process_id v) (pcb_process_state v) (pcb_process_memory v) (pcb_priority v)
      (pcb_job_time v) (pcb_burst_time v) c.

Definition pcb_set_next (p q : ptr) : C sim () := set_next (V:=pcb) p q.

(** ** Process control blocks and queues *)
Definition new_process_control_block (process_id memory_size job_time : Z)
    (proc_mems_list : loc) : C sim loc :=
  p ← malloc_or_exit (T:=process_control_block_t)
        (Node NULL (Pcb process_id ready NULL 1 job_time 0 0));
  process_memory ← new_process_memory memory_size process_id;
  set_data (V:=pcb) (Some p) (set_pcb_memory (Some process_memory));;
  add_process_memory_to_process_memories_list (Some process_memory) proc_mems_list;;
  mret p.

Definition new_process_control_block_by_scheduled_process (sp : ptr)
    (proc_mems_list : loc) : C sim loc :=
  v ← load (T:=scheduled_process_t) sp;
  new_process_control_block (sp_process_id v) (sp_memory_size v) (sp_job_time v) proc_mems_list.

Definition new_pcbs_queue : C sim loc := malloc_or_exit (Queue NULL).
Definition new_pcbs_list : C sim loc := new_pcbs_queue.

Definition add_pcb_to_pcbs_queue (p : loc) (pcbs_queue : loc) : C sim () :=
  q ← load (T:=pcbs_queue_t) (Some pcbs_queue);
  match q_head q with
  | None => store (Some pcbs_queue) (Queue (Some p))
  | Some _ =>
      v ← load (T:=process_control_block_t) (Some p);
      '(prev_pcb, curr_pcb) ←
        scan (V:=pcb) (λ c,
          (pcb_priority (data v) <? pcb_priority c) ||
          ((pcb_priority (data v) =? pcb_priority c) &&
           (pcb_process_id (data v) <? pcb_process_id c))) (q_head q);
      match curr_pcb with
      | Some _ =>
          if bool_decide (curr_pcb = q_head q) then
            store (Some pcbs_queue) (Queue (Some p));;
            pcb_set_next (Some p) curr_pcb
          else
            pcb_set_next prev_pcb (Some p);;
            pcb_set_next (Some p) curr_pcb
      | None =>
          pcb_set_next prev_pcb (Some p);;
          pcb_set_next (Some p) curr_pcb
      end
  end.

Definition pop_front_pcb_from_pcbs_queue (pcbs_queue : loc) : C sim ptr :=
  q ← load (T:=pcbs_queue_t) (Some pcbs_queue);
  match q_head q with
  | Some _ =>
      p ← load (T:=process_control_block_t) (q_head q);
      store (Some pcbs_queue) (Queue (next p));;
      mret (q_head q)
  | None => mret NULL
  end.

Definition append_pcb_to_pcbs_list (p : loc) (pcbs_list : loc) : C sim () :=
  q ← load (T:=pcbs_queue_t) (Some pcbs_list);
  match q_head q with
  | None => store (Some pcbs_list) (Queue (Some p))
  | Some _ =>
      '(prev_pcb, curr_pcb) ← scan (V:=pcb) (λ _, false) (q_head q);
      pcb_set_next prev_pcb (Some p);;
      pcb_set_next (Some p) curr_pcb
  end.

Definition pop_front_pcb_from_pcbs_list (pcbs_list : loc) : C sim ptr :=
  pop_front_pcb_from_pcbs_queue pcbs_list.

Definition load_pcb (p : loc) (time : Z) (proc_mems_list mem_segs_list : loc) : C sim () :=
  v ← load (T:=process_control_block_t) (Some p);
  d ← is_process_memory_in_disk (pcb_process_memory (data v));
  (if (d : bool) then
     swap_in_process_memory (pcb_process_memory (data v)) time proc_mems_list mem_segs_list
   else mret ());;
  pcb_set_next (Some p) NULL;;
  set_data (V:=pcb) (Some p) (set_pcb_state running);;
  set_data (V:=pcb) (Some p) (set_pcb_burst 0).

Definition run_pcb (p : loc) : C sim () :=
  v ← load (T:=process_control_block_t) (Some p);
  b ← int_add (pcb_burst_time (data v)) 1;
  set_data (V:=pcb) (Some p) (set_pcb_burst b);;
  c ← int_add (pcb_cpu_time (data v)) 1;
  set_data (V:=pcb) (Some p) (set_pcb_cpu c).

Definition preempt_pcb (p : loc) : C sim () :=
  set_data (V:=pcb) (Some p) (set_pcb_state ready).

Definition ready_and_decrease_priority_pcb (p : loc) : C sim () :=
  v ← load (T:=process_control_block_t) (Some p);
  q ← int_add (pcb_priority (data v)) 1;
  set_data (V:=pcb) (Some p) (set_pcb_priority (if MIN_PRIORITY <? q then MIN_PRIORITY else q));;
  set_data (V:=pcb) (Some p) (set_pcb_state ready);;
  set_data (V:=pcb) (Some p) (set_pcb_burst 0).

Definition terminate_pcb (p : loc) (mem_segs_list : loc) : C sim () :=
  v ← load (T:=process_control_block_t) (Some p);
  d ← is_process_memory_in_disk (pcb_process_memory (data v));
  (if negb d then
     swap_out_process_memory_by_process_memory (pcb_process_memory (data v)) mem_segs_list
   else mret ());;
  pcb_set_next (Some p) NULL;;
  set_data (V:=pcb) (Some p) (set_pcb_state terminated).

Definition is_pcb_finished (p : loc) : C sim bool :=
  v ← load (T:=process_control_block_t) (Some p);
  mret (pcb_job_time (data v) <=? pcb_cpu_time (data v)).

(** [printf]: the line is appended to the output. *)
Definition print_event (e : event) : C sim () := modify (λ s, set_out (out s ++ [e]) s).

Definition print_simulation_status (time : Z) (p : loc)
    (process_memories_list free_list : loc) (memsize : Z) : C sim () :=
  memusagesize ← get_process_memories_list_not_in_disk_size process_memories_list;
  memusageproportion ← int_mul 100 memusagesize;
  quotient ← int_div memusageproportion memsize;
  remainder ← int_rem memusageproportion memsize;
  memusageproportion ← int_add quotient (if remainder =? 0 then 0 else 1);
  v ← load (T:=process_control_block_t) (Some p);
  numprocesses ← get_process_memories_list_not_in_disk_count process_memories_list;
  numholes ← get_free_memory_segments_list_count free_list;
  print_event (Status time (pcb_process_id (data v)) numprocesses numholes memusageproportion).

(** The array index bounds the loop: it ends at the NULL entry at the latest. *)
Definition check_scheduled_processes (sps : loc) (spi time : Z)
    (ready_queue proc_mems_list : loc) : C sim Z :=
  cells ← load (T:=sp_array) (Some sps);
  iter (Datatypes.S (length cells)) (λ spi,
    next_scheduled_process ← array_get sps spi;
    match next_scheduled_process with
    | None => mret (inr spi)
    | Some _ =>
        v ← load (T:=scheduled_process_t) next_scheduled_process;
        if sp_start_time v <=? time then
          p ← new_process_control_block_by_scheduled_process next_scheduled_process proc_mems_list;
          append_pcb_to_pcbs_list p ready_queue;;
          spi ← int_add spi 1;
          mret (inl spi)
        else mret (inr spi)
    end) spi.

Definition free_pcbs_queue (pcbs_queue : ptr) : C sim () :=
  curr_pcb ←
    match pcbs_queue with
    | Some _ => q ← load (T:=pcbs_queue_t) pcbs_queue; mret (q_head q)
    | None => mret NULL
    end;
  walk (V:=pcb) (λ _ c _, free (T:=process_control_block_t) (Some c)) () curr_pcb;;
  free (T:=pcbs_queue_t) pcbs_queue.

Definition free_pcbs_list (pcbs_list : ptr) : C sim () := free_pcbs_queue pcbs_list.

Definition quantum_of (v : pcb) : Z :=
  if pcb_priority v =? 1 then Q1_QUANTUM
  else if pcb_priority v =? 2 then Q2_QUANTUM
  else if pcb_priority v =? 3 then Q3_QUANTUM
  else Q3_QUANTUM.

Definition get_quantum_by_pcb (p : loc) : C sim Z :=
  v ← load (T:=process_control_block_t) (Some p);
  mret (quantum_of (data v)).

Definition is_quantum_exhausted_by_pcb (p : loc) : C sim bool :=
  v ← load (T:=process_control_block_t) (Some p);
  q ← get_quantum_by_pcb p;
  mret (q <=? pcb_burst_time (data v)).

(** ** First come first served *)

(** One round of the [while (1)] loop: [inl] of the loop variables (time, the
    running process, the array index), or [inr] of the time at the [break]. *)
Definition fcfs_step (sps ready_queue terminated_list process_memories_list free_list : loc)
    (memsize : Z) '((time, running_pcb, spi) : Z * ptr * Z) : C sim ((Z * ptr * Z) + Z) :=
  spi ← check_scheduled_processes sps spi time ready_queue process_memories_list;
  running_pcb ←
    match running_pcb with
    | Some _ => mret (Some running_pcb)
    | None =>
        running_pcb ← pop_front_pcb_from_pcbs_queue ready_queue;
        match running_pcb with
        | Some p =>
            load_pcb p time process_memories_list free_list;;
            print_simulation_status time p process_memories_list free_list memsize;;
            mret (Some running_pcb)
        | None =>
            q ← load (T:=pcbs_queue_t) (Some ready_queue);
            sp ← array_get sps spi;
            if bool_decide (q_head q = NULL) && bool_decide (sp = NULL)
            then mret None
            else mret (Some running_pcb)
        end
    end;
  match running_pcb with
  | None => mret (inr time)
  | Some running_pcb =>
      match running_pcb with Some p => run_pcb p | None => mret () end;;
      time ← int_add time 1;
      match running_pcb with
      | Some p =>
          finished ← is_pcb_finished p;
          if (finished : bool) then
            terminate_pcb p free_list;;
            append_pcb_to_pcbs_list p terminated_list;;
            mret (inl (time, NULL, spi))
          else mret (inl (time, running_pcb, spi))
      | None => mret (inl (time, running_pcb, spi))
      end
  end.

(** [fopen] fails when the file system has no file of that name. *)
Definition fopen (fs : list ascii → option (list ascii)) (filename : list ascii) : C sim (list ascii) :=
  match fs filename with
  | Some contents => mret contents
  | None => exit 1
  end.

Definition fcfs_scheduler_runner (fs : list ascii → option (list ascii)) (fuel : nat)
    (filename : list ascii) (memsize : Z) : C sim () :=
  ready_queue ← new_pcbs_queue;
  terminated_list ← new_pcbs_list;
  fp ← fopen fs filename;
  scheduled_processes ← parse_process_data_file fp;
  process_memories_list ← new_process_memories_list;
  free_list ← new_free_memory_segments_list memsize;
  time ← iter fuel
    (fcfs_step scheduled_processes ready_queue terminated_list process_memories_list
       free_list memsize) (0, NULL, 0);
  print_event (Finished time);;
  free_pcbs_queue (Some ready_queue);;
  free_pcbs_list (Some terminated_list);;
  free_scheduled_processes scheduled_processes;;
  free_free_memory_segments_list (Some free_list);;
  free_process_memories_list (Some process_memories_list).

(** ** Multi-level feedback queue *)

(** [for (i = 1; i <= MIN_PRIORITY && running == NULL; i++)] over the queues. *)
Fixpoint pop_first (ready_qs : list loc) : C sim ptr :=
  match ready_qs with
  | [] => mret NULL
  | q :: ready_qs' =>
      running_pcb ← pop_front_pcb_from_pcbs_queue q;
      match running_pcb with
      | Some _ => mret running_pcb
      | None => pop_first ready_qs'
      end
  end.

(** [ready_qs[i]]; undefined out of bounds. *)
Definition queue_at (ready_qs : list loc) (i : Z) : C sim loc :=
  if bool_decide (0 ≤ i) then
    match ready_qs !! Z.to_nat i with Some q => mret q | None => ub end
  else ub.

Definition multi_step (sps : loc) (ready_qs : list loc)
    (terminated_list process_memories_list free_list : loc)
    (memsize : Z) '((time, running_pcb, spi) : Z * ptr * Z) : C sim ((Z * ptr * Z) + Z) :=
  q1 ← queue_at ready_qs (1 - 1);
  spi ← check_scheduled_processes sps spi time q1 process_memories_list;
  running_pcb ←
    match running_pcb with
    | Some _ => mret (Some running_pcb)
    | None =>
        running_pcb ← pop_first ready_qs;
        match running_pcb with
        | Some p =>
            load_pcb p time process_memories_list free_list;;
            print_simulation_status time p process_memories_list free_list memsize;;
            mret (Some running_pcb)
        | None =>
            sp ← array_get sps spi;
            if bool_decide (sp = NULL) then mret None else mret (Some running_pcb)
        end
    end;
  match running_pcb with
  | None => mret (inr time)
  | Some running_pcb =>
      match running_pcb with Some p => run_pcb p | None => mret () end;;
      time ← int_add time 1;
      match running_pcb with
      | Some p =>
          finished ← is_pcb_finished p;
          if (finished : bool) then
            terminate_pcb p free_list;;
            append_pcb_to_pcbs_list p terminated_list;;
            mret (inl (time, NULL, spi))
          else
            exhausted ← is_quantum_exhausted_by_pcb p;
            if (exhausted : bool) then
              ready_and_decrease_priority_pcb p;;
              v ← load (T:=process_control_block_t) (Some p);
              q ← queue_at ready_qs (pcb_priority (data v) - 1);
              append_pcb_to_pcbs_list p q;;
              mret (inl (time, NULL, spi))
            else mret (inl (time, running_pcb, spi))
      | None => mret (inl (time, running_pcb, spi))
      end
  end.

Definition multi_scheduler_runner (fs : list ascii → option (list ascii)) (fuel : nat)
    (filename : list ascii) (memsize : Z) : C sim () :=
  q1 ← new_pcbs_queue;
  q2 ← new_pcbs_queue;
  q3 ← new_pcbs_queue;
  terminated_list ← new_pcbs_list;
  fp ← fopen fs filename;
  scheduled_processes ← parse_process_data_file fp;
  process_memories_list ← new_process_memories_list;
  free_list ← new_free_memory_segments_list memsize;
  time ← iter fuel
    (multi_step scheduled_processes [q1; q2; q3] terminated_list process_memories_list
       free_list memsize) (0, NULL, 0);
  print_event (Finished time);;
  free_pcbs_queue (Some q1);;
  free_pcbs_queue (Some q2);;
  free_pcbs_queue (Some q3);;
  free_pcbs_list (Some terminated_list);;
  free_scheduled_processes scheduled_processes;;
  free_free_memory_segments_list (Some free_list);;
  free_process_memories_list (Some process_memories_list).
