(* ===== verification/Frame.v ===== *)
(** * Frame: what a piece of code can change, read off its text

    [preserves R m]: every normal run of [m] relates its start to its end state
    by the preorder [R].  The property follows from the statements [m] is made
    of, with no precondition; here it is used for the headers of the two memory
    lists, which are allocated once and only ever overwritten. *)
From stdpp Require Import prelude gmap.
From S2P Require Import Prelude CMonad Chain State MemoryManagement CString Parser Scheduler.

Definition preserves {A} (R : sim → sim → Prop) (m : C sim A) : Prop :=
  ∀ s a s', m s = Ok a s' → R s s'.

(** The headers of the memory lists are the same ones. *)
Definition same_headers (s s' : sim) : Prop :=
  dom (seg_lists s') = dom (seg_lists s) ∧ dom (pm_lists s') = dom (pm_lists s).

#[export] Instance same_headers_preorder : PreOrder same_headers.
Proof. unfold same_headers. split; [by intros ?|]. intros ??? [-> ->] [-> ->]. done. Qed.


Lemma wp_preserves {A} R (m : C sim A) Q s :
  preserves R m → wp m Q s → wp m (λ a s', Q a s' ∧ R s s') s.
Proof. intros Hp. rewrite !wp_run. intros (a & s' & Hm & HQ). eauto 10. Qed.

Section preserves.
Context {R : sim → sim → Prop} `{!PreOrder R}.

Lemma preserves_ret {A} (a : A) : preserves R (mret a).
Proof. intros s a' s' [= _ ->]. reflexivity. Qed.
Lemma preserves_ub {A} : preserves R (ub (A:=A)).
Proof. by intros s a' s'. Qed.
Lemma preserves_exit {A} z : preserves R (exit (A:=A) z).
Proof. by intros s a' s'. Qed.
Lemma preserves_get {A} (f : sim → A) : preserves R (get f).
Proof. intros s a' s' [= _ ->]. reflexivity. Qed.
Lemma preserves_chk z : preserves R (chk z).
Proof. unfold chk. case_match; [apply preserves_ret|apply preserves_ub]. Qed.

Lemma preserves_int_add x y : preserves R (int_add x y).
Proof. apply preserves_chk. Qed.
Lemma preserves_int_sub x y : preserves R (int_sub x y).
Proof. apply preserves_chk. Qed.
Lemma preserves_int_mul x y : preserves R (int_mul x y).
Proof. apply preserves_chk. Qed.

Lemma preserves_bind {A B} (m : C sim A) (f : A → C sim B) :
  preserves R m → (∀ a, preserves R (f a)) → preserves R (m ≫= f).
Proof.
  intros Hm Hf s b s'. unfold mbind, C_bind. destruct (m s) eqn:E; [|done..].
  intros Hb. etrans; [by eapply Hm|by eapply Hf].
Qed.

Lemma preserves_iter {L B} n (body : L → C sim (L + B)) l :
  (∀ l, preserves R (body l)) → preserves R (iter n body l).
Proof.
  intros Hb. revert l. induction n as [|n IH]; intros l; [by intros s b s'|].
  apply preserves_bind; [done|]. intros [l'|r]; [apply IH|apply preserves_ret].
Qed.

Lemma preserves_load `{HeapOf sim T} p : preserves R (load (T:=T) p).
Proof.
  intros s a s'. unfold load. destruct p as [l|]; [|done]. case_match; [|done].
  intros [= _ ->]. reflexivity.
Qed.
End preserves.

(** Statements that write a heap of which [R] knows nothing. *)
Class FreeHeap (R : sim → sim → Prop) (T : Type) `{HeapOf sim T} := free_heap s h : R s (set_heap h s).

Section free_heap.
Context {R : sim → sim → Prop} `{!PreOrder R} {T : Type} `{FreeHeap R T}.

Lemma preserves_store p (v : T) : preserves R (store p v).
Proof.
  intros s a s'. unfold store. destruct p; [|done]. case_match; [|done].
  intros [= _ <-]. apply free_heap.
Qed.
Lemma preserves_free p : preserves R (free (T:=T) p).
Proof.
  intros s a s'. unfold free. destruct p; [|by intros [= _ ->]; reflexivity].
  case_match; [|done]. intros [= _ <-]. apply free_heap.
Qed.
Lemma preserves_malloc (v : T) :
  (∀ s f, R s (set_sim_faults f s)) → preserves R (malloc_or_exit v).
Proof.
  intros Hf. apply preserves_bind.
  - intros s a s'. unfold malloc. simpl.
    destruct (sim_faults s) as [|[] f]; intros [= _ <-]; [|apply Hf|];
      (etrans; [apply Hf|]; apply free_heap).
  - intros [l|]; [apply preserves_ret|apply preserves_exit].
Qed.
End free_heap.

(** ** The headers of the memory lists *)
Local Ltac free_heap := by intros s h.
#[export] Instance free_segs : FreeHeap same_headers free_memory_segment_t.
Proof. free_heap. Qed.
#[export] Instance free_pms : FreeHeap same_headers process_memory_t.
Proof. free_heap. Qed.
#[export] Instance free_pcbs : FreeHeap same_headers process_control_block_t.
Proof. free_heap. Qed.
#[export] Instance free_queues : FreeHeap same_headers pcbs_queue_t.
Proof. free_heap. Qed.

Lemma headers_malloc {T} `{FreeHeap same_headers T} (v : T) :
  preserves same_headers (malloc_or_exit v).
Proof. by apply preserves_malloc. Qed.

Lemma headers_store_seg p (v : free_memory_segments_list_t) :
  preserves same_headers (store p v).
Proof.
  intros s a s'. unfold store. destruct p as [l|]; [|done]. case_match eqn:E; [|done].
  intros [= _ <-]. split; [|done]. simpl in *. rewrite dom_insert_L.
  apply elem_of_dom_2 in E. set_solver.
Qed.
Lemma headers_store_pm p (v : process_memories_list_t) :
  preserves same_headers (store p v).
Proof.
  intros s a s'. unfold store. destruct p as [l|]; [|done]. case_match eqn:E; [|done].
  intros [= _ <-]. split; [done|]. simpl in *. rewrite dom_insert_L.
  apply elem_of_dom_2 in E. set_solver.
Qed.
Lemma headers_print e : preserves same_headers (print_event e).
Proof. intros s a s' [= _ <-]. done. Qed.

#[export] Hint Resolve preserves_ret preserves_ub preserves_exit preserves_get preserves_chk
  preserves_int_add preserves_int_sub preserves_int_mul
  preserves_load preserves_store preserves_free headers_malloc headers_store_seg headers_store_pm
  headers_print : frame.

(** Follows the statements of a function. *)
Ltac preserves_step :=
  first
    [ by auto with frame typeclass_instances
    | match goal with
      | |- preserves _ (mbind _ _) => apply preserves_bind; [|intros ?]
      | |- preserves _ (iter _ _ _) => apply preserves_iter; intros ?
      | |- preserves _ (match ?x with _ => _ end) => destruct x
      end ].
Ltac preserves_solve := intros; repeat preserves_step.

Lemma headers_scan {V} `{FreeHeap same_headers (node V)} stop p :
  preserves same_headers (scan (V:=V) stop p).
Proof. unfold scan, list_fuel. preserves_solve. Qed.
Lemma headers_walk {V A} `{FreeHeap same_headers (node V)} (f : A → loc → V → C sim A) a p :
  (∀ a l v, preserves same_headers (f a l v)) → preserves same_headers (walk f a p).
Proof. unfold walk, list_fuel. preserves_solve. Qed.
Lemma headers_set_next {V} `{FreeHeap same_headers (node V)} p q :
  preserves same_headers (set_next (V:=V) p q).
Proof. unfold set_next, update. preserves_solve. Qed.
Lemma headers_set_data {V} `{FreeHeap same_headers (node V)} p f :
  preserves same_headers (set_data (V:=V) p f).
Proof. unfold set_data, update. preserves_solve. Qed.
Lemma headers_array_get a i : preserves same_headers (array_get a i).
Proof. unfold array_get. preserves_solve. Qed.
#[export] Hint Resolve headers_scan headers_walk headers_set_next headers_set_data
  headers_array_get : frame.

(** The functions of the memory manager and of the scheduler, innermost first. *)
Lemma headers_add_free a n fl :
  preserves same_headers (add_new_free_memory_segment_to_free_memory_segments_list a n fl).
Proof.
  unfold add_new_free_memory_segment_to_free_memory_segments_list,
    consolidate_free_memory_segments_list, get_free_memory_segment_end_address, list_fuel,
    seg_set_next. preserves_solve.
Qed.
#[export] Hint Resolve headers_add_free : frame.

Lemma headers_is_in_disk p : preserves same_headers (is_process_memory_in_disk p).
Proof. unfold is_process_memory_in_disk. preserves_solve. Qed.
#[export] Hint Resolve headers_is_in_disk : frame.

Lemma headers_swap_out pl fl : preserves same_headers (swap_out_process_memory pl fl).
Proof.
  unfold swap_out_process_memory. preserves_solve. apply headers_walk. preserves_solve.
Qed.
#[export] Hint Resolve headers_swap_out : frame.

Lemma headers_occupy p t fl prev curr :
  preserves same_headers (occupy_free_memory_segment p t fl prev curr).
Proof.
  unfold occupy_free_memory_segment, delete_free_memory_segment, get_process_memory_end_address,
    seg_set_next. preserves_solve.
Qed.
#[export] Hint Resolve headers_occupy : frame.

Lemma headers_swap_in p t pl fl : preserves same_headers (swap_in_process_memory p t pl fl).
Proof. unfold swap_in_process_memory, list_fuel. preserves_solve. Qed.
Lemma headers_swap_out_by p fl :
  preserves same_headers (swap_out_process_memory_by_process_memory p fl).
Proof. unfold swap_out_process_memory_by_process_memory. preserves_solve. Qed.
#[export] Hint Resolve headers_swap_in headers_swap_out_by : frame.

Lemma headers_load_pcb p t pl fl : preserves same_headers (load_pcb p t pl fl).
Proof. unfold load_pcb, pcb_set_next. preserves_solve. Qed.
Lemma headers_run_pcb p : preserves same_headers (run_pcb p).
Proof. unfold run_pcb. preserves_solve. Qed.
Lemma headers_terminate p fl : preserves same_headers (terminate_pcb p fl).
Proof. unfold terminate_pcb, pcb_set_next. preserves_solve. Qed.
Lemma headers_lower p : preserves same_headers (ready_and_decrease_priority_pcb p).
Proof. unfold ready_and_decrease_priority_pcb. preserves_solve. Qed.
Lemma headers_append p q : preserves same_headers (append_pcb_to_pcbs_list p q).
Proof. unfold append_pcb_to_pcbs_list, pcb_set_next. preserves_solve. Qed.
Lemma headers_pop q : preserves same_headers (pop_front_pcb_from_pcbs_queue q).
Proof. unfold pop_front_pcb_from_pcbs_queue. preserves_solve. Qed.
Lemma headers_finished p : preserves same_headers (is_pcb_finished p).
Proof. unfold is_pcb_finished. preserves_solve. Qed.
Lemma headers_exhausted p : preserves same_headers (is_quantum_exhausted_by_pcb p).
Proof. unfold is_quantum_exhausted_by_pcb, get_quantum_by_pcb. preserves_solve. Qed.
#[export] Hint Resolve headers_load_pcb headers_run_pcb headers_terminate headers_lower
  headers_append headers_pop headers_finished headers_exhausted : frame.

Lemma headers_status t p pl fl n : preserves same_headers (print_simulation_status t p pl fl n).
Proof.
  unfold print_simulation_status, get_process_memories_list_not_in_disk_size,
    get_process_memories_list_not_in_disk_count, get_free_memory_segments_list_count,
    int_div, int_rem. preserves_solve; apply headers_walk; preserves_solve.
Qed.
Lemma headers_check arr i t q pl :
  preserves same_headers (check_scheduled_processes arr i t q pl).
Proof.
  unfold check_scheduled_processes, new_process_control_block_by_scheduled_process,
    new_process_control_block, new_process_memory, add_process_memory_to_process_memories_list,
    pm_set_next. preserves_solve.
Qed.
#[export] Hint Resolve headers_status headers_check : frame.

Lemma headers_fcfs_step arr rq tq pl fl n l : preserves same_headers (fcfs_step arr rq tq pl fl n l).
Proof. unfold fcfs_step. preserves_solve. Qed.

Lemma headers_pop_first qs : preserves same_headers (pop_first qs).
Proof. induction qs; simpl; preserves_solve. Qed.
#[export] Hint Resolve headers_pop_first : frame.

Lemma headers_multi_step arr qs tq pl fl n l :
  preserves same_headers (multi_step arr qs tq pl fl n l).
Proof. unfold multi_step, queue_at. preserves_solve. Qed.
