(* ===== verification/QueueRefine.v ===== *)
(** * QueueRefine: the process control blocks and their queues

    [sched_rep qs held s]: the process control blocks on the heap of [s] are
    exactly those of the queues [qs] (each a linked list from its header, in
    order) and the blocks [held] that are in no queue, such as the running
    one.  The queue operations move blocks between the two without loss,
    duplication or undefined behaviour. *)
From stdpp Require Import prelude gmap.
From S2P Require Import Prelude CMonad Chain State MemoryManagement MemorySpec.
From S2P Require Import MemoryRefine CString Parser Scheduler.

Notation queue := (loc * list (loc * pcb))%type.
Notation block := (loc * node pcb)%type.

Definition q_ok (h : gmap loc (node pcb)) (hq : gmap loc pcbs_queue_t) (x : queue) : Prop :=
  hq !! x.1 = Some (Queue (head_ptr x.2)) ∧ chain h (head_ptr x.2) x.2 NULL.

Definition qlocs (qs : list queue) : list loc := concat ((λ x : queue, x.2.*1) <$> qs).

Record sched_rep (qs : list queue) (held : list block) (s : sim) : Prop := {
  sr_queues : Forall (q_ok (pcbs s) (pcb_queues s)) qs;
  sr_headers : NoDup qs.*1;
  sr_headers_dom : dom (pcb_queues s) = list_to_set qs.*1;
  sr_held : Forall (λ x : block, pcbs s !! x.1 = Some x.2) held;
  sr_locs : NoDup (held.*1 ++ qlocs qs);
  sr_dom : dom (pcbs s) = list_to_set (held.*1 ++ qlocs qs)
}.

(** [s'] differs from [s] in the process control blocks and the queues only. *)
Definition pcb_frame (s s' : sim) : Prop := ∃ h hq, s' = set_pcb_queues hq (set_pcbs h s).

#[export] Instance pcb_frame_preorder : PreOrder pcb_frame.
Proof.
  split.
  - intros s. exists (pcbs s), (pcb_queues s). by destruct s.
  - intros s1 s2 s3 (h & hq & ->) (h' & hq' & ->). by exists h', hq'.
Qed.

Lemma pcb_frame_refl s : pcb_frame s s.
Proof. reflexivity. Qed.
Lemma pcb_frame_set_pcbs h s s' : pcb_frame s s' → pcb_frame s (set_pcbs h s').
Proof. intros (h0 & hq & ->). by exists h, hq. Qed.
Lemma pcb_frame_set_queues h s s' : pcb_frame s s' → pcb_frame s (set_pcb_queues h s').
Proof. intros (h0 & hq & ->). by exists h0, h. Qed.
#[export] Hint Resolve pcb_frame_refl pcb_frame_set_pcbs pcb_frame_set_queues : mem.

(** The two halves of the state do not interfere. *)
Lemma mm_rep_pcb_frame fl pl F P s s' : pcb_frame s s' → mm_rep fl pl F P s → mm_rep fl pl F P s'.
Proof. by intros (h & hq & ->) [[] [] ?]. Qed.
Lemma sched_rep_mm_frame qs held s s' : mm_frame s s' → sched_rep qs held s → sched_rep qs held s'.
Proof. by intros (h & hl & hp & hpl & ->) []. Qed.

(** ** Permutations of the locations *)
Lemma qlocs_app qs1 qs2 : qlocs (qs1 ++ qs2) = qlocs qs1 ++ qlocs qs2.
Proof. unfold qlocs. by rewrite fmap_app, concat_app. Qed.
Lemma qlocs_cons x qs : qlocs (x :: qs) = x.2.*1 ++ qlocs qs.
Proof. done. Qed.
Lemma qlocs_mid qs1 q l qs2 :
  qlocs (qs1 ++ (q, l) :: qs2) ≡ₚ l.*1 ++ qlocs (qs1 ++ qs2).
Proof. rewrite !qlocs_app, qlocs_cons. simpl. solve_Permutation. Qed.

Lemma qlocs_in (x : queue) qs b : x ∈ qs → b ∈ x.2.*1 → b ∈ qlocs qs.
Proof.
  induction qs as [|y qs IH]; [by intros ?%not_elem_of_nil|].
  rewrite qlocs_cons, elem_of_app. intros [->|Hx]%elem_of_cons Hb; auto.
Qed.

Lemma fst_mid {A} qs1 q (l l' : A) qs2 :
  (qs1 ++ (q, l) :: qs2).*1 = (qs1 ++ (q : loc, l') :: qs2).*1.
Proof. by rewrite !fmap_app. Qed.

Lemma q_ok_heap h hq qs a n :
  Forall (q_ok h hq) qs → a ∉ qlocs qs → Forall (q_ok (<[a:=n]> h) hq) qs.
Proof.
  induction 1 as [|[q l] qs [Hq Hc] Hqs IH]; [by constructor|].
  rewrite qlocs_cons, not_elem_of_app. intros [H1 H2]. constructor; [|by apply IH].
  split; [done|]. by apply chain_frame_insert.
Qed.

Lemma q_ok_header h hq qs q x :
  Forall (q_ok h hq) qs → q ∉ qs.*1 → Forall (q_ok h (<[q:=x]> hq)) qs.
Proof.
  induction 1 as [|[q' l] qs [Hq Hc] Hqs IH]; [by constructor|].
  rewrite fmap_cons, not_elem_of_cons. intros [H1 H2]. constructor; [|by apply IH].
  split; [|done]. simpl in *. by rewrite lookup_insert_ne.
Qed.

Section rep.
Context {qs : list queue} {held : list block} {s : sim}.
Context (Hrep : sched_rep qs held s).

Lemma sr_fresh a : pcbs s !! a = None → a ∉ held.*1 ++ qlocs qs.
Proof. rewrite <- not_elem_of_dom, (sr_dom _ _ _ Hrep), elem_of_list_to_set. done. Qed.

(** A new block. *)
Lemma sr_alloc a n :
  pcbs s !! a = None → sched_rep qs ((a, n) :: held) (set_pcbs (<[a:=n]> (pcbs s)) s).
Proof.
  intros Ha. pose proof (sr_fresh a Ha) as Hn. destruct Hrep as [Hq Hh Hhd Hheld Hl Hd].
  apply not_elem_of_app in Hn as [Hn1 Hn2]. constructor; simpl.
  - by apply q_ok_heap.
  - done.
  - done.
  - constructor; [apply lookup_insert_eq|]. eapply Forall_impl; [done|].
    intros [b m] Hb. simpl in *. rewrite lookup_insert_ne; [done|]. intros ->. congruence.
  - constructor; [|done]. by apply not_elem_of_app.
  - by rewrite dom_insert_L, Hd.
Qed.
End rep.

(** Rewriting a block that is in no queue. *)
Lemma sr_set qs a n n' held s :
  sched_rep qs ((a, n) :: held) s →
  sched_rep qs ((a, n') :: held) (set_pcbs (<[a:=n']> (pcbs s)) s).
Proof.
  intros [Hq Hh Hhd Hheld Hl Hd]. apply Forall_cons in Hheld as [Ha Hheld].
  apply NoDup_cons in Hl as Hl'. destruct Hl' as [Hn _].
  apply not_elem_of_app in Hn as [Hn1 Hn2]. constructor; simpl; [|done|done| |done|].
  - by apply q_ok_heap.
  - constructor; [apply lookup_insert_eq|]. apply Forall_forall. intros [b m] Hb. simpl.
    rewrite lookup_insert_ne; [by apply (proj1 (Forall_forall _ _) Hheld _ Hb)|].
    intros ->. apply Hn1. by apply (list_elem_of_fmap_2 fst) in Hb.
  - rewrite dom_insert_L, Hd. simpl. set_solver.
Qed.

Lemma sr_lookup qs a n held s : sched_rep qs ((a, n) :: held) s → pcbs s !! a = Some n.
Proof. intros [_ _ _ Hheld _ _]. by apply Forall_cons in Hheld as [? _]. Qed.

Lemma wp_held_set_next qs a r v q held Q s :
  sched_rep qs ((a, Node r v) :: held) s →
  (∀ s', pcb_frame s s' → sched_rep qs ((a, Node q v) :: held) s' → Q () s') →
  wp (pcb_set_next (Some a) q) Q s.
Proof.
  intros Hr HQ. eapply wp_set_next; [by eapply sr_lookup|].
  apply HQ; [simpl; auto with mem|]. by eapply sr_set.
Qed.

Lemma wp_held_set_data qs a r v f held Q s :
  sched_rep qs ((a, Node r v) :: held) s →
  (∀ s', pcb_frame s s' → sched_rep qs ((a, Node r (f v)) :: held) s' → Q () s') →
  wp (set_data (V:=pcb) (Some a) f) Q s.
Proof.
  intros Hr HQ. eapply wp_set_data; [by eapply sr_lookup|].
  apply HQ; [simpl; auto with mem|]. by eapply sr_set.
Qed.

Lemma sr_mid qs1 q l qs2 held s :
  sched_rep (qs1 ++ (q, l) :: qs2) held s →
  q_ok (pcbs s) (pcb_queues s) (q, l) ∧ Forall (q_ok (pcbs s) (pcb_queues s)) (qs1 ++ qs2) ∧
  q ∉ (qs1 ++ qs2).*1.
Proof.
  intros [Hq Hh _ _ _ _]. rewrite Forall_app, Forall_cons in Hq. rewrite Forall_app.
  split; [tauto|]. split; [tauto|]. rewrite fmap_app, fmap_cons in Hh. rewrite fmap_app.
  apply NoDup_app in Hh as (_ & H1 & H2). apply NoDup_cons in H2 as [H2 _].
  apply not_elem_of_app. split; [|done]. intros Hin. apply (H1 _ Hin). by left.
Qed.

(** ** Popping *)
Lemma wp_pop_empty qs1 q qs2 held Q s :
  sched_rep (qs1 ++ (q, []) :: qs2) held s →
  Q NULL s → wp (pop_front_pcb_from_pcbs_queue q) Q s.
Proof.
  intros [[Hq _] _]%sr_mid HQ. apply wp_bind. eapply wp_load; [exact Hq|]. by apply wp_ret.
Qed.

Lemma wp_pop_cons qs1 q a v l qs2 held Q s :
  sched_rep (qs1 ++ (q, (a, v) :: l) :: qs2) held s →
  (∀ s' r, pcb_frame s s' → sched_rep (qs1 ++ (q, l) :: qs2) ((a, Node r v) :: held) s' →
     Q (Some a) s') →
  wp (pop_front_pcb_from_pcbs_queue q) Q s.
Proof.
  intros Hr HQ. destruct (sr_mid _ _ _ _ _ _ Hr) as ([Hq (_ & r & Ha & Hc)] & Hqs & Hnq).
  apply wp_bind. eapply wp_load; [exact Hq|]. simpl. apply wp_bind. eapply wp_load; [exact Ha|].
  apply wp_bind. eapply wp_store; [exact Hq|]. apply wp_ret. simpl.
  eapply (HQ _ r); [auto with mem|]. destruct Hr as [Hq0 Hh Hhd Hheld Hl Hd].
  rewrite (qlocs_mid qs1 q ((a, v) :: l) qs2) in Hl.
  assert (HP : held.*1 ++ qlocs (qs1 ++ (q, (a, v) :: l) :: qs2) ≡ₚ
               a :: held.*1 ++ qlocs (qs1 ++ (q, l) :: qs2)).
  { rewrite !qlocs_mid. simpl. solve_Permutation. }
  constructor; simpl.
  - rewrite Forall_app in Hqs. apply Forall_app.
    rewrite fmap_app, not_elem_of_app in Hnq. destruct Hqs, Hnq.
    split; [by apply q_ok_header|]. constructor; [|by apply q_ok_header].
    split; simpl; [|by rewrite <- (chain_head _ _ _ Hc)].
    rewrite lookup_insert_eq. by rewrite <- (chain_head _ _ _ Hc).
  - by rewrite (fst_mid qs1 q l ((a, v) :: l) qs2).
  - rewrite dom_insert_L, Hhd, (fst_mid qs1 q l ((a, v) :: l) qs2), fmap_app, fmap_cons. set_solver.
  - by constructor.
  - rewrite <- (qlocs_mid qs1 q ((a, v) :: l) qs2), HP in Hl. done.
  - rewrite Hd, HP. done.
Qed.

(** ** Appending *)

(** The block [a] joins the queue [q], which becomes [l'] on the heap [h']. *)
Lemma sr_join qs1 q l l' qs2 a n held s h' :
  sched_rep (qs1 ++ (q, l) :: qs2) ((a, n) :: held) s →
  l'.*1 ≡ₚ a :: l.*1 → chain h' (head_ptr l') l' NULL →
  (∀ b, b ∉ l'.*1 → h' !! b = pcbs s !! b) → dom h' = dom (pcbs s) →
  sched_rep (qs1 ++ (q, l') :: qs2) held
    (set_pcb_queues (<[q:=Queue (head_ptr l')]> (pcb_queues s)) (set_pcbs h' s)).
Proof.
  intros Hr Hl' Hc Hout Hdom. destruct (sr_mid _ _ _ _ _ _ Hr) as (_ & Hqs & Hnq).
  destruct Hr as [Hq0 Hh Hhd Hheld Hl Hd]. apply Forall_cons in Hheld as [Ha Hheld].
  assert (HP : ((a, n) :: held).*1 ++ qlocs (qs1 ++ (q, l) :: qs2) ≡ₚ
               held.*1 ++ qlocs (qs1 ++ (q, l') :: qs2)).
  { rewrite !qlocs_mid, Hl'. simpl. solve_Permutation. }
  rewrite HP in Hl, Hd.
  assert (Hsep : ∀ b, b ∈ held.*1 ++ qlocs (qs1 ++ qs2) → b ∉ l'.*1).
  { intros b Hb Hb'. rewrite qlocs_mid in Hl.
    assert (Hl2 : NoDup (l'.*1 ++ (held.*1 ++ qlocs (qs1 ++ qs2)))).
    { eapply (proj1 (NoDup_Permutation_proper _ _ _) Hl). Unshelve. solve_Permutation. }
    apply NoDup_app in Hl2 as (_ & Hx & _). by apply (Hx b). }
  assert (Hok : Forall (q_ok h' (<[q:=Queue (head_ptr l')]> (pcb_queues s))) (qs1 ++ qs2)).
  { apply q_ok_header; [|done]. apply Forall_forall. intros [q2 l2] Hin.
    destruct (proj1 (Forall_forall _ _) Hqs _ Hin) as [H1 H2]. split; [done|].
    eapply chain_agree; [exact H2|]. intros b Hb. apply Hout, Hsep. apply elem_of_app. right.
    by eapply qlocs_in. }
  apply Forall_app in Hok as [Hok1 Hok2]. constructor; simpl.
  - apply Forall_app. split; [done|]. constructor; [|done].
    split; simpl; [apply lookup_insert_eq|done].
  - by rewrite (fst_mid qs1 q l' l qs2).
  - rewrite dom_insert_L, Hhd, (fst_mid qs1 q l' l qs2), fmap_app, fmap_cons. set_solver.
  - apply Forall_forall. intros [b m] Hb. simpl. rewrite Hout.
    + apply (proj1 (Forall_forall _ _) Hheld _ Hb).
    + apply Hsep, elem_of_app. left. by apply (list_elem_of_fmap_2 fst) in Hb.
  - done.
  - by rewrite Hdom, Hd.
Qed.

Lemma set_queue_id q x s : pcb_queues s !! q = Some x → ∀ h,
  set_pcb_queues (<[q:=x]> (pcb_queues s)) (set_pcbs h s) = set_pcbs h s.
Proof. intros Hq h. rewrite insert_id by done. by destruct s. Qed.

Lemma set_pcbs_id s : set_pcbs (pcbs s) s = s.
Proof. by destruct s. Qed.

Lemma wp_append qs1 q l qs2 a v held Q s :
  sched_rep (qs1 ++ (q, l) :: qs2) ((a, Node NULL v) :: held) s →
  (∀ s', pcb_frame s s' → sched_rep (qs1 ++ (q, l ++ [(a, v)]) :: qs2) held s' → Q () s') →
  wp (append_pcb_to_pcbs_list a q) Q s.
Proof.
  intros Hr HQ. destruct (sr_mid _ _ _ _ _ _ Hr) as ([Hq Hc] & _).
  pose proof (sr_lookup _ _ _ _ _ Hr) as Ha.
  apply wp_bind. eapply wp_load; [exact Hq|]. simpl.
  destruct l as [|[b w] l _] using rev_ind; simpl in Hq, Hc.
  { eapply wp_store; [exact Hq|]. apply HQ; [simpl; auto with mem|].
    rewrite <- (set_pcbs_id s) at 2. eapply sr_join; [exact Hr|done|by simpl; eauto|done..]. }
  destruct (head_ptr (l ++ [(b, w)])) as [p0|] eqn:Eh; [|by destruct l].
  rewrite <- Eh in Hq, Hc |- *. apply wp_bind. eapply wp_scan; [exact Hc|done|].
  intros _. rewrite last_ptr_snoc. apply chain_split in Hc as Hb. destruct Hb as (_ & Hb & _).
  assert (Hne : b ≠ a).
  { intros ->. pose proof (sr_locs _ _ _ Hr) as Hl. simpl in Hl. apply NoDup_cons in Hl as [Hl _].
    rewrite qlocs_mid, fmap_app in Hl. simpl in Hl. set_solver. }
  apply wp_bind. eapply wp_set_next; [exact Hb|].
  eapply wp_set_next; [simpl; by rewrite lookup_insert_ne|].
  simpl. rewrite insert_id by (by rewrite lookup_insert_ne).
  apply HQ; [auto with mem|].
  assert (Hq' : pcb_queues s !! q = Some (Queue (head_ptr ((l ++ [(b, w)]) ++ [(a, v)])))).
  { rewrite Hq. by destruct l. }
  rewrite <- (set_queue_id q _ s Hq').
  eapply sr_join; [exact Hr| | | |].
  - rewrite !fmap_app. simpl. solve_Permutation.
  - rewrite <- app_assoc. cbn [app]. rewrite (head_ptr_mid l b w w [(a, v)] []).
    eapply chain_relink; [exact Hc|by simpl; eauto|]. simpl. set_solver.
  - intros c Hn. rewrite lookup_insert_ne; [done|]. intros ->. apply Hn.
    rewrite !fmap_app. simpl. set_solver.
  - rewrite dom_insert_L. apply elem_of_dom_2 in Hb. set_solver.
Qed.

(** ** Creating and releasing queues *)
Lemma sr_empty s : pcbs s = ∅ → pcb_queues s = ∅ → sched_rep [] [] s.
Proof. intros Hp Hq. constructor; rewrite ?Hp, ?Hq, ?dom_empty_L; try done; constructor. Qed.

Lemma qlocs_new qs q : qlocs (qs ++ [(q, [])]) = qlocs qs.
Proof. rewrite qlocs_app. apply app_nil_r. Qed.

Lemma wp_new_queue qs held Q s :
  sched_rep qs held s → sim_faults s = [] →
  (∀ q s', pcb_frame s s' → sched_rep (qs ++ [(q, [])]) held s' → Q q s') →
  wp new_pcbs_queue Q s.
Proof.
  intros [Hq Hh Hhd Hheld Hl Hd] Hft HQ. apply wp_malloc; [done|]. intros q Hnew. simpl in *.
  assert (Hnq : q ∉ qs.*1) by (rewrite <- not_elem_of_dom, Hhd, elem_of_list_to_set in Hnew; done).
  apply HQ; [simpl; auto with mem|]. constructor; simpl.
  - apply Forall_app. split; [by apply q_ok_header|]. repeat constructor. apply lookup_insert_eq.
  - rewrite fmap_app. apply NoDup_app. split; [done|]. split; [set_solver|apply NoDup_singleton].
  - rewrite dom_insert_L, Hhd, fmap_app, list_to_set_app_L. set_solver.
  - done.
  - by rewrite qlocs_new.
  - by rewrite qlocs_new.
Qed.

Lemma wp_free_queue q l qs Q s :
  sched_rep ((q, l) :: qs) [] s →
  (∀ s', pcb_frame s s' → sched_rep qs [] s' → Q () s') →
  wp (free_pcbs_queue (Some q)) Q s.
Proof.
  intros Hr HQ. destruct (sr_mid [] _ _ _ _ _ Hr) as ([Hq Hc] & Hqs & Hnq). simpl in Hqs, Hnq.
  destruct Hr as [_ Hh Hhd _ Hl Hd]. apply wp_bind, wp_bind. eapply wp_load; [exact Hq|].
  apply wp_ret, wp_bind. eapply wp_mono; [by apply wp_free_chain|].
  intros _ s1 (h & -> & Hag & Hdh). eapply wp_free; [exact Hq|]. simpl.
  simpl in Hl, Hd. rewrite qlocs_cons in Hl, Hd. apply NoDup_app in Hl as (_ & Hsep & Hl).
  apply NoDup_cons in Hh as [_ Hh].
  apply HQ; [auto with mem|]. constructor; simpl; [|done| |by constructor|done|].
  - apply Forall_forall. intros [q2 l2] Hin.
    destruct (proj1 (Forall_forall _ _) Hqs _ Hin) as [H1 H2]. split.
    + simpl in *. rewrite lookup_delete_ne; [done|]. intros ->. apply Hnq.
      by apply (list_elem_of_fmap_2 fst) in Hin.
    + eapply chain_agree; [exact H2|]. intros b Hb. apply Hag. intros Hb'.
      apply (Hsep b Hb'). by eapply qlocs_in.
  - rewrite dom_delete_L, Hhd, fmap_cons, list_to_set_cons. set_solver.
  - simpl in Hdh. rewrite Hdh, Hd, list_to_set_app_L. set_solver.
Qed.

Lemma sr_released s : sched_rep [] [] s → pcbs s = ∅ ∧ pcb_queues s = ∅.
Proof.
  intros [_ _ Hhd _ _ Hd]. simpl in *. split; by apply dom_empty_inv_L.
Qed.
