(* ===== verification/QueueOrder.v ===== *)
(** * QueueOrder: the ordered insertion into a queue of process control blocks

    [add_pcb_to_pcbs_queue] inserts before the first block that should run
    later: smaller priority numbers first, smaller process ids first among
    equal priorities.  On a sorted queue the result is the sorted queue with
    the new block. *)
From Stdlib Require Import Sorted.
From stdpp Require Import prelude gmap sorting.
From S2P Require Import Prelude CMonad Chain State MemoryManagement MemorySpec.
From S2P Require Import MemoryRefine CString Parser Scheduler QueueRefine.

(** [v] goes before [c]. *)
Definition goes_before (v c : pcb) : bool :=
  (pcb_priority v <? pcb_priority c) ||
  ((pcb_priority v =? pcb_priority c) && (pcb_process_id v <? pcb_process_id c)).

#[global] Arguments goes_before : simpl never.

(** The order of the queue: [x] is not behind [y]. *)
Definition pcb_le (x y : loc * pcb) : Prop := goes_before y.2 x.2 = false.

#[export] Instance pcb_le_trans : Transitive pcb_le.
Proof. intros [a x] [b y] [c z]. unfold pcb_le, goes_before. simpl. lia. Qed.

Lemma pcb_le_total x y : pcb_le x y ∨ pcb_le y x.
Proof. unfold pcb_le, goes_before. lia. Qed.

(** The place at which the code inserts. *)
Fixpoint insert_pcb (x : loc * pcb) (l : list (loc * pcb)) : list (loc * pcb) :=
  match l with
  | [] => [x]
  | y :: l' => if goes_before x.2 y.2 then x :: l else y :: insert_pcb x l'
  end.

Lemma insert_pcb_skip x l1 l2 :
  Forall (λ y, goes_before x.2 y.2 = false) l1 → insert_pcb x (l1 ++ l2) = l1 ++ insert_pcb x l2.
Proof. induction 1 as [|y l1 Hy Hl IH]; simpl; [done|]. by rewrite Hy, IH. Qed.

Lemma insert_pcb_perm x l : insert_pcb x l ≡ₚ x :: l.
Proof.
  induction l as [|y l IH]; simpl; [done|]. case_match; [done|]. rewrite IH. constructor.
Qed.

Lemma insert_pcb_sorted x l :
  StronglySorted pcb_le l → StronglySorted pcb_le (insert_pcb x l).
Proof.
  induction 1 as [|y l Hl IH Hy]; simpl; [repeat constructor|].
  destruct (goes_before x.2 y.2) eqn:E.
  - assert (Hxy : pcb_le x y) by (revert E; unfold pcb_le, goes_before; lia).
    constructor; [by constructor|]. constructor; [done|].
    eapply Forall_impl; [exact Hy|]. intros z Hz. by transitivity y.
  - constructor; [done|]. rewrite insert_pcb_perm. by constructor.
Qed.

Lemma set_pcbs_queues h hq s :
  set_pcbs h (set_pcb_queues hq s) = set_pcb_queues hq (set_pcbs h s).
Proof. done. Qed.

(** The block [a], in no queue, is linked behind the block [b] of [q]. *)
Lemma wp_link_pcb_after qs1 q l1 b w l2 qs2 a r v held Q s :
  sched_rep (qs1 ++ (q, l1 ++ (b, w) :: l2) :: qs2) ((a, Node r v) :: held) s →
  (∀ s', pcb_frame s s' →
     sched_rep (qs1 ++ (q, l1 ++ (b, w) :: (a, v) :: l2) :: qs2) held s' → Q () s') →
  wp (pcb_set_next (Some b) (Some a);; pcb_set_next (Some a) (head_ptr l2)) Q s.
Proof.
  intros Hr HQ. destruct (sr_mid _ _ _ _ _ _ Hr) as ([Hq Hc] & _). simpl in Hq, Hc.
  pose proof (sr_lookup _ _ _ _ _ Hr) as Ha.
  pose proof (chain_split _ _ _ _ _ _ Hc) as (_ & Hb & Hc2).
  assert (Hn : a ∉ (l1 ++ (b, w) :: l2).*1).
  { pose proof (sr_locs _ _ _ Hr) as Hl. simpl in Hl. apply NoDup_cons in Hl as [Hl _].
    rewrite qlocs_mid, !not_elem_of_app in Hl. tauto. }
  pose proof Hn as Hn'. rewrite fmap_app, fmap_cons in Hn'. simpl in Hn'.
  assert (Hne : b ≠ a) by set_solver.
  apply wp_bind. eapply wp_set_next; [exact Hb|].
  eapply wp_set_next; [simpl; by rewrite lookup_insert_ne|]. simpl.
  apply HQ; [auto with mem|].
  rewrite (head_ptr_mid l1 b w w l2 ((a, v) :: l2)) in Hq.
  unfold set_pcbs at 1. simpl. change (Sim _ _ _ _ ?h _ _ _ _ _) with (set_pcbs h s).
  rewrite <- (set_queue_id q _ s Hq).
  eapply sr_join; [exact Hr| | | |].
  - rewrite !fmap_app. simpl. solve_Permutation.
  - rewrite insert_insert_ne by done. rewrite (head_ptr_mid l1 b w w ((a, v) :: l2) l2).
    eapply chain_relink; [by apply chain_frame_insert; [|exact Hc]| |].
    + simpl. split; [done|]. eexists. split; [apply lookup_insert_eq|].
      apply chain_frame_insert; [set_solver|done].
    + destruct (chain_NoDup_mid _ _ _ _ _ _ Hc) as [_ Hb2]. simpl. set_solver.
  - intros c Hcn. rewrite fmap_app in Hcn. simpl in Hcn.
    rewrite !lookup_insert_ne; [done|set_solver|set_solver].
  - rewrite !dom_insert_L. apply elem_of_dom_2 in Hb. apply elem_of_dom_2 in Ha. set_solver.
Qed.

Lemma wp_add_pcb qs1 q l qs2 a v held Q s :
  sched_rep (qs1 ++ (q, l) :: qs2) ((a, Node NULL v) :: held) s →
  (∀ s', pcb_frame s s' → sched_rep (qs1 ++ (q, insert_pcb (a, v) l) :: qs2) held s' → Q () s') →
  wp (add_pcb_to_pcbs_queue a q) Q s.
Proof.
  intros Hr HQ. destruct (sr_mid _ _ _ _ _ _ Hr) as ([Hq Hc] & _). simpl in Hq, Hc.
  pose proof (sr_lookup _ _ _ _ _ Hr) as Ha.
  apply wp_bind. eapply wp_load; [exact Hq|]. simpl.
  destruct (head_ptr l) as [p0|] eqn:Eh; last first.
  { destruct l as [|[? ?] ?]; [|done]. eapply wp_store; [exact Hq|].
    apply HQ; [simpl; auto with mem|]. rewrite <- (set_pcbs_id s) at 2.
    eapply sr_join; [exact Hr|done|by simpl; eauto|done..]. }
  apply wp_bind. eapply wp_load; [exact Ha|]. apply wp_bind. simpl.
  eapply wp_scan; [exact Hc| |].
  - intros l1 b w l2 Hl Hskip Hstop. subst l.
    assert (Hstop' : goes_before v w = true) by exact Hstop.
    destruct l1 as [|[c x] l1 _] using rev_ind; simpl in Eh.
    + injection Eh as <-. rewrite bool_decide_true by done.
      apply wp_bind. eapply wp_store; [exact Hq|]. eapply wp_set_next; [exact Ha|].
      apply HQ; [simpl; auto with mem|]. simpl in Hc |- *. rewrite Hstop'.
      change (Some a) with (head_ptr ((a, v) :: (b, w) :: l2)).
      assert (Hn : a ∉ ((b, w) :: l2).*1).
      { pose proof (sr_locs _ _ _ Hr) as Hl. simpl in Hl. apply NoDup_cons in Hl as [Hl _].
        rewrite qlocs_mid, !not_elem_of_app in Hl. tauto. }
      rewrite set_pcbs_queues.
      eapply (sr_join qs1 q _ ((a, v) :: (b, w) :: l2) qs2 _ _ held s
        (<[a:=Node (Some b) v]> (pcbs s))); [exact Hr|done| | |].
      * split; [done|]. eexists. split; [apply lookup_insert_eq|].
        by apply (chain_frame_insert _ _ ((b, w) :: l2)).
      * intros d Hd. rewrite lookup_insert_ne; [done|]. simpl in Hd. set_solver.
      * rewrite dom_insert_L. apply elem_of_dom_2 in Ha. set_solver.
    + rewrite bool_decide_false; last first.
      { eapply chain_not_head; [exact Hc|by destruct l1]. }
      rewrite last_ptr_snoc. rewrite <- app_assoc in Hr.
      change (Some b) with (head_ptr ((b, w) :: l2)). eapply wp_link_pcb_after; [exact Hr|].
      intros s' Hf Hr'. apply HQ; [done|].
      rewrite insert_pcb_skip by done. simpl. rewrite Hstop'. by rewrite <- app_assoc.
  - intros Hskip. destruct l as [|[c x] l1 _] using rev_ind; [done|].
    rewrite last_ptr_snoc. change NULL with (head_ptr (@nil (loc * pcb))).
    eapply wp_link_pcb_after; [exact Hr|]. intros s' Hf Hr'. apply HQ; [done|].
    rewrite <- (app_nil_r (l1 ++ [(c, x)])), insert_pcb_skip by done. simpl. by rewrite <- app_assoc.
Qed.
