(* ===== verification/ProcessRefine.v ===== *)
(** * ProcessRefine: the operations on one process control block

    [world] puts the memory manager and the queues together: the state of the
    simulator between two statements of the scheduling loops.  Loading,
    running, terminating and reporting a process, and creating the processes
    whose time has come, are related to the lists. *)
From stdpp Require Import prelude gmap.
From S2P Require Import Prelude CMonad Chain State MemoryManagement MemorySpec.
From S2P Require Import MemoryRefine CString Parser ParserRefine Scheduler Frame.
From S2P Require Import QueueRefine.

(** [s'] agrees with [s] outside the memory manager and the queues. *)
Definition sim_frame (s s' : sim) : Prop :=
  sps s' = sps s ∧ sp_arrays s' = sp_arrays s ∧ out s' = out s.

#[export] Instance sim_frame_preorder : PreOrder sim_frame.
Proof. unfold sim_frame. split; [by intros ?|]. intros ??? (-> & -> & ->) (-> & -> & ->). done. Qed.

Lemma sim_frame_mm s s' : mm_frame s s' → sim_frame s s'.
Proof. by intros (h & hl & hp & hpl & ->). Qed.
Lemma sim_frame_pcb s s' : pcb_frame s s' → sim_frame s s'.
Proof. by intros (h & hq & ->). Qed.
Lemma sim_frame_trans s1 s2 s3 : sim_frame s1 s2 → sim_frame s2 s3 → sim_frame s1 s3.
Proof. apply transitivity. Qed.
#[export] Hint Resolve sim_frame_mm sim_frame_pcb : mem.

Record world (memsize : Z) (fl pl : loc) (F : list (loc * segment))
    (P : list (loc * process_memory)) (qs : list queue) (held : list block) (s : sim) : Prop := {
  w_mm : mm_rep fl pl F P s;
  w_wf : wf_mem memsize F.*2 P.*2;
  w_sched : sched_rep qs held s
}.

Lemma world_pcb_frame memsize fl pl F P qs held qs' held' s s' :
  world memsize fl pl F P qs held s → pcb_frame s s' → sched_rep qs' held' s' →
  world memsize fl pl F P qs' held' s'.
Proof. intros [Hm Hw _] Hfr Hs. constructor; [by eapply mm_rep_pcb_frame|done..]. Qed.

Lemma world_mm_frame memsize fl pl F P F' P' qs held s s' :
  world memsize fl pl F P qs held s → mm_frame s s' →
  mm_rep fl pl F' P' s' → wf_mem memsize F'.*2 P'.*2 →
  world memsize fl pl F' P' qs held s'.
Proof. intros [_ _ Hs] Hfr Hm Hw. constructor; [done..|]. by eapply sched_rep_mm_frame. Qed.

(** Printing changes neither. *)
Lemma world_set_out memsize fl pl F P qs held o s :
  world memsize fl pl F P qs held s → world memsize fl pl F P qs held (set_out o s).
Proof. intros [[[] [] ?] ? []]. by constructor. Qed.

Lemma world_NoDup memsize fl pl F P qs held s :
  world memsize fl pl F P qs held s → NoDup P.*1.
Proof. intros [[_ [_ Ho] _] _ _]. by eapply owns_NoDup. Qed.

(** ** Loading *)

(** How loading the process with memory [w] at [m] at time [t] changes the
    memory: nothing when it is in RAM; otherwise room is made and it is put
    there. *)
Definition loaded (t : Z) (m : loc) (w : process_memory)
    (F : list segment) (P : list (loc * process_memory))
    (F' : list segment) (P' : list (loc * process_memory)) : Prop :=
  if in_disk w then
    ∃ b P1 P2, make_room (pm_size w) F P b F' (P1 ++ (m, w) :: P2) ∧
      P' = P1 ++ (m, to_ram b t w) :: P2 ∧ in_disk (to_ram b t w) = false
  else F' = F ∧ P' = P.

Definition run_state (v : pcb) : pcb := set_pcb_burst 0 (set_pcb_state running v).

Definition lowered (v : pcb) : pcb :=
  set_pcb_burst 0 (set_pcb_state ready
    (set_pcb_priority (Z.min MIN_PRIORITY (pcb_priority v + 1)) v)).

(** The share of the memory in use that a status line shows. *)
Definition percent (memsize used : Z) : Z :=
  Z.quot (100 * used) memsize + (if Z.rem (100 * used) memsize =? 0 then 0 else 1).

Section ops.
Context {memsize : Z} {fl pl : loc} {F : list (loc * segment)}.
Context {P : list (loc * process_memory)} {qs : list queue} {held : list block}.
Context {a : loc} {r : ptr} {v : pcb} {s : sim}.
Context (Hw : world memsize fl pl F P qs ((a, Node r v) :: held) s).

Lemma wp_load_pcb m w t Q :
  pcb_process_memory v = Some m → (m, w) ∈ P → pm_size w ≤ memsize →
  (∀ s' F' P', sim_frame s s' → loaded t m w F.*2 P F'.*2 P' →
     world memsize fl pl F' P' qs ((a, Node NULL (run_state v)) :: held) s' → Q () s') →
  wp (load_pcb a t pl fl) Q s.
Proof.
  intros Hm Hin Hsz HQ. pose proof Hw as [Hmm Hwf Hs].
  pose proof (sr_lookup _ _ _ _ _ Hs) as Ha.
  pose proof Hin as Hin'. apply list_elem_of_split in Hin' as (P1 & P2 & HP).
  apply wp_bind. eapply wp_load; [exact Ha|]. simpl. rewrite Hm.
  apply wp_bind. eapply wp_is_in_disk.
  { destruct Hmm as [_ [_ Ho] _]. rewrite HP in Ho. by eapply owns_lookup. }
  apply wp_bind. eapply wp_mono with (P := λ _ s', mm_frame s s' ∧ ∃ F' P',
    loaded t m w F.*2 P F'.*2 P' ∧ mm_rep fl pl F' P' s' ∧ wf_mem memsize F'.*2 P'.*2).
  - unfold loaded. destruct (in_disk w) eqn:Hd.
    + eapply wp_mono; [by eapply wp_swap_in|].
      intros _ s' (Hfr & b & F' & Q1 & Q2 & Hroom & Hrep & Hwf' & Hd').
      split; [done|]. exists F', (Q1 ++ (m, to_ram b t w) :: Q2). eauto 10.
    + apply wp_ret. split; [reflexivity|]. eauto 10.
  - intros _ s1 (Hfr & F' & P' & Hl & Hmm1 & Hwf1).
    pose proof (world_mm_frame _ _ _ _ _ _ _ _ _ _ _ Hw Hfr Hmm1 Hwf1) as Hw1.
    apply wp_bind. eapply wp_held_set_next; [apply Hw1|]. intros s2 Hf2 Hs2.
    apply wp_bind. eapply wp_held_set_data; [apply Hs2|]. intros s3 Hf3 Hs3.
    eapply wp_held_set_data; [apply Hs3|]. intros s4 Hf4 Hs4.
    assert (Hf : pcb_frame s1 s4) by (do 2 (etrans; [done|]); done).
    eapply HQ; [|exact Hl|by eapply world_pcb_frame].
    etrans; [by apply sim_frame_mm|by apply sim_frame_pcb].
Qed.

(** ** Running *)
Lemma wp_run_pcb Q :
  0 ≤ pcb_burst_time v < INT_MAX → 0 ≤ pcb_cpu_time v < INT_MAX →
  (∀ s', sim_frame s s' →
     world memsize fl pl F P qs
       ((a, Node r (set_pcb_cpu (pcb_cpu_time v + 1)
                     (set_pcb_burst (pcb_burst_time v + 1) v))) :: held) s' → Q () s') →
  wp (run_pcb a) Q s.
Proof.
  intros Hb Hc HQ. pose proof (w_sched _ _ _ _ _ _ _ _ Hw) as Hs.
  apply wp_bind. eapply wp_load; [by eapply sr_lookup|]. simpl.
  apply wp_bind. wp_step. apply wp_bind. eapply wp_held_set_data; [exact Hs|].
  intros s2 Hf2 Hs2. apply wp_bind. wp_step. eapply wp_held_set_data; [exact Hs2|].
  intros s3 Hf3 Hs3. assert (Hf : pcb_frame s s3) by (by etrans).
  apply HQ; [by apply sim_frame_pcb|]. by eapply world_pcb_frame.
Qed.

Lemma wp_is_pcb_finished (Q : bool → sim → Prop) :
  Q (pcb_job_time v <=? pcb_cpu_time v) s → wp (is_pcb_finished a) Q s.
Proof.
  intros HQ. apply wp_bind. eapply wp_load; [eapply sr_lookup, Hw|]. by apply wp_ret.
Qed.

Lemma wp_is_quantum_exhausted (Q : bool → sim → Prop) :
  Q (quantum_of v <=? pcb_burst_time v) s → wp (is_quantum_exhausted_by_pcb a) Q s.
Proof.
  intros HQ. apply wp_bind. eapply wp_load; [eapply sr_lookup, Hw|].
  apply wp_bind, wp_bind. eapply wp_load; [eapply sr_lookup, Hw|]. by do 2 apply wp_ret.
Qed.

(** ** Lowering the priority *)
Lemma wp_ready_and_decrease Q :
  1 ≤ pcb_priority v ≤ MIN_PRIORITY →
  (∀ s', sim_frame s s' →
     world memsize fl pl F P qs ((a, Node r (lowered v)) :: held) s' → Q () s') →
  wp (ready_and_decrease_priority_pcb a) Q s.
Proof.
  intros Hp HQ. pose proof (w_sched _ _ _ _ _ _ _ _ Hw) as Hs. unfold MIN_PRIORITY in *.
  apply wp_bind. eapply wp_load; [by eapply sr_lookup|]. simpl.
  apply wp_bind. wp_step. apply wp_bind. eapply wp_held_set_data; [exact Hs|].
  intros s2 Hf2 Hs2. apply wp_bind. eapply wp_held_set_data; [exact Hs2|].
  intros s3 Hf3 Hs3. eapply wp_held_set_data; [exact Hs3|]. intros s4 Hf4 Hs4.
  assert (Hf : pcb_frame s s4) by (by do 2 (etrans; [done|])).
  apply HQ; [by apply sim_frame_pcb|]. eapply world_pcb_frame; [done..|].
  unfold lowered, MIN_PRIORITY. replace (Z.min 3 (pcb_priority v + 1)) with
    (if 3 <? pcb_priority v + 1 then 3 else pcb_priority v + 1); [done|].
  destruct (Z.ltb_spec 3 (pcb_priority v + 1)); lia.
Qed.

(** ** Terminating *)
Lemma wp_terminate_pcb m w P1 P2 Q :
  pcb_process_memory v = Some m → P = P1 ++ (m, w) :: P2 → in_disk w = false →
  (∀ s' F', sim_frame s s' →
     world memsize fl pl F' (P1 ++ (m, to_disk w) :: P2) qs
       ((a, Node NULL (set_pcb_state terminated v)) :: held) s' → Q () s') →
  wp (terminate_pcb a fl) Q s.
Proof.
  intros Hm HP Hd HQ. pose proof Hw as [Hmm Hwf Hs]. pose proof (sr_lookup _ _ _ _ _ Hs) as Ha.
  rewrite HP in Hmm, Hwf.
  apply wp_bind. eapply wp_load; [exact Ha|]. simpl. rewrite Hm. apply wp_bind.
  eapply wp_is_in_disk; [destruct Hmm as [_ [_ Ho] _]; by eapply owns_lookup|].
  rewrite Hd. simpl. apply wp_bind. eapply wp_mono; [by eapply wp_swap_out_by|].
  rewrite Hd. intros _ s1 (Hfr & F' & Hmm1 & HF').
  assert (Hwf1 : wf_mem memsize F'.*2 (P1 ++ (m, to_disk w) :: P2).*2).
  { rewrite HF', !fmap_app, !fmap_cons in *. by apply wf_swap_out. }
  pose proof (world_mm_frame _ _ _ _ _ _ _ _ _ _ _ Hw Hfr Hmm1 Hwf1) as Hw1.
  apply wp_bind. eapply wp_held_set_next; [apply Hw1|]. intros s2 Hf2 Hs2.
  eapply wp_held_set_data; [exact Hs2|]. intros s3 Hf3 Hs3.
  assert (Hf : pcb_frame s1 s3) by (by etrans).
  eapply HQ; [|by eapply world_pcb_frame].
  etrans; [by apply sim_frame_mm|by apply sim_frame_pcb].
Qed.

(** ** Reporting *)
Lemma wp_print_status t (Q : () → sim → Prop) :
  100 * memsize ≤ INT_MAX →
  Q () (set_out (out s ++ [Status t (pcb_process_id v) (Z.of_nat (length (ram P.*2)))
          (Z.of_nat (length F)) (percent memsize (total (ram P.*2)))]) s) →
  wp (print_simulation_status t a pl fl memsize) Q s.
Proof.
  intros Hm HQ. pose proof Hw as [Hmm Hwf Hs]. pose proof (wf_memsize _ _ _ Hwf) as Hms.
  pose proof (ram_prefix_total Hwf P.*2 [] ltac:(by rewrite app_nil_r)) as (Hb & _).
  set (u := total (ram P.*2)) in *.
  assert (Hq : 0 ≤ Z.quot (100 * u) memsize ≤ 100).
  { split; [apply Z.quot_pos; lia|].
    etrans; [apply (Z.quot_le_mono _ (100 * memsize)); lia|]. rewrite Z.quot_mul; lia. }
  apply wp_bind. eapply wp_get_ram_size; [done..|]. fold u.
  apply wp_bind. wp_step. apply wp_bind. unfold int_div. rewrite bool_decide_false by lia.
  wp_step. apply wp_bind. unfold int_rem. rewrite bool_decide_false by lia.
  rewrite (proj2 (in_int_spec _)) by lia. wp_step.
  apply wp_bind. apply wp_chk; [case_match; lia|].
  apply wp_bind. eapply wp_load; [by eapply sr_lookup|].
  apply wp_bind. eapply wp_get_ram_count; [done..|].
  apply wp_bind. eapply wp_get_free_count; [done..|]. by apply wp_modify.
Qed.
End ops.

(** The percentage is the exact proportion, rounded up. *)
Lemma percent_ceiling memsize used :
  0 < memsize → 0 ≤ used →
  memsize * (percent memsize used - 1) < 100 * used ≤ memsize * percent memsize used.
Proof.
  intros Hm Hu. unfold percent. pose proof (Z.quot_rem' (100 * used) memsize) as Hqr.
  pose proof (Z.rem_bound_pos (100 * used) memsize ltac:(lia) ltac:(lia)).
  destruct (Z.eqb_spec (Z.rem (100 * used) memsize) 0); lia.
Qed.

Lemma percent_bounds memsize used :
  0 < used ≤ memsize → 1 ≤ percent memsize used ≤ 100.
Proof. intros Hu. pose proof (percent_ceiling memsize used). nia. Qed.

(** ** Creating the processes whose time has come *)
Definition new_pcb_of (p : scheduled_process_t) (m : loc) : pcb :=
  Pcb (sp_process_id p) ready (Some m) 1 (sp_job_time p) 0 0.
Definition new_pm_of (p : scheduled_process_t) : process_memory :=
  PM IN_DISK (sp_memory_size p) 0 (sp_process_id p).

Lemma wp_new_pcb memsize fl pl F P qs held p Q s :
  world memsize fl pl F P qs held s → 0 < sp_memory_size p →
  (∀ a m s', sim_frame s s' →
     world memsize fl pl F (P ++ [(m, new_pm_of p)]) qs
       ((a, Node NULL (new_pcb_of p m)) :: held) s' → Q a s') →
  wp (new_process_control_block (sp_process_id p) (sp_memory_size p) (sp_job_time p) pl) Q s.
Proof.
  intros [Hmm Hwf Hs] Hsz HQ. pose proof Hmm as [Hf [Hpl Ho] Hft].
  apply wp_bind, wp_malloc; [done|]. intros a Ha.
  pose proof (sr_alloc Hs a (Node NULL (Pcb (sp_process_id p) ready NULL 1 (sp_job_time p) 0 0)) Ha)
    as Hs1. simpl. set (s1 := set_pcbs _ s) in *.
  apply wp_bind, wp_malloc; [done|]. intros m Hm. simpl. set (s2 := set_pms _ s1).
  assert (Hs2 : sched_rep qs ((a, Node NULL (Pcb (sp_process_id p) ready NULL 1 (sp_job_time p) 0 0)) :: held) s2).
  { eapply sched_rep_mm_frame; [|exact Hs1]. unfold s2. auto with mem. }
  apply wp_bind. eapply wp_held_set_data; [exact Hs2|]. intros s3 Hf3 Hs3.
  apply wp_bind. eapply wp_mono.
  { eapply (wp_add_pm fl pl F P m (new_pm_of p) (pms s)); destruct Hf3 as (h & hq & ->); done. }
  intros _ s4 [Hf4 Hmm4]. apply wp_ret. eapply (HQ a m).
  - destruct Hf3 as (h & hq & ->). etrans; [|by apply sim_frame_mm]. done.
  - constructor; [done| |by eapply sched_rep_mm_frame].
    rewrite fmap_app. by apply wf_add_process.
Qed.

Lemma sp_rep_frame arr ps s s' : sim_frame s s' → sp_rep arr ps s → sp_rep arr ps s'.
Proof. unfold sp_rep. by intros (-> & -> & _). Qed.
Lemma sp_rep_set_out arr ps o s : sp_rep arr ps s → sp_rep arr ps (set_out o s).
Proof. done. Qed.
#[export] Hint Resolve sp_rep_frame sp_rep_set_out world_set_out : mem.

(** The processes at the front of the list whose start time is not after [t],
    and the others. *)
Fixpoint arrivals (t : Z) (ps : list scheduled_process_t) : list scheduled_process_t :=
  match ps with
  | [] => []
  | p :: ps' => if sp_start_time p <=? t then p :: arrivals t ps' else []
  end.
Fixpoint pending (t : Z) (ps : list scheduled_process_t) : list scheduled_process_t :=
  match ps with
  | [] => []
  | p :: ps' => if sp_start_time p <=? t then pending t ps' else ps
  end.

Lemma arrivals_pending t ps : arrivals t ps ++ pending t ps = ps.
Proof. induction ps as [|p ps IH]; simpl; [done|]. case_match; [simpl; by rewrite IH|done]. Qed.

Lemma pending_late t ps p ps' : pending t ps = p :: ps' → t < sp_start_time p.
Proof.
  induction ps as [|p0 ps IH]; simpl; [done|]. destruct (Z.leb_spec (sp_start_time p0) t); [done|].
  by intros [= -> ->].
Qed.

(** [x] is the control block of the scheduled process [p], whose memory is in [P]. *)
Definition is_proc (P : list (loc * process_memory)) (p : scheduled_process_t)
    (x : loc * pcb) : Prop :=
  pcb_process_id x.2 = sp_process_id p ∧ pcb_job_time x.2 = sp_job_time p ∧
  ∃ m w, pcb_process_memory x.2 = Some m ∧ (m, w) ∈ P ∧ pm_size w = sp_memory_size p.

Definition fresh_proc P p (x : loc * pcb) : Prop :=
  is_proc P p x ∧ pcb_priority x.2 = 1 ∧ pcb_burst_time x.2 = 0 ∧ pcb_cpu_time x.2 = 0.

(** What the simulator needs of a scheduled process. *)
Definition valid_proc (memsize : Z) (p : scheduled_process_t) : Prop :=
  0 < sp_memory_size p ≤ memsize ∧ sp_job_time p ≤ INT_MAX.
#[export] Instance valid_proc_dec memsize p : Decision (valid_proc memsize p).
Proof. unfold valid_proc. apply _. Defined.

Lemma is_proc_weaken P P' p x : P ⊆ P' → is_proc P p x → is_proc P' p x.
Proof. intros HP (? & ? & m & w & ? & ? & ?). do 2 (split; [done|]). exists m, w. auto. Qed.
Lemma fresh_proc_weaken P P' p x : P ⊆ P' → fresh_proc P p x → fresh_proc P' p x.
Proof. intros HP (? & ?). split; [by eapply is_proc_weaken|done]. Qed.

Lemma new_pms_in_disk ps (P : list (loc * process_memory)) :
  P.*2 = new_pm_of <$> ps → Forall (λ x, in_disk x.2 = true) P.
Proof.
  intros HP. apply (Forall_fmap snd (λ m, in_disk m = true)). rewrite HP. apply Forall_fmap. by apply Forall_true.
Qed.

Lemma wp_check_scheduled_exact memsize fl pl F P qs1 q l qs2 held arr ps1 ps2 k t Q s :
  world memsize fl pl F P (qs1 ++ (q, l) :: qs2) held s →
  sp_rep arr (ps1 ++ ps2) s → Forall (valid_proc memsize) ps2 →
  k = Z.of_nat (length ps1) → Z.of_nat (length (ps1 ++ ps2)) ≤ INT_MAX →
  (∀ s' P' l', sim_frame s s' → P'.*2 = new_pm_of <$> arrivals t ps2 →
     Forall2 (fresh_proc P') (arrivals t ps2) l' →
     world memsize fl pl F (P ++ P') (qs1 ++ (q, l ++ l') :: qs2) held s' →
     Q (k + Z.of_nat (length (arrivals t ps2))) s') →
  wp (check_scheduled_processes arr k t q pl) Q s.
Proof.
  intros Hw Hsp Hv -> Hlen HQ. remember (arrivals t ps2) as arrs eqn:Harrs.
  pose proof Hsp as (ls & junk & Harr & HF & _). apply wp_bind. eapply wp_load.
  { simpl. rewrite Harr. apply lookup_singleton_eq. }
  set (n := length _).
  assert (Hn : (length ps2 < Datatypes.S n)%nat).
  { unfold n. rewrite !length_app, length_fmap. apply Forall2_length in HF.
    rewrite length_app in HF. lia. }
  apply (wp_iter_idx (λ j k' s', ∃ qs ps2' P' l', ps2 = qs ++ ps2' ∧ j = length ps2' ∧
     k' = Z.of_nat (length ps1 + length qs) ∧ sim_frame s s' ∧
     arrs = qs ++ arrivals t ps2' ∧
     P'.*2 = new_pm_of <$> qs ∧ Forall2 (fresh_proc P') qs l' ∧
     world memsize fl pl F (P ++ P') (qs1 ++ (q, l ++ l') :: qs2) held s'))
    with (k := length ps2); [|exists [], ps2, [], []|lia].
  2: { rewrite !app_nil_r. rewrite Nat.add_0_r. do 3 (split; [done|]). split; [reflexivity|]. done. }
  clear Hw Harrs. intros j k' s' (qs & ps2' & P' & l' & -> & -> & -> & Hfr & Harrv & HP' & Hl' & Hw).
  rewrite app_assoc in Hsp. pose proof (sp_rep_frame _ _ _ _ Hfr Hsp) as Hsp'.
  apply wp_bind. eapply wp_array_get; [exact Hsp'|by rewrite length_app|].
  destruct ps2' as [|p ps2'].
  { apply wp_ret. simpl in Harrv. rewrite app_nil_r in Harrv. rewrite Nat2Z.inj_add, <- Harrv.
    eapply HQ; [done|by rewrite Harrv|by rewrite Harrv|exact Hw]. }
  intros sl Hsl. apply wp_bind. eapply wp_load; [exact Hsl|]. simpl in Harrv.
  destruct (sp_start_time p <=? t) eqn:Ht; last first.
  { apply wp_ret. rewrite app_nil_r in Harrv. rewrite Nat2Z.inj_add, <- Harrv.
    eapply HQ; [done|by rewrite Harrv|by rewrite Harrv|exact Hw]. }
  rewrite Forall_app, Forall_cons in Hv. destruct Hv as (_ & [[Hsz _] _] & _).
  apply wp_bind, wp_bind. eapply wp_load; [exact Hsl|].
  eapply wp_new_pcb; [exact Hw|done|]. intros a m s1 Hf1 Hw1. apply wp_bind.
  eapply wp_append; [apply Hw1|]. intros s2 Hf2 Hs2.
  rewrite !length_app in Hlen. simpl in Hlen.
  apply wp_bind. wp_step. apply wp_ret. exists (length ps2'). split; [simpl; lia|].
  exists (qs ++ [p]), ps2', (P' ++ [(m, new_pm_of p)]), (l' ++ [(a, new_pcb_of p m)]).
  rewrite <- !app_assoc. do 2 (split; [done|]). split; [rewrite length_app; simpl; lia|].
  split; [etrans; [done|]; etrans; [done|by apply sim_frame_pcb]|]. split; [done|].
  split; [by rewrite !fmap_app, HP'|]. split.
  - apply Forall2_app.
    + eapply Forall2_impl; [done|]. intros x y. apply fresh_proc_weaken. set_solver.
    + repeat constructor. exists m, (new_pm_of p). split; [done|]. split; [set_solver|done].
  - rewrite (app_assoc P), (app_assoc l). eapply world_pcb_frame; [exact Hw1|done..].
Qed.

(** The new memories are on disk. *)
Lemma wp_check_scheduled memsize fl pl F P qs1 q l qs2 held arr ps1 ps2 k t Q s :
  world memsize fl pl F P (qs1 ++ (q, l) :: qs2) held s →
  sp_rep arr (ps1 ++ ps2) s → Forall (valid_proc memsize) ps2 →
  k = Z.of_nat (length ps1) → Z.of_nat (length (ps1 ++ ps2)) ≤ INT_MAX →
  (∀ s' P' l', sim_frame s s' → Forall (λ x, in_disk x.2 = true) P' →
     Forall2 (fresh_proc P') (arrivals t ps2) l' →
     world memsize fl pl F (P ++ P') (qs1 ++ (q, l ++ l') :: qs2) held s' →
     Q (k + Z.of_nat (length (arrivals t ps2))) s') →
  wp (check_scheduled_processes arr k t q pl) Q s.
Proof.
  intros Hw Hsp Hv Hk Hlen HQ. eapply wp_check_scheduled_exact; [done..|].
  intros s' P' l' Hf HP'. apply HQ; [done|]. by apply new_pms_in_disk with (arrivals t ps2).
Qed.

(** ** The start and the end of a simulation *)

(** Only the two memory lists' own headers are allocated. *)
Definition one_header (fl pl : loc) (s : sim) : Prop :=
  dom (seg_lists s) = {[fl]} ∧ dom (pm_lists s) = {[pl]}.

Lemma one_header_same fl pl s s' : same_headers s s' → one_header fl pl s → one_header fl pl s'.
Proof. unfold one_header. by intros [-> ->]. Qed.

(** Parsing the file and setting up the memory, after the queues. *)
Lemma wp_setup {B} fs filename fp ps memsize qs (k : loc → loc → loc → C sim B) Q s :
  fs filename = Some fp → file_procs fp = Some ps → 2 * Z.of_nat (length ps) ≤ INT_MAX + 1 →
  0 < memsize ≤ INT_MAX → sched_rep qs [] s → (∃ h hq, s = set_pcb_queues hq (set_pcbs h (init_sim []))) →
  (∀ arr pl fl a s', world memsize fl pl [(a, Seg memsize memsize)] [] qs [] s' →
     sp_rep arr ps s' → one_header fl pl s' → out s' = [] → wp (k arr pl fl) Q s') →
  wp (fp ← fopen fs filename;
      scheduled_processes ← parse_process_data_file fp;
      process_memories_list ← new_process_memories_list;
      free_list ← new_free_memory_segments_list memsize;
      k scheduled_processes process_memories_list free_list) Q s.
Proof.
  intros Hfs Hps Hlen Hm Hs (h & hq & ->) HQ. apply wp_bind. unfold fopen. rewrite Hfs. apply wp_ret.
  apply wp_bind. eapply wp_mono; [by apply (wp_parse fp ps)|]. intros arr s1 [(hs & ha & ->) Hsp].
  apply wp_bind, wp_malloc; [done|]. intros pl _. simpl.
  apply wp_bind. eapply wp_mono; [by apply wp_new_free_list|].
  intros fl s2 ((hseg & hsl & ->) & Hdom & a & Hfree). simpl in *.
  eapply (HQ arr pl fl a); [|exact Hsp| |done].
  - constructor; [|by apply wf_init|by destruct Hs]. constructor; [done| |done].
    split; simpl; [by rewrite insert_empty, lookup_singleton_eq|apply owns_empty].
  - split; simpl; [|by rewrite insert_empty, dom_singleton_L].
    rewrite Hdom, dom_empty_L. set_solver.
Qed.

(** Releasing what is left after the queues leaves nothing allocated. *)
Lemma wp_release_all memsize fl pl F P arr ps s :
  world memsize fl pl F P [] [] s → sp_rep arr ps s → Z.of_nat (length ps) ≤ INT_MAX →
  one_header fl pl s →
  wp (free_scheduled_processes arr;;
      free_free_memory_segments_list (Some fl);;
      free_process_memories_list (Some pl))
    (λ _ s', s' = set_out (out s) (init_sim [])) s.
Proof.
  intros [[Hf Hp Hft] _ Hs] Hsp Hlen [H1 H2]. apply sr_released in Hs as [Hs1 Hs2].
  apply wp_bind. eapply wp_mono; [by eapply wp_free_sps|]. intros _ s1 ->.
  apply wp_bind. eapply wp_mono; [by eapply wp_free_segments|]. intros _ s2 ->.
  eapply wp_mono; [by eapply wp_free_process_memories|]. intros _ s3 ->.
  assert (Hd1 : delete fl (seg_lists s) = ∅).
  { apply dom_empty_inv_L. rewrite dom_delete_L, H1. set_solver. }
  assert (Hd2 : delete pl (pm_lists s) = ∅).
  { apply dom_empty_inv_L. rewrite dom_delete_L, H2. set_solver. }
  destruct s. unfold set_out, set_pm_lists, set_pms, set_seg_lists, set_segs. simpl in *.
  by rewrite Hd1, Hd2, Hs1, Hs2, Hft.
Qed.
