(* ===== verification/FcfsRefine.v ===== *)
(** * FcfsRefine: the first come first served simulation

    [fcfs_lines] says what the simulation prints, by recursion on the list of
    processes alone: no queue, no memory, no clock ticks.  The loop of
    [fcfs_scheduler_runner] prints exactly that. *)
From stdpp Require Import prelude gmap.
From S2P Require Import Prelude CMonad Chain State MemoryManagement MemorySpec.
From S2P Require Import MemoryRefine CString Parser ParserRefine Scheduler Frame.
From S2P Require Import QueueRefine ProcessRefine.

(** ** Specification *)

(** A process takes the processor for its job time, and for one tick at least. *)
Definition occupancy (p : scheduled_process_t) : Z := Z.max 1 (sp_job_time p).

(** The time at which the processes [ps], served in order from time [t], are done. *)
Fixpoint fcfs_end (t : Z) (ps : list scheduled_process_t) : Z :=
  match ps with
  | [] => t
  | p :: ps' => fcfs_end (Z.max t (sp_start_time p) + occupancy p) ps'
  end.

Definition fcfs_line (memsize t : Z) (p : scheduled_process_t) : event :=
  Status t (sp_process_id p) 1 (if sp_memory_size p =? memsize then 0 else 1)
    (percent memsize (sp_memory_size p)).

Fixpoint fcfs_lines (memsize t : Z) (ps : list scheduled_process_t) : list event :=
  match ps with
  | [] => [Finished t]
  | p :: ps' =>
      let b := Z.max t (sp_start_time p) in
      fcfs_line memsize b p :: fcfs_lines memsize (b + occupancy p) ps'
  end.

Lemma fcfs_end_length t ps : t + Z.of_nat (length ps) ≤ fcfs_end t ps.
Proof.
  revert t. induction ps as [|p ps IH]; intros t; simpl; [lia|].
  specialize (IH (Z.max t (sp_start_time p) + occupancy p)). unfold occupancy in *. lia.
Qed.

(** ** The loop invariant *)
Section fcfs.
Context {memsize : Z} {fl pl rq tq arr : loc} {ps : list scheduled_process_t}.
Context {lines : list event} {T : Z}.
Hypothesis Hmem : 100 * memsize ≤ INT_MAX.
Hypothesis HT : T ≤ INT_MAX.
Hypothesis Hps : Z.of_nat (length ps) ≤ INT_MAX.

(** The processes [rp] are ready, the processes [ps2] have not arrived; the
    processor is free at [t0], and what is still to be printed is the
    specification from there. *)
Record fcfs_common (t0 t : Z) (rp ps1 ps2 : list scheduled_process_t)
    (F : list (loc * segment)) (P : list (loc * process_memory)) (l lt : list (loc * pcb))
    (held : list block) (s : sim) : Prop := {
  fc_world : world memsize fl pl F P [(rq, l); (tq, lt)] held s;
  fc_time : 0 ≤ t;
  fc_sps : sp_rep arr ps s;
  fc_ps : ps = ps1 ++ ps2;
  fc_ready : Forall2 (fresh_proc P) rp l;
  fc_started : Forall (λ p, sp_start_time p ≤ t) rp;
  fc_valid : Forall (valid_proc memsize) (rp ++ ps2);
  fc_lines : out s ++ fcfs_lines memsize t0 (rp ++ ps2) = lines;
  fc_end : fcfs_end t0 (rp ++ ps2) = T
}.

(** [v] is running: its memory is the only one in RAM. *)
Definition sole_resident (P : list (loc * process_memory)) (v : pcb) : Prop :=
  ∃ m w P1 P2, pcb_process_memory v = Some m ∧ P = P1 ++ (m, w) :: P2 ∧
    in_disk w = false ∧ ram P1.*2 = [] ∧ ram P2.*2 = [].

Definition left_time (v : pcb) : Z := Z.max 1 (pcb_job_time v - pcb_cpu_time v).

Definition fcfs_running (t : Z) (a : loc) (rp ps1 ps2 : list scheduled_process_t) (s : sim) : Prop :=
  ∃ v F P l lt, fcfs_common (t + left_time v) t rp ps1 ps2 F P l lt [(a, Node NULL v)] s ∧
    sole_resident P v ∧ pcb_burst_time v = pcb_cpu_time v ∧ 0 ≤ pcb_cpu_time v ∧
    (pcb_cpu_time v = 0 ∨ pcb_cpu_time v < pcb_job_time v) ∧ pcb_job_time v ≤ INT_MAX.

Definition fcfs_idle (t : Z) (rp ps1 ps2 : list scheduled_process_t) (s : sim) : Prop :=
  ∃ F P l lt, fcfs_common t t rp ps1 ps2 F P l lt [] s ∧ ram P.*2 = [].

(** [n] is the number of rounds left: one for each tick up to the end. *)
Definition fcfs_inv (n : nat) '((t, run, spi) : Z * ptr * Z) (s : sim) : Prop :=
  ∃ rp ps1 ps2, spi = Z.of_nat (length ps1) ∧ n = Z.to_nat (T - t) ∧
    match run with
    | Some a => fcfs_running t a rp ps1 ps2 s
    | None => fcfs_idle t rp ps1 ps2 s
    end.

(** The state in which the loop is left. *)
Definition fcfs_final (t : Z) (s : sim) : Prop :=
  t = T ∧ out s ++ [Finished t] = lines ∧ sp_rep arr ps s ∧
  ∃ F P lt, world memsize fl pl F P [(rq, []); (tq, lt)] [] s.

Lemma ram_disk P : Forall (λ x : loc * process_memory, in_disk x.2 = true) P → ram P.*2 = [].
Proof.
  induction 1 as [|x P Hx HP IH]; [done|]. rewrite fmap_cons, ram_cons, IH, Hx. done.
Qed.

(** Arrivals move processes from the array to the queue. *)
Lemma fcfs_common_check t0 t rp ps1 ps2 F P l lt held Q s :
  fcfs_common t0 t rp ps1 ps2 F P l lt held s →
  (∀ s' P' l', Forall (λ x, in_disk x.2 = true) P' →
     fcfs_common t0 t (rp ++ arrivals t ps2) (ps1 ++ arrivals t ps2) (pending t ps2)
       F (P ++ P') (l ++ l') lt held s' →
     Q (Z.of_nat (length (ps1 ++ arrivals t ps2))) s') →
  wp (check_scheduled_processes arr (Z.of_nat (length ps1)) t rq pl) Q s.
Proof.
  intros [Hw Ht Hsp Heq Hr Hst Hv Hl He] HQ. pose proof Hsp as Hsp0. rewrite Heq in Hsp0.
  eapply (wp_check_scheduled _ _ _ _ _ []); [exact Hw|exact Hsp0| |done|by rewrite <- Heq|].
  { by apply Forall_app in Hv as [_ Hv]. }
  intros s' P' l' Hfr HP' Hl' Hw'. rewrite <- Nat2Z.inj_add, <- length_app.
  apply (HQ s' P' l'); [done|].
  constructor; [done|done|by eapply sp_rep_frame|by rewrite <- app_assoc, arrivals_pending| | | | |].
  - apply Forall2_app; (eapply Forall2_impl; [done|]); intros x y;
      apply fresh_proc_weaken; set_solver.
  - apply Forall_app. split; [done|]. clear. induction ps2 as [|p ps2 IH]; simpl; [done|].
    case_match; [|done]. constructor; [lia|done].
  - by rewrite <- app_assoc, arrivals_pending.
  - rewrite <- app_assoc, arrivals_pending. by destruct Hfr as (_ & _ & ->).
  - by rewrite <- app_assoc, arrivals_pending.
Qed.

(** The process at the front of the queue gets an empty memory. *)
Lemma loaded_alone t m w F P F' P' :
  wf_mem memsize F P.*2 → ram P.*2 = [] → (m, w) ∈ P → pm_size w ≤ memsize →
  loaded t m w F P F' P' →
  ∃ w' P1 P2, P = P1 ++ (m, w) :: P2 ∧ P' = P1 ++ (m, w') :: P2 ∧
    pm_size w' = pm_size w ∧ in_disk w' = false ∧ ram P1.*2 = [] ∧ ram P2.*2 = [] ∧
    length F' = if pm_size w =? memsize then 0%nat else 1%nat.
Proof.
  intros Hwf Hram Hin Hsz. unfold loaded. rewrite (wf_no_ram Hwf Hram).
  assert (in_disk w = true) as ->.
  { apply list_elem_of_split in Hin as (Q1 & Q2 & ->).
    rewrite fmap_app, fmap_cons, ram_mid in Hram. simpl in Hram.
    destruct (in_disk w); [done|]. by apply app_nil in Hram as [_ ?]. }
  intros (b & P1 & P2 & Hroom & -> & Hd).
  assert (Hfit : take_fit (pm_size w) [Seg memsize memsize] = Some (memsize,
    if memsize - pm_size w =? 0 then [] else [Seg (memsize - pm_size w) (memsize - pm_size w)])).
  { simpl. by rewrite (proj2 (Z.leb_le _ _)). }
  destruct (make_room_fit _ _ _ _ _ _ _ _ Hroom Hfit) as (-> & -> & HP).
  exists (to_ram memsize t w), P1, P2. rewrite <- HP, fmap_app, fmap_cons, ram_mid in Hram.
  apply app_nil in Hram as [H1 H2]. apply app_nil in H2 as [_ H2].
  split; [by symmetry|]. do 5 (split; [done|]).
  destruct (Z.eqb_spec (memsize - pm_size w) 0), (Z.eqb_spec (pm_size w) memsize); [done|lia|lia|done].
Qed.

Lemma is_proc_update P1 m w w' P2 p x :
  pm_size w' = pm_size w → is_proc (P1 ++ (m, w) :: P2) p x → is_proc (P1 ++ (m, w') :: P2) p x.
Proof.
  intros Hs (? & ? & m0 & w0 & Hm & Hin & Hsz). do 2 (split; [done|]).
  apply elem_of_app in Hin as [Hin|[[= -> ->]|Hin]%elem_of_cons].
  - exists m0, w0. split; [done|]. split; [set_solver|done].
  - exists m, w'. split; [done|]. split; [set_solver|congruence].
  - exists m0, w0. split; [done|]. split; [set_solver|done].
Qed.

Lemma fresh_procs_update P1 m w w' P2 rp l :
  pm_size w' = pm_size w → Forall2 (fresh_proc (P1 ++ (m, w) :: P2)) rp l →
  Forall2 (fresh_proc (P1 ++ (m, w') :: P2)) rp l.
Proof.
  intros Hs Hl. eapply Forall2_impl; [exact Hl|]. intros p x [Hp ?]. split; [|done]. by eapply is_proc_update.
Qed.

(** Taking the front of the queue, loading it and reporting it. *)
Lemma fcfs_dispatch t p rp ps1 ps2 F P a v l lt (K : ptr → C sim (option ptr)) Q s :
  fcfs_common t t (p :: rp) ps1 ps2 F P ((a, v) :: l) lt [] s → ram P.*2 = [] →
  (∀ s', fcfs_running t a rp ps1 ps2 s' → Q (Some (Some a)) s') →
  wp (r ← pop_front_pcb_from_pcbs_queue rq;
      match r with
      | Some a => load_pcb a t pl fl;; print_simulation_status t a pl fl memsize;; mret (Some r)
      | None => K r
      end) Q s.
Proof.
  intros [Hw Ht Hsp Heq Hr Hst Hv Hl He] Hram HQ.
  apply Forall2_cons in Hr as [[(Hid & Hjob & m & w & Hm & Hin & Hsz) (Hpr & Hb & Hc)] Hr].
  apply Forall_cons in Hst as [Hst0 Hst]. simpl in Hid, Hjob, Hm, Hpr, Hb, Hc.
  rewrite <- app_comm_cons in Hv. apply Forall_cons in Hv as [[Hv0 Hv1] Hv].
  apply wp_bind. eapply (wp_pop_cons []); [apply Hw|]. intros s1 r Hf1 Hs1.
  pose proof (world_pcb_frame _ _ _ _ _ _ _ _ _ _ _ Hw Hf1 Hs1) as Hw1.
  apply wp_bind. eapply (wp_load_pcb Hw1 m w); [done|done|lia|].
  intros s2 F2 P' Hf2 Hld Hw2.
  destruct (loaded_alone _ _ _ _ _ _ _ (w_wf _ _ _ _ _ _ _ _ Hw1) Hram Hin ltac:(lia) Hld)
    as (w' & P1 & P2 & -> & -> & Hsz' & Hd & Hr1 & Hr2 & HF2).
  apply wp_bind. eapply (wp_print_status Hw2); [done|]. apply wp_ret. apply HQ.
  assert (Hf : sim_frame s s2) by (etrans; [by apply sim_frame_pcb|done]).
  rewrite fmap_app, fmap_cons, ram_mid, Hr1, Hr2. simpl in *. rewrite Hd.
  rewrite length_fmap in HF2. rewrite HF2.
  exists (run_state v), F2, (P1 ++ (m, w') :: P2), l, lt.
  split; [|split; [|simpl; split; [congruence|]; split; [lia|]; split; [by left|lia]]].
  - assert (Hmax : Z.max t (sp_start_time p) = t) by lia. rewrite Hmax in *.
    assert (Hlt : left_time (run_state v) = occupancy p).
    { unfold left_time, occupancy. simpl. rewrite Hjob, Hc. f_equal. lia. }
    rewrite Hlt. constructor; [by apply world_set_out|done| |done| |done|done| |done].
    + apply sp_rep_set_out. by eapply sp_rep_frame.
    + by eapply fresh_procs_update.
    + simpl. destruct Hf as (_ & _ & ->). rewrite <- app_assoc, <- Hl. f_equal. simpl.
      unfold fcfs_line. rewrite Hid, Hsz', Hsz, Z.add_0_r. by destruct (sp_memory_size p =? memsize).
  - by exists m, w', P1, P2.
Qed.

(** One tick of the running process. *)
Lemma fcfs_tick t a rp ps1 ps2 s :
  fcfs_running t a rp ps1 ps2 s →
  wp (run_pcb a;;
      time ← int_add t 1;
      finished ← is_pcb_finished a;
      if (finished : bool) then
        terminate_pcb a fl;; append_pcb_to_pcbs_list a tq;;
        mret (inl (time, NULL, Z.of_nat (length ps1)))
      else mret (inl (time, Some a, Z.of_nat (length ps1))))
    (λ r s', match r with
     | inl l => ∃ k, (k < Z.to_nat (T - t))%nat ∧ fcfs_inv k l s'
     | inr t' => fcfs_final t' s'
     end) s.
Proof.
  intros (v & F & P & l & lt & [Hw Ht Hsp Heq Hr Hst Hv Hl He] &
    (m & w & P1 & P2 & Hm & -> & Hd & Hr1 & Hr2) & Hb & Hc & Hcj & Hj).
  pose proof (fcfs_end_length (t + left_time v) (rp ++ ps2)) as Hend. rewrite He in Hend.
  assert (Hst' : Forall (λ p, sp_start_time p ≤ t + 1) rp).
  { eapply Forall_impl; [done|]. simpl. lia. }
  unfold left_time in *. apply wp_bind. eapply (wp_run_pcb Hw); [lia..|]. intros s1 Hf1 Hw1.
  apply wp_bind. wp_step. apply wp_bind. eapply (wp_is_pcb_finished Hw1). simpl.
  destruct (Z.leb_spec (pcb_job_time v) (pcb_cpu_time v + 1)).
  - apply wp_bind. eapply (wp_terminate_pcb Hw1); [done..|]. intros s2 F2 Hf2 Hw2.
    apply wp_bind. eapply (wp_append [_]); [apply Hw2|]. intros s3 Hf3 Hs3. apply wp_ret.
    exists (Z.to_nat (T - (t + 1))). split; [lia|]. exists rp, ps1, ps2. do 2 (split; [done|]).
    exists F2, (P1 ++ (m, to_disk w) :: P2), l, (lt ++ [(a, set_pcb_state terminated
      (set_pcb_cpu (pcb_cpu_time v + 1) (set_pcb_burst (pcb_burst_time v + 1) v)))]).
    assert (Hf : sim_frame s s3) by (do 2 (etrans; [done|]); by apply sim_frame_pcb).
    replace (t + Z.max 1 (pcb_job_time v - pcb_cpu_time v)) with (t + 1) in * by lia.
    split; [|by rewrite fmap_app, fmap_cons, ram_mid, Hr1, Hr2].
    constructor; [by eapply world_pcb_frame|lia|by eapply sp_rep_frame|done| |done|done| |done].
    + by eapply (fresh_procs_update _ _ w).
    + by destruct Hf as (_ & _ & ->).
  - apply wp_ret. exists (Z.to_nat (T - (t + 1))). split; [lia|].
    exists rp, ps1, ps2. do 2 (split; [done|]). exists
      (set_pcb_cpu (pcb_cpu_time v + 1) (set_pcb_burst (pcb_burst_time v + 1) v)),
      F, (P1 ++ (m, w) :: P2), l, lt.
    split; [|split; [by exists m, w, P1, P2|simpl; lia]]. unfold left_time. simpl.
    replace (t + 1 + Z.max 1 (pcb_job_time v - (pcb_cpu_time v + 1))) with
      (t + Z.max 1 (pcb_job_time v - pcb_cpu_time v)) by lia.
    constructor; [done|lia|by eapply sp_rep_frame|done..| |done]. by destruct Hf1 as (_ & _ & ->).
Qed.

(** A round of the loop. *)
Lemma fcfs_round k l s :
  fcfs_inv k l s →
  wp (fcfs_step arr rq tq pl fl memsize l)
    (λ r s', match r with
     | inl l' => ∃ k', (k' < k)%nat ∧ fcfs_inv k' l' s'
     | inr t' => fcfs_final t' s'
     end) s.
Proof.
  destruct l as [[t [a|]] spi]; intros (rp & ps1 & ps2 & -> & -> & Hinv).
  - destruct Hinv as (v & F & P & l & lt & Hcom & (m & w & P1 & P2 & Hm & -> & Hd & Hr1 & Hr2) & Hrest).
    apply wp_bind. eapply fcfs_common_check; [exact Hcom|]. intros s1 P' l' HP' Hcom1.
    apply wp_bind, wp_ret. eapply fcfs_tick. eexists _, _, _, _, _. split; [exact Hcom1|].
    split; [|done]. exists m, w, P1, (P2 ++ P'). rewrite <- app_assoc. do 4 (split; [done|]).
    by rewrite fmap_app, ram_app, Hr2, (ram_disk _ HP').
  - destruct Hinv as (F & P & l & lt & Hcom & Hram).
    apply wp_bind. eapply fcfs_common_check; [exact Hcom|]. intros s1 P' l' HP' Hcom1.
    assert (Hram1 : ram (P ++ P').*2 = []) by by rewrite fmap_app, ram_app, Hram, (ram_disk _ HP').
    pose proof Hcom1 as [Hw Ht Hsp Heq Hr Hst Hv Hl He].
    destruct (l ++ l') as [|[a v] l0] eqn:El.
    + apply Forall2_nil_inv_r in Hr. rewrite Hr in *. simpl in *.
      apply wp_bind, wp_bind. eapply (wp_pop_empty []); [apply Hw|].
      apply wp_bind. eapply wp_load.
      { destruct Hw as [_ _ [Hq _ _ _ _ _]]. apply Forall_cons in Hq as [[Hq _] _]. exact Hq. }
      apply wp_bind. eapply wp_array_get; [rewrite <- Heq; exact Hsp|done|].
      pose proof (fcfs_end_length t (pending t ps2)) as Hlen.
      destruct (pending t ps2) as [|p ps2'] eqn:Ep.
      * apply wp_ret, wp_ret. simpl in He, Hl. split; [done|]. split; [done|]. split; [done|]. eauto.
      * intros sl Hsl. apply wp_ret, wp_bind, wp_ret, wp_bind. rewrite He in Hlen. simpl in Hlen.
        wp_step. apply wp_ret. exists (Z.to_nat (T - (t + 1))). split; [lia|].
        exists [], (ps1 ++ arrivals t ps2), (p :: ps2'). do 2 (split; [done|]).
        exists F, (P ++ P'), [], lt. split; [|done].
        assert (t < sp_start_time p) by by eapply pending_late.
        constructor; [done|lia|done|done|done|done|done| |];
          cbn [fcfs_lines fcfs_end app] in *;
          replace (Z.max (t + 1) (sp_start_time p)) with (Z.max t (sp_start_time p)) by lia; done.
    + apply Forall2_cons_inv_r in Hr as (p & rp' & _ & _ & Hrp). rewrite Hrp in Hcom1.
      apply wp_bind. eapply fcfs_dispatch; [exact Hcom1|done|]. intros s2 Hrun.
      by eapply fcfs_tick.
Qed.
End fcfs.

(** ** The whole simulation *)
Lemma wp_fcfs_runner fs fuel filename fp ps memsize :
  fs filename = Some fp → file_procs fp = Some ps →
  0 < memsize → 100 * memsize ≤ INT_MAX → Forall (valid_proc memsize) ps →
  2 * Z.of_nat (length ps) ≤ INT_MAX + 1 → fcfs_end 0 ps ≤ INT_MAX →
  (Z.to_nat (fcfs_end 0 ps) < fuel)%nat →
  wp (fcfs_scheduler_runner fs fuel filename memsize)
    (λ _ s', s' = set_out (fcfs_lines memsize 0 ps) (init_sim [])) (init_sim []).
Proof.
  intros Hfs Hps Hm1 Hm2 Hv Hlen HT Hfuel.
  apply wp_bind. eapply wp_new_queue; [by apply sr_empty|done|]. intros rq s1 Hf1 Hs1.
  apply wp_bind. eapply wp_new_queue; [exact Hs1|by destruct Hf1 as (h & hq & ->)|].
  intros tq s2 Hf2 Hs2. eapply wp_setup; [done..|lia|exact Hs2| |].
  { destruct Hf1 as (h & hq & ->). destruct Hf2 as (h' & hq' & ->). by exists h', hq'. }
  intros arr pl fl a s3 Hw Hsp Hhd Hout. apply wp_bind. eapply wp_mono.
  - apply wp_preserves with (R := same_headers); [apply preserves_iter, headers_fcfs_step|].
    eapply (wp_iter_idx (fcfs_inv (memsize := memsize) (lines := fcfs_lines memsize 0 ps)
      (T := fcfs_end 0 ps) (ps := ps))); [intros k l s Hi; apply fcfs_round; [lia|lia|lia|exact Hi]| |exact Hfuel].
    exists [], [], ps. split; [done|]. split; [f_equal; lia|].
    exists [(a, Seg memsize memsize)], [], [], []. split; [|done].
    constructor; try done. by rewrite Hout.
  - intros T s4 [(-> & Hlines & Hsp4 & F & P & lt & Hw4) Hhd4].
    apply wp_bind, wp_modify. rewrite Hlines.
    assert (Hw5 := world_set_out _ _ _ _ _ _ _ (fcfs_lines memsize 0 ps) _ Hw4).
    apply wp_bind. eapply wp_free_queue; [apply Hw5|]. intros s5 Hf5 Hs5.
    apply wp_bind. eapply wp_free_queue; [exact Hs5|]. intros s6 Hf6 Hs6.
    pose proof (fcfs_end_length 0 ps).
    eapply wp_mono; [eapply (wp_release_all memsize); [|by destruct Hf5 as (? & ? & ->), Hf6 as (? & ? & ->)|lia|]|].
    + eapply world_pcb_frame; [exact Hw5|by etrans|done].
    + eapply one_header_same; [|exact Hhd]. etrans; [exact Hhd4|].
      by destruct Hf5 as (? & ? & ->), Hf6 as (? & ? & ->).
    + intros _ s7 ->. by destruct Hf5 as (? & ? & ->), Hf6 as (? & ? & ->).
Qed.
