(* ===== verification/MlfqSpec.v ===== *)
(** * MlfqSpec: the multi-level feedback queue, slice by slice

    The specification of the multi-level feedback scheduler works with whole
    time slices: the first task of the first non-empty level gets the processor
    for its quantum, or for as long as it still needs; then it leaves or goes
    to the end of the next lower level.  [mlfq_run] relates the processes of the
    input to the dispatches (time, process id) and the time at which all is
    done.  There are no ticks, no memory and no pointers in it. *)
From stdpp Require Import prelude.
From S2P Require Import Prelude State Scheduler ProcessRefine FcfsRefine.

Record task := Task { tk_pid : Z; tk_level : Z; tk_left : Z }.

Definition task_of (p : scheduled_process_t) : task := Task (sp_process_id p) 1 (occupancy p).

Definition level_quantum (n : Z) : Z :=
  if n =? 1 then Q1_QUANTUM else if n =? 2 then Q2_QUANTUM else Q3_QUANTUM.

(** The first element of the first queue that has one. *)
Fixpoint pick {A} (qs : list (list A)) : option (A * list (list A)) :=
  match qs with
  | [] => None
  | [] :: qs' => prod_map id (cons []) <$> pick qs'
  | (x :: q) :: qs' => Some (x, q :: qs')
  end.

(** To the end of queue [i]. *)
Definition enqueue {A} (i : nat) (xs : list A) (qs : list (list A)) : list (list A) :=
  alter (λ q, q ++ xs) i qs.

Definition adm (t : Z) (ps : list scheduled_process_t) (qs : list (list task)) : list (list task) :=
  enqueue 0 (task_of <$> arrivals t ps) qs.

Definition lower (n : Z) (tk : task) : task :=
  Task (tk_pid tk) (Z.min MIN_PRIORITY (tk_level tk + 1)) (tk_left tk - n).

(** The queues after [tk] has run for up to [n] more ticks. *)
Definition finish_slice (n : Z) (tk : task) (qs : list (list task)) : list (list task) :=
  if tk_left tk <=? n then qs
  else enqueue (Z.to_nat (tk_level (lower n tk) - 1)) [lower n tk] qs.

Inductive mlfq_run : Z → list (list task) → list scheduled_process_t →
    list (Z * Z) → Z → Prop :=
  | run_stop t qs ps :
      pick (adm t ps qs) = None → pending t ps = [] →
      mlfq_run t qs ps [] t
  | run_idle t qs ps p ps' evs T :
      pick (adm t ps qs) = None → pending t ps = p :: ps' →
      mlfq_run (sp_start_time p) (adm t ps qs) (p :: ps') evs T →
      mlfq_run t qs ps evs T
  | run_slice t qs ps tk qs' evs T :
      pick (adm t ps qs) = Some (tk, qs') →
      mlfq_run (t + Z.min (tk_left tk) (level_quantum (tk_level tk)))
        (finish_slice (level_quantum (tk_level tk)) tk qs') (pending t ps) evs T →
      mlfq_run t qs ps ((t, tk_pid tk) :: evs) T.

(** ** Admission *)
Lemma enqueue_app {A} i (xs ys : list A) qs : enqueue i (xs ++ ys) qs = enqueue i ys (enqueue i xs qs).
Proof.
  unfold enqueue. rewrite list_alter_alter_eq. apply list_alter_ext; [|done].
  intros q _. simpl. by rewrite app_assoc.
Qed.

Lemma enqueue_nil {A} i (qs : list (list A)) : enqueue i [] qs = qs.
Proof. unfold enqueue. apply list_alter_id. intros q. apply app_nil_r. Qed.

Lemma enqueue_comm {A} i j (xs ys : list A) qs :
  i ≠ j → enqueue i xs (enqueue j ys qs) = enqueue j ys (enqueue i xs qs).
Proof. intros Hij. unfold enqueue. by apply list_alter_alter_ne. Qed.

Lemma arrivals_split u t ps : u ≤ t → arrivals t ps = arrivals u ps ++ arrivals t (pending u ps).
Proof.
  intros Hu. induction ps as [|p ps IH]; simpl; [done|].
  destruct (Z.leb_spec (sp_start_time p) u); simpl; [|done].
  destruct (Z.leb_spec (sp_start_time p) t); [by rewrite IH|lia].
Qed.

Lemma pending_pending u t ps : u ≤ t → pending t (pending u ps) = pending t ps.
Proof.
  intros Hu. induction ps as [|p ps IH]; simpl; [done|].
  destruct (Z.leb_spec (sp_start_time p) u); simpl; [|done].
  destruct (Z.leb_spec (sp_start_time p) t); [done|lia].
Qed.

Lemma adm_adm u t ps qs : u ≤ t → adm t (pending u ps) (adm u ps qs) = adm t ps qs.
Proof.
  intros Hu. unfold adm. by rewrite (arrivals_split u t ps), fmap_app, enqueue_app by done.
Qed.

(** Admitting early what has arrived makes no difference. *)
Lemma mlfq_run_adm u t qs ps evs T :
  u ≤ t → mlfq_run t (adm u ps qs) (pending u ps) evs T → mlfq_run t qs ps evs T.
Proof.
  intros Hu. inversion 1; subst; rewrite adm_adm, pending_pending in * by done;
    [by apply run_stop|by eapply run_idle|by eapply run_slice].
Qed.

Lemma finish_slice_adm n tk t ps qs :
  1 ≤ tk_level tk → finish_slice n tk (adm t ps qs) = adm t ps (finish_slice n tk qs).
Proof.
  intros Hl. unfold finish_slice. case_match; [done|]. apply enqueue_comm.
  simpl. unfold MIN_PRIORITY. lia.
Qed.

(** A tick in which nothing runs. *)
Lemma mlfq_run_idle_tick t qs p ps evs T :
  pick qs = None → t < sp_start_time p →
  mlfq_run (t + 1) qs (p :: ps) evs T → mlfq_run t qs (p :: ps) evs T.
Proof.
  intros Hpick Hlt Hrun.
  assert (Ht : ∀ u, u < sp_start_time p → adm u (p :: ps) qs = qs ∧ pending u (p :: ps) = p :: ps).
  { intros u Hu. unfold adm. simpl. rewrite (proj2 (Z.leb_gt _ _)) by lia. simpl. by rewrite enqueue_nil. }
  destruct (Ht t Hlt) as [Ha Hp]. eapply run_idle; rewrite ?Ha; [done|exact Hp|].
  destruct (decide (t + 1 < sp_start_time p)) as [Hlt'|Hge].
  - destruct (Ht _ Hlt') as [Ha' Hp'].
    inversion Hrun; subst; rewrite Ha', ?Hp' in *; simplify_eq; done.
  - by replace (sp_start_time p) with (t + 1) by lia.
Qed.

(** ** The work that is left *)
Definition sum_left (q : list task) : Z := foldr (λ tk n, tk_left tk + n) 0 q.
Definition work (qs : list (list task)) : Z := foldr (λ q n, sum_left q + n) 0 qs.
Definition demand (ps : list scheduled_process_t) : Z := foldr (λ p n, occupancy p + n) 0 ps.
Definition latest (ps : list scheduled_process_t) : Z := foldr (λ p n, Z.max (sp_start_time p) n) 0 ps.

(** An upper bound for the time at which the simulation ends. *)
Definition horizon (ps : list scheduled_process_t) : Z := latest ps + demand ps.

Lemma sum_left_app q1 q2 : sum_left (q1 ++ q2) = sum_left q1 + sum_left q2.
Proof. unfold sum_left. induction q1; simpl; lia. Qed.

Lemma work_cons q qs : work (q :: qs) = sum_left q + work qs.
Proof. done. Qed.

Lemma work_enqueue i xs qs :
  (i < length qs)%nat → work (enqueue i xs qs) = work qs + sum_left xs.
Proof.
  revert i. induction qs as [|q qs IH]; intros [|i] Hi; simpl in Hi; [lia..| |].
  - change (enqueue 0 xs (q :: qs)) with ((q ++ xs) :: qs).
    rewrite !work_cons, sum_left_app. lia.
  - change (enqueue (S i) xs (q :: qs)) with (q :: enqueue i xs qs).
    rewrite !work_cons, IH; lia.
Qed.

Lemma demand_arrivals t ps :
  sum_left (task_of <$> arrivals t ps) + demand (pending t ps) = demand ps.
Proof.
  induction ps as [|p ps IH]; [done|]. cbn [arrivals pending]. case_match; [|done].
  change (demand (p :: ps)) with (occupancy p + demand ps). rewrite fmap_cons.
  change (sum_left (task_of p :: (task_of <$> arrivals t ps)))
    with (occupancy p + sum_left (task_of <$> arrivals t ps)). lia.
Qed.

Lemma latest_pending t ps : latest (pending t ps) ≤ latest ps.
Proof. induction ps as [|p ps IH]; simpl; [done|]. case_match; simpl; lia. Qed.

Lemma latest_nonneg ps : 0 ≤ latest ps.
Proof. induction ps; simpl; lia. Qed.

Lemma demand_length ps : Z.of_nat (length ps) ≤ demand ps.
Proof. unfold demand, occupancy. induction ps; simpl length; simpl foldr; lia. Qed.

Lemma pick_work (qs : list (list task)) tk qs' : pick qs = Some (tk, qs') → work qs = tk_left tk + work qs'.
Proof.
  revert qs'. induction qs as [|[|x q] qs IH]; intros qs'; simpl; [done| |].
  - destruct (pick qs) as [[x qs0]|]; simpl; [|done]. intros [= -> <-].
    specialize (IH _ eq_refl). unfold work in *. simpl. unfold id. lia.
  - intros [= -> <-]. unfold work. simpl. lia.
Qed.

Lemma pick_length {A} (qs : list (list A)) x qs' : pick qs = Some (x, qs') → length qs' = length qs.
Proof.
  revert qs'. induction qs as [|[|y q] qs IH]; intros qs'; simpl; [done| |].
  - destruct (pick qs) as [[x0 qs0]|]; simpl; [|done]. intros [= -> <-]. simpl. by rewrite (IH _ eq_refl).
  - by intros [= -> <-].
Qed.
