(* ===== verification/MlfqRefine.v ===== *)
(** * MlfqRefine: the multi-level feedback simulation

    The tick loop of [multi_scheduler_runner] refines the slice-level
    specification [mlfq_run]: it dispatches the same processes at the same
    times, ends at the same time, and every status line reports a consistent
    memory. *)
From stdpp Require Import prelude gmap.
From S2P Require Import Prelude CMonad Chain State MemoryManagement MemorySpec.
From S2P Require Import MemoryRefine CString Parser ParserRefine Scheduler Frame.
From S2P Require Import QueueRefine ProcessRefine FcfsRefine MlfqSpec.

(** What the status lines say of the schedule, and of the memory. *)
Definition dispatches (es : list event) : list (Z * Z) :=
  omap (λ e, match e with Status t pid _ _ _ => Some (t, pid) | Finished _ => None end) es.

Definition status_ok (memsize : Z) (e : event) : Prop :=
  match e with
  | Status _ _ numprocesses numholes memusage =>
      ∃ F P, wf_mem memsize F P ∧ ram P ≠ [] ∧ numprocesses = Z.of_nat (length (ram P)) ∧
        numholes = Z.of_nat (length F) ∧ memusage = percent memsize (total (ram P))
  | Finished _ => True
  end.

(** The control block of a task. *)
Record task_rep (memsize : Z) (P : list (loc * process_memory)) (tk : task) (x : loc * pcb) : Prop := {
  tr_pid : pcb_process_id x.2 = tk_pid tk;
  tr_level : pcb_priority x.2 = tk_level tk;
  tr_level_range : 1 ≤ tk_level tk ≤ 3;
  tr_left : tk_left tk = left_time x.2;
  tr_cpu : 0 ≤ pcb_cpu_time x.2;
  tr_more : pcb_cpu_time x.2 = 0 ∨ pcb_cpu_time x.2 < pcb_job_time x.2;
  tr_job : pcb_job_time x.2 ≤ INT_MAX;
  tr_mem : ∃ m w, pcb_process_memory x.2 = Some m ∧ (m, w) ∈ P ∧ pm_size w ≤ memsize
}.

Definition qrep memsize P (q : list task) (x : queue) : Prop := Forall2 (task_rep memsize P) q x.2.

(** The processes keep their memory blocks and sizes. *)
Definition keeps_mem (P P' : list (loc * process_memory)) : Prop :=
  ∀ m w, (m, w) ∈ P → ∃ w', (m, w') ∈ P' ∧ pm_size w' = pm_size w.

Lemma task_rep_keeps memsize P P' tk x :
  keeps_mem P P' → task_rep memsize P tk x → task_rep memsize P' tk x.
Proof.
  intros Hk [? ? ? ? ? ? ? (m & w & Hm & Hin & Hsz)]. constructor; [done..|].
  destruct (Hk m w Hin) as (w' & Hin' & Hsz'). exists m, w'. split; [done|]. split; [done|lia].
Qed.

Lemma qrep_keeps memsize P P' qs rqs :
  keeps_mem P P' → Forall2 (qrep memsize P) qs rqs → Forall2 (qrep memsize P') qs rqs.
Proof.
  intros Hk HF. eapply Forall2_impl; [exact HF|]. intros q x Hq.
  eapply Forall2_impl; [exact Hq|]. intros tk y. by apply task_rep_keeps.
Qed.

Lemma keeps_mem_app P P' : keeps_mem P (P ++ P').
Proof. intros m w Hin. exists w. split; [set_solver|done]. Qed.

Lemma keeps_mem_update P1 m w w' P2 :
  pm_size w' = pm_size w → keeps_mem (P1 ++ (m, w) :: P2) (P1 ++ (m, w') :: P2).
Proof.
  intros Hs m0 w0 [Hin|[[= -> ->]|Hin]%elem_of_cons]%elem_of_app.
  - exists w0. split; [set_solver|done].
  - exists w'. split; [set_solver|done].
  - exists w0. split; [set_solver|done].
Qed.

Lemma evicted_keeps_mem P P' : Forall2 evicted P P' → keeps_mem P P'.
Proof.
  induction 1 as [|x y P P' Hxy HP IH]; intros m w Hin; [by apply not_elem_of_nil in Hin|].
  apply elem_of_cons in Hin as [<-|Hin].
  - destruct Hxy as [->|[_ ->]]; [exists w|exists (to_disk w)]; (split; [left|done]).
  - destruct (IH m w Hin) as (w' & ? & ?). exists w'. split; [by right|done].
Qed.

(** After loading, the process is in RAM and nobody's block is lost. *)
Lemma loaded_keeps t m w F P F' P' :
  loaded t m w F P F' P' → (m, w) ∈ P →
  keeps_mem P P' ∧ ∃ w', (m, w') ∈ P' ∧ in_disk w' = false.
Proof.
  unfold loaded. destruct (in_disk w) eqn:Hd.
  - intros (b & P1 & P2 & Hroom & -> & Hd') Hin. split; [|exists (to_ram b t w); set_solver].
    apply make_room_evicted, evicted_keeps_mem in Hroom.
    intros m0 w0 Hin0. destruct (Hroom m0 w0 Hin0) as (w1 & Hin1 & Hsz1).
    destruct (keeps_mem_update P1 m w (to_ram b t w) P2 eq_refl m0 w1 Hin1) as (w2 & ? & ?).
    exists w2. split; [done|congruence].
  - intros [-> ->] Hin. split; [|by exists w]. intros m0 w0 Hin0. by exists w0.
Qed.

(** ** Queues by level *)
Definition push (i : nat) (l : list (loc * pcb)) (rqs : list queue) : list queue :=
  alter (λ x : queue, (x.1, x.2 ++ l)) i rqs.

Lemma push_fst i l rqs : (push i l rqs).*1 = rqs.*1.
Proof.
  unfold push. revert i. induction rqs as [|x rqs IH]; intros [|i]; [done..|].
  rewrite (fmap_cons _ x). cbn. f_equal. apply IH.
Qed.

Lemma qrep_push memsize P i xs l qs rqs :
  Forall2 (qrep memsize P) qs rqs → Forall2 (task_rep memsize P) xs l →
  Forall2 (qrep memsize P) (enqueue i xs qs) (push i l rqs).
Proof.
  intros HF Hxs. unfold enqueue, push. apply Forall2_alter; [done|].
  intros q x _ _ Hq. by apply Forall2_app.
Qed.

Lemma wp_append_level i a v rqs q tl held Q s :
  sched_rep (rqs ++ tl) ((a, Node NULL v) :: held) s → rqs.*1 !! i = Some q →
  (∀ s', pcb_frame s s' → sched_rep (push i [(a, v)] rqs ++ tl) held s' → Q () s') →
  wp (append_pcb_to_pcbs_list a q) Q s.
Proof.
  intros Hr Hi HQ. apply list_lookup_fmap_Some in Hi as ([q' l] & -> & Hi).
  rewrite <- (take_drop_middle _ _ _ Hi) in Hr. simpl. rewrite <- app_assoc in Hr.
  eapply wp_append; [exact Hr|]. intros s' Hf Hs. apply HQ; [done|].
  unfold push. rewrite <- (take_drop_middle _ _ _ Hi) at 1.
  assert (Hlen : length (take i rqs) = i).
  { apply length_take_le. apply lookup_lt_Some in Hi. lia. }
  rewrite <- (Nat.add_0_r i) at 1. rewrite <- Hlen at 1. rewrite alter_app_r, <- app_assoc. done.
Qed.

Lemma wp_pop_first pre rqs tl held Q s :
  sched_rep (pre ++ rqs ++ tl) held s →
  (pick rqs.*2 = None → Q NULL s) →
  (∀ a v ls s' r, pick rqs.*2 = Some ((a, v), ls) → pcb_frame s s' →
     sched_rep (pre ++ zip rqs.*1 ls ++ tl) ((a, Node r v) :: held) s' → Q (Some a) s') →
  wp (pop_first rqs.*1) Q s.
Proof.
  revert pre. induction rqs as [|[q [|[a v] l]] rqs IH]; intros pre Hr HN HS.
  - apply wp_ret. by apply HN.
  - apply wp_bind. eapply wp_pop_empty; [exact Hr|].
    apply (IH (pre ++ [(q, [])])); [by rewrite <- app_assoc| |].
    + intros Hp. apply HN. rewrite fmap_cons. simpl. by rewrite Hp.
    + intros a v ls s' r Hp Hf Hs. eapply (HS a v ([] :: ls)); [|done|].
      * rewrite fmap_cons. simpl. by rewrite Hp.
      * rewrite <- app_assoc in Hs. exact Hs.
  - apply wp_bind. eapply wp_pop_cons; [exact Hr|]. intros s' r Hf Hs. apply wp_ret.
    eapply (HS a v (l :: rqs.*2)); [done|done|]. rewrite !fmap_cons. simpl.
    by rewrite zip_fst_snd.
Qed.

(** The abstract choice follows the concrete one. *)
Lemma pick_rep_None memsize P qs rqs :
  Forall2 (qrep memsize P) qs rqs → pick rqs.*2 = None → pick qs = None.
Proof.
  induction 1 as [|q [h l] qs rqs Hq HF IH]; [done|]. rewrite fmap_cons. unfold qrep in Hq.
  simpl in *. destruct Hq; simpl; [|done]. destruct (pick rqs.*2); [done|]. intros _. by rewrite IH.
Qed.

Lemma pick_rep_Some memsize P qs rqs x ls :
  Forall2 (qrep memsize P) qs rqs → pick rqs.*2 = Some (x, ls) →
  ∃ tk qs', pick qs = Some (tk, qs') ∧ task_rep memsize P tk x ∧
    Forall2 (qrep memsize P) qs' (zip rqs.*1 ls).
Proof.
  intros HF. revert ls. induction HF as [|q [h l] qs rqs Hq HF IH]; intros ls; [done|].
  rewrite !fmap_cons. unfold qrep in Hq. simpl in *. destruct Hq as [|tk y q l Htk Hq]; simpl.
  - destruct (pick rqs.*2) as [[x0 ls0]|]; [|done]. intros [= <- <-].
    destruct (IH _ eq_refl) as (tk & qs' & -> & Htk & HF'). exists tk, ([] :: qs').
    split; [done|]. split; [done|]. constructor; [constructor|done].
  - intros [= <- <-]. exists tk, (q :: qs). split; [done|]. split; [done|]. simpl.
    rewrite zip_fst_snd. by constructor.
Qed.

Lemma pick_fst (rqs : list queue) x ls : pick rqs.*2 = Some (x, ls) → (zip rqs.*1 ls).*1 = rqs.*1.
Proof.
  intros Hp%pick_length. apply fst_zip. rewrite !length_fmap in *. lia.
Qed.

Lemma fresh_task memsize P0 P p x :
  valid_proc memsize p → fresh_proc P p x → task_rep memsize (P0 ++ P) (task_of p) x.
Proof.
  intros [Hsz Hjob] [(Hid & Hj & m & w & Hm & Hin & Hw) (Hpr & Hb & Hc)].
  constructor; simpl; [done|done|lia| |lia|by left|lia|].
  - unfold occupancy, left_time. rewrite Hj, Hc. f_equal. lia.
  - exists m, w. split; [done|]. split; [set_solver|lia].
Qed.

Lemma task_left_pos memsize P tk x : task_rep memsize P tk x → 1 ≤ tk_left tk.
Proof. intros [_ _ _ Hl _ _ _ _]. rewrite Hl. unfold left_time. lia. Qed.

Lemma qrep_work_nonneg memsize P qs rqs : Forall2 (qrep memsize P) qs rqs → 0 ≤ work qs.
Proof.
  induction 1 as [|q x qs rqs Hq HF IH]; [done|]. rewrite work_cons.
  assert (0 ≤ sum_left q); [|lia]. unfold sum_left.
  induction Hq as [|tk y q l Htk Hq IHq]; simpl; [done|]. apply task_left_pos in Htk. lia.
Qed.

Lemma quantum_of_level memsize P tk a v :
  task_rep memsize P tk (a, v) → quantum_of v = level_quantum (tk_level tk).
Proof.
  intros [_ Hl _ _ _ _ _ _]. simpl in Hl. unfold quantum_of, level_quantum. rewrite Hl.
  by repeat case_match.
Qed.

(** ** The loop invariant *)
Section mlfq.
Context {memsize : Z} {fl pl tq arr : loc} {hdrs : list loc} {ps : list scheduled_process_t}.
Context {H : Z}.
Hypothesis Hmem : 100 * memsize ≤ INT_MAX.
Hypothesis HH : H ≤ INT_MAX.
Hypothesis Hps : Z.of_nat (length ps) ≤ INT_MAX.
Hypothesis Hlevels : length hdrs = 3%nat.

Record mlfq_common (t : Z) (rqs : list queue) (qs : list (list task))
    (ps1 ps2 : list scheduled_process_t) (F : list (loc * segment))
    (P : list (loc * process_memory)) (lt : list (loc * pcb)) (held : list block) (s : sim) : Prop := {
  mc_world : world memsize fl pl F P (rqs ++ [(tq, lt)]) held s;
  mc_time : 0 ≤ t;
  mc_sps : sp_rep arr ps s;
  mc_ps : ps = ps1 ++ ps2;
  mc_ready : Forall2 (qrep memsize P) qs rqs;
  mc_hdrs : rqs.*1 = hdrs;
  mc_valid : Forall (valid_proc memsize) ps2;
  mc_out : Forall (status_ok memsize) (out s)
}.

(** Whatever the specification does from here completes what was printed. *)
Definition continues (t : Z) (qs : list (list task)) (ps2 : list scheduled_process_t) (s : sim) : Prop :=
  ∀ evs T, mlfq_run t qs ps2 evs T →
    mlfq_run 0 [[]; []; []] ps (dispatches (out s) ++ evs) T.

(** A bound on the rounds left. *)
Definition potential (t : Z) (qs : list (list task)) (ps2 : list scheduled_process_t) : Z :=
  Z.max 0 (latest ps2 - t) + work qs + demand ps2.

Definition mlfq_idle (k : nat) (t : Z) (qs : list (list task)) (ps1 ps2 : list scheduled_process_t)
    (s : sim) : Prop :=
  ∃ rqs F P lt, mlfq_common t rqs qs ps1 ps2 F P lt [] s ∧ continues t qs ps2 s ∧
    potential t qs ps2 ≤ Z.of_nat k.

(** [v] runs; it may go on for [n] ticks. *)
Definition mlfq_running (k : nat) (t : Z) (a : loc) (qs : list (list task))
    (ps1 ps2 : list scheduled_process_t) (s : sim) : Prop :=
  ∃ v tk n rqs F P lt, mlfq_common t rqs qs ps1 ps2 F P lt [(a, Node NULL v)] s ∧
    task_rep memsize P tk (a, v) ∧
    (∃ m w, pcb_process_memory v = Some m ∧ (m, w) ∈ P ∧ in_disk w = false) ∧
    n = level_quantum (tk_level tk) - pcb_burst_time v ∧ 1 ≤ n ∧ 0 ≤ pcb_burst_time v ∧
    continues (t + Z.min (tk_left tk) n) (finish_slice n tk qs) ps2 s ∧
    potential t qs ps2 + tk_left tk ≤ Z.of_nat k.

Definition mlfq_inv (k : nat) '((t, run, spi) : Z * ptr * Z) (s : sim) : Prop :=
  ∃ qs ps1 ps2, spi = Z.of_nat (length ps1) ∧ t + Z.of_nat k ≤ H ∧
    match run with
    | Some a => mlfq_running k t a qs ps1 ps2 s
    | None => mlfq_idle k t qs ps1 ps2 s
    end.

Definition mlfq_final (t : Z) (s : sim) : Prop :=
  mlfq_run 0 [[]; []; []] ps (dispatches (out s)) t ∧
  Forall (status_ok memsize) (out s) ∧ sp_rep arr ps s ∧
  ∃ F P rqs lt, rqs.*1 = hdrs ∧ world memsize fl pl F P (rqs ++ [(tq, lt)]) [] s.

Lemma potential_adm t qs ps2 :
  (0 < length qs)%nat → potential t (adm t ps2 qs) (pending t ps2) ≤ potential t qs ps2.
Proof.
  intros Hq. unfold potential, adm. rewrite work_enqueue by done.
  pose proof (demand_arrivals t ps2). pose proof (latest_pending t ps2). lia.
Qed.

(** Arrivals go to the first level. *)
Lemma mlfq_common_check t rqs qs ps1 ps2 F P lt held Q s :
  mlfq_common t rqs qs ps1 ps2 F P lt held s →
  (∀ s' P' l', sim_frame s s' → (0 < length qs)%nat →
     mlfq_common t (push 0 l' rqs) (adm t ps2 qs) (ps1 ++ arrivals t ps2) (pending t ps2)
       F (P ++ P') lt held s' →
     Q (Z.of_nat (length (ps1 ++ arrivals t ps2))) s') →
  wp (q1 ← queue_at hdrs (1 - 1);
      check_scheduled_processes arr (Z.of_nat (length ps1)) t q1 pl) Q s.
Proof.
  intros [Hw Ht Hsp Heq Hr Hh Hv Ho] HQ. rewrite <- Hh in *.
  destruct rqs as [|[q l] rqs]; [done|]. apply wp_bind, wp_ret. simpl.
  pose proof Hsp as Hsp0. rewrite Heq in Hsp0.
  eapply (wp_check_scheduled _ _ _ _ _ [] q l (rqs ++ [(tq, lt)]));
    [exact Hw|exact Hsp0|done|done|by rewrite <- Heq|].
  intros s' P' l' Hfr HP' Hl' Hw'. rewrite <- Nat2Z.inj_add, <- length_app.
  assert (Hq : length qs = length ((q, l) :: rqs)) by by eapply Forall2_length.
  apply (HQ s' P' l'); [done|simpl in Hq; lia|].
  constructor; [exact Hw'|done|by eapply sp_rep_frame|by rewrite <- app_assoc, arrivals_pending| | | |].
  - apply qrep_push; [eapply qrep_keeps; [apply keeps_mem_app|done]|].
    apply Forall2_fmap_l. rewrite <- (arrivals_pending t ps2), Forall_app in Hv. destruct Hv as [Hv _].
    clear -Hl' Hv. induction Hl' as [|p x ps' l' Hx Hl IH]; [constructor|].
    apply Forall_cons in Hv as [? ?]. constructor; [by apply fresh_task|by apply IH].
  - by rewrite push_fst.
  - rewrite <- (arrivals_pending t ps2), Forall_app in Hv. tauto.
  - by destruct Hfr as (_ & _ & ->).
Qed.

(** Choosing, loading and reporting the next process. *)
Lemma mlfq_dispatch k t rqs qs ps1 ps2 F P lt (K : ptr → C sim (option ptr)) Q s :
  mlfq_common t rqs qs ps1 ps2 F P lt [] s → continues t qs ps2 s →
  potential t qs ps2 ≤ Z.of_nat k → adm t ps2 qs = qs → pending t ps2 = ps2 →
  (pick qs = None → wp (K NULL) Q s) →
  (∀ a s' qs', mlfq_running k t a qs' ps1 ps2 s' → Q (Some (Some a)) s') →
  wp (r ← pop_first hdrs;
      match r with
      | Some a => load_pcb a t pl fl;; print_simulation_status t a pl fl memsize;; mret (Some r)
      | None => K r
      end) Q s.
Proof.
  intros [Hw Ht Hsp Heq Hr Hh Hv Ho] Hcont Hpot Hadm Hpend HN HS. rewrite <- Hh.
  apply wp_bind. eapply (wp_pop_first []); [apply Hw| |].
  { intros Hp. apply HN. by eapply pick_rep_None. }
  intros a v ls s1 r Hp Hf1 Hs1. simpl in Hs1.
  destruct (pick_rep_Some _ _ _ _ _ _ Hr Hp) as (tk & qs' & Hpick & Htk & Hr').
  pose proof (world_pcb_frame _ _ _ _ _ _ _ _ _ _ _ Hw Hf1 Hs1) as Hw1.
  destruct (tr_mem _ _ _ _ Htk) as (m & w & Hm & Hin & Hsz). simpl in Hm.
  apply wp_bind. eapply (wp_load_pcb Hw1 m w); [done..|]. intros s2 F2 P2 Hf2 Hld Hw2.
  destruct (loaded_keeps _ _ _ _ _ _ _ Hld Hin) as [Hkeep (w' & Hin' & Hd')].
  apply wp_bind. eapply (wp_print_status Hw2); [done|]. apply wp_ret. apply (HS a _ qs').
  assert (Hf : sim_frame s s2) by (etrans; [by apply sim_frame_pcb|done]).
  pose proof Hf as (_ & _ & Hout).
  exists (run_state v), tk, (level_quantum (tk_level tk)), (zip rqs.*1 ls), F2, P2, lt.
  split; [|split; [|split; [by exists m, w'|]]].
  - constructor; [by apply world_set_out|done| |done| | |done|].
    + apply sp_rep_set_out. by eapply sp_rep_frame.
    + by eapply qrep_keeps.
    + by rewrite (pick_fst _ _ _ Hp).
    + simpl. rewrite Hout. apply Forall_app. split; [done|]. repeat constructor.
      exists F2.*2, P2.*2. split; [apply Hw2|]. split; [|by rewrite length_fmap].
      apply list_elem_of_split in Hin' as (R1 & R2 & ->).
      rewrite fmap_app, fmap_cons, ram_mid. simpl. rewrite Hd'. by destruct (ram R1.*2).
  - eapply task_rep_keeps; [exact Hkeep|]. by destruct Htk.
  - simpl. split; [lia|]. split.
    { unfold level_quantum, Q1_QUANTUM, Q2_QUANTUM, Q3_QUANTUM. repeat case_match; lia. }
    split; [done|]. split.
    + intros evs T Hrun. simpl. rewrite Hout. unfold dispatches. rewrite omap_app, <- app_assoc.
      simpl. apply Hcont. rewrite (tr_pid _ _ _ _ Htk : pcb_process_id v = _).
      eapply run_slice; rewrite ?Hadm, ?Hpend; done.
    + unfold potential in *. rewrite (pick_work _ _ _ Hpick) in Hpot. lia.
Qed.

(** What a round of the loop establishes. *)
Definition mlfq_post (k : nat) (r : (Z * ptr * Z) + Z) (s : sim) : Prop :=
  match r with
  | inl l => ∃ k', (k' < k)%nat ∧ mlfq_inv k' l s
  | inr t => mlfq_final t s
  end.

Lemma mlfq_post_next k t run qs ps1 ps2 s :
  (1 ≤ k)%nat → t + Z.of_nat k ≤ H →
  match run with
  | Some a => mlfq_running (pred k) (t + 1) a qs ps1 ps2 s
  | None => mlfq_idle (pred k) (t + 1) qs ps1 ps2 s
  end →
  mlfq_post k (inl (t + 1, run, Z.of_nat (length ps1))) s.
Proof.
  intros Hk HkH Hinv. exists (pred k). split; [lia|]. exists qs, ps1, ps2.
  split; [done|]. split; [lia|done].
Qed.

(** One tick of the running process [v] has passed, at time [t]. *)
Definition ticked (v : pcb) : pcb :=
  set_pcb_cpu (pcb_cpu_time v + 1) (set_pcb_burst (pcb_burst_time v + 1) v).

Section tick.
Context {k : nat} {t : Z} {a : loc} {qs : list (list task)} {ps1 ps2 : list scheduled_process_t}.
Context {v : pcb} {tk : task} {n : Z} {rqs : list queue} {F : list (loc * segment)}.
Context {P : list (loc * process_memory)} {lt : list (loc * pcb)} {s : sim}.
Hypothesis Hcom : mlfq_common t rqs qs ps1 ps2 F P lt [(a, Node NULL (ticked v))] s.
Hypothesis Htk : task_rep memsize P tk (a, v).
Hypothesis Hres : ∃ m w, pcb_process_memory v = Some m ∧ (m, w) ∈ P ∧ in_disk w = false.
Hypothesis Hn : n = level_quantum (tk_level tk) - pcb_burst_time v.
Hypothesis Hn1 : 1 ≤ n.
Hypothesis Hb : 0 ≤ pcb_burst_time v.
Hypothesis Hcont : continues (t + Z.min (tk_left tk) n) (finish_slice n tk qs) ps2 s.
Hypothesis Hpot : potential t qs ps2 + tk_left tk ≤ Z.of_nat k.
Hypothesis HkH : t + Z.of_nat k ≤ H.

Lemma tick_facts :
  (1 ≤ k)%nat ∧ potential (t + 1) qs ps2 ≤ Z.of_nat k - tk_left tk ∧
  tk_left tk = Z.max 1 (pcb_job_time v - pcb_cpu_time v).
Proof.
  pose proof (qrep_work_nonneg _ _ _ _ (mc_ready _ _ _ _ _ _ _ _ _ _ Hcom)).
  pose proof (demand_length ps2). pose proof (task_left_pos _ _ _ _ Htk).
  pose proof (tr_left _ _ _ _ Htk) as Hl. unfold potential, left_time in *. simpl in Hl. lia.
Qed.

(** It is done and leaves. *)
Lemma tick_done :
  pcb_job_time v ≤ pcb_cpu_time v + 1 →
  wp (terminate_pcb a fl;; append_pcb_to_pcbs_list a tq;;
      mret (inl (t + 1, NULL, Z.of_nat (length ps1)))) (mlfq_post k) s.
Proof.
  intros Hdone. destruct tick_facts as (Hk & Hp & Hl).
  destruct Hcom as [Hw Ht Hsp Heq Hr Hh Hv Ho]. destruct Hres as (m & w & Hm & Hin & Hd).
  assert (Hone : tk_left tk = 1).
  { destruct (tr_more _ _ _ _ Htk) as [Hc|Hc]; simpl in Hc; lia. }
  apply list_elem_of_split in Hin as (P1 & P2 & ->).
  apply wp_bind. eapply (wp_terminate_pcb Hw); [done..|]. intros s2 F2 Hf2 Hw2.
  apply wp_bind. eapply (wp_append rqs); [apply Hw2|]. intros s3 Hf3 Hs3. apply wp_ret.
  assert (Hf : sim_frame s s3) by (etrans; [done|by apply sim_frame_pcb]).
  pose proof Hf as (_ & _ & Hout).
  apply mlfq_post_next with (qs := qs) (ps2 := ps2); [done..|].
  eexists rqs, F2, _, _. split; [|split; [|lia]].
  - constructor; [by eapply world_pcb_frame|lia|by eapply sp_rep_frame|done| |done|done|by rewrite Hout].
    eapply qrep_keeps; [|exact Hr]. by apply keeps_mem_update.
  - unfold continues in *. rewrite Hout. unfold finish_slice in Hcont.
    rewrite Hone, Z.min_l, (proj2 (Z.leb_le 1 n)) in Hcont by lia. done.
Qed.

Lemma lowered_task : pcb_cpu_time v + 1 < pcb_job_time v → n = 1 →
  task_rep memsize P (lower n tk) (a, lowered (ticked v)).
Proof.
  intros Hmore En. destruct tick_facts as (_ & _ & Hl).
  destruct Htk as [Hpid Hlev Hrange _ Hc _ Hjob Hmem0]. unfold lower, MIN_PRIORITY.
  simpl in *. constructor; simpl; unfold MIN_PRIORITY; [done|by rewrite Hlev|lia| |lia|lia|done|done].
  unfold left_time. simpl. lia.
Qed.

(** Its quantum is used up: it goes to the next lower level. *)
Lemma tick_lower :
  pcb_cpu_time v + 1 < pcb_job_time v → n = 1 →
  wp (ready_and_decrease_priority_pcb a;;
      v ← load (T:=process_control_block_t) (Some a);
      q ← queue_at hdrs (pcb_priority (data v) - 1);
      append_pcb_to_pcbs_list a q;;
      mret (inl (t + 1, NULL, Z.of_nat (length ps1)))) (mlfq_post k) s.
Proof.
  intros Hmore En. destruct tick_facts as (Hk & Hp & Hl).
  pose proof (lowered_task Hmore En) as Hlow.
  destruct Hcom as [Hw Ht Hsp Heq Hr Hh Hv Ho]. pose proof (tr_level_range _ _ _ _ Htk) as Hrange.
  apply wp_bind. eapply (wp_ready_and_decrease Hw).
  { simpl. rewrite (tr_level _ _ _ _ Htk : pcb_priority v = _). done. }
  intros s2 Hf2 Hw2. apply wp_bind. eapply wp_load; [eapply sr_lookup, Hw2|]. simpl.
  rewrite (tr_level _ _ _ _ Htk : pcb_priority v = _).
  set (i := Z.to_nat (Z.min MIN_PRIORITY (tk_level tk + 1) - 1)).
  assert (Hi : (i < 3)%nat) by (unfold i, MIN_PRIORITY; lia).
  destruct (lookup_lt_is_Some_2 hdrs i) as [q Hq]; [by rewrite Hlevels|].
  apply wp_bind. unfold queue_at. rewrite bool_decide_true by (unfold MIN_PRIORITY; lia).
  fold i. rewrite Hq. apply wp_ret. rewrite <- Hh in Hq.
  apply wp_bind. eapply wp_append_level; [apply Hw2|exact Hq|]. intros s3 Hf3 Hs3. apply wp_ret.
  assert (Hf : sim_frame s s3) by (etrans; [done|by apply sim_frame_pcb]).
  pose proof Hf as (_ & _ & Hout).
  assert (Hfin : finish_slice n tk qs = enqueue i [lower n tk] qs).
  { unfold finish_slice. by rewrite (proj2 (Z.leb_gt (tk_left tk) n)) by lia. }
  apply mlfq_post_next with (qs := finish_slice n tk qs) (ps2 := ps2); [done..|].
  exists (push i [(a, lowered (ticked v))] rqs), F, P, lt. split; [|split].
  - constructor; [by eapply world_pcb_frame|lia|by eapply sp_rep_frame|done| | |done|by rewrite Hout].
    + rewrite Hfin. apply qrep_push; [done|]. constructor; [exact Hlow|constructor].
    + by rewrite push_fst.
  - unfold continues in *. rewrite Hout. by replace (t + Z.min (tk_left tk) n) with (t + 1) in Hcont by lia.
  - unfold potential in *. rewrite Hfin, work_enqueue.
    + simpl. lia.
    + apply Forall2_length in Hr. rewrite <- (length_fmap fst rqs), Hh, Hlevels in Hr. lia.
Qed.

(** It goes on. *)
Lemma tick_go :
  pcb_cpu_time v + 1 < pcb_job_time v → 1 < n →
  mlfq_post k (inl (t + 1, Some a, Z.of_nat (length ps1))) s.
Proof.
  intros Hmore En. destruct tick_facts as (Hk & Hp & Hl).
  destruct Hcom as [Hw Ht Hsp Heq Hr Hh Hv Ho].
  apply mlfq_post_next with (qs := qs) (ps2 := ps2); [done..|].
  exists (ticked v), (Task (tk_pid tk) (tk_level tk) (tk_left tk - 1)), (n - 1), rqs, F, P, lt.
  split; [constructor; try done; lia|]. split; [|split; [done|]].
  - destruct Htk as [Hpid Hlev Hrange _ Hc _ Hjob Hmem0]. simpl in *.
    constructor; simpl; [done|done|done| |lia|lia|done|done]. unfold left_time. simpl. lia.
  - simpl. split; [lia|]. split; [lia|]. split; [lia|]. split; [|lia].
    replace (t + 1 + Z.min (tk_left tk - 1) (n - 1)) with (t + Z.min (tk_left tk) n) by lia.
    replace (finish_slice (n - 1) _ qs) with (finish_slice n tk qs); [done|].
    unfold finish_slice, lower. simpl.
    replace (tk_left tk - 1 - (n - 1)) with (tk_left tk - n) by lia.
    destruct (Z.leb_spec (tk_left tk) n), (Z.leb_spec (tk_left tk - 1) (n - 1)); [done|lia|lia|done].
Qed.
End tick.

(** One tick of the running process. *)
Lemma mlfq_tick k t a qs ps1 ps2 s :
  mlfq_running k t a qs ps1 ps2 s → t + Z.of_nat k ≤ H →
  wp (run_pcb a;;
      time ← int_add t 1;
      finished ← is_pcb_finished a;
      if (finished : bool) then
        terminate_pcb a fl;; append_pcb_to_pcbs_list a tq;;
        mret (inl (time, NULL, Z.of_nat (length ps1)))
      else
        exhausted ← is_quantum_exhausted_by_pcb a;
        if (exhausted : bool) then
          ready_and_decrease_priority_pcb a;;
          v ← load (T:=process_control_block_t) (Some a);
          q ← queue_at hdrs (pcb_priority (data v) - 1);
          append_pcb_to_pcbs_list a q;;
          mret (inl (time, NULL, Z.of_nat (length ps1)))
        else mret (inl (time, Some a, Z.of_nat (length ps1)))) (mlfq_post k) s.
Proof.
  intros (v & tk & n & rqs & F & P & lt & [Hw Ht Hsp Heq Hr Hh Hv Ho] & Htk &
    Hres & Hn & Hn1 & Hb & Hcont & Hpot) HkH.
  pose proof (quantum_of_level _ _ _ _ _ Htk) as Hq.
  assert (Hqb : level_quantum (tk_level tk) ≤ 8).
  { unfold level_quantum, Q1_QUANTUM, Q2_QUANTUM, Q3_QUANTUM. repeat case_match; lia. }
  pose proof Htk as [_ _ _ _ Hc Hmore Hjob _]. simpl in Hc, Hmore, Hjob.
  assert (Hk : (1 ≤ k)%nat).
  { pose proof (qrep_work_nonneg _ _ _ _ Hr). pose proof (demand_length ps2).
    pose proof (task_left_pos _ _ _ _ Htk). unfold potential in Hpot. lia. }
  apply wp_bind. eapply (wp_run_pcb Hw); [lia..|]. intros s1 Hf1 Hw1.
  change (set_pcb_cpu _ _) with (ticked v) in Hw1. pose proof Hf1 as (_ & _ & Hout).
  assert (Hcom : mlfq_common t rqs qs ps1 ps2 F P lt [(a, Node NULL (ticked v))] s1).
  { constructor; [done|done|by eapply sp_rep_frame|done..|by rewrite Hout]. }
  assert (Hcont1 : continues (t + Z.min (tk_left tk) n) (finish_slice n tk qs) ps2 s1).
  { unfold continues in *. by rewrite Hout. }
  apply wp_bind. wp_step. apply wp_bind. eapply (wp_is_pcb_finished Hw1). simpl.
  destruct (Z.leb_spec (pcb_job_time v) (pcb_cpu_time v + 1)); [by eapply tick_done|].
  apply wp_bind. eapply (wp_is_quantum_exhausted Hw1).
  change (quantum_of (ticked v)) with (quantum_of v). rewrite Hq. simpl.
  destruct (Z.leb_spec (level_quantum (tk_level tk)) (pcb_burst_time v + 1)).
  - eapply tick_lower; try done. lia.
  - apply wp_ret. eapply tick_go; try done. lia.
Qed.

(** A round of the loop. *)
Lemma mlfq_round k l s :
  mlfq_inv k l s → wp (multi_step arr hdrs tq pl fl memsize l) (mlfq_post k) s.
Proof.
  destruct l as [[t [a|]] spi]; intros (qs & ps1 & ps2 & -> & HkH & Hinv); unfold multi_step.
  - destruct Hinv as (v & tk & n & rqs & F & P & lt & Hcom & Htk & (m & w & Hm & Hin & Hd) &
      Hn & Hn1 & Hb & Hcont & Hpot).
    apply wp_bind_assoc. apply wp_bind. eapply mlfq_common_check; [exact Hcom|].
    intros s1 P' l' Hf1 Hlen Hcom1. apply wp_bind, wp_ret. eapply mlfq_tick; [|exact HkH].
    eexists v, tk, n, _, F, (P ++ P'), lt. split; [exact Hcom1|].
    split; [eapply task_rep_keeps; [apply keeps_mem_app|done]|].
    split; [exists m, w; split; [done|]; split; [set_solver|done]|]. do 3 (split; [done|]).
    pose proof (task_left_pos _ _ _ _ Htk). split.
    + intros evs T Hrun. destruct Hf1 as (_ & _ & ->). apply Hcont.
      apply (mlfq_run_adm t); [lia|].
      rewrite <- finish_slice_adm by (apply (tr_level_range _ _ _ _ Htk)). done.
    + pose proof (potential_adm t qs ps2 Hlen). lia.
  - destruct Hinv as (rqs & F & P & lt & Hcom & Hcont & Hpot).
    apply wp_bind_assoc. apply wp_bind. eapply mlfq_common_check; [exact Hcom|].
    intros s1 P' l' Hf1 Hlen Hcom1. pose proof (potential_adm t qs ps2 Hlen) as Hpot1.
    assert (Hcont1 : continues t (adm t ps2 qs) (pending t ps2) s1).
    { intros evs T Hrun. destruct Hf1 as (_ & _ & ->). apply Hcont. by apply (mlfq_run_adm t). }
    apply wp_bind. eapply (mlfq_dispatch k); [exact Hcom1|exact Hcont1|lia|by apply adm_adm|
      by apply pending_pending| |].
    + intros Hpick. pose proof Hcom1 as [Hw Ht Hsp Heq Hr Hh Hv Ho]. apply wp_bind.
      eapply wp_array_get; [rewrite <- Heq; exact Hsp|done|].
      destruct (pending t ps2) as [|p ps2'] eqn:Ep.
      * apply wp_ret, wp_ret. split; [|split; [done|split; [done|by exists F, (P ++ P'), (push 0 l' rqs), lt]]].
        rewrite <- (app_nil_r (dispatches _)). apply Hcont1.
        apply run_stop; [|done]. unfold adm. simpl. by rewrite enqueue_nil.
      * intros sl _. apply wp_ret, wp_bind, wp_ret, wp_bind.
        pose proof (pending_late _ _ _ _ Ep) as Hlate.
        pose proof (qrep_work_nonneg _ _ _ _ Hr) as Hwork. pose proof (demand_length (p :: ps2')) as Hdem.
        assert (Hlat : sp_start_time p ≤ latest (p :: ps2')) by (simpl; lia).
        assert (1 ≤ k)%nat by (unfold potential in *; lia). wp_step. apply wp_ret.
        apply mlfq_post_next with (qs := adm t ps2 qs) (ps2 := p :: ps2'); [done..|].
        exists (push 0 l' rqs), F, (P ++ P'), lt. split; [by constructor; try done; lia|]. split.
        -- intros evs T Hrun. apply Hcont1. by apply mlfq_run_idle_tick.
        -- unfold potential in *. lia.
    + intros a s2 qs' Hrun. by eapply mlfq_tick.
Qed.
End mlfq.

(** ** The whole simulation *)
Lemma wp_multi_runner fs fuel filename fp ps memsize :
  fs filename = Some fp → file_procs fp = Some ps →
  0 < memsize → 100 * memsize ≤ INT_MAX → Forall (valid_proc memsize) ps →
  2 * Z.of_nat (length ps) ≤ INT_MAX + 1 → horizon ps ≤ INT_MAX →
  (Z.to_nat (horizon ps) < fuel)%nat →
  wp (multi_scheduler_runner fs fuel filename memsize)
    (λ _ s', ∃ lines T, s' = set_out (lines ++ [Finished T]) (init_sim []) ∧
       mlfq_run 0 [[]; []; []] ps (dispatches lines) T ∧
       Forall (status_ok memsize) lines) (init_sim []).
Proof.
  intros Hfs Hps Hm1 Hm2 Hv Hlen HT Hfuel.
  apply wp_bind. eapply wp_new_queue; [by apply sr_empty|done|]. intros q1 s1 Hf1 Hs1.
  apply wp_bind. eapply wp_new_queue; [exact Hs1|by destruct Hf1 as (? & ? & ->)|].
  intros q2 s2 Hf2 Hs2. assert (Hf12 : pcb_frame (init_sim []) s2) by by etrans.
  apply wp_bind. eapply wp_new_queue; [exact Hs2|by destruct Hf12 as (? & ? & ->)|].
  intros q3 s3 Hf3 Hs3. assert (Hf13 : pcb_frame (init_sim []) s3) by by etrans.
  apply wp_bind. eapply wp_new_queue; [exact Hs3|by destruct Hf13 as (? & ? & ->)|].
  intros tq s4 Hf4 Hs4. assert (Hf14 : pcb_frame (init_sim []) s4) by by etrans.
  eapply wp_setup; [done..|lia|exact Hs4|exact Hf14|].
  intros arr pl fl a s5 Hw Hsp Hhd Hout. apply wp_bind. eapply wp_mono.
  - apply wp_preserves with (R := same_headers); [apply preserves_iter, headers_multi_step|].
    eapply (wp_iter_idx (mlfq_inv (memsize := memsize) (H := horizon ps) (ps := ps)
      (hdrs := [q1; q2; q3]))); [|..|exact Hfuel].
    + intros k l s Hi. apply mlfq_round; [lia|lia|lia|done|exact Hi].
    + exists [[]; []; []], [], ps. split; [done|]. pose proof (latest_nonneg ps).
      pose proof (demand_length ps). unfold horizon in *. split; [lia|].
      exists [(q1, []); (q2, []); (q3, [])], [(a, Seg memsize memsize)], [], [].
      split; [|split; [by intros evs T; rewrite Hout|unfold potential; simpl; lia]].
      constructor; try done; [by repeat constructor|by rewrite Hout].
  - intros T s6 [(Hrun & Hok & Hsp6 & F & P & rqs & lt & Hh & Hw6) Hhd6].
    destruct rqs as [|[? l1] [|[? l2] [|[? l3] []]]]; simplify_eq/=.
    apply wp_bind, wp_modify. set (lines := out s6) in *.
    assert (Hw7 := world_set_out _ _ _ _ _ _ _ (lines ++ [Finished T]) _ Hw6).
    apply wp_bind. eapply wp_free_queue; [apply Hw7|]. intros s7 Hf7 Hs7.
    apply wp_bind. eapply wp_free_queue; [exact Hs7|]. intros s8 Hf8 Hs8.
    apply wp_bind. eapply wp_free_queue; [exact Hs8|]. intros s9 Hf9 Hs9.
    apply wp_bind. eapply wp_free_queue; [exact Hs9|]. intros s10 Hf10 Hs10.
    assert (Hfr : pcb_frame (set_out (lines ++ [Finished T]) s6) s10) by (do 3 (etrans; [done|]); done).
    clear Hs7 Hs8 Hs9 Hf7 Hf8 Hf9 Hf10.
    eapply wp_mono; [eapply (wp_release_all memsize)|].
    + by eapply world_pcb_frame.
    + destruct Hfr as (? & ? & ->). exact Hsp6.
    + lia.
    + eapply one_header_same; [|exact Hhd]. etrans; [exact Hhd6|]. by destruct Hfr as (? & ? & ->).
    + intros _ s11 ->. exists lines, T. split; [|done]. by destruct Hfr as (? & ? & ->).
Qed.
