(* ===== verification/Simulation.v ===== *)
(** * Simulation: the main program of the scheduling simulator (simulation.c)

    The command line reaches [main] through [getopt]; the model takes the
    sequence of option characters [getopt] returns, each with its [optarg].
    A local variable that no option has set is [None]; reading it is undefined
    behaviour. *)
From Stdlib Require Import Ascii String.
From stdpp Require Import prelude.
From S2P Require Import Prelude CMonad State CString Scheduler.

Definition FCFS_ALGORITHM : Z := 0.
Definition MULTI_ALGORITHM : Z := 1.

(** The local variables that the options set. *)
Record options := Options {
  filename : option (list ascii);
  algorithm : option Z;
  memsize : option Z
}.
Definition no_options : options := Options None None None.

(** The [switch] of the option loop. *)
Definition handle_option (input : ascii) (optarg : list ascii) (o : options) : C sim options :=
  if Ascii.eqb input "f" then mret (Options (Some optarg) (algorithm o) (memsize o))
  else if Ascii.eqb input "a" then
    if bool_decide (chars "fcfs" = optarg) then
      mret (Options (filename o) (Some FCFS_ALGORITHM) (memsize o))
    else if bool_decide (chars "multi" = optarg) then
      mret (Options (filename o) (Some MULTI_ALGORITHM) (memsize o))
    else exit 1
  else if Ascii.eqb input "m" then
    m ← atoi optarg;
    mret (Options (filename o) (algorithm o) (Some m))
  else exit 1.

Fixpoint handle_options (opts : list (ascii * list ascii)) (o : options) : C sim options :=
  match opts with
  | [] => mret o
  | (input, optarg) :: opts' =>
      o ← handle_option input optarg o;
      handle_options opts' o
  end.

(** Reading a local variable. *)
Definition read_var {A} (v : option A) : C sim A :=
  match v with Some x => mret x | None => ub end.

Definition simulation_main (fs : list ascii → option (list ascii)) (fuel : nat)
    (opts : list (ascii * list ascii)) : C sim Z :=
  o ← handle_options opts no_options;
  algorithm ← read_var (algorithm o);
  (if algorithm =? FCFS_ALGORITHM then
     filename ← read_var (filename o);
     memsize ← read_var (memsize o);
     fcfs_scheduler_runner fs fuel filename memsize
   else if algorithm =? MULTI_ALGORITHM then
     filename ← read_var (filename o);
     memsize ← read_var (memsize o);
     multi_scheduler_runner fs fuel filename memsize
   else mret ());;
  mret 0.

(** The text of the two [printf] calls. *)
Definition render (e : event) : list ascii :=
  match e with
  | Status time process_id numprocesses numholes memusage =>
      chars "time " ++ print_d time ++ chars ", " ++ print_d process_id ++
      chars " running, numprocesses=" ++ print_d numprocesses ++
      chars ", numholes=" ++ print_d numholes ++
      chars ", memusage=" ++ print_d memusage ++ chars "%" ++ [NEWLINE]
  | Finished time =>
      chars "time " ++ print_d time ++ chars ", simulation finished." ++ [NEWLINE]
  end.

Definition stdout_of (s : sim) : list ascii := concat (render <$> out s).

(** ** The options *)
Definition algorithm_name (a : Z) : list ascii :=
  if a =? FCFS_ALGORITHM then chars "fcfs" else chars "multi".

(** The options of a complete command line. *)
Definition command_line (file : list ascii) (a m : Z) : list (ascii * list ascii) :=
  [("f"%char, file); ("a"%char, algorithm_name a); ("m"%char, print_d m)].

Lemma handle_a a o :
  a = FCFS_ALGORITHM ∨ a = MULTI_ALGORITHM →
  handle_option "a" (algorithm_name a) o = mret (Options (filename o) (Some a) (memsize o)).
Proof. by intros [->| ->]. Qed.

Lemma handle_m m o :
  INT_MIN ≤ m ≤ INT_MAX →
  handle_option "m" (print_d m) o = mret (Options (filename o) (algorithm o) (Some m)).
Proof.
  intros Hm. unfold handle_option. simpl. unfold atoi, chk.
  pose proof (atoi_print m [] Hm I) as Ha. rewrite app_nil_r in Ha. rewrite Ha.
  by rewrite (proj2 (in_int_spec m)).
Qed.

(** The order of the options does not matter. *)
Lemma handle_command_line file a m opts s :
  a = FCFS_ALGORITHM ∨ a = MULTI_ALGORITHM → INT_MIN ≤ m ≤ INT_MAX →
  opts ≡ₚ command_line file a m →
  handle_options opts no_options s = Ok (Options (Some file) (Some a) (Some m)) s.
Proof.
  intros Ha Hm Hp. unfold command_line in Hp.
  assert (H3 : ∀ (x y z : ascii * list ascii) l, l ≡ₚ [x; y; z] →
    l = [x; y; z] ∨ l = [x; z; y] ∨ l = [y; x; z] ∨ l = [y; z; x] ∨ l = [z; x; y] ∨ l = [z; y; x]).
  { clear. intros x y z l Hl.
    destruct l as [|u [|v [|w [|]]]]; try (by apply Permutation_length in Hl).
    assert (u ∈ [x; y; z]) as Hu by (rewrite <- Hl; set_solver).
    rewrite !elem_of_cons in Hu. destruct Hu as [-> | [-> | [-> | []%not_elem_of_nil]]].
    - apply (Permutation_cons_inv (a:=x)), Permutation_length_2_inv in Hl. naive_solver.
    - rewrite (Permutation_swap y x) in Hl.
      apply (Permutation_cons_inv (a:=y)), Permutation_length_2_inv in Hl. naive_solver.
    - rewrite (Permutation_swap z y), (Permutation_swap z x) in Hl.
      apply (Permutation_cons_inv (a:=z)), Permutation_length_2_inv in Hl. naive_solver. }
  apply H3 in Hp.
  destruct Hp as [->|[->|[->|[->|[->| ->]]]]]; cbn [handle_options];
    do 3 (eapply run_bind_eq; [first [by rewrite handle_a | by rewrite handle_m | reflexivity]|];
          cbn [handle_options]); reflexivity.
Qed.
