(* ===== verification/SecretCode.v ===== *)
(** * SecretCode: secret-code.c

    The secret codes of the Mastermind game: generation, validation, and the
    feedback on a guess.  A [char] buffer is the list of its characters;
    reading outside of it is undefined behaviour. *)
From Stdlib Require Import Ascii.
From stdpp Require Import prelude gmultiset strings.
From S2P Require Import Prelude CMonad CString.

Definition SECRET_CODE_LEN : Z := 4.
Definition SECRET_CODE_COLOR_0 : ascii := chr 65.
Definition SECRET_CODE_COLOR_1 : ascii := chr 66.
Definition SECRET_CODE_COLOR_2 : ascii := chr 67.
Definition SECRET_CODE_COLOR_3 : ascii := chr 68.
Definition SECRET_CODE_COLOR_4 : ascii := chr 69.
Definition SECRET_CODE_COLOR_5 : ascii := chr 70.
Definition SECRET_CODE_COLORS_LEN : Z := 6.

Definition SECRET_CODE_COLORS : list ascii :=
  [SECRET_CODE_COLOR_0; SECRET_CODE_COLOR_1; SECRET_CODE_COLOR_2;
   SECRET_CODE_COLOR_3; SECRET_CODE_COLOR_4; SECRET_CODE_COLOR_5].

(** [a[i]] and [a[i] = x]. *)
Definition at_index {S A} (a : list A) (i : Z) : C S A :=
  if bool_decide (0 ≤ i) then
    match a !! Z.to_nat i with Some x => mret x | None => ub end
  else ub.
Definition set_index {S A} (a : list A) (i : Z) (x : A) : C S (list A) :=
  if bool_decide (0 ≤ i < Z.of_nat (length a)) then mret (<[Z.to_nat i := x]> a) else ub.

(** [for (i = 0; i < n; i++) body]: the loop variables [l] go through [body],
    which may leave the loop ([inr]). *)
Definition for_upto {S L R} (n : Z) (body : Z → L → C S (L + R)) (l : L) (fin : L → R) : C S R :=
  iter (Datatypes.S (Z.to_nat n)) (λ '(i, l),
    if i <? n then
      r ← body i l;
      match r with
      | inl l' => mret (inl (i + 1, l'))
      | inr r => mret (inr r)
      end
    else mret (inr (fin l))) (0, l).

(** [rands] are the values that the calls of [rand()] return, after [srand]. *)
Definition get_random_secret_code {S} (rands : Z → Z) (secret_code : list ascii) : C S (list ascii) :=
  secret_code ← for_upto SECRET_CODE_LEN (λ i secret_code,
    k ← int_rem (rands i) SECRET_CODE_COLORS_LEN;
    c ← at_index SECRET_CODE_COLORS k;
    secret_code ← set_index secret_code i c;
    mret (inl secret_code)) secret_code id;
  set_index secret_code SECRET_CODE_LEN NUL.

(** The cases of the [switch]. *)
Definition is_color (c : ascii) : bool := bool_decide (c ∈ SECRET_CODE_COLORS).

Definition is_valid_secret_code {S} (secret_code : list ascii) : C S bool :=
  i ← for_upto SECRET_CODE_LEN (λ i _,
    c ← at_index secret_code i;
    if is_color c then mret (inl ()) else mret (inr i)) () (λ _, SECRET_CODE_LEN);
  if i =? SECRET_CODE_LEN then
    c ← at_index secret_code SECRET_CODE_LEN;
    mret (bool_decide (c = NUL))
  else mret false.

Definition get_secret_code_guess_feedback {S} (actual guess : list ascii) : C S (bool * Z * Z) :=
  let visited := replicate (Z.to_nat SECRET_CODE_LEN) false in
  let visited_2 := replicate (Z.to_nat SECRET_CODE_LEN) false in
  '(correct_positions_count, visited) ←
    for_upto SECRET_CODE_LEN (λ i '(correct_positions_count, visited),
      g ← at_index guess i;
      a ← at_index actual i;
      if bool_decide (g = a) then
        n ← int_add correct_positions_count 1;
        visited ← set_index visited i true;
        mret (inl (n, visited))
      else mret (inl (correct_positions_count, visited))) (0, visited) id;
  '(correct_colors_count, _) ←
    for_upto SECRET_CODE_LEN (λ i '(correct_colors_count, visited_2),
      v ← at_index visited i;
      if (v : bool) then mret (inl (correct_colors_count, visited_2))
      else
        r ← for_upto SECRET_CODE_LEN (λ j '(correct_colors_count, visited_2),
          v ← at_index visited j;
          v2 ← (if (v : bool) then mret true else at_index visited_2 j);
          if (v2 : bool) then mret (inl (correct_colors_count, visited_2))
          else
            g ← at_index guess i;
            a ← at_index actual j;
            if bool_decide (g = a) then
              n ← int_add correct_colors_count 1;
              visited_2 ← set_index visited_2 j true;
              mret (inr (n, visited_2))
            else mret (inl (correct_colors_count, visited_2)))
          (correct_colors_count, visited_2) id;
        mret (inl r)) (0, visited_2) id;
  mret (correct_positions_count =? SECRET_CODE_LEN, correct_positions_count, correct_colors_count).

(** ** Rules *)
Section rules.
Context {S : Type}.
Implicit Types s : S.

Lemma wp_at_index {A} (a : list A) i x Q s :
  0 ≤ i → a !! Z.to_nat i = Some x → Q x s → wp (at_index a i) Q s.
Proof. intros Hi Hx HQ. unfold at_index. rewrite bool_decide_true, Hx by done. done. Qed.

Lemma wp_set_index {A} (a : list A) i x Q s :
  0 ≤ i < Z.of_nat (length a) → Q (<[Z.to_nat i := x]> a) s → wp (set_index a i x) Q s.
Proof. intros Hi HQ. unfold set_index. by rewrite bool_decide_true. Qed.

(** The invariant of a counting loop. *)
Lemma wp_for {L R} n (body : Z → L → C S (L + R)) (I : Z → L → S → Prop) (Q : R → S → Prop) l fin s :
  0 ≤ n →
  (∀ i l s, 0 ≤ i < n → I i l s →
     wp (body i l) (λ r s', match r with inl l' => I (i + 1) l' s' | inr r => Q r s' end) s) →
  (∀ l s, I n l s → Q (fin l) s) →
  I 0 l s →
  wp (for_upto n body l fin) Q s.
Proof.
  intros Hn Hb Hf HI.
  apply (wp_iter_idx (λ k '(i, l) s, 0 ≤ i ≤ n ∧ k = Z.to_nat (n - i) ∧ I i l s))
    with (k := Z.to_nat n); [|by rewrite Z.sub_0_r|lia].
  intros k [i l'] s' (Hi & -> & HI'). destruct (Z.ltb_spec i n).
  - apply wp_bind. eapply wp_mono; [by apply Hb; [lia|]|]. intros [l''|r] s'' Hr; apply wp_ret; [|done].
    exists (Z.to_nat (n - (i + 1))). split; [lia|]. split; [lia|done].
  - apply wp_ret. apply Hf. by replace n with i by lia.
Qed.
End rules.
