(* ===== verification/SecretCodeRefine.v ===== *)
(** * SecretCodeRefine: the rules of Mastermind

    The feedback on a guess is given by the rules of the game: the number of
    positions that agree, and the size of the multiset of colours the two codes
    share beyond that.  [get_secret_code_guess_feedback] computes it with two
    arrays of marks. *)
From Stdlib Require Import Ascii.
From stdpp Require Import prelude gmultiset strings.
From S2P Require Import Prelude CMonad CString SecretCode.

(** ** Specification *)
Definition valid_code (code : list ascii) : Prop :=
  length code = Z.to_nat SECRET_CODE_LEN ∧ Forall (λ c, c ∈ SECRET_CODE_COLORS) code.
#[export] Instance valid_code_dec code : Decision (valid_code code).
Proof. unfold valid_code. apply _. Defined.

(** The positions at which two codes agree. *)
Fixpoint positions (a g : list ascii) : Z :=
  match a, g with
  | x :: a', y :: g' => (if bool_decide (y = x) then 1 else 0) + positions a' g'
  | _, _ => 0
  end.

(** The colours of a code, with multiplicity. *)
Definition colors (l : list ascii) : gmultiset ascii := list_to_set_disj l.

Definition shared (a g : list ascii) : Z := Z.of_nat (size (colors g ∩ colors a)).

(** ** Validation *)
Lemma color_not_NUL c : c ∈ SECRET_CODE_COLORS → c ≠ NUL.
Proof.
  unfold SECRET_CODE_COLORS. rewrite !elem_of_cons.
  intros [->|[->|[->|[->|[->|[->|H]]]]]]; [done..|by apply not_elem_of_nil in H].
Qed.

(** What the function decides, on a buffer of which it reads no more than it may. *)
Definition valid_buffer (buf : list ascii) : Prop :=
  valid_code (take 4 buf) ∧ buf !! 4%nat = Some NUL.
#[export] Instance valid_buffer_dec buf : Decision (valid_buffer buf).
Proof. unfold valid_buffer. apply _. Defined.

Lemma wp_is_valid {S} buf (Q : bool → S → Prop) s :
  (4 < length buf)%nat ∨ NUL ∈ buf →
  Q (bool_decide (valid_buffer buf)) s → wp (is_valid_secret_code buf) Q s.
Proof.
  intros Hread HQ. apply wp_bind. unfold SECRET_CODE_LEN in *.
  assert (Hin : ∀ i, (i ≤ 4)%nat → Forall (λ c, c ∈ SECRET_CODE_COLORS) (take i buf) →
    ∃ c, buf !! i = Some c).
  { intros i Hi Hall. apply lookup_lt_is_Some_2. destruct Hread as [?|Hnul]; [lia|].
    destruct (decide (i < length buf)%nat) as [|Hge]; [done|]. rewrite take_ge in Hall by lia.
    pose proof (proj1 (Forall_forall _ _) Hall NUL Hnul) as Hc. by apply color_not_NUL in Hc. }
  eapply wp_for with (I := λ i _ s', s' = s ∧
    Forall (λ c, c ∈ SECRET_CODE_COLORS) (take (Z.to_nat i) buf)); [done| | |by rewrite take_0].
  - intros i [] s' Hi (-> & Hall). destruct (Hin (Z.to_nat i) ltac:(lia) Hall) as [c Hc].
    apply wp_bind. eapply (wp_at_index _ _ c); [lia|done|].
    unfold is_color. destruct (decide (c ∈ SECRET_CODE_COLORS)) as [Hcol|Hcol];
      [rewrite (bool_decide_true (c ∈ _)) by done|rewrite (bool_decide_false (c ∈ _)) by done];
      apply wp_ret; cbn beta iota.
    + split; [done|]. rewrite Z2Nat.inj_add, Nat.add_1_r by lia.
      rewrite (take_S_r _ _ c) by done. apply Forall_app. split; [done|by constructor].
    + destruct (Z.eqb_spec i 4); [lia|]. apply wp_ret. rewrite bool_decide_false in HQ; [done|].
      intros [[_ Hv] _]. apply Hcol. apply (proj1 (Forall_forall _ _) Hv c).
      apply (list_elem_of_lookup_2 _ (Z.to_nat i)). rewrite lookup_take_lt by lia. done.
  - intros [] s' (-> & Hall). simpl. change (Z.to_nat 4) with 4%nat in Hall.
    destruct (Hin 4%nat ltac:(lia) Hall) as [c Hc].
    apply wp_bind. eapply (wp_at_index _ _ c); [lia|exact Hc|]. apply wp_ret.
    destruct (decide (c = NUL)) as [->|Hne].
    + rewrite bool_decide_true in HQ; [done|]. split; [|done]. split; [|done].
      apply lookup_lt_Some in Hc. rewrite length_take. change (Z.to_nat SECRET_CODE_LEN) with 4%nat. lia.
    + rewrite !bool_decide_false in *; [done|intros [_ ?]; congruence|done].
Qed.

(** On a terminated string that is: the string is a valid code. *)
Lemma valid_buffer_string buf : NUL ∈ buf → valid_buffer buf ↔ valid_code (cstr buf).
Proof.
  intros [rest Hbuf]%cstr_split. pose proof (cstr_no_NUL buf) as Hno.
  unfold valid_buffer, valid_code. change (Z.to_nat SECRET_CODE_LEN) with 4%nat. set (l := cstr buf) in *. clearbody l. subst buf.
  split.
  - intros [[Hl Hall] Hnul]. assert (4 ≤ length l)%nat as Hge.
    { destruct (decide (4 ≤ length l)%nat) as [|Hlt]; [done|]. exfalso.
      assert (NUL ∈ take 4 (l ++ NUL :: rest)) as Hin.
      { apply (list_elem_of_lookup_2 _ (length l)). rewrite lookup_take_lt by lia.
        by rewrite lookup_app_r, Nat.sub_diag by lia. }
      pose proof (proj1 (Forall_forall _ _) Hall NUL Hin) as Hc. by apply color_not_NUL in Hc. }
    destruct (decide (length l = 4%nat)) as [H4|Hne].
    + split; [done|]. by rewrite <- H4, take_app_length in Hall.
    + rewrite lookup_app_l in Hnul by lia. by apply list_elem_of_lookup_2 in Hnul.
  - intros [Hl Hall]. rewrite <- Hl, take_app_length. split; [done|].
    by rewrite lookup_app_r, Nat.sub_diag by lia.
Qed.

(** ** Generation *)
Lemma wp_random {S} rands buf (Q : list ascii → S → Prop) s :
  (∀ i, 0 ≤ rands i ≤ INT_MAX) → (4 < length buf)%nat →
  (∀ code, valid_code code → Q (code ++ NUL :: drop 5 buf) s) →
  wp (get_random_secret_code rands buf) Q s.
Proof.
  intros Hr Hlen HQ. apply wp_bind.
  eapply wp_for with (I := λ i b s', s' = s ∧ ∃ code, length code = Z.to_nat i ∧
    Forall (λ c, c ∈ SECRET_CODE_COLORS) code ∧ b = code ++ drop (Z.to_nat i) buf);
    [done| | |split; [done|by exists []]].
  - intros i b s' Hi (-> & code & Hc & Hall & ->). unfold SECRET_CODE_LEN in Hi.
    apply wp_bind. unfold int_rem, SECRET_CODE_COLORS_LEN. rewrite bool_decide_false by done.
    assert (0 ≤ Z.quot (rands i) 6 ≤ INT_MAX).
    { specialize (Hr i). split; [apply Z.quot_pos; lia|]. etrans; [apply Z.quot_le_upper_bound with (q := INT_MAX); lia|done]. }
    rewrite (proj2 (in_int_spec _)) by lia. apply wp_ret.
    pose proof (Z.rem_bound_pos (rands i) 6 ltac:(apply Hr) ltac:(lia)) as Hb.
    destruct (lookup_lt_is_Some_2 SECRET_CODE_COLORS (Z.to_nat (Z.rem (rands i) 6))) as [c Hcol].
    { change (length SECRET_CODE_COLORS) with 6%nat. lia. }
    apply wp_bind. eapply (wp_at_index _ _ c); [lia|done|].
    apply wp_bind. eapply wp_set_index; [rewrite length_app, length_drop; lia|]. apply wp_ret.
    split; [done|]. exists (code ++ [c]). rewrite length_app. simpl. split; [lia|]. split.
    { apply Forall_app. split; [done|]. constructor; [|done]. by eapply list_elem_of_lookup_2. }
    destruct (drop (Z.to_nat i) buf) as [|x rest] eqn:Ed.
    { apply (f_equal length) in Ed. rewrite length_drop in Ed. simpl in Ed. lia. }
    rewrite <- Hc, insert_mid, <- app_assoc. simpl.
    rewrite Z2Nat.inj_add, Nat.add_1_r by lia.
    by rewrite (drop_S_tail _ _ _ _ Ed).
  - intros b s' (-> & code & Hc & Hall & ->). simpl. unfold SECRET_CODE_LEN in *.
    change (Z.to_nat 4) with 4%nat in *.
    eapply wp_set_index; [rewrite length_app, length_drop; lia|].
    destruct (drop 4 buf) as [|x rest] eqn:Ed.
    { apply (f_equal length) in Ed. rewrite length_drop in Ed. simpl in Ed. lia. }
    change (Z.to_nat 4) with 4%nat. rewrite <- Hc, insert_mid.
    rewrite <- (drop_S_tail _ _ _ _ Ed). by apply HQ.
Qed.

(** ** Feedback: the marks *)

(** The marks of the first loop. *)
Definition marks (a g : list ascii) : list bool := zip_with (λ x y, bool_decide (y = x)) a g.

(** The characters without a mark. *)
Fixpoint unmarked (V : list bool) (l : list ascii) : list ascii :=
  match V, l with
  | v :: V', x :: l' => if v : bool then unmarked V' l' else x :: unmarked V' l'
  | _, _ => []
  end.

(** The characters without a mark in either array. *)
Definition avail (V W : list bool) (a : list ascii) : list ascii := unmarked (zip_with orb V W) a.

(** Marking the first available occurrence of [x]. *)
Fixpoint mark (x : ascii) (V W : list bool) (a : list ascii) : list bool :=
  match V, W, a with
  | v :: V', w :: W', y :: a' =>
      if negb (v || w) && bool_decide (x = y) then true :: W' else w :: mark x V' W' a'
  | _, _, _ => W
  end.

Lemma mark_length x V W a : length (mark x V W a) = length W.
Proof.
  revert W a. induction V as [|v V IH]; intros [|w W] [|y a]; simpl; [done..|].
  case_match; simpl; [done|]. by rewrite IH.
Qed.

Lemma mark_absent x V W a : x ∉ avail V W a → mark x V W a = W.
Proof.
  unfold avail. revert W a. induction V as [|v V IH]; intros [|w W] [|y a]; simpl; [done..|].
  destruct (v || w); simpl; intros Hn; [by rewrite IH|].
  rewrite not_elem_of_cons in Hn. destruct Hn as [H1 H2].
  rewrite bool_decide_false by done. by rewrite IH.
Qed.

Lemma mark_avail x V W a :
  x ∈ avail V W a → colors (avail V W a) = {[+ x +]} ⊎ colors (avail V (mark x V W a) a).
Proof.
  unfold avail, colors. revert W a. induction V as [|v V IH]; intros [|w W] [|y a]; simpl;
    try by intros ?%not_elem_of_nil.
  destruct (v || w) eqn:Evw; simpl; intros Hx.
  - rewrite Evw. by apply IH.
  - destruct (decide (x = y)) as [->|Hne].
    + rewrite bool_decide_true by done. rewrite orb_true_r. done.
    + rewrite bool_decide_false by done. rewrite Evw.
      apply elem_of_cons in Hx as [?|Hx]; [done|]. simpl. rewrite (IH _ _ Hx). multiset_solver.
Qed.

(** The first available occurrence is at [j]. *)
Lemma mark_at x V W a j :
  x ∉ avail (take j V) (take j W) (take j a) →
  V !! j = Some false → W !! j = Some false → a !! j = Some x →
  x ∈ avail V W a ∧ mark x V W a = <[j := true]> W.
Proof.
  unfold avail. revert W a j.
  induction V as [|v V IH]; intros [|w W] [|y a] [|j] Hn HV HW Ha; simplify_eq/=.
  - rewrite bool_decide_true by done. split; [by left|done].
  - destruct (v || w) eqn:E; simpl in *.
    + destruct (IH _ _ _ Hn HV HW Ha) as [H1 ->]. split; [done|]. done.
    + rewrite not_elem_of_cons in Hn. destruct Hn as [Hxy Hn].
      destruct (IH _ _ _ Hn HV HW Ha) as [H1 ->]. rewrite bool_decide_false by done.
      split; [by right|done].
Qed.

Lemma avail_snoc V W a j v w y :
  V !! j = Some v → W !! j = Some w → a !! j = Some y →
  avail (take (S j) V) (take (S j) W) (take (S j) a) =
  avail (take j V) (take j W) (take j a) ++ (if v || w then [] else [y]).
Proof.
  unfold avail. revert W a j. induction V as [|v0 V IH]; intros [|w0 W] [|y0 a] [|j] HV HW Ha;
    simplify_eq/=; [by destruct (v || w)|].
  destruct (v0 || w0); simpl; by rewrite <- (IH _ _ _ HV HW Ha).
Qed.

(** ** Feedback: the rules of the game *)

(** Each guessed colour that is available uses up one occurrence. *)
Lemma shared_step x (G A A' : gmultiset ascii) :
  A = {[+ x +]} ⊎ A' → size (({[+ x +]} ⊎ G) ∩ A) = S (size (G ∩ A')).
Proof.
  intros ->. replace (({[+ x +]} ⊎ G) ∩ ({[+ x +]} ⊎ A')) with ({[+ x +]} ⊎ (G ∩ A'))
    by multiset_solver.
  by rewrite gmultiset_size_disj_union, gmultiset_size_singleton.
Qed.

Lemma shared_skip x (G A : gmultiset ascii) :
  x ∉ A → size (({[+ x +]} ⊎ G) ∩ A) = size (G ∩ A).
Proof.
  intros Hx. replace (({[+ x +]} ⊎ G) ∩ A) with (G ∩ A); [done|]. apply gmultiset_eq. intros y.
  rewrite !multiplicity_intersection, multiplicity_disj_union.
  destruct (decide (x = y)) as [<-|Hne].
  - rewrite not_elem_of_multiplicity in Hx. lia.
  - rewrite multiplicity_singleton_ne by done. lia.
Qed.

Lemma colors_elem x l : x ∈ colors l ↔ x ∈ l.
Proof. unfold colors. by rewrite elem_of_list_to_set_disj. Qed.

Lemma colors_cons x l : colors (x :: l) = {[+ x +]} ⊎ colors l.
Proof. done. Qed.

(** Positions and remaining colours make up what the codes share. *)
Lemma shared_positions a g :
  length a = length g →
  shared a g = positions a g +
    Z.of_nat (size (colors (unmarked (marks a g) g) ∩ colors (unmarked (marks a g) a))).
Proof.
  unfold shared, marks. intros Hlen.
  assert (∃ M : gmultiset ascii, Z.of_nat (size M) = positions a g ∧
    colors g = M ⊎ colors (unmarked (zip_with (λ x y, bool_decide (y = x)) a g) g) ∧
    colors a = M ⊎ colors (unmarked (zip_with (λ x y, bool_decide (y = x)) a g) a))
    as (M & <- & HG & HA).
  { revert g Hlen. induction a as [|x a IH]; intros [|y g] Hlen; simplify_eq/=.
    - exists ∅. split; [done|]. done.
    - destruct (IH g Hlen) as (M & HM & Hg & Ha). destruct (decide (y = x)) as [->|Hne].
      + rewrite !bool_decide_true by done. exists ({[+ x +]} ⊎ M).
        rewrite gmultiset_size_disj_union, gmultiset_size_singleton. split; [lia|].
        by rewrite !colors_cons, <- !(assoc_L (⊎)), <- Hg, <- Ha.
      + rewrite !bool_decide_false by done. exists M. split; [lia|].
        rewrite !colors_cons, !(assoc_L (⊎) M), !(comm_L (⊎) M), <- !(assoc_L (⊎)), <- Hg, <- Ha.
        done. }
  rewrite HG at 1. rewrite HA at 1.
  set (X := colors _). set (Y := colors _).
  replace ((M ⊎ X) ∩ (M ⊎ Y)) with (M ⊎ (X ∩ Y)) by multiset_solver.
  rewrite gmultiset_size_disj_union. lia.
Qed.

(** ** Feedback: the loops *)
Lemma positions_snoc a g i x y :
  a !! i = Some x → g !! i = Some y →
  positions (take (S i) a) (take (S i) g) =
  positions (take i a) (take i g) + (if bool_decide (y = x) then 1 else 0).
Proof.
  revert g i. induction a as [|x0 a IH]; intros [|y0 g] [|i] Ha Hg; simplify_eq/=; [lia|].
  rewrite (IH _ _ Ha Hg). lia.
Qed.

Lemma positions_bounds a g : 0 ≤ positions a g ≤ Z.of_nat (length a).
Proof.
  revert g. induction a as [|x a IH]; intros [|y g]; simpl; [lia..|].
  specialize (IH g). case_bool_decide; lia.
Qed.

Section feedback.
Context {S : Type} {a g ra rg : list ascii}.
Hypothesis Ha : length a = 4%nat.
Hypothesis Hg : length g = 4%nat.
Implicit Types s : S.

(** The marks after [i] rounds of the first loop. *)
Definition marked_upto (i : nat) : list bool :=
  marks (take i a) (take i g) ++ replicate (4 - i) false.

Lemma marked_upto_step i x y :
  a !! i = Some x → g !! i = Some y →
  marked_upto (Datatypes.S i) = <[i := bool_decide (y = x)]> (marked_upto i).
Proof.
  intros Hx Hy. unfold marked_upto, marks.
  pose proof (lookup_lt_Some _ _ _ Hx) as Hi. rewrite Ha in Hi.
  assert (Hl : length (zip_with (λ x y, bool_decide (y = x)) (take i a) (take i g)) = i).
  { rewrite length_zip_with, !length_take. lia. }
  rewrite (take_S_r _ _ _ Hx), (take_S_r _ _ _ Hy), zip_with_app by (rewrite !length_take; lia).
  replace (4 - i)%nat with (Datatypes.S (4 - Datatypes.S i)) by lia. simpl replicate.
  set (L := zip_with _ (take i a) _) in *. clearbody L. subst i.
  by rewrite insert_mid, <- app_assoc.
Qed.

Lemma wp_positions s :
  wp (for_upto SECRET_CODE_LEN (λ i '(correct_positions_count, visited),
        gi ← at_index (g ++ rg) i;
        ai ← at_index (a ++ ra) i;
        if bool_decide (gi = ai) then
          n ← int_add correct_positions_count 1;
          visited ← set_index visited i true;
          mret (inl (n, visited))
        else mret (inl (correct_positions_count, visited)))
      (0, replicate (Z.to_nat SECRET_CODE_LEN) false) id)
    (λ r s', s' = s ∧ r = (positions a g, marks a g)) s.
Proof.
  unfold SECRET_CODE_LEN.
  eapply wp_for with (I := λ i r s', s' = s ∧
    r = (positions (take (Z.to_nat i) a) (take (Z.to_nat i) g), marked_upto (Z.to_nat i)));
    [done| | |done].
  - intros i [n V] s' Hi (-> & [= -> ->]).
    destruct (lookup_lt_is_Some_2 a (Z.to_nat i)) as [x Hx]; [lia|].
    destruct (lookup_lt_is_Some_2 g (Z.to_nat i)) as [y Hy]; [lia|].
    apply wp_bind. eapply (wp_at_index _ _ y); [lia|by apply lookup_app_l_Some|].
    apply wp_bind. eapply (wp_at_index _ _ x); [lia|by apply lookup_app_l_Some|].
    rewrite Z2Nat.inj_add, Nat.add_1_r by lia.
    rewrite (positions_snoc _ _ _ _ _ Hx Hy), (marked_upto_step _ _ _ Hx Hy).
    pose proof (positions_bounds (take (Z.to_nat i) a) (take (Z.to_nat i) g)) as Hb.
    rewrite length_take in Hb.
    assert (Hl : length (marked_upto (Z.to_nat i)) = 4%nat).
    { unfold marked_upto, marks. rewrite length_app, length_zip_with, !length_take, length_replicate. lia. }
    case_bool_decide.
    + apply wp_bind. wp_step. apply wp_bind. eapply wp_set_index; [lia|]. by apply wp_ret.
    + apply wp_ret. split; [done|]. f_equal; [lia|]. symmetry. apply list_insert_id.
      unfold marked_upto, marks. rewrite lookup_app_r; rewrite length_zip_with, !length_take; [|lia].
      apply lookup_replicate. lia.
  - intros [n V] s' (-> & [= -> ->]). change (Z.to_nat 4) with 4%nat.
    unfold marked_upto. rewrite !take_ge, app_nil_r by lia. done.
Qed.

(** The search for an available occurrence of [x]. *)
Lemma wp_search V W n x i s :
  length V = 4%nat → length W = 4%nat → 0 ≤ n < INT_MAX →
  0 ≤ i → (g ++ rg) !! Z.to_nat i = Some x →
  wp (for_upto SECRET_CODE_LEN (λ j '(correct_colors_count, visited_2),
        v ← at_index V j;
        v2 ← (if (v : bool) then mret true else at_index visited_2 j);
        if (v2 : bool) then mret (inl (correct_colors_count, visited_2))
        else
          gi ← at_index (g ++ rg) i;
          aj ← at_index (a ++ ra) j;
          if bool_decide (gi = aj) then
            n ← int_add correct_colors_count 1;
            visited_2 ← set_index visited_2 j true;
            mret (inr (n, visited_2))
          else mret (inl (correct_colors_count, visited_2))) (n, W) id)
    (λ r s', s' = s ∧
       r = if bool_decide (x ∈ avail V W a) then (n + 1, mark x V W a) else (n, W)) s.
Proof.
  intros HV HW Hn Hi Hx. unfold SECRET_CODE_LEN.
  eapply wp_for with (I := λ j r s', s' = s ∧ r = (n, W) ∧
    x ∉ avail (take (Z.to_nat j) V) (take (Z.to_nat j) W) (take (Z.to_nat j) a)); [done| | |].
  - intros j [n' W'] s' Hj (-> & [= -> ->] & Hno).
    destruct (lookup_lt_is_Some_2 V (Z.to_nat j)) as [v Hv]; [lia|].
    destruct (lookup_lt_is_Some_2 W (Z.to_nat j)) as [w Hw]; [lia|].
    destruct (lookup_lt_is_Some_2 a (Z.to_nat j)) as [y Hy]; [lia|].
    pose proof (avail_snoc _ _ _ _ _ _ _ Hv Hw Hy) as Hs.
    assert (HS : Z.to_nat (j + 1) = Datatypes.S (Z.to_nat j)) by lia.
    apply wp_bind. eapply (wp_at_index _ _ v); [lia|done|].
    apply wp_bind. eapply wp_mono with (P := λ v2 s', s' = s ∧ v2 = v || w).
    { destruct v; [by apply wp_ret|]. eapply (wp_at_index _ _ w); [lia|done|done]. }
    intros v2 s2 (-> & ->). destruct (v || w) eqn:E.
    { apply wp_ret. rewrite HS, Hs, app_nil_r. done. }
    apply wp_bind. eapply (wp_at_index _ _ x); [lia|done|].
    apply wp_bind. eapply (wp_at_index _ _ y); [lia|by apply lookup_app_l_Some|].
    apply orb_false_iff in E as [-> ->]. case_bool_decide as Exy.
    + subst y. destruct (mark_at _ _ _ _ _ Hno Hv Hw Hy) as [Hin Hm].
      apply wp_bind. wp_step. apply wp_bind. eapply wp_set_index; [lia|]. apply wp_ret.
      rewrite bool_decide_true, Hm by done. done.
    + apply wp_ret. split; [done|]. split; [done|]. rewrite HS, Hs. simpl. set_solver.
  - intros [n' W'] s' (-> & [= -> ->] & Hno). rewrite !take_ge in Hno by lia.
    by rewrite bool_decide_false.
  - split; [done|]. split; [done|]. apply not_elem_of_nil.
Qed.

(** The colours of the guess not yet compared, against those available. *)
Definition to_match (V W : list bool) (i : nat) : nat :=
  size (colors (unmarked (drop i V) (drop i g)) ∩ colors (avail V W a)).

Lemma to_match_marked V W i :
  V !! i = Some true → to_match V W (Datatypes.S i) = to_match V W i.
Proof.
  intros Hv. unfold to_match. rewrite (drop_S _ _ _ Hv).
  destruct (drop i g) as [|y r] eqn:E; [|by rewrite (drop_S_tail _ _ _ _ E)].
  rewrite (drop_ge g); [by destruct (drop (Datatypes.S i) V)|].
  apply (f_equal length) in E. rewrite length_drop in E. simpl in E. lia.
Qed.

Lemma to_match_search V W i x :
  V !! i = Some false → g !! i = Some x →
  to_match V W i = if bool_decide (x ∈ avail V W a)
                   then Datatypes.S (to_match V (mark x V W a) (Datatypes.S i))
                   else to_match V W (Datatypes.S i).
Proof.
  intros Hv Hx. unfold to_match. rewrite (drop_S _ _ _ Hv), (drop_S _ _ _ Hx).
  cbn [unmarked]. rewrite colors_cons. case_bool_decide as Hin.
  - apply shared_step. by apply mark_avail.
  - apply shared_skip. by rewrite colors_elem.
Qed.

Lemma wp_colors V s :
  length V = 4%nat →
  wp (for_upto SECRET_CODE_LEN (λ i '(correct_colors_count, visited_2),
        v ← at_index V i;
        if (v : bool) then mret (inl (correct_colors_count, visited_2))
        else
          r ← for_upto SECRET_CODE_LEN (λ j '(correct_colors_count, visited_2),
            v ← at_index V j;
            v2 ← (if (v : bool) then mret true else at_index visited_2 j);
            if (v2 : bool) then mret (inl (correct_colors_count, visited_2))
            else
              gi ← at_index (g ++ rg) i;
              aj ← at_index (a ++ ra) j;
              if bool_decide (gi = aj) then
                n ← int_add correct_colors_count 1;
                visited_2 ← set_index visited_2 j true;
                mret (inr (n, visited_2))
              else mret (inl (correct_colors_count, visited_2)))
            (correct_colors_count, visited_2) id;
          mret (inl r)) (0, replicate (Z.to_nat SECRET_CODE_LEN) false) id)
    (λ r s', s' = s ∧ r.1 = Z.of_nat (to_match V (replicate 4 false) 0)) s.
Proof.
  intros HV. unfold SECRET_CODE_LEN at 1 3.
  eapply wp_for with (I := λ i r s', s' = s ∧ length r.2 = 4%nat ∧ 0 ≤ r.1 ≤ i ∧
    r.1 + Z.of_nat (to_match V r.2 (Z.to_nat i)) = Z.of_nat (to_match V (replicate 4 false) 0));
    [done| | |done].
  - intros i [n W] s' Hi (-> & HW & Hn & Hsum). simpl in HW, Hn, Hsum.
    assert (HS : Z.to_nat (i + 1) = Datatypes.S (Z.to_nat i)) by lia.
    destruct (lookup_lt_is_Some_2 V (Z.to_nat i)) as [v Hv]; [lia|].
    destruct (lookup_lt_is_Some_2 g (Z.to_nat i)) as [x Hx]; [lia|].
    apply wp_bind. eapply (wp_at_index _ _ v); [lia|done|]. destruct v.
    + apply wp_ret. simpl. rewrite HS, to_match_marked by done. split; [done|]. split; [done|lia].
    + apply wp_bind. eapply wp_mono; [eapply (wp_search V W n x i); try done; [lia..|]|].
      { by apply lookup_app_l_Some. }
      intros r s2 (-> & ->). apply wp_ret. rewrite (to_match_search _ _ _ _ Hv Hx) in Hsum.
      split; [done|]. case_bool_decide; simpl; rewrite HS, ?mark_length; (split; [done|]); lia.
  - intros [n W] s' (-> & HW & Hn & Hsum). simpl in *. split; [done|].
    change (Z.to_nat 4) with 4%nat in Hsum. unfold to_match in Hsum at 1.
    rewrite (drop_ge V), (drop_ge g) in Hsum by lia. simpl in Hsum.
    change (colors []) with (∅ : gmultiset ascii) in Hsum.
    rewrite (left_absorb_L ∅ (∩)), gmultiset_size_empty in Hsum. unfold id. simpl. lia.
Qed.

Lemma avail_none V : length V = 4%nat → avail V (replicate 4 false) a = unmarked V a.
Proof.
  intros HV. unfold avail. f_equal. by destruct V as [|[] [|[] [|[] [|[] []]]]].
Qed.

Lemma wp_feedback s :
  wp (get_secret_code_guess_feedback (a ++ ra) (g ++ rg))
    (λ r s', s' = s ∧
       r = (bool_decide (positions a g = 4), positions a g, shared a g - positions a g)) s.
Proof.
  apply wp_bind. eapply wp_mono; [apply wp_positions|]. intros r s1 (-> & ->).
  assert (HV : length (marks a g) = 4%nat) by (unfold marks; rewrite length_zip_with; lia).
  apply wp_bind. eapply wp_mono; [by apply (wp_colors (marks a g))|].
  intros [n W] s2 (-> & Hn). simpl in Hn. apply wp_ret. split; [done|].
  rewrite Hn, (shared_positions a g) by lia. unfold to_match. rewrite !drop_0, avail_none by done.
  unfold SECRET_CODE_LEN. f_equal; [f_equal|lia].
  destruct (Z.eqb_spec (positions a g) 4); [by rewrite bool_decide_true|by rewrite bool_decide_false].
Qed.
End feedback.

(** All four positions agree exactly when the guess is right. *)
Lemma positions_all a g :
  length a = length g → positions a g = Z.of_nat (length a) ↔ g = a.
Proof.
  revert g. induction a as [|x a IH]; intros [|y g] Hl; simplify_eq/=; [done|].
  pose proof (positions_bounds a g). specialize (IH g Hl).
  destruct (decide (y = x)) as [->|Hne].
  - rewrite bool_decide_true by done. split; [intros ?; f_equal; apply IH; lia|].
    intros [= ->]. rewrite (proj2 IH) by done. lia.
  - rewrite bool_decide_false by done. split; [lia|]. by intros [= ? ?].
Qed.
