(* ===== verification/Messages.v ===== *)
(** * Messages: message-helpers.c

    Messages of a fixed size over a stream socket.  [read] and [write] are
    calls into the operating system; the model holds a script of what they do:
    data arrives in chunks, calls fail or are interrupted, and a write may
    accept only a part.  The loops of [receive_message] and [send_message] put
    a message together from such calls, in a bounded number of attempts. *)
From Stdlib Require Import Ascii.
From stdpp Require Import prelude.
From S2P Require Import Prelude CMonad CString.

Definition READ_ATTEMPTS_MAX_COUNT : Z := 5.
Definition WRITE_ATTEMPTS_MAX_COUNT : Z := 5.
Definition READ_ERROR : Z := -1.
Definition WRITE_CONN_LOST_ERROR : Z := -2.
Definition WRITE_OTHER_ERROR : Z := -1.

(** What the next [read] and [write] calls do.  Of a chunk longer than the
    buffer the rest stays for the next call; a chunk of length 0 is end of file;
    [WriteErr true] sets [errno] to [EPIPE]. *)
Inductive read_event := Chunk (bytes : list ascii) | ReadErr.
Inductive write_event := Accept (n : nat) | WriteErr (epipe : bool).

Record conn := Conn {
  reads : list read_event;
  writes : list write_event;
  sent : list ascii
}.

(** The state of the program contains the connection of the socket. *)
Class HasConn (S : Type) := {
  get_conn : S → conn;
  set_conn : conn → S → S;
  get_set_conn c s : get_conn (set_conn c s) = c;
  set_get_conn s : set_conn (get_conn s) s = s;
  set_set_conn c c' s : set_conn c (set_conn c' s) = set_conn c s
}.
#[export] Program Instance conn_has_conn : HasConn conn :=
  {| get_conn := id; set_conn := λ c _, c |}.
Solve All Obligations with done.

(** The effect of one call on the connection: the value returned (with the
    bytes read, or with [errno == EPIPE]) and the new connection. *)
Definition conn_read (len : nat) (c : conn) : Z * list ascii * conn :=
  match reads c with
  | [] => (0, [], c)
  | ReadErr :: rs => (-1, [], Conn rs (writes c) (sent c))
  | Chunk b :: rs =>
      let rest := match drop len b with [] => rs | r => Chunk r :: rs end in
      (Z.of_nat (length (take len b)), take len b, Conn rest (writes c) (sent c))
  end.

Definition conn_write (msg : list ascii) (c : conn) : Z * bool * conn :=
  match writes c with
  | [] => (Z.of_nat (length msg), false, Conn (reads c) [] (sent c ++ msg))
  | WriteErr e :: ws => (-1, e, Conn (reads c) ws (sent c))
  | Accept n :: ws =>
      (Z.of_nat (length (take n msg)), false, Conn (reads c) ws (sent c ++ take n msg))
  end.

Section messages.
Context {S : Type} `{!HasConn S}.

Definition read (len : nat) : C S (Z * list ascii) := λ s,
  let '(n, b, c) := conn_read len (get_conn s) in Ok (n, b) (set_conn c s).
Definition write (msg : list ascii) : C S (Z * bool) := λ s,
  let '(n, e, c) := conn_write msg (get_conn s) in Ok (n, e) (set_conn c s).

(** [read(socket_fd, buf + off, len)]: undefined when the buffer is too small. *)
Definition read_at (buf : list ascii) (off len : Z) : C S (Z * list ascii) :=
  if bool_decide (0 ≤ off ∧ 0 ≤ len ∧ off + len ≤ Z.of_nat (length buf)) then
    '(n, b) ← read (Z.to_nat len);
    mret (n, take (Z.to_nat off) buf ++ b ++ drop (Z.to_nat off + length b) buf)
  else ub.

Definition write_at (msg : list ascii) (off len : Z) : C S (Z * bool) :=
  if bool_decide (0 ≤ off ∧ 0 ≤ len ∧ off + len ≤ Z.of_nat (length msg)) then
    write (take (Z.to_nat len) (drop (Z.to_nat off) msg))
  else ub.

(** The value returned, and the buffer. *)
Definition receive_message (buf : list ascii) (msg_size : Z) : C S (Z * list ascii) :=
  '(rcvd_msg_size, buf) ←
    iter (Z.to_nat READ_ATTEMPTS_MAX_COUNT + 1) (λ '(rcvd_msg_size, read_attempts_count, buf),
      '(n, buf) ← read_at buf rcvd_msg_size (msg_size - rcvd_msg_size);
      rcvd_msg_size ← (if 0 <? n then int_add rcvd_msg_size n else mret rcvd_msg_size);
      if rcvd_msg_size <? msg_size then
        read_attempts_count ← int_add read_attempts_count 1;
        if read_attempts_count <? READ_ATTEMPTS_MAX_COUNT
        then mret (inl (rcvd_msg_size, read_attempts_count, buf))
        else mret (inr (rcvd_msg_size, buf))
      else mret (inr (rcvd_msg_size, buf))) (0, 0, buf);
  mret (if negb (rcvd_msg_size =? msg_size) then READ_ERROR else rcvd_msg_size, buf).

Definition send_message (msg : list ascii) (msg_size : Z) : C S Z :=
  sent_msg_size ←
    iter (Z.to_nat WRITE_ATTEMPTS_MAX_COUNT + 1) (λ '(sent_msg_size, write_attempts_count),
      '(n, epipe) ← write_at msg sent_msg_size (msg_size - sent_msg_size);
      if (n =? -1) && epipe then mret (inr WRITE_CONN_LOST_ERROR)
      else
        sent_msg_size ← (if 0 <? n then int_add sent_msg_size n else mret sent_msg_size);
        if sent_msg_size <? msg_size then
          write_attempts_count ← int_add write_attempts_count 1;
          if write_attempts_count <? WRITE_ATTEMPTS_MAX_COUNT
          then mret (inl (sent_msg_size, write_attempts_count))
          else mret (inr sent_msg_size)
        else mret (inr sent_msg_size)) (0, 0);
  mret (if negb (sent_msg_size =? msg_size) && negb (sent_msg_size =? WRITE_CONN_LOST_ERROR)
        then WRITE_OTHER_ERROR else sent_msg_size).
End messages.

(** ** Specification *)

(** The bytes that at most [k] reads deliver towards a message of [n] bytes, and
    the connection after them. *)
Fixpoint gather (k n : nat) (c : conn) : list ascii * conn :=
  match k with
  | O => ([], c)
  | Datatypes.S k' =>
      let '(_, b, c') := conn_read n c in
      if decide (length b < n)%nat then
        let '(b', c'') := gather k' (n - length b) c' in (b ++ b', c'')
      else (b, c')
  end.

Inductive send_outcome := Sent | Lost | Failed.
#[export] Instance send_outcome_eq_dec : EqDecision send_outcome.
Proof. solve_decision. Defined.

(** The bytes of [msg] that at most [k] writes put on the wire, how the sending
    ends, and the connection after that. *)
Fixpoint scatter (k : nat) (msg : list ascii) (c : conn) : send_outcome * conn :=
  match k with
  | O => (Failed, c)
  | Datatypes.S k' =>
      let '(n, e, c') := conn_write msg c in
      if (n =? -1) && e then (Lost, c')
      else if decide (Z.to_nat n < length msg)%nat then scatter k' (drop (Z.to_nat n) msg) c'
      else (Sent, c')
  end.

Definition send_code (msg_size : Z) (r : send_outcome) : Z :=
  match r with Sent => msg_size | Lost => WRITE_CONN_LOST_ERROR | Failed => WRITE_OTHER_ERROR end.

#[global] Arguments gather : simpl never.
#[global] Arguments scatter : simpl never.

Lemma gather_S k n c :
  gather (S k) n c =
    let '(_, b, c') := conn_read n c in
    if decide (length b < n)%nat then
      let '(b', c'') := gather k (n - length b) c' in (b ++ b', c'')
    else (b, c').
Proof. done. Qed.

Lemma scatter_S k msg c :
  scatter (S k) msg c =
    let '(n, e, c') := conn_write msg c in
    if (n =? -1) && e then (Lost, c')
    else if decide (Z.to_nat n < length msg)%nat then scatter k (drop (Z.to_nat n) msg) c'
    else (Sent, c').
Proof. done. Qed.

(** ** The loops *)
Lemma conn_read_length len c n b c' :
  conn_read len c = (n, b, c') → (length b ≤ len)%nat ∧ (0 < length b → n = Z.of_nat (length b))%nat ∧
  (length b = 0%nat → n ≤ 0).
Proof.
  unfold conn_read. destruct (reads c) as [|[bytes|] rs]; intros [= <- <- <-]; simpl; [lia| |lia].
  rewrite length_take. lia.
Qed.

Lemma conn_write_count msg c n e c' :
  conn_write msg c = (n, e, c') → -1 ≤ n ≤ Z.of_nat (length msg).
Proof.
  unfold conn_write. destruct (writes c) as [|[m|] ws]; intros [= <- <- <-]; [lia| |lia].
  rewrite length_take. lia.
Qed.

Section loops.
Context {S : Type} `{!HasConn S}.
Implicit Types s : S.

Lemma wp_read_at buf off len Q s n b c :
  0 ≤ off → 0 ≤ len → off + len ≤ Z.of_nat (length buf) →
  conn_read (Z.to_nat len) (get_conn s) = (n, b, c) →
  Q (n, take (Z.to_nat off) buf ++ b ++ drop (Z.to_nat off + length b) buf) (set_conn c s) →
  wp (read_at buf off len) Q s.
Proof.
  intros H1 H2 H3 Hr HQ. unfold read_at. rewrite bool_decide_true by lia.
  apply wp_bind. unfold wp, read. rewrite Hr. by apply wp_ret.
Qed.

Lemma wp_write_at msg off len Q s n e c :
  0 ≤ off → 0 ≤ len → off + len ≤ Z.of_nat (length msg) →
  conn_write (take (Z.to_nat len) (drop (Z.to_nat off) msg)) (get_conn s) = (n, e, c) →
  Q (n, e) (set_conn c s) → wp (write_at msg off len) Q s.
Proof.
  intros H1 H2 H3 Hr HQ. unfold write_at. rewrite bool_decide_true by lia.
  unfold wp, write. by rewrite Hr.
Qed.

(** The buffer after [p] has been received into its front. *)
Definition filled (p buf : list ascii) : list ascii := p ++ drop (length p) buf.

Lemma filled_step p b buf :
  (length p + length b ≤ length buf)%nat →
  take (length p) (filled p buf) ++ b ++ drop (length p + length b) (filled p buf) =
  filled (p ++ b) buf.
Proof.
  intros Hl. unfold filled. rewrite take_app_length, <- app_assoc. f_equal. f_equal.
  rewrite drop_app_add, drop_drop, length_app. done.
Qed.

Lemma filled_length p buf : (length p ≤ length buf)%nat → length (filled p buf) = length buf.
Proof. intros Hl. unfold filled. rewrite length_app, length_drop. lia. Qed.

Lemma wp_receive buf msg_size (Q : Z * list ascii → S → Prop) s :
  0 < msg_size ≤ INT_MAX → msg_size ≤ Z.of_nat (length buf) →
  (let '(b, c) := gather 5 (Z.to_nat msg_size) (get_conn s) in
   Q (if bool_decide (Z.of_nat (length b) = msg_size) then msg_size else READ_ERROR, filled b buf)
     (set_conn c s)) →
  wp (receive_message buf msg_size) Q s.
Proof.
  intros Hm Hbuf HQ. apply wp_bind.
  eapply wp_mono with (P := λ '(r, buf') s', let '(b, c) := gather 5 (Z.to_nat msg_size) (get_conn s) in
    r = Z.of_nat (length b) ∧ buf' = filled b buf ∧ s' = set_conn c s); last first.
  { intros [r buf'] s'. destruct (gather 5 _ _) as [b c]. intros (-> & -> & ->). apply wp_ret.
    destruct (Z.eqb_spec (Z.of_nat (length b)) msg_size); simpl.
    - rewrite bool_decide_true in HQ by done. congruence.
    - by rewrite bool_decide_false in HQ. }
  clear HQ. unfold READ_ATTEMPTS_MAX_COUNT at 1. change (Z.to_nat 5 + 1)%nat with 6%nat.
  apply (wp_iter_idx (λ k '(rcvd, att, buf') s', (1 ≤ k ≤ 5)%nat ∧ att = 5 - Z.of_nat k ∧
    ∃ p c, rcvd = Z.of_nat (length p) ∧ rcvd < msg_size ∧ buf' = filled p buf ∧ s' = set_conn c s ∧
      gather 5 (Z.to_nat msg_size) (get_conn s) =
        let '(b, c') := gather k (Z.to_nat (msg_size - rcvd)) c in (p ++ b, c')))
    with (k := 5%nat); [| |lia].
  - intros k [[rcvd att] buf'] s' (Hk & -> & p & c & -> & Hlt & -> & -> & Hg).
    destruct k as [|k]; [lia|]. rewrite (gather_S k) in Hg.
    destruct (conn_read (Z.to_nat (msg_size - Z.of_nat (length p))) c) as [[n b] c'] eqn:Hr.
    pose proof (conn_read_length _ _ _ _ _ Hr) as (Hb & Hn1 & Hn2).
    apply wp_bind. eapply wp_read_at; [lia|lia|rewrite filled_length; lia|by rewrite get_set_conn|].
    rewrite Nat2Z.id, filled_step by lia. rewrite set_set_conn.
    apply wp_bind. eapply wp_mono with (P := λ r s', s' = set_conn c' s ∧ r = Z.of_nat (length (p ++ b))).
    { rewrite length_app. destruct (Z.ltb_spec 0 n).
      - destruct (length b) eqn:E; [lia|]. rewrite Hn1 by lia. wp_step. split; [done|lia].
      - apply wp_ret. split; [done|]. destruct (length b); lia. }
    intros r s2 (-> & ->). rewrite length_app. destruct (Z.ltb_spec (Z.of_nat (length p + length b)) msg_size).
    + rewrite decide_True in Hg by lia. apply wp_bind. wp_step.
      destruct (Z.ltb_spec (5 - Z.of_nat (Datatypes.S k) + 1) READ_ATTEMPTS_MAX_COUNT) as [Ha|Ha];
        unfold READ_ATTEMPTS_MAX_COUNT in Ha; apply wp_ret; cbn beta iota.
      * exists k. split; [lia|]. split; [lia|]. split; [lia|]. exists (p ++ b), c'.
        rewrite length_app. split; [done|]. split; [lia|]. split; [done|]. split; [done|].
        replace (Z.to_nat (msg_size - Z.of_nat (length p + length b)))
          with (Z.to_nat (msg_size - Z.of_nat (length p)) - length b)%nat by lia.
        destruct (gather k _ c') as [b' c'']. by rewrite Hg, app_assoc.
      * assert (k = 0%nat) as -> by lia. simpl in Hg. rewrite Hg, app_nil_r, length_app. done.
    + rewrite decide_False in Hg by lia. apply wp_ret. rewrite Hg, length_app. done.
  - split; [lia|]. split; [done|]. exists [], (get_conn s).
    split; [done|]. split; [lia|]. split; [done|]. split; [by rewrite set_get_conn|].
    rewrite Z.sub_0_r. by destruct (gather 5 _ _).
Qed.

Lemma wp_send msg (Q : Z → S → Prop) s :
  (0 < length msg)%nat → Z.of_nat (length msg) ≤ INT_MAX →
  (let '(r, c) := scatter 5 msg (get_conn s) in
   Q (send_code (Z.of_nat (length msg)) r) (set_conn c s)) →
  wp (send_message msg (Z.of_nat (length msg))) Q s.
Proof.
  intros Hm Hmax HQ. set (n0 := Z.of_nat (length msg)) in *. apply wp_bind.
  eapply wp_mono with (P := λ r s', let '(o, c) := scatter 5 msg (get_conn s) in
    s' = set_conn c s ∧ match o with Sent => r = n0 | Lost => r = WRITE_CONN_LOST_ERROR
                        | Failed => 0 ≤ r < n0 end); last first.
  { intros r s'. destruct (scatter 5 msg _) as [o c]. intros [-> Hr]. apply wp_ret.
    unfold WRITE_CONN_LOST_ERROR, WRITE_OTHER_ERROR in *.
    destruct o; simpl in HQ; [subst r|subst r|].
    - by rewrite Z.eqb_refl.
    - by rewrite (proj2 (Z.eqb_neq (-2) n0)) by lia.
    - by rewrite (proj2 (Z.eqb_neq r n0)), (proj2 (Z.eqb_neq r (-2))) by lia. }
  clear HQ. unfold WRITE_ATTEMPTS_MAX_COUNT at 1. change (Z.to_nat 5 + 1)%nat with 6%nat.
  apply (wp_iter_idx (λ k '(off, att) s', (1 ≤ k ≤ 5)%nat ∧ att = 5 - Z.of_nat k ∧ 0 ≤ off < n0 ∧
    ∃ c, s' = set_conn c s ∧ scatter 5 msg (get_conn s) = scatter k (drop (Z.to_nat off) msg) c))
    with (k := 5%nat); [| |lia].
  - intros k [off att] s' (Hk & -> & Hoff & c & -> & Hg). destruct k as [|k]; [lia|].
    rewrite (scatter_S k) in Hg. set (m := drop (Z.to_nat off) msg) in *.
    assert (Hlm : length m = Z.to_nat (n0 - off)) by (unfold m; rewrite length_drop; lia).
    assert (Htake : take (Z.to_nat (n0 - off)) m = m) by (apply take_ge; lia).
    destruct (conn_write m c) as [[n e] c'] eqn:Hw.
    pose proof (conn_write_count _ _ _ _ _ Hw) as Hn.
    apply wp_bind. eapply wp_write_at; [lia|lia|lia|fold m; by rewrite Htake, get_set_conn|].
    rewrite set_set_conn. destruct ((n =? -1) && e).
    { apply wp_ret. rewrite Hg. done. }
    apply wp_bind. eapply wp_mono with (P := λ r s', s' = set_conn c' s ∧ r = off + Z.max 0 n).
    { destruct (Z.ltb_spec 0 n); [wp_step; split; [done|lia]|apply wp_ret; split; [done|lia]]. }
    intros r s2 (-> & ->). destruct (Z.ltb_spec (off + Z.max 0 n) n0).
    + rewrite decide_True in Hg by lia. apply wp_bind. wp_step.
      destruct (Z.ltb_spec (5 - Z.of_nat (Datatypes.S k) + 1) WRITE_ATTEMPTS_MAX_COUNT) as [Ha|Ha];
        unfold WRITE_ATTEMPTS_MAX_COUNT in Ha; apply wp_ret; cbn beta iota.
      * exists k. split; [lia|]. split; [lia|]. split; [lia|]. split; [lia|]. exists c'. split; [done|].
        rewrite Hg. unfold m. rewrite drop_drop. do 2 f_equal. lia.
      * assert (k = 0%nat) as -> by lia. simpl in Hg. rewrite Hg. split; [done|lia].
    + rewrite decide_False in Hg by lia. apply wp_ret. rewrite Hg. split; [done|lia].
  - split; [lia|]. split; [done|]. split; [lia|]. exists (get_conn s). by rewrite set_get_conn.
Qed.
End loops.

(** ** No byte is lost, duplicated or reordered *)

(** The bytes that are still to be read. *)
Definition incoming (c : conn) : list ascii :=
  concat ((λ e, match e with Chunk b => b | ReadErr => [] end) <$> reads c).

Lemma conn_read_stream len c n b c' :
  conn_read len c = (n, b, c') →
  b ++ incoming c' = incoming c ∧ writes c' = writes c ∧ sent c' = sent c.
Proof.
  unfold conn_read, incoming. destruct (reads c) as [|[bytes|] rs] eqn:E; intros [= <- <- <-].
  - by rewrite E.
  - split; [|done]. pose proof (take_drop len bytes) as Ht. revert Ht.
    generalize (take len bytes) (drop len bytes). intros t [|x d] <-; simpl.
    + by rewrite app_nil_r.
    + by rewrite <- app_assoc.
  - done.
Qed.

Lemma gather_stream k n c b c' :
  gather k n c = (b, c') →
  b ++ incoming c' = incoming c ∧ (length b ≤ n)%nat ∧ writes c' = writes c ∧ sent c' = sent c.
Proof.
  revert n c b c'. induction k as [|k IH]; intros n c b c'; [intros [= <- <-]; simpl; split; [done|split; [lia|done]]|].
  rewrite gather_S. destruct (conn_read n c) as [[m b1] c1] eqn:Hr.
  destruct (conn_read_stream _ _ _ _ _ Hr) as (H1 & H2 & H3).
  destruct (conn_read_length _ _ _ _ _ Hr) as (Hl & _).
  destruct (decide (length b1 < n)%nat); [|by intros [= <- <-]].
  destruct (gather k (n - length b1) c1) as [b2 c2] eqn:Hg. intros [= <- <-].
  destruct (IH _ _ _ _ Hg) as (H4 & H5 & H6 & H7).
  rewrite <- app_assoc, H4, H1, length_app, H6, H7. split; [done|]. split; [lia|done].
Qed.

Lemma scatter_sent k msg c r c' :
  scatter k msg c = (r, c') → (0 < length msg)%nat →
  reads c' = reads c ∧ ∃ m, m `prefix_of` msg ∧ sent c' = sent c ++ m ∧ (r = Sent ↔ m = msg).
Proof.
  revert msg c. induction k as [|k IH]; intros msg c; intros Hsc Hlen; revert Hsc.
  { intros [= <- <-]. split; [done|]. exists []. rewrite app_nil_r. split; [apply prefix_nil|].
    split; [done|]. split; [done|]. intros <-. simpl in Hlen. lia. }
  rewrite scatter_S. destruct (conn_write msg c) as [[n e] c1] eqn:Hw.
  assert (reads c1 = reads c ∧ sent c1 = sent c ++ take (Z.to_nat n) msg) as [Hr Hs].
  { unfold conn_write in Hw. destruct (writes c) as [|[m|] ws]; simplify_eq/=; (split; [done|]).
    - by rewrite take_ge by lia.
    - rewrite Nat2Z.id, length_take. f_equal.
      destruct (decide (m ≤ length msg)%nat); [by rewrite Nat.min_l by lia|].
      rewrite Nat.min_r, !take_ge by lia. done.
    - by rewrite app_nil_r. }
  destruct ((n =? -1) && e) eqn:E.
  { intros [= <- <-]. split; [done|]. exists (take (Z.to_nat n) msg). split; [apply prefix_take|].
    split; [done|]. split; [done|]. intros Hm%(f_equal length). rewrite length_take in Hm. lia. }
  destruct (decide (Z.to_nat n < length msg)%nat).
  - intros Hg. destruct (IH _ _ Hg) as (H1 & m & [k' Hk'] & H2 & H3); [rewrite length_drop; lia|].
    split; [congruence|].
    exists (take (Z.to_nat n) msg ++ m). rewrite H2, Hs, <- app_assoc. split; [|split; [done|]].
    + rewrite <- (take_drop (Z.to_nat n) msg) at 2. apply prefix_app. by exists k'.
    + rewrite H3. rewrite <- (take_drop (Z.to_nat n) msg) at 3. split; [by intros ->|by apply app_inv_head].
  - intros [= <- <-]. split; [done|]. exists (take (Z.to_nat n) msg).
    split; [apply prefix_take|]. split; [done|]. split; [|done]. intros _. by apply take_ge; lia.
Qed.

(** ** What is left of a connection

    The bytes and the events that can still be taken from it; every message that is
    awaited or sent takes some, until none is left. *)
Definition read_weight (e : read_event) : nat := match e with Chunk b => S (length b) | ReadErr => 1 end.
Definition demand (c : conn) : nat := (sum_list_with read_weight (reads c) + length (writes c))%nat.

(** The peer sends nothing more and takes everything. *)
Definition drained (c : conn) : Prop := reads c = [] ∧ writes c = [].

Lemma conn_read_demand len c n b c' :
  conn_read len c = (n, b, c') → (0 < len)%nat →
  (reads c = [] → c' = c) ∧ (reads c ≠ [] → demand c' < demand c)%nat.
Proof.
  unfold conn_read, demand. destruct (reads c) as [|[bytes|] rs] eqn:E; intros [= <- <- <-] Hl; (split; [done|]); try done.
  - intros _. pose proof (length_drop bytes len) as Hd. destruct (drop len bytes) as [|x d]; simpl in *; lia.
  - intros _. simpl. lia.
Qed.

Lemma conn_write_demand msg c n e c' :
  conn_write msg c = (n, e, c') →
  reads c' = reads c ∧ (writes c = [] → writes c' = []) ∧ (writes c ≠ [] → length (writes c') < length (writes c))%nat.
Proof.
  unfold conn_write. destruct (writes c) as [|[m|] ws]; intros [= <- <- <-]; simpl; split_and!; try done; lia.
Qed.

Lemma gather_demand k n c b c' :
  gather (S k) n c = (b, c') → (0 < n)%nat →
  (reads c = [] → c' = c) ∧ (reads c ≠ [] → demand c' < demand c)%nat.
Proof.
  revert n c b c'. induction k as [|k IH]; intros n c b c'; rewrite gather_S;
    destruct (conn_read n c) as [[m b1] c1] eqn:Hr; intros Hg Hn;
    destruct (conn_read_demand _ _ _ _ _ Hr Hn) as [H1 H2]; (destruct (decide (length b1 < n)%nat); [|simplify_eq/=; auto]).
  - cbn [gather] in Hg. change (gather 0 (n - length b1) c1) with ([] : list ascii, c1) in Hg. simplify_eq/=; auto.
  - destruct (gather (S k) (n - length b1) c1) as [b2 c2] eqn:Hg2. simplify_eq.
    destruct (IH _ _ _ _ Hg2 ltac:(lia)) as [H3 H4]. split.
    + intros Hc. specialize (H1 Hc) as ->. by apply H3.
    + intros Hc. specialize (H2 Hc). destruct (reads c1) eqn:E; [rewrite H3 by done; done|].
      specialize (H4 ltac:(done)). lia.
Qed.

Lemma scatter_demand k msg c r c' :
  scatter (S k) msg c = (r, c') →
  reads c' = reads c ∧ (writes c = [] → writes c' = []) ∧ (writes c ≠ [] → length (writes c') < length (writes c))%nat.
Proof.
  revert msg c r c'. induction k as [|k IH]; intros msg c r c'; rewrite scatter_S;
    destruct (conn_write msg c) as [[n e] c1] eqn:Hw; intros Hg;
    destruct (conn_write_demand _ _ _ _ _ Hw) as (H0 & H1 & H2);
    (destruct ((n =? -1) && e); [simplify_eq/=; auto|]); (destruct (decide _); [|simplify_eq/=; auto]).
  - change (scatter 0 (drop (Z.to_nat n) msg) c1) with (Failed, c1) in Hg. simplify_eq/=; auto.
  - destruct (IH _ _ _ _ Hg) as (H3 & H4 & H5). split_and!; [congruence|auto|].
    intros Hc. specialize (H2 Hc). destruct (writes c1) eqn:E; [rewrite H4 by done; simpl; lia|].
    specialize (H5 ltac:(done)). lia.
Qed.
