(* ===== verification/Server.v ===== *)
(** * Server: the thread that serves one client (server.c)

    The state is that of the server as one serving thread sees it: its
    connection, the log file, the three counters and the mutexes it holds.
    Taking a mutex twice, or releasing one that is not held, is undefined
    behaviour; [pthread_exit] leaves the thread, so it is the [Exit] outcome.
    The time stamps and addresses in front of the log lines are left out. *)
From Stdlib Require Import Ascii String.
From stdpp Require Import prelude strings.
From S2P Require Import Prelude CMonad CString SecretCode Messages.

(** ** game-protocol.h *)
Definition GP_SIZE : Z := 192.
Definition GP_HEADER_SIZE : Z := 7.
Definition GP_SERV_FULL : list ascii := chars "SERVFUL".
Definition GP_DISP_MSG : list ascii := chars "DISPMSG".
Definition GP_GUESS_REQ : list ascii := chars "REQUEST".
Definition GP_GUESS_FBK : list ascii := chars "FEEDBAC".
Definition GP_GUESS_INV : list ascii := chars "INVALID".
Definition GP_GAME_SUCC : list ascii := chars "SUCCESS".
Definition GP_GAME_FAIL : list ascii := chars "FAILURE".

Definition MAX_GUESSES_COUNT : Z := 10.

(** ** State *)
Inductive mutex := log_file_mutex | clients_now_count_mutex | clients_count_mutex | clients_win_count_mutex.
#[export] Instance mutex_eq_dec : EqDecision mutex.
Proof. solve_decision. Defined.

Inductive log_line :=
  | ClientConnected
  | ServerSecret (code : list ascii)
  | ClientGuess (guess : list ascii)
  | ServerHint (correct_positions_count correct_colors_count : Z)
  | ConnectionLost
  | SendFailed
  | ReceiveFailed
  | GameSuccess
  | GameFailure
  | ClientDisconnected
  | ServerStarted
  | ServerFull
  | ThreadFailed
  | ServerShutdown
  | ClientsConnected (n : Z)
  | ClientsWon (n : Z)
  | CpuUser (sec usec : Z)
  | CpuKernel (sec usec : Z)
  | PeakMemory (kB : Z)
  | CurrentMemory (kB : Z).

Record srv := Srv {
  s_conn : conn;
  s_closed : Z;                (* calls of close on the client's socket *)
  s_log : list log_line;
  clients_now_count : Z;
  clients_count : Z;
  clients_win_count : Z;
  s_held : list mutex
}.

Definition set_s_conn c s :=
  Srv c (s_closed s) (s_log s) (clients_now_count s) (clients_count s) (clients_win_count s) (s_held s).
Definition set_closed n s :=
  Srv (s_conn s) n (s_log s) (clients_now_count s) (clients_count s) (clients_win_count s) (s_held s).
Definition set_log l s :=
  Srv (s_conn s) (s_closed s) l (clients_now_count s) (clients_count s) (clients_win_count s) (s_held s).
Definition set_now n s :=
  Srv (s_conn s) (s_closed s) (s_log s) n (clients_count s) (clients_win_count s) (s_held s).
Definition set_count n s :=
  Srv (s_conn s) (s_closed s) (s_log s) (clients_now_count s) n (clients_win_count s) (s_held s).
Definition set_wins n s :=
  Srv (s_conn s) (s_closed s) (s_log s) (clients_now_count s) (clients_count s) n (s_held s).
Definition set_held l s :=
  Srv (s_conn s) (s_closed s) (s_log s) (clients_now_count s) (clients_count s) (clients_win_count s) l.

#[export] Program Instance srv_has_conn : HasConn srv :=
  {| get_conn := s_conn; set_conn := set_s_conn |}.
Solve All Obligations with record_cases.

(** ** Library calls *)
Definition pthread_mutex_lock (m : mutex) : C srv () := λ s,
  if bool_decide (m ∈ s_held s) then UB else Ok () (set_held (m :: s_held s) s).
Definition pthread_mutex_unlock (m : mutex) : C srv () := λ s,
  if bool_decide (m ∈ s_held s) then Ok () (set_held (filter (.≠ m) (s_held s)) s) else UB.
Definition close : C srv () := modify (λ s, set_closed (s_closed s + 1) s).
Definition pthread_exit {A} : C srv A := exit 0.

(** [fprintf(log_file_fd, ...)] and [fflush]. *)
Definition log (l : log_line) : C srv () := modify (λ s, set_log (s_log s ++ [l]) s).

(** ** Counters *)
Definition increment_clients_now_count : C srv () :=
  pthread_mutex_lock clients_now_count_mutex;;
  n ← get clients_now_count; n ← int_add n 1; modify (set_now n);;
  pthread_mutex_unlock clients_now_count_mutex.
Definition decrement_clients_now_count : C srv () :=
  pthread_mutex_lock clients_now_count_mutex;;
  n ← get clients_now_count; n ← int_sub n 1; modify (set_now n);;
  pthread_mutex_unlock clients_now_count_mutex.
Definition increment_clients_count : C srv () :=
  pthread_mutex_lock clients_count_mutex;;
  n ← get clients_count; n ← int_add n 1; modify (set_count n);;
  pthread_mutex_unlock clients_count_mutex.
Definition increment_clients_win_count : C srv () :=
  pthread_mutex_lock clients_win_count_mutex;;
  n ← get clients_win_count; n ← int_add n 1; modify (set_wins n);;
  pthread_mutex_unlock clients_win_count_mutex.

(** ** Messages *)

(** [memset(buf, 0, GP_SIZE)] and [sprintf] into it: the text, its NUL, and the
    zeros; undefined when it does not fit. *)
Definition compose (text : list ascii) : C srv (list ascii) :=
  if bool_decide (Z.of_nat (length text) < GP_SIZE)
  then mret (text ++ replicate (Z.to_nat GP_SIZE - length text) NUL)
  else ub.

Definition gp_text (msg_type : list ascii) (msg_payload : option (list ascii)) : list ascii :=
  match msg_payload with
  | Some payload =>
      if bool_decide (msg_type ≠ GP_DISP_MSG) && bool_decide (msg_type ≠ GP_GUESS_FBK)
      then msg_type else msg_type ++ payload
  | None => msg_type
  end.

Definition send_gp_message (msg_type : list ascii) (msg_payload : option (list ascii)) :
    C srv (Z * list ascii) :=
  buf ← compose (gp_text msg_type msg_payload);
  sent_msg_size ← send_message buf GP_SIZE;
  if sent_msg_size =? WRITE_CONN_LOST_ERROR then
    pthread_mutex_lock log_file_mutex;;
    log ConnectionLost;;
    pthread_mutex_unlock log_file_mutex;;
    close;;
    decrement_clients_now_count;;
    pthread_exit
  else if sent_msg_size =? WRITE_OTHER_ERROR then
    pthread_mutex_lock log_file_mutex;;
    log SendFailed;;
    close;;
    log ClientDisconnected;;
    pthread_mutex_unlock log_file_mutex;;
    decrement_clients_now_count;;
    pthread_exit
  else mret (sent_msg_size, buf).

Definition receive_raw_message : C srv (Z * list ascii) :=
  let buf := replicate (Z.to_nat GP_SIZE) NUL in
  '(received_msg_size, buf) ← receive_message buf GP_SIZE;
  if received_msg_size =? READ_ERROR then
    pthread_mutex_lock log_file_mutex;;
    log ReceiveFailed;;
    close;;
    log ClientDisconnected;;
    pthread_mutex_unlock log_file_mutex;;
    decrement_clients_now_count;;
    pthread_exit
  else mret (received_msg_size, buf).

(** ** The thread *)
Definition WELCOME_MESSAGE : list ascii :=
  NEWLINE :: chars "Welcome to online Mastermind game." ++ [NEWLINE; NEWLINE].
Definition INSTRUCTIONS_1_MESSAGE : list ascii :=
  chars "Instructions: Win the game by correctly guessing the secret code within ten" ++ [NEWLINE] ++
  chars "guesses. The code consists of four uppercase characters A, B, C, D, E and F." ++ [NEWLINE].
Definition INSTRUCTIONS_2_MESSAGE : list ascii :=
  chars "Enter the guess when prompted with " ++ [chr 34; chr 62; chr 34] ++
  chars ". Do not include any spaces, lowercase" ++ [NEWLINE] ++
  chars "letters or any other characters." ++ [NEWLINE; NEWLINE].

Definition feedback_message (guess positions colors : Z) : list ascii :=
  chars "Guess: " ++ print_d guess ++ chars ", Correct positions: " ++ print_d positions ++
  chars ", Correct colours: " ++ print_d colors ++ chars "." ++ [NEWLINE].

(** The inner [while (1)]: until the client submits a valid guess.  [fuel] bounds
    the attempts. *)
Definition await_guess (fuel : nat) (buffer : list ascii) : C srv (list ascii) :=
  iter fuel (λ buffer,
    '(_, buffer) ← receive_message buffer GP_SIZE;
    valid ← is_valid_secret_code buffer;
    if (valid : bool) then mret (inr buffer)
    else
      '(_, buffer) ← send_gp_message GP_GUESS_INV None;
      mret (inl buffer)) buffer.

(** One round of the outer loop; its variables are [guesses_count] and
    [correct_positions_count]. *)
Definition guess_round (fuel : nat) (secret_code : list ascii) (guesses_count : Z) : C srv (Z * Z) :=
  '(_, buffer) ← send_gp_message GP_GUESS_REQ None;
  buffer ← await_guess fuel buffer;
  pthread_mutex_lock log_file_mutex;;
  log (ClientGuess (cstr buffer));;
  '(_, correct_positions_count, correct_colors_count) ←
    get_secret_code_guess_feedback secret_code buffer;
  log (ServerHint correct_positions_count correct_colors_count);;
  pthread_mutex_unlock log_file_mutex;;
  n ← int_add guesses_count 1;
  send_gp_message GP_GUESS_FBK
    (Some (feedback_message n correct_positions_count correct_colors_count));;
  guesses_count ← int_add guesses_count 1;
  mret (guesses_count, correct_positions_count).

Definition pthread_routine (rands : Z → Z) (fuel : nat) (param_secret_code : list ascii) : C srv () :=
  let secret_code := param_secret_code in
  pthread_mutex_lock log_file_mutex;;
  log ClientConnected;;
  increment_clients_now_count;;
  increment_clients_count;;
  valid ← is_valid_secret_code secret_code;
  secret_code ← (if (valid : bool) then mret secret_code
                 else get_random_secret_code rands secret_code);
  log (ServerSecret (cstr secret_code));;
  pthread_mutex_unlock log_file_mutex;;
  send_gp_message GP_DISP_MSG (Some WELCOME_MESSAGE);;
  send_gp_message GP_DISP_MSG (Some INSTRUCTIONS_1_MESSAGE);;
  send_gp_message GP_DISP_MSG (Some INSTRUCTIONS_2_MESSAGE);;
  correct_positions_count ←
    iter (Z.to_nat MAX_GUESSES_COUNT + 1) (λ '(guesses_count, correct_positions_count),
      if (guesses_count <? MAX_GUESSES_COUNT) && (correct_positions_count <? SECRET_CODE_LEN) then
        r ← guess_round fuel secret_code guesses_count;
        mret (inl r)
      else mret (inr correct_positions_count)) (0, 0);
  (if correct_positions_count =? SECRET_CODE_LEN then
     increment_clients_win_count;;
     pthread_mutex_lock log_file_mutex;;
     log GameSuccess;;
     pthread_mutex_unlock log_file_mutex;;
     send_gp_message GP_GAME_SUCC None
   else
     pthread_mutex_lock log_file_mutex;;
     log GameFailure;;
     pthread_mutex_unlock log_file_mutex;;
     send_gp_message GP_GAME_FAIL None);;
  close;;
  pthread_mutex_lock log_file_mutex;;
  log ClientDisconnected;;
  pthread_mutex_unlock log_file_mutex;;
  decrement_clients_now_count.
