(* ===== verification/ServerRefine.v ===== *)
(** * ServerRefine: a session with one client

    Whatever the network does, a serving thread keeps the mutex discipline,
    closes its socket exactly once and gives back its place in the count of
    clients ([safe] theorems).  When the client plays by the protocol, the log
    and the messages are those of a game of Mastermind ([wp] theorems). *)
From Stdlib Require Import Ascii String.
From stdpp Require Import prelude gmultiset strings.
From S2P Require Import Prelude CMonad CString SecretCode SecretCodeRefine Messages Server.

(** ** Locks and counters *)
Section locks.
Implicit Types s : srv.

Lemma wp_lock m Q s :
  m ∉ s_held s → Q () (set_held (m :: s_held s) s) → wp (pthread_mutex_lock m) Q s.
Proof. intros Hm HQ. unfold wp, pthread_mutex_lock. by rewrite bool_decide_false. Qed.

Lemma wp_unlock m l Q s :
  s_held s = m :: l → m ∉ l → Q () (set_held l s) → wp (pthread_mutex_unlock m) Q s.
Proof.
  intros Hs Hm HQ. unfold wp, pthread_mutex_unlock. rewrite Hs, bool_decide_true by (by left).
  rewrite filter_cons_False by (by intros H). replace (filter (.≠ m) l) with l; [done|].
  clear -Hm. induction l as [|x l IH]; [done|]. rewrite not_elem_of_cons in Hm.
  rewrite filter_cons_True by naive_solver. by rewrite <- IH by naive_solver.
Qed.

(** Counting one client more or less, under the counter's own mutex. *)
Lemma wp_increment_now Q s :
  clients_now_count_mutex ∉ s_held s → INT_MIN ≤ clients_now_count s < INT_MAX →
  Q () (set_now (clients_now_count s + 1) s) → wp increment_clients_now_count Q s.
Proof.
  intros Hm Hn HQ. apply wp_bind, wp_lock; [done|]. apply wp_bind, wp_get, wp_bind. simpl. wp_step.
  apply wp_bind, wp_modify. eapply wp_unlock; [done..|]. by destruct s.
Qed.
Lemma wp_decrement_now Q s :
  clients_now_count_mutex ∉ s_held s → INT_MIN < clients_now_count s ≤ INT_MAX →
  Q () (set_now (clients_now_count s - 1) s) → wp decrement_clients_now_count Q s.
Proof.
  intros Hm Hn HQ. apply wp_bind, wp_lock; [done|]. apply wp_bind, wp_get, wp_bind. simpl. wp_step.
  apply wp_bind, wp_modify. eapply wp_unlock; [done..|]. by destruct s.
Qed.
Lemma wp_increment_count Q s :
  clients_count_mutex ∉ s_held s → INT_MIN ≤ clients_count s < INT_MAX →
  Q () (set_count (clients_count s + 1) s) → wp increment_clients_count Q s.
Proof.
  intros Hm Hn HQ. apply wp_bind, wp_lock; [done|]. apply wp_bind, wp_get, wp_bind. simpl. wp_step.
  apply wp_bind, wp_modify. eapply wp_unlock; [done..|]. by destruct s.
Qed.
Lemma wp_increment_wins Q s :
  clients_win_count_mutex ∉ s_held s → INT_MIN ≤ clients_win_count s < INT_MAX →
  Q () (set_wins (clients_win_count s + 1) s) → wp increment_clients_win_count Q s.
Proof.
  intros Hm Hn HQ. apply wp_bind, wp_lock; [done|]. apply wp_bind, wp_get, wp_bind. simpl. wp_step.
  apply wp_bind, wp_modify. eapply wp_unlock; [done..|]. by destruct s.
Qed.

Lemma wp_log l (Q : () → srv → Prop) s : Q () (set_log (s_log s ++ [l]) s) → wp (log l) Q s.
Proof. done. Qed.
End locks.

(** ** Messages *)

(** The block on the wire that carries a text. *)
Definition block_text (text : list ascii) : list ascii :=
  text ++ replicate (Z.to_nat GP_SIZE - length text) NUL.

Lemma block_length text : (length text < 192)%nat → length (block_text text) = 192%nat.
Proof.
  intros Hl. unfold block_text. change (Z.to_nat GP_SIZE) with 192%nat.
  rewrite length_app, length_replicate. lia.
Qed.

Lemma wp_compose text (Q : list ascii → srv → Prop) s :
  (length text < 192)%nat → Q (block_text text) s → wp (compose text) Q s.
Proof.
  intros Hl HQ. unfold compose. rewrite bool_decide_true by (unfold GP_SIZE; lia). by apply wp_ret.
Qed.

(** ** A network that delivers *)
Section delivers.
Context {S : Type} `{!HasConn S}.
Implicit Types s : S.

Lemma wp_receive_chunk buf m rs (Q : Z * list ascii → S → Prop) s :
  length buf = 192%nat → length m = 192%nat → reads (get_conn s) = Chunk m :: rs →
  Q (GP_SIZE, m) (set_conn (Conn rs (writes (get_conn s)) (sent (get_conn s))) s) →
  wp (receive_message buf GP_SIZE) Q s.
Proof.
  intros Hb Hm Hr HQ. apply wp_receive; [unfold GP_SIZE; lia..|].
  change (Z.to_nat GP_SIZE) with 192%nat. rewrite gather_S. unfold conn_read. rewrite Hr.
  rewrite take_ge, drop_ge by lia. rewrite decide_False by lia. unfold GP_SIZE.
  rewrite Hm, bool_decide_true by done. unfold filled. by rewrite Hm, drop_ge, app_nil_r by lia.
Qed.

Lemma wp_receive_none buf (Q : Z * list ascii → S → Prop) s :
  length buf = 192%nat → reads (get_conn s) = [] →
  Q (READ_ERROR, buf) s → wp (receive_message buf GP_SIZE) Q s.
Proof.
  intros Hb Hr HQ. apply wp_receive; [unfold GP_SIZE; lia..|].
  assert (gather 5 (Z.to_nat GP_SIZE) (get_conn s) = ([], get_conn s)) as ->.
  { change (Z.to_nat GP_SIZE) with 192%nat. do 5 (rewrite gather_S; unfold conn_read; rewrite Hr; simpl). done. }
  by rewrite set_get_conn.
Qed.

Lemma wp_send_all m (Q : Z → S → Prop) s :
  length m = 192%nat → writes (get_conn s) = [] →
  Q GP_SIZE (set_conn (Conn (reads (get_conn s)) [] (sent (get_conn s) ++ m)) s) →
  wp (send_message m GP_SIZE) Q s.
Proof.
  intros Hm Hw HQ. unfold GP_SIZE in *. change 192 with (Z.of_nat 192). rewrite <- Hm.
  apply wp_send; rewrite ?Hm; [lia|done|].
  rewrite scatter_S. unfold conn_write. rewrite Hw, Hm, decide_False by lia. done.
Qed.
End delivers.

Lemma wp_send_gp_delivers t p (Q : Z * list ascii → srv → Prop) x :
  (length (gp_text t p) < 192)%nat → writes (s_conn x) = [] →
  Q (GP_SIZE, block_text (gp_text t p))
    (set_s_conn (Conn (reads (s_conn x)) [] (sent (s_conn x) ++ block_text (gp_text t p))) x) →
  wp (send_gp_message t p) Q x.
Proof.
  intros Hl Hw HQ. apply wp_bind, wp_compose; [done|].
  apply wp_bind, wp_send_all; [by apply block_length|done|]. by apply wp_ret.
Qed.

(** The thread is serving a client: nothing is locked, and the client is counted
    since the state [s0]; [w] wins were counted. *)
Record serving (s0 : srv) (w : Z) (s : srv) : Prop := {
  sv_held : s_held s = [];
  sv_now : clients_now_count s = clients_now_count s0 + 1;
  sv_count : clients_count s = clients_count s0 + 1;
  sv_closed : s_closed s = s_closed s0;
  sv_wins : clients_win_count s = clients_win_count s0 + w
}.

(** The thread has ended. *)
Record served (s0 s : srv) : Prop := {
  sd_held : s_held s = [];
  sd_now : clients_now_count s = clients_now_count s0;
  sd_count : clients_count s = clients_count s0 + 1;
  sd_closed : s_closed s = s_closed s0 + 1;
  sd_wins : clients_win_count s0 ≤ clients_win_count s ≤ clients_win_count s0 + 1;
  sd_log : last (s_log s) = Some ClientDisconnected ∨ last (s_log s) = Some ConnectionLost
}.

(** The counters do not overflow when one more client is served. *)
Definition counters_ok (s : srv) : Prop :=
  0 ≤ clients_now_count s < INT_MAX ∧ 0 ≤ clients_count s < INT_MAX ∧
  0 ≤ clients_win_count s < INT_MAX.

(** Leaving through the two error paths of [send_gp_message]. *)
Lemma wp_leave (s0 s : srv) :
  counters_ok s0 → s_held s = [] → clients_now_count s = clients_now_count s0 + 1 →
  clients_count s = clients_count s0 + 1 → s_closed s = s_closed s0 + 1 →
  clients_win_count s0 ≤ clients_win_count s ≤ clients_win_count s0 + 1 →
  last (s_log s) = Some ClientDisconnected ∨ last (s_log s) = Some ConnectionLost →
  wp decrement_clients_now_count (λ _ s', served s0 s') s.
Proof.
  intros (Hn & _ & _) Hh Hnow Hc Hcl Hw Hl. apply wp_decrement_now; [by rewrite Hh; apply not_elem_of_nil|lia|].
  constructor; simpl; try done. lia.
Qed.

Lemma safe_send_gp s0 w t p s :
  counters_ok s0 → serving s0 w s → 0 ≤ w ≤ 1 → (length (gp_text t p) < 192)%nat →
  safe (send_gp_message t p)
    (λ r s', serving s0 w s' ∧ r.2 = block_text (gp_text t p)) (served s0) s.
Proof.
  intros Hok [Hh Hnow Hcnt Hcl Hw] Hw1 Hl.
  apply safe_bind, safe_wp, wp_compose; [done|]. apply safe_bind, safe_wp.
  pose proof (block_length _ Hl) as Hbl. change GP_SIZE with (Z.of_nat 192). rewrite <- Hbl.
  apply wp_send; rewrite ?Hbl; [lia|done|]. destruct (scatter 5 _ _) as [[] c]; simpl send_code.
  - by apply safe_ret.
  - apply safe_bind, safe_wp, wp_lock; [by simpl; rewrite Hh; apply not_elem_of_nil|]. simpl.
    apply safe_bind, safe_wp, wp_log, safe_bind, safe_wp. rewrite Hh.
    eapply wp_unlock; [done|apply not_elem_of_nil|]. simpl.
    apply safe_bind, safe_wp, wp_modify, safe_bind, safe_wp.
    eapply wp_mono; [apply (wp_leave s0); try done; simpl; [lia|lia|right; apply last_snoc]|].
    intros [] s' Hs'. by apply safe_exit.
  - apply safe_bind, safe_wp, wp_lock; [by simpl; rewrite Hh; apply not_elem_of_nil|]. simpl.
    apply safe_bind, safe_wp, wp_log, safe_bind, safe_wp, wp_modify, safe_bind, safe_wp, wp_log.
    apply safe_bind, safe_wp. rewrite Hh. eapply wp_unlock; [done|apply not_elem_of_nil|]. simpl.
    apply safe_bind, safe_wp.
    eapply wp_mono; [apply (wp_leave s0); try done; simpl; [lia|lia|left; apply last_snoc]|].
    intros [] s' Hs'. by apply safe_exit.
Qed.

Lemma serving_log s0 w l s : serving s0 w s → serving s0 w (set_log l s).
Proof. by intros []. Qed.

(** Logging under the log's mutex. *)
Lemma wp_locked_log l s0 w (Q : () → srv → Prop) s :
  serving s0 w s →
  (∀ s', serving s0 w s' → s' = set_log (s_log s ++ [l]) s → Q () s') →
  wp (pthread_mutex_lock log_file_mutex;; log l;; pthread_mutex_unlock log_file_mutex) Q s.
Proof.
  intros [Hh ? ? ? ?] HQ. apply wp_bind, wp_lock; [rewrite Hh; apply not_elem_of_nil|].
  apply wp_bind, wp_log. eapply wp_unlock; simpl; [by rewrite Hh|apply not_elem_of_nil|].
  apply HQ; [by constructor|]. destruct s. simpl in *. by subst.
Qed.

Lemma safe_receive s0 w buf s :
  serving s0 w s → length buf = 192%nat →
  wp (receive_message buf GP_SIZE) (λ r s', serving s0 w s' ∧ length r.2 = 192%nat) s.
Proof.
  intros Hsv Hl. apply wp_receive; [unfold GP_SIZE; lia..|].
  destruct (gather 5 (Z.to_nat GP_SIZE) (get_conn s)) as [b c] eqn:Hg.
  apply gather_stream in Hg as (_ & Hb & _). change (Z.to_nat GP_SIZE) with 192%nat in Hb.
  split; [by destruct Hsv|]. simpl. rewrite filled_length; lia.
Qed.

Lemma safe_await s0 fuel buf s :
  counters_ok s0 → serving s0 0 s → length buf = 192%nat →
  safe (await_guess fuel buf)
    (λ b s', serving s0 0 s' ∧ length b = 192%nat ∧ valid_buffer b) (served s0) s.
Proof.
  intros Hok Hsv Hl. apply safe_iter with (I := λ b s, serving s0 0 s ∧ length b = 192%nat); [|done].
  clear -Hok. intros b s [Hsv Hl].
  apply safe_bind, safe_wp. eapply wp_mono; [by apply safe_receive|].
  intros [r b'] s' [Hsv' Hl']. simpl in Hl'.
  apply safe_bind, safe_wp, wp_is_valid; [left; lia|].
  case_bool_decide as Hv; [by apply safe_ret|].
  apply safe_bind. eapply safe_mono; [apply (safe_send_gp s0 0); [done|done|lia|simpl; lia]|].
  intros [r2 b2] s2 [Hsv2 Hb2]. simpl in Hb2. apply safe_ret. split; [done|].
  rewrite Hb2. apply block_length. simpl. lia.
Qed.

Lemma print_d_length n : (length (print_d n) ≤ 11)%nat.
Proof.
  unfold print_d. pose proof (dec_digits_length 10 n []) as H1.
  pose proof (dec_digits_length 10 (- n) []) as H2. destruct (n <? 0); simpl in *; lia.
Qed.

Lemma feedback_length n p c :
  (length (gp_text GP_GUESS_FBK (Some (feedback_message n p c))) < 192)%nat.
Proof.
  change (gp_text GP_GUESS_FBK (Some (feedback_message n p c)))
    with (GP_GUESS_FBK ++ feedback_message n p c). unfold feedback_message.
  rewrite !length_app. pose proof (print_d_length n). pose proof (print_d_length p).
  pose proof (print_d_length c). simpl. lia.
Qed.

Lemma cstr_colors l rest :
  Forall (λ c, c ∈ SECRET_CODE_COLORS) l → cstr (l ++ NUL :: rest) = l.
Proof.
  intros Hl. apply cstr_app_NUL. intros Hin.
  apply (color_not_NUL NUL); [|done]. rewrite Forall_forall in Hl. by apply Hl.
Qed.

(** A buffer that holds a valid code, split at it. *)
Lemma valid_buffer_split b : valid_buffer b →
  ∃ rest, b = take 4 b ++ NUL :: rest ∧ length (take 4 b) = 4%nat ∧ cstr b = take 4 b.
Proof.
  intros [[Hl Hall] Hn]. change (Z.to_nat SECRET_CODE_LEN) with 4%nat in Hl.
  exists (drop 5 b). assert (Hb : b = take 4 b ++ NUL :: drop 5 b).
  { rewrite <- (take_drop_middle b 4 NUL Hn) at 1. done. }
  split; [done|]. split; [done|]. rewrite Hb at 1. by apply cstr_colors.
Qed.

(** ** Safety of a session *)
Lemma safe_round s0 fuel secret rest n s :
  counters_ok s0 → serving s0 0 s → length secret = 4%nat → 0 ≤ n < 10 →
  safe (guess_round fuel (secret ++ rest) n)
    (λ r s', serving s0 0 s' ∧ r.1 = n + 1 ∧ 0 ≤ r.2 ≤ 4) (served s0) s.
Proof.
  intros Hok Hsv Hsec Hn. apply safe_bind.
  eapply safe_mono; [apply (safe_send_gp s0 0); [done|done|lia|simpl; lia]|].
  intros [r1 b1] s1 [Hsv1 Hb1]. simpl in Hb1. apply safe_bind.
  eapply safe_mono; [apply safe_await; [done|done|rewrite Hb1; apply block_length; simpl; lia]|].
  intros b2 s2 (Hsv2 & Hl2 & Hv2). destruct (valid_buffer_split _ Hv2) as (rst & Hb2 & Hg & _).
  destruct Hsv2 as [Hh ? ? ? ?].
  apply safe_bind, safe_wp, wp_lock; [rewrite Hh; apply not_elem_of_nil|].
  apply safe_bind, safe_wp, wp_log, safe_bind, safe_wp. rewrite Hb2 at 1.
  eapply wp_mono; [by apply (wp_feedback (ra := rest) (rg := NUL :: rst) Hsec Hg)|].
  intros [[x p] c] s3 (-> & [= -> -> ->]).
  pose proof (positions_bounds secret (take 4 b2)) as Hp. rewrite Hsec in Hp.
  apply safe_bind, safe_wp, wp_log, safe_bind, safe_wp.
  eapply wp_unlock; simpl; [by rewrite Hh|apply not_elem_of_nil|].
  apply safe_bind, safe_wp. wp_step. apply safe_bind.
  eapply safe_mono; [apply (safe_send_gp s0 0); [done|by constructor|lia|apply feedback_length]|].
  intros [r4 b4] s4 [Hsv4 _]. apply safe_bind, safe_wp. wp_step. by apply safe_ret.
Qed.

(** The end of the game is logged and announced. *)
Lemma safe_announce s0 w l t s :
  counters_ok s0 → serving s0 w s → 0 ≤ w ≤ 1 → (length (gp_text t None) < 192)%nat →
  safe (pthread_mutex_lock log_file_mutex;;
        log l;;
        pthread_mutex_unlock log_file_mutex;;
        send_gp_message t None) (λ _ s', ∃ w, 0 ≤ w ≤ 1 ∧ serving s0 w s') (served s0) s.
Proof.
  intros Hok [Hh ? ? ? ?] Hw Hl.
  apply safe_bind, safe_wp, wp_lock; [rewrite Hh; apply not_elem_of_nil|].
  apply safe_bind, safe_wp, wp_log, safe_bind, safe_wp.
  eapply wp_unlock; simpl; [by rewrite Hh|apply not_elem_of_nil|].
  eapply safe_mono; [apply (safe_send_gp s0 w); [done|by constructor|done|done]|].
  intros r s' [Hsv _]. by exists w.
Qed.

(** Closing the connection. *)
Lemma wp_goodbye s0 w s :
  counters_ok s0 → serving s0 w s → 0 ≤ w ≤ 1 →
  wp (close;;
      pthread_mutex_lock log_file_mutex;;
      log ClientDisconnected;;
      pthread_mutex_unlock log_file_mutex;;
      decrement_clients_now_count) (λ _ s', served s0 s') s.
Proof.
  intros Hok [Hh ? ? ? ?] Hw. apply wp_bind, wp_modify.
  apply wp_bind, wp_lock; [simpl; rewrite Hh; apply not_elem_of_nil|].
  apply wp_bind, wp_log, wp_bind. eapply wp_unlock; simpl; [by rewrite Hh|apply not_elem_of_nil|].
  apply wp_leave; simpl; try done; [lia|lia|left; apply last_snoc].
Qed.

Lemma safe_routine s rands fuel secret :
  counters_ok s → s_held s = [] → (∀ i, 0 ≤ rands i ≤ INT_MAX) → (4 < length secret)%nat →
  safe (pthread_routine rands fuel secret) (λ _ s', served s s') (served s) s.
Proof.
  intros Hok Hh Hr Hlen. pose proof Hok as (Hn1 & Hn2 & Hn3).
  apply safe_bind, safe_wp, wp_lock; [rewrite Hh; apply not_elem_of_nil|].
  apply safe_bind, safe_wp, wp_log. rewrite Hh.
  apply safe_bind, safe_wp, wp_increment_now; simpl; [set_solver|lia|].
  apply safe_bind, safe_wp, wp_increment_count; simpl; [set_solver|lia|].
  apply safe_bind, safe_wp, wp_is_valid; [by left|]. simpl.
  set (s1 := set_count _ _). apply safe_bind, safe_wp.
  eapply wp_mono with (P := λ b s', s' = s1 ∧ ∃ code rest, b = code ++ NUL :: rest ∧ length code = 4%nat).
  { case_bool_decide as Hv.
    - apply wp_ret. destruct (valid_buffer_split _ Hv) as (rest & Hb & Hl & _). split; [done|]. eauto.
    - apply wp_random; [done..|]. intros code [Hl _]. split; [done|]. eauto. }
  intros b s' (-> & code & rest & -> & Hcode).
  apply safe_bind, safe_wp, wp_log, safe_bind, safe_wp.
  eapply wp_unlock; [done|apply not_elem_of_nil|].
  set (s2 := set_held [] _). assert (Hsv2 : serving s 0 s2) by (constructor; simpl; lia || done).
  do 3 (apply safe_bind; eapply safe_mono;
    [apply (safe_send_gp s 0); [done|done|lia|vm_compute; lia]|];
    clear dependent s2; intros _ s2 [Hsv2 _]).
  apply safe_bind. eapply safe_mono.
  { apply safe_iter with (I := λ '(n, p) s', serving s 0 s' ∧ 0 ≤ n ≤ 10 ∧ 0 ≤ p ≤ 4)
      (Q := λ p s', serving s 0 s' ∧ 0 ≤ p ≤ 4); [|split; [done|lia]].
    intros [n p] s3 (Hsv3 & Hn & Hp). destruct ((n <? MAX_GUESSES_COUNT) && (p <? SECRET_CODE_LEN)) eqn:E.
    - unfold MAX_GUESSES_COUNT in E. apply safe_bind. eapply safe_mono; [apply (safe_round s); [done|done|done|lia]|].
      intros [n' p'] s4 (Hsv4 & Hn' & Hp'). apply safe_ret. simpl in *. split; [done|lia].
    - by apply safe_ret. }
  intros p s3 [Hsv3 Hp]. apply safe_bind.
  eapply safe_mono with (P := λ _ s', ∃ w, 0 ≤ w ≤ 1 ∧ serving s w s').
  { destruct (p =? SECRET_CODE_LEN).
    - apply safe_bind, safe_wp, wp_increment_wins.
      { rewrite (sv_held _ _ _ Hsv3). apply not_elem_of_nil. }
      { rewrite (sv_wins _ _ _ Hsv3). lia. }
      assert (Hsv4 : serving s 1 (set_wins (clients_win_count s3 + 1) s3)).
      { destruct Hsv3. constructor; simpl; lia || done. }
      apply safe_announce with (w := 1); [done|exact Hsv4|lia|vm_compute; lia].
    - apply safe_announce with (w := 0); [done|exact Hsv3|lia|vm_compute; lia]. }
  intros r s4 (w & Hw & Hsv4). apply safe_wp. by eapply wp_goodbye.
Qed.

(** ** A game with a client that keeps to the protocol *)

(** The first message that holds a valid guess, with those before and after it. *)
Fixpoint first_valid (ms : list (list ascii)) : option (list (list ascii) * list ascii * list (list ascii)) :=
  match ms with
  | [] => None
  | m :: ms' =>
      if bool_decide (valid_buffer m) then Some ([], m, ms')
      else match first_valid ms' with
           | Some (bad, g, rest) => Some (m :: bad, g, rest)
           | None => None
           end
  end.

(** What a game consists of: the log lines, the texts sent, whether it was won
    and the messages not read.  [n] guesses are left, the next one is number
    [k].  [None] when the messages run out first. *)
Fixpoint game (n : nat) (k : Z) (secret : list ascii) (ms : list (list ascii)) :
    option (list log_line * list (list ascii) * bool * list (list ascii)) :=
  match n with
  | O => Some ([], [], false, ms)
  | S n' =>
      match first_valid ms with
      | None => None
      | Some (bad, m, rest) =>
          let g := take 4 m in
          let p := positions secret g in
          let c := shared secret g - p in
          let lines := [ClientGuess g; ServerHint p c] in
          let texts := [GP_GUESS_REQ] ++ ((λ _, GP_GUESS_INV) <$> bad) ++
                       [GP_GUESS_FBK ++ feedback_message k p c] in
          if p =? 4 then Some (lines, texts, true, rest)
          else match game n' (k + 1) secret rest with
               | Some (lines', texts', won, rest') =>
                   Some (lines ++ lines', texts ++ texts', won, rest')
               | None => None
               end
      end
  end.

(** The conversation: the blocks that carry the texts. *)
Definition blocks (texts : list (list ascii)) : list ascii := concat (block_text <$> texts).

(** The state of the thread in a game that began in [s0]: the messages [ms] are
    still to come, [texts] were sent and [lines] logged. *)
Definition playing (s0 : srv) (ms texts : list (list ascii)) (lines : list log_line) (w : Z) : srv :=
  Srv (Conn (Chunk <$> ms) [] (sent (s_conn s0) ++ blocks texts)) (s_closed s0)
    (s_log s0 ++ lines) (clients_now_count s0 + 1) (clients_count s0 + 1)
    (clients_win_count s0 + w) [].

Lemma blocks_app t1 t2 : blocks (t1 ++ t2) = blocks t1 ++ blocks t2.
Proof. unfold blocks. by rewrite fmap_app, concat_app. Qed.

Lemma wp_send_gp_ok s0 ms texts lines w t p (Q : Z * list ascii → srv → Prop) :
  (length (gp_text t p) < 192)%nat →
  Q (GP_SIZE, block_text (gp_text t p)) (playing s0 ms (texts ++ [gp_text t p]) lines w) →
  wp (send_gp_message t p) Q (playing s0 ms texts lines w).
Proof.
  intros Hl HQ. apply wp_send_gp_delivers; [done|done|].
  unfold playing, set_s_conn, blocks in *. simpl in *.
  rewrite fmap_app, concat_app in HQ. simpl in HQ. rewrite app_nil_r, app_assoc in HQ. done.
Qed.

Lemma wp_receive_ok s0 m ms texts lines w buf (Q : Z * list ascii → srv → Prop) :
  length buf = 192%nat → length m = 192%nat →
  Q (GP_SIZE, m) (playing s0 ms texts lines w) →
  wp (receive_message buf GP_SIZE) Q (playing s0 (m :: ms) texts lines w).
Proof.
  intros Hb Hm HQ. by eapply (wp_receive_chunk buf m).
Qed.

Lemma wp_await_ok s0 fuel ms bad m rest texts lines w buf (Q : list ascii → srv → Prop) :
  first_valid ms = Some (bad, m, rest) → Forall (λ m, length m = 192%nat) ms →
  (length bad < fuel)%nat → length buf = 192%nat →
  Q m (playing s0 rest (texts ++ ((λ _, GP_GUESS_INV) <$> bad)) lines w) →
  wp (await_guess fuel buf) Q (playing s0 ms texts lines w).
Proof.
  revert fuel buf texts bad. induction ms as [|x ms IH]; intros [|fuel] buf texts bad Hfv Hall Hf Hb HQ;
    [done|done|lia|]. apply Forall_cons in Hall as [Hx Hall].
  apply wp_bind, wp_bind. apply wp_receive_ok; [done..|].
  apply wp_bind, wp_is_valid; [left; lia|]. simpl in Hfv. case_bool_decide as Hv.
  - injection Hfv as <- <- <-. apply wp_ret, wp_ret. by rewrite app_nil_r in HQ.
  - destruct (first_valid ms) as [[[bad' m'] rest']|]; [|done]. injection Hfv as <- <- <-.
    apply wp_bind, wp_send_gp_ok; [simpl; lia|]. apply wp_ret.
    eapply IH; [done|done|simpl in Hf; lia|apply block_length; simpl; lia|].
    rewrite <- app_assoc. exact HQ.
Qed.

Lemma first_valid_Some ms bad m rest :
  first_valid ms = Some (bad, m, rest) → ms = bad ++ m :: rest ∧ valid_buffer m.
Proof.
  revert bad. induction ms as [|x ms IH]; intros bad; simpl; [done|].
  case_bool_decide as Hv; [by intros [= <- <- <-]|].
  destruct (first_valid ms) as [[[bad' m'] rest']|]; [|done]. intros [= <- <- <-].
  destruct (IH _ eq_refl) as [-> ?]. done.
Qed.

Lemma wp_round_ok s0 fuel secret tail k ms bad m rest texts lines (Q : Z * Z → srv → Prop) :
  length secret = 4%nat → first_valid ms = Some (bad, m, rest) →
  Forall (λ m, length m = 192%nat) ms → (length ms < fuel)%nat → 0 ≤ k < 10 →
  (let p := positions secret (take 4 m) in
   let c := shared secret (take 4 m) - p in
   Q (k + 1, p) (playing s0 rest
     (texts ++ [GP_GUESS_REQ] ++ ((λ _, GP_GUESS_INV) <$> bad) ++
        [GP_GUESS_FBK ++ feedback_message (k + 1) p c])
     (lines ++ [ClientGuess (take 4 m); ServerHint p c]) 0)) →
  wp (guess_round fuel (secret ++ tail) k) Q (playing s0 ms texts lines 0).
Proof.
  intros Hsec Hfv Hall Hf Hk HQ. destruct (first_valid_Some _ _ _ _ Hfv) as [Hms Hv].
  destruct (valid_buffer_split _ Hv) as (rst & Hm & Hg & Hcs).
  apply wp_bind, wp_send_gp_ok; [simpl; lia|]. apply wp_bind.
  eapply wp_await_ok; [exact Hfv|exact Hall| |apply block_length; simpl; lia|].
  { subst ms. rewrite length_app in Hf. simpl in Hf. lia. }
  apply wp_bind, wp_lock; [apply not_elem_of_nil|]. apply wp_bind, wp_log, wp_bind.
  rewrite Hcs. rewrite Hm at 1.
  eapply wp_mono; [by apply (wp_feedback (ra := tail) (rg := NUL :: rst) Hsec Hg)|].
  intros [[x p] c] s3 (-> & [= -> -> ->]).
  apply wp_bind, wp_log, wp_bind. eapply (wp_unlock _ []); [done|apply not_elem_of_nil|].
  apply wp_bind. wp_step. apply wp_bind.
  set (s4 := set_held [] _).
  assert (s4 = playing s0 rest (texts ++ [GP_GUESS_REQ] ++ ((λ _, GP_GUESS_INV) <$> bad))
    (lines ++ [ClientGuess (take 4 m); ServerHint (positions secret (take 4 m))
       (shared secret (take 4 m) - positions secret (take 4 m))]) 0) as ->.
  { unfold s4, playing, set_held, set_log. simpl. by rewrite <- !app_assoc. }
  apply wp_send_gp_ok; [apply feedback_length|]. apply wp_bind. wp_step. apply wp_ret.
  rewrite <- !app_assoc. exact HQ.
Qed.

(** The whole game: the loop of [pthread_routine]. *)
Lemma wp_game_ok s0 fuel secret tail n k ms texts lines glines gtexts won rest (Q : Z → srv → Prop) :
  length secret = 4%nat → game n (k + 1) secret ms = Some (glines, gtexts, won, rest) →
  Forall (λ m, length m = 192%nat) ms → (length ms < fuel)%nat → 0 ≤ k → k + Z.of_nat n = 10 →
  (∀ p, (if won then p = 4 else p < 4) →
     Q p (playing s0 rest (texts ++ gtexts) (lines ++ glines) 0)) →
  ∀ p0, p0 < 4 →
  wp (iter (S n) (λ '(guesses_count, correct_positions_count),
        if (guesses_count <? MAX_GUESSES_COUNT) && (correct_positions_count <? SECRET_CODE_LEN) then
          r ← guess_round fuel (secret ++ tail) guesses_count;
          mret (inl r)
        else mret (inr correct_positions_count)) (k, p0)) Q (playing s0 ms texts lines 0).
Proof.
  intros Hsec. revert k ms texts lines glines gtexts won rest.
  induction n as [|n IH]; intros k ms texts lines glines gtexts won rest Hgame Hall Hf Hk0 Hk HQ p0 Hp0.
  { injection Hgame as <- <- <- <-. apply wp_bind.
    rewrite (proj2 (Z.ltb_ge k MAX_GUESSES_COUNT)) by (unfold MAX_GUESSES_COUNT; lia).
    apply wp_ret, wp_ret. rewrite <- (app_nil_r texts), <- (app_nil_r lines). by apply (HQ p0). }
  cbn [game] in Hgame. destruct (first_valid ms) as [[[bad m] rest1]|] eqn:Hfv; [|done].
  destruct (first_valid_Some _ _ _ _ Hfv) as [Hms Hv].
  assert (Hall1 : Forall (λ m, length m = 192%nat) rest1).
  { subst ms. rewrite Forall_app, Forall_cons in Hall. tauto. }
  assert (Hf1 : (length rest1 < fuel)%nat).
  { subst ms. rewrite length_app in Hf. simpl in Hf. lia. }
  pose proof (positions_bounds secret (take 4 m)) as Hpb. rewrite Hsec in Hpb.
  apply wp_bind. unfold SECRET_CODE_LEN at 1.
  rewrite (proj2 (Z.ltb_lt k MAX_GUESSES_COUNT)), (proj2 (Z.ltb_lt p0 4))
    by (unfold MAX_GUESSES_COUNT; lia). simpl andb. cbn iota.
  apply wp_bind. eapply wp_round_ok; [done|done|done|done|lia|]. apply wp_ret. cbn iota.
  destruct (Z.eqb_spec (positions secret (take 4 m)) 4) as [E|E].
  - injection Hgame as <- <- <- <-.
    destruct n; (apply wp_bind; unfold SECRET_CODE_LEN at 1; rewrite E; simpl Z.ltb at 2;
      rewrite andb_false_r; apply wp_ret, wp_ret; rewrite E in HQ; by apply (HQ 4)).
  - destruct (game n (k + 1 + 1) secret rest1) as [[[[gl gt] w] r]|] eqn:Hg; [|done].
    injection Hgame as <- <- <- <-.
    apply (IH _ _ _ _ _ _ _ _ Hg); [done|done|lia|lia| |lia].
    intros p Hp. rewrite <- !app_assoc in HQ. rewrite <- !app_assoc. by apply (HQ p).
Qed.

(** The texts and the log of a whole session. *)
Definition session_texts (texts : list (list ascii)) (won : bool) : list (list ascii) :=
  [GP_DISP_MSG ++ WELCOME_MESSAGE; GP_DISP_MSG ++ INSTRUCTIONS_1_MESSAGE;
   GP_DISP_MSG ++ INSTRUCTIONS_2_MESSAGE] ++ texts ++ [if won then GP_GAME_SUCC else GP_GAME_FAIL].
Definition session_log (secret : list ascii) (lines : list log_line) (won : bool) : list log_line :=
  [ClientConnected; ServerSecret secret] ++ lines ++
  [if won then GameSuccess else GameFailure; ClientDisconnected].

Lemma valid_code_buffer secret rest : valid_code secret → valid_buffer (secret ++ NUL :: rest).
Proof.
  intros [Hl Hall]. change (Z.to_nat SECRET_CODE_LEN) with 4%nat in Hl. unfold valid_buffer.
  rewrite <- Hl at 1 2. rewrite take_app_length, lookup_app_r, Nat.sub_diag by lia. by split; [split|].
Qed.

Lemma wp_announce_ok s0 ms texts lines w l t (Q : Z * list ascii → srv → Prop) :
  (length t < 192)%nat →
  Q (GP_SIZE, block_text t) (playing s0 ms (texts ++ [t]) (lines ++ [l]) w) →
  wp (pthread_mutex_lock log_file_mutex;;
      log l;;
      pthread_mutex_unlock log_file_mutex;;
      send_gp_message t None) Q (playing s0 ms texts lines w).
Proof.
  intros Hl HQ. apply wp_bind, wp_lock; [apply not_elem_of_nil|]. apply wp_bind, wp_log, wp_bind.
  eapply (wp_unlock _ []); [done|apply not_elem_of_nil|].
  change (wp (send_gp_message t None) Q
    (Srv (Conn (Chunk <$> ms) [] (sent (s_conn s0) ++ blocks texts)) (s_closed s0)
      ((s_log s0 ++ lines) ++ [l]) (clients_now_count s0 + 1) (clients_count s0 + 1)
      (clients_win_count s0 + w) [])).
  rewrite <- app_assoc. by apply (wp_send_gp_ok s0 ms texts (lines ++ [l]) w t None).
Qed.

Lemma wp_goodbye_ok s0 ms texts lines w (Q : () → srv → Prop) :
  0 ≤ clients_now_count s0 < INT_MAX →
  Q () (Srv (Conn (Chunk <$> ms) [] (sent (s_conn s0) ++ blocks texts)) (s_closed s0 + 1)
         (s_log s0 ++ lines ++ [ClientDisconnected]) (clients_now_count s0) (clients_count s0 + 1)
         (clients_win_count s0 + w) []) →
  wp (close;;
      pthread_mutex_lock log_file_mutex;;
      log ClientDisconnected;;
      pthread_mutex_unlock log_file_mutex;;
      decrement_clients_now_count) Q (playing s0 ms texts lines w).
Proof.
  intros Hn HQ. apply wp_bind, wp_modify.
  apply wp_bind, wp_lock; [apply not_elem_of_nil|]. apply wp_bind, wp_log, wp_bind.
  eapply (wp_unlock _ []); [done|apply not_elem_of_nil|].
  apply wp_decrement_now; [apply not_elem_of_nil|simpl; lia|].
  unfold playing, set_now, set_held, set_log, set_closed. simpl.
  rewrite <- app_assoc. by replace (clients_now_count s0 + 1 - 1) with (clients_now_count s0) by lia.
Qed.

Lemma wp_routine_ok s0 rands fuel secret tail ms lines texts won rest :
  counters_ok s0 → s_held s0 = [] → reads (s_conn s0) = Chunk <$> ms → writes (s_conn s0) = [] →
  Forall (λ m, length m = 192%nat) ms → (length ms < fuel)%nat → valid_code secret →
  game 10 1 secret ms = Some (lines, texts, won, rest) →
  wp (pthread_routine rands fuel (secret ++ NUL :: tail))
    (λ _ s', s' = Srv (Conn (Chunk <$> rest) [] (sent (s_conn s0) ++ blocks (session_texts texts won)))
       (s_closed s0 + 1) (s_log s0 ++ session_log secret lines won)
       (clients_now_count s0) (clients_count s0 + 1)
       (clients_win_count s0 + (if won then 1 else 0)) []) s0.
Proof.
  intros (Hn1 & Hn2 & Hn3) Hh Hreads Hwrites Hall Hf Hsec Hgame.
  apply wp_bind, wp_lock; [rewrite Hh; apply not_elem_of_nil|].
  apply wp_bind, wp_log. rewrite Hh.
  apply wp_bind, wp_increment_now; simpl; [set_solver|lia|].
  apply wp_bind, wp_increment_count; simpl; [set_solver|lia|].
  apply wp_bind, wp_is_valid; [right; set_solver|].
  rewrite bool_decide_true by (by apply valid_code_buffer). apply wp_bind, wp_ret.
  rewrite cstr_colors by apply Hsec.
  apply wp_bind, wp_log, wp_bind. eapply (wp_unlock _ []); [done|apply not_elem_of_nil|].
  set (s1 := set_held [] _).
  assert (s1 = playing s0 ms [] [ClientConnected; ServerSecret secret] 0) as ->.
  { unfold s1, playing, blocks, set_held, set_log, set_count, set_now. simpl.
    rewrite app_nil_r, <- app_assoc, Z.add_0_r, <- Hreads, <- Hwrites. by destruct (s_conn s0). }
  do 3 (apply wp_bind, wp_send_gp_ok; [vm_compute; lia|]). simpl app at 1.
  apply wp_bind. destruct Hsec as [Hlen Hcol]. change (Z.to_nat SECRET_CODE_LEN) with 4%nat in Hlen.
  change (Z.to_nat MAX_GUESSES_COUNT + 1)%nat with 11%nat.
  eapply (wp_game_ok s0 fuel secret (NUL :: tail) 10 0); [done|exact Hgame|done|done|lia|lia| |lia].
  intros p Hp.
  apply wp_bind. destruct won.
  - subst p. simpl. apply wp_bind, wp_increment_wins; [apply not_elem_of_nil|simpl; lia|].
    replace (set_wins _ _) with (playing s0 rest ([GP_DISP_MSG ++ WELCOME_MESSAGE;
      GP_DISP_MSG ++ INSTRUCTIONS_1_MESSAGE; GP_DISP_MSG ++ INSTRUCTIONS_2_MESSAGE] ++ texts)
      ([ClientConnected; ServerSecret secret] ++ lines) 1)
      by (unfold playing, set_wins; simpl; f_equal; lia).
    apply wp_announce_ok; [vm_compute; lia|]. apply wp_goodbye_ok; [lia|].
    unfold session_texts, session_log. by rewrite <- !app_assoc.
  - unfold SECRET_CODE_LEN. rewrite (proj2 (Z.eqb_neq p 4)) by lia.
    apply wp_announce_ok; [vm_compute; lia|]. apply wp_goodbye_ok; [lia|].
    unfold session_texts, session_log. by rewrite <- !app_assoc.
Qed.

(** ** A client that stops sending but still receives

    The result of [receive_message] is ignored, so the end of the stream is
    taken for an invalid guess, for ever. *)
Lemma wp_receive_eof s0 texts lines w buf (Q : Z * list ascii → srv → Prop) :
  length buf = 192%nat → Q (READ_ERROR, buf) (playing s0 [] texts lines w) →
  wp (receive_message buf GP_SIZE) Q (playing s0 [] texts lines w).
Proof. intros Hb HQ. by apply wp_receive_none. Qed.

Lemma await_spins s0 fuel texts lines w buf :
  length buf = 192%nat → ¬ valid_buffer buf →
  await_guess fuel buf (playing s0 [] texts lines w) = NoFuel.
Proof.
  revert texts buf. induction fuel as [|fuel IH]; intros texts buf Hb Hv; [done|].
  apply nofuel_bind, wp_bind, wp_receive_eof; [done|].
  apply wp_bind, wp_is_valid; [left; lia|]. rewrite bool_decide_false by done.
  apply wp_bind, wp_send_gp_ok; [simpl; lia|]. apply wp_ret.
  apply (IH (texts ++ [GP_GUESS_INV])); [apply block_length; simpl; lia|].
  by apply (bool_decide_eq_false (valid_buffer _)).
Qed.

Lemma routine_spins s0 rands fuel secret tail :
  counters_ok s0 → s_held s0 = [] → reads (s_conn s0) = [] → writes (s_conn s0) = [] →
  valid_code secret → pthread_routine rands fuel (secret ++ NUL :: tail) s0 = NoFuel.
Proof.
  intros (Hn1 & Hn2 & Hn3) Hh Hreads Hwrites Hsec.
  apply nofuel_bind, wp_lock; [rewrite Hh; apply not_elem_of_nil|].
  apply nofuel_bind, wp_log. rewrite Hh.
  apply nofuel_bind, wp_increment_now; simpl; [set_solver|lia|].
  apply nofuel_bind, wp_increment_count; simpl; [set_solver|lia|].
  apply nofuel_bind, wp_is_valid; [right; set_solver|].
  rewrite bool_decide_true by (by apply valid_code_buffer). apply nofuel_bind, wp_ret.
  rewrite cstr_colors by apply Hsec.
  apply nofuel_bind, wp_log, nofuel_bind. eapply (wp_unlock _ []); [done|apply not_elem_of_nil|].
  set (s1 := set_held [] _).
  assert (s1 = playing s0 [] [] [ClientConnected; ServerSecret secret] 0) as ->.
  { unfold s1, playing, blocks, set_held, set_log, set_count, set_now. simpl.
    rewrite app_nil_r, <- app_assoc, Z.add_0_r, <- Hreads, <- Hwrites. by destruct (s_conn s0). }
  do 3 (apply nofuel_bind, wp_send_gp_ok; [vm_compute; lia|]).
  apply run_bind_nofuel. apply run_bind_nofuel. apply run_bind_nofuel.
  apply nofuel_bind, wp_send_gp_ok; [simpl; lia|]. apply run_bind_nofuel.
  apply await_spins; [apply block_length; simpl; lia|].
  by apply (bool_decide_eq_false (valid_buffer _)).
Qed.
