(* ===== verification/Client.v ===== *)
(** * Client: the player's program (client.c)

    The client connects, and then acts on the header of every block the server
    sends: it prints, asks the user for a guess, or ends.  The state is the
    connection, the standard input not yet read, and what was printed.  What the
    operating system answers while the connection is set up is an argument. *)
From Stdlib Require Import Ascii String.
From stdpp Require Import prelude strings.
From S2P Require Import Prelude CMonad CString Messages Server.

Record cli := Cli {
  c_conn : conn;
  c_stdin : list ascii;
  c_stdout : list ascii;
  c_stderr : list ascii;
  c_closed : Z
}.

Definition set_c_conn c s := Cli c (c_stdin s) (c_stdout s) (c_stderr s) (c_closed s).
Definition set_stdin i s := Cli (c_conn s) i (c_stdout s) (c_stderr s) (c_closed s).
Definition add_stdout o s := Cli (c_conn s) (c_stdin s) (c_stdout s ++ o) (c_stderr s) (c_closed s).
Definition add_stderr o s := Cli (c_conn s) (c_stdin s) (c_stdout s) (c_stderr s ++ o) (c_closed s).
Definition add_closed s := Cli (c_conn s) (c_stdin s) (c_stdout s) (c_stderr s) (c_closed s + 1).

#[export] Program Instance cli_has_conn : HasConn cli :=
  {| get_conn := c_conn; set_conn := set_c_conn |}.
Solve All Obligations with record_cases.

(** What the system calls of the set-up return: [gethostbyname] finds the address
    of a name or returns NULL; [socket] and [connect] return [-1] on an error.
    [connect] is given the address and the 16 bits of the port number. *)
Record client_os := ClientOs {
  gethostbyname : list ascii → option (list ascii);
  os_socket : Z;
  os_connect : list ascii → Z → Z
}.

(** ** Library calls *)
Definition printf (text : list ascii) : C cli () := modify (add_stdout text).
Definition eprintf (text : list ascii) : C cli () := modify (add_stderr text).

(** [printf("%s", p)]: undefined when the array at [p] holds no NUL. *)
Definition printf_s (p : list ascii) : C cli () :=
  if bool_decide (NUL ∈ p) then printf (cstr p) else ub.

Definition CR : ascii := chr 13.

(** [strcspn(buf, "\r\n")]: the index of the first carriage return, newline or
    NUL; none of them in the array is undefined behaviour. *)
Fixpoint strcspn (buf : list ascii) : option nat :=
  match buf with
  | [] => None
  | c :: buf' =>
      if bool_decide (c = CR) || bool_decide (c = NEWLINE) || bool_decide (c = NUL) then Some O
      else S <$> strcspn buf'
  end.

(** [fgets(buffer, GP_SIZE, stdin)], its result ignored: at end of file the
    buffer keeps its contents. *)
Definition fgets_stdin (buffer : list ascii) : C cli (list ascii) :=
  input ← get c_stdin;
  match fgets (Z.to_nat GP_SIZE) input with
  | None => mret buffer
  | Some (line, rest) =>
      modify (set_stdin rest);;
      if bool_decide (Z.of_nat (length line) < Z.of_nat (length buffer))
      then mret (line ++ NUL :: drop (length line + 1) buffer) else ub
  end.

(** [buffer[strcspn(buffer, "\r\n")] = 0]. *)
Definition chomp (buffer : list ascii) : C cli (list ascii) :=
  match strcspn buffer with
  | Some i => mret (<[i := NUL]> buffer)
  | None => ub
  end.

Definition client_close : C cli () := modify add_closed.

(** ** The loop *)

(** A guess is read from the user and sent. *)
Definition submit_guess (prompt buffer : list ascii) : C cli (list ascii) :=
  printf prompt;;
  buffer ← fgets_stdin buffer;
  buffer ← chomp buffer;
  send_message buffer GP_SIZE;;
  mret buffer.

Definition PROMPT : list ascii := chars "> ".
Definition INVALID_PROMPT : list ascii := chars "Invalid guess." ++ [NEWLINE] ++ chars "> ".
Definition WIN_TEXT : list ascii := chars "You win! =)" ++ [NEWLINE].
Definition LOSE_TEXT : list ascii := chars "You lose. Better luck next time." ++ [NEWLINE].
Definition FULL_TEXT : list ascii := chars "Server is full. Try connecting later." ++ [NEWLINE].

Definition header_is (buffer header : list ascii) : bool :=
  strncmp_eq (Z.to_nat GP_HEADER_SIZE) buffer header.

(** What is done for one block: the new [is_end_game]. *)
Definition dispatch (buffer : list ascii) : C cli bool :=
  if header_is buffer GP_DISP_MSG then
    printf_s (drop (Z.to_nat GP_HEADER_SIZE) buffer);; mret false
  else if header_is buffer GP_GUESS_REQ then
    submit_guess PROMPT buffer;; mret false
  else if header_is buffer GP_GUESS_INV then
    submit_guess INVALID_PROMPT buffer;; mret false
  else if header_is buffer GP_GUESS_FBK then
    printf_s (drop (Z.to_nat GP_HEADER_SIZE) buffer);; mret false
  else if header_is buffer GP_GAME_SUCC then printf WIN_TEXT;; mret true
  else if header_is buffer GP_GAME_FAIL then printf LOSE_TEXT;; mret true
  else if header_is buffer GP_SERV_FULL then printf FULL_TEXT;; mret true
  else mret false.

(** One round of [while (!is_end_game)]; the buffer is cleared at its end. *)
Definition client_round (l : bool * list ascii) : C cli ((bool * list ascii) + ()) :=
  let '(is_end_game, buffer) := l in
  if (is_end_game : bool) then mret (inr ())
  else
    '(_, buffer) ← receive_message buffer GP_SIZE;
    is_end_game ← dispatch buffer;
    mret (inl (is_end_game, replicate (Z.to_nat GP_SIZE) NUL)).

(** [fuel] bounds the rounds. *)
Definition client_loop (fuel : nat) : C cli () :=
  iter fuel client_round (false, replicate (Z.to_nat GP_SIZE) NUL).

(** [htons] of an [int] keeps 16 bits. *)
Definition htons (port : Z) : Z := port `mod` 65536.

Definition client_main (os : client_os) (fuel : nat) (argv : list (list ascii)) : C cli Z :=
  match argv with
  | _ :: host :: port :: _ =>
      match gethostbyname os host with
      | None => eprintf (chars "No such host" ++ [NEWLINE]);; exit 1
      | Some address =>
          server_port ← atoi port;
          if os_socket os =? -1 then eprintf (chars "socket");; exit 1
          else if os_connect os address (htons server_port) =? -1
               then eprintf (chars "connect");; exit 1
          else
            client_loop fuel;;
            client_close;;
            mret 0
      end
  | _ =>
      eprintf (chars "Unspecified hostname/IP address or port number" ++ [NEWLINE]);; exit 1
  end.
