(* ===== verification/ClientRefine.v ===== *)
(** * ClientRefine: the client in a game

    What the client does with each text of the server, and that the client and
    the server fit: on the blocks the server sends for the user's guesses the
    client sends the messages to which the server's blocks are the answer. *)
From Stdlib Require Import Ascii String.
From stdpp Require Import prelude strings.
From S2P Require Import Prelude CMonad CString SecretCode SecretCodeRefine Messages.
From S2P Require Import Server ServerRefine Client.

(** ** The reaction to a text *)
Inductive reaction :=
  | Shows (text : list ascii)     (* the text is printed *)
  | Asks (prompt : list ascii)    (* the user is asked for a guess *)
  | Ends (text : list ascii)      (* the text is printed and the client ends *)
  | Ignores.

Definition react (text : list ascii) : reaction :=
  let header := take 7 text in
  if bool_decide (header = GP_DISP_MSG) then Shows (drop 7 text)
  else if bool_decide (header = GP_GUESS_REQ) then Asks PROMPT
  else if bool_decide (header = GP_GUESS_INV) then Asks INVALID_PROMPT
  else if bool_decide (header = GP_GUESS_FBK) then Shows (drop 7 text)
  else if bool_decide (header = GP_GAME_SUCC) then Ends WIN_TEXT
  else if bool_decide (header = GP_GAME_FAIL) then Ends LOSE_TEXT
  else if bool_decide (header = GP_SERV_FULL) then Ends FULL_TEXT
  else Ignores.

Definition printed (text : list ascii) : list ascii :=
  match react text with Shows t | Asks t | Ends t => t | Ignores => [] end.
Definition asks (text : list ascii) : bool :=
  match react text with Asks _ => true | _ => false end.
Definition ends (text : list ascii) : bool :=
  match react text with Ends _ => true | _ => false end.
Definition prompts (texts : list (list ascii)) : list (list ascii) := filter (λ t, asks t = true) texts.

Lemma prompts_cons t ts :
  prompts (t :: ts) = match react t with Asks _ => t :: prompts ts | _ => prompts ts end.
Proof.
  unfold prompts, asks. rewrite filter_cons. by destruct (react t).
Qed.

(** A text that fits in a block. *)
Definition fits (text : list ascii) : Prop := (7 ≤ length text < 192)%nat ∧ NUL ∉ text.

(** A line the user can type: it fits in the buffer with its newline. *)
Definition typeable (line : list ascii) : Prop :=
  (length line ≤ 190)%nat ∧ NUL ∉ line ∧ CR ∉ line ∧ NEWLINE ∉ line.

(** The block that answers a prompt with a line: behind the line and the two NULs
    that replace its end, the rest of the server's block is still there. *)
Definition reply (prompt line : list ascii) : list ascii :=
  line ++ NUL :: NUL :: drop (length line + 2) (block_text prompt).

Lemma header_block text h :
  fits text → length h = 7%nat → NUL ∉ h →
  header_is (block_text text) h = bool_decide (take 7 text = h).
Proof.
  intros [[Hl _] Hn] Hh Hnh. unfold block_text. generalize (replicate (Z.to_nat GP_SIZE - length text) NUL).
  intros z. change (header_is (text ++ z) h) with (strncmp_eq 7 (text ++ z) h).
  clear -Hl Hh Hnh. revert text h Hl Hh Hnh. generalize 7%nat as n.
  induction n as [|n IH]; intros text h Hl Hh Hnh.
  { destruct h; [|done]. rewrite take_0. by rewrite bool_decide_true. }
  destruct text as [|x text], h as [|y h]; simpl in *; [lia..|].
  apply not_elem_of_cons in Hnh as [Hy Hnh]. destruct (decide (x = y)) as [->|Hne].
  - rewrite (bool_decide_true (y = y)) by done. rewrite (bool_decide_false (y = NUL)) by (by intros ->). simpl.
    rewrite IH by (lia || done). apply bool_decide_ext. split; congruence.
  - rewrite (bool_decide_false (x = y)) by done. simpl. symmetry. apply bool_decide_false. congruence.
Qed.

Lemma block_drop text : fits text →
  NUL ∈ drop 7 (block_text text) ∧ cstr (drop 7 (block_text text)) = drop 7 text.
Proof.
  intros [Hl Hn]. unfold block_text. change (Z.to_nat GP_SIZE) with 192%nat.
  rewrite drop_app_le by lia. replace (192 - length text)%nat with (S (191 - length text)) by lia.
  cbn [replicate]. split; [by apply elem_of_app; right; left|].
  apply cstr_app_NUL. intros Hin. apply Hn. rewrite <- (take_drop 7 text). by apply elem_of_app; right.
Qed.

(** ** The user's answer *)
Lemma strcspn_line line rest :
  CR ∉ line → NEWLINE ∉ line → NUL ∉ line → strcspn (line ++ NEWLINE :: rest) = Some (length line).
Proof.
  induction line as [|c line IH]; intros H1 H2 H3; [done|].
  apply not_elem_of_cons in H1 as [? ?], H2 as [? ?], H3 as [? ?]. cbn [strcspn app].
  rewrite !bool_decide_false by (by intros ->). simpl. by rewrite IH.
Qed.

Lemma reply_length p line : (length p < 192)%nat → (length line ≤ 190)%nat → length (reply p line) = 192%nat.
Proof.
  intros Hp Hl. unfold reply. rewrite length_app. cbn [length]. rewrite length_drop, block_length by done. lia.
Qed.

(** The state of the client: the blocks to come, the lines to come, what was sent
    and what was printed. *)
Definition client_at (s0 : cli) (rs : list read_event) (lines : list (list ascii))
    (sent_bytes out : list ascii) : cli :=
  Cli (Conn rs [] (sent (c_conn s0) ++ sent_bytes)) (unlines lines ++ c_stdin s0)
    (c_stdout s0 ++ out) (c_stderr s0) (c_closed s0).

Lemma wp_submit s0 rs line lines bytes out prompt text (Q : list ascii → cli → Prop) :
  fits text → typeable line →
  Q (reply text line) (client_at s0 rs lines (bytes ++ reply text line) (out ++ prompt)) →
  wp (submit_guess prompt (block_text text)) Q (client_at s0 rs (line :: lines) bytes out).
Proof.
  intros [[_ Hlt] _] (Hll & Hn & Hcr & Hnl) HQ. apply wp_bind, wp_modify, wp_bind.
  pose proof (block_length text Hlt) as Hbl.
  apply wp_bind, wp_get. cbn [c_stdin add_stdout client_at unlines concat fmap list_fmap].
  unfold unlines. cbn [fmap list_fmap concat]. rewrite <- app_assoc.
  assert (fgets (Z.to_nat GP_SIZE) ((line ++ [NEWLINE]) ++ concat ((λ l, l ++ [NEWLINE]) <$> lines) ++ c_stdin s0)
    = Some (line ++ [NEWLINE], unlines lines ++ c_stdin s0)) as ->.
  { unfold fgets. rewrite <- app_assoc. cbn [app]. change (Nat.pred (Z.to_nat GP_SIZE)) with 191%nat.
    rewrite (take_line_newline 191 line) by (done || lia). by destruct line. }
  apply wp_bind, wp_modify. rewrite Hbl, length_app, bool_decide_true by (simpl; lia).
  apply wp_ret, wp_bind. unfold chomp. rewrite <- app_assoc. cbn [app length].
  rewrite strcspn_line by done. apply wp_ret.
  rewrite insert_app_r_alt, Nat.sub_diag by done. cbn [insert list_insert].
  replace (length line + 1 + 1)%nat with (length line + 2)%nat by lia.
  change (line ++ NUL :: NUL :: drop (length line + 2) (block_text text)) with (reply text line).
  apply wp_bind, wp_send_all; [by apply reply_length|done|]. apply wp_ret.
  unfold client_at, set_conn in *. simpl in *. unfold set_c_conn. simpl.
  rewrite <- !app_assoc. exact HQ.
Qed.

(** One round of the loop on a text that does not end it. *)
Lemma wp_dispatch_show s0 rs lines bytes out text t :
  fits text → react text = Shows t →
  wp (dispatch (block_text text)) (λ e s', e = false ∧ s' = client_at s0 rs lines bytes (out ++ t))
    (client_at s0 rs lines bytes out).
Proof.
  intros Hf Hr. destruct (block_drop text Hf) as [Hn Hc]. unfold dispatch, react in *.
  change (Z.to_nat GP_HEADER_SIZE) with 7%nat.
  rewrite !header_block by (done || by apply (bool_decide_unpack _)).
  repeat case_bool_decide; try done; injection Hr as <-; unfold printf_s;
    rewrite bool_decide_true, Hc by done; apply wp_bind, wp_modify, wp_ret; (split; [done|]);
    unfold client_at, add_stdout; simpl; by rewrite <- app_assoc.
Qed.

Lemma wp_dispatch_ask s0 rs line lines bytes out text p :
  fits text → typeable line → react text = Asks p →
  wp (dispatch (block_text text))
    (λ e s', e = false ∧ s' = client_at s0 rs lines (bytes ++ reply text line) (out ++ p))
    (client_at s0 rs (line :: lines) bytes out).
Proof.
  intros Hf Hl Hr. unfold dispatch, react in *.
  rewrite !header_block by (done || by apply (bool_decide_unpack _)).
  repeat case_bool_decide; try done; injection Hr as <-;
    apply wp_bind, wp_submit; try done; by apply wp_ret.
Qed.

Lemma wp_dispatch_end s0 rs lines bytes out text t :
  fits text → react text = Ends t →
  wp (dispatch (block_text text)) (λ e s', e = true ∧ s' = client_at s0 rs lines bytes (out ++ t))
    (client_at s0 rs lines bytes out).
Proof.
  intros Hf Hr. unfold dispatch, react in *.
  rewrite !header_block by (done || by apply (bool_decide_unpack _)).
  repeat case_bool_decide; try done; injection Hr as <-; apply wp_bind, wp_modify, wp_ret;
    (split; [done|]); unfold client_at, add_stdout; simpl; by rewrite <- app_assoc.
Qed.

(** ** The loop *)

(** A text after which the game goes on. *)
Definition goes_on (text : list ascii) : Prop :=
  match react text with Shows _ | Asks _ => True | _ => False end.
#[export] Instance goes_on_dec text : Decision (goes_on text).
Proof. unfold goes_on. destruct (react text); apply _. Defined.

Lemma wp_client_receive s0 text rs lines bytes out buf (Q : Z * list ascii → cli → Prop) :
  fits text → length buf = 192%nat →
  Q (GP_SIZE, block_text text) (client_at s0 rs lines bytes out) →
  wp (receive_message buf GP_SIZE) Q (client_at s0 (Chunk (block_text text) :: rs) lines bytes out).
Proof.
  intros [[_ Hl] _] Hb HQ. eapply wp_receive_chunk; [done|by apply block_length|done|done].
Qed.

Lemma wp_client_rounds s0 rs texts final lines lines' bytes out buf fuel (Q : () → cli → Prop) :
  Forall fits texts → Forall goes_on texts → Forall typeable lines →
  length lines = length (prompts texts) → fits final → ends final = true →
  length buf = 192%nat → (length texts + 1 < fuel)%nat →
  Q () (client_at s0 rs lines' (bytes ++ concat (zip_with reply (prompts texts) lines))
         (out ++ concat (printed <$> (texts ++ [final])))) →
  wp (iter fuel client_round (false, buf)) Q
    (client_at s0 ((Chunk ∘ block_text <$> (texts ++ [final])) ++ rs) (lines ++ lines') bytes out).
Proof.
  intros Hfit Hgo Hty Hlen Hff He. revert lines bytes out buf fuel Hty Hlen.
  induction texts as [|text texts IH]; intros lines bytes out buf fuel Hty Hlen Hbuf Hfu HQ.
  - destruct lines; [|done]. destruct fuel as [|[|fuel]]; simpl in Hfu; [lia..|].
    apply wp_bind, wp_bind. cbn [fmap list_fmap app].
    apply wp_client_receive; [done..|]. apply wp_bind. unfold ends in He.
    destruct (react final) as [| |t|] eqn:Hr; try done.
    eapply wp_mono; [by apply wp_dispatch_end|]. intros e s' [-> ->]. apply wp_ret, wp_bind, wp_ret, wp_ret.
    unfold printed in HQ. simpl in HQ. by rewrite Hr, !app_nil_r in HQ.
  - apply Forall_cons in Hfit as [Hf Hfit], Hgo as [Hg Hgo].
    destruct fuel as [|fuel]; simpl in Hfu; [lia|]. apply wp_bind, wp_bind. cbn [fmap list_fmap app].
    apply wp_client_receive; [done..|]. apply wp_bind. unfold goes_on in Hg.
    cbn [app fmap list_fmap concat] in HQ. unfold printed at 1 in HQ. rewrite prompts_cons in Hlen, HQ.
    destruct (react text) as [t|p| |] eqn:Hr; try done.
    + eapply wp_mono; [by apply wp_dispatch_show|]. intros e s' [-> ->]. apply wp_ret.
      apply IH; [done|done|done|done|by rewrite length_replicate|lia|]. by rewrite <- app_assoc.
    + destruct lines as [|line lines]; [done|].
      apply Forall_cons in Hty as [Hl Hty]. injection Hlen as Hlen.
      eapply wp_mono; [by apply wp_dispatch_ask|]. intros e s' [-> ->]. apply wp_ret.
      apply IH; [done|done|done|done|by rewrite length_replicate|lia|].
      cbn [zip_with concat] in HQ. by rewrite <- !app_assoc.
Qed.

(** ** The server's texts are such texts *)
Lemma print_d_no_NUL n : NUL ∉ print_d n.
Proof.
  assert (∀ m, 0 ≤ m → NUL ∉ dec_digits 10 m []) as H.
  { intros m Hm Hin. pose proof (dec_digits_digits 10 m [] Hm (Forall_nil_2 _)) as Hd.
    rewrite Forall_forall in Hd. by specialize (Hd _ Hin). }
  unfold print_d. destruct (Z.ltb_spec n 0); [|by apply H].
  rewrite not_elem_of_cons. split; [done|]. apply H. lia.
Qed.

Lemma feedback_fits k p c :
  fits (GP_GUESS_FBK ++ feedback_message k p c) ∧
  react (GP_GUESS_FBK ++ feedback_message k p c) = Shows (feedback_message k p c).
Proof.
  split; [|done]. split; [split; [rewrite length_app; simpl; lia|apply (feedback_length k p c)]|].
  unfold feedback_message. rewrite !not_elem_of_app. repeat split;
    first [apply print_d_no_NUL | by apply (bool_decide_unpack _)].
Qed.

Lemma game_speaks n k secret ms lines texts won rest :
  game n k secret ms = Some (lines, texts, won, rest) → Forall fits texts ∧ Forall goes_on texts.
Proof.
  revert k ms lines texts won rest. induction n as [|n IH]; intros k ms lines texts won rest; simpl.
  { by intros [= <- <- <- <-]. }
  destruct (first_valid ms) as [[[bad m] ms']|]; [|done].
  set (p := positions _ _). set (c := shared _ _ - p).
  assert (∀ ts : list (list ascii), Forall fits ts ∧ Forall goes_on ts →
    Forall fits (([GP_GUESS_REQ] ++ ((λ _, GP_GUESS_INV) <$> bad) ++
      [GP_GUESS_FBK ++ feedback_message k p c]) ++ ts) ∧
    Forall goes_on (([GP_GUESS_REQ] ++ ((λ _, GP_GUESS_INV) <$> bad) ++
      [GP_GUESS_FBK ++ feedback_message k p c]) ++ ts)) as Hround.
  { intros ts [H1 H2]. destruct (feedback_fits k p c) as [H3 H4]. rewrite !Forall_app, !Forall_singleton.
    assert (fits GP_GUESS_REQ ∧ fits GP_GUESS_INV) as [? ?].
    { split; (split; [simpl; lia|by apply (bool_decide_unpack _)]). }
    unfold goes_on at 3. rewrite H4. split_and!; try done; by apply Forall_fmap, Forall_true. }
  destruct (p =? 4).
  - intros [= <- <- <- <-]. rewrite <- (app_nil_r (GP_GUESS_REQ :: _)). by apply (Hround []).
  - destruct (game n (k + 1) secret ms') as [[[[lines' texts'] won'] rest']|] eqn:Hg; [|done].
    intros [= <- <- <- <-]. apply Hround. by eapply IH.
Qed.

(** ** The messages of a game matter as strings only *)
Definition same_string (m m' : list ascii) : Prop := NUL ∈ m ∧ NUL ∈ m' ∧ cstr m = cstr m'.

Lemma same_valid m m' : same_string m m' →
  (valid_buffer m ↔ valid_buffer m') ∧ (valid_buffer m → take 4 m = take 4 m').
Proof.
  intros (H1 & H2 & He). assert (valid_buffer m ↔ valid_buffer m') as Hiff.
  { by rewrite !valid_buffer_string, He by done. }
  split; [done|]. intros Hv. destruct (valid_buffer_split _ Hv) as (_ & _ & _ & <-).
  apply Hiff in Hv. destruct (valid_buffer_split _ Hv) as (_ & _ & _ & <-). done.
Qed.

(** A game uses a part of the messages, one for every prompt, and any messages
    with the same strings give the same game. *)
Lemma first_valid_same used m ms' bad ms :
  first_valid ms = Some (bad, m, ms') → Forall2 same_string (bad ++ [m]) used →
  ∃ bad' m', (∀ rest, first_valid (used ++ rest) = Some (bad', m', rest)) ∧
    take 4 m' = take 4 m ∧ length bad' = length bad.
Proof.
  revert bad used. induction ms as [|x ms IH]; intros bad used; cbn [first_valid]; [done|].
  case_bool_decide as Hv.
  - intros [= <- <- <-] (m' & ? & Hs & ->%Forall2_nil_inv_l & ->)%Forall2_cons_inv_l.
    destruct (same_valid _ _ Hs) as [Hiff Ht]. exists [], m'. split; [|by rewrite Ht].
    intros rest. cbn [app first_valid]. by rewrite bool_decide_true by (by apply Hiff).
  - destruct (first_valid ms) as [[[bad1 m1] r1]|]; [|done].
    intros [= <- <- <-] (x' & used' & Hs & Hu & ->)%Forall2_cons_inv_l.
    destruct (IH bad1 used' eq_refl Hu) as (bad' & m' & Hfv & Ht & Hl).
    destruct (same_valid _ _ Hs) as [Hiff _]. exists (x' :: bad'), m'. split; [|by simpl; rewrite Hl].
    intros rest. cbn [app first_valid]. rewrite bool_decide_false by tauto. by rewrite Hfv.
Qed.

Lemma prompts_app t1 t2 : prompts (t1 ++ t2) = prompts t1 ++ prompts t2.
Proof. apply filter_app. Qed.

Lemma prompts_round k p c (bad : list (list ascii)) :
  prompts ([GP_GUESS_REQ] ++ ((λ _, GP_GUESS_INV) <$> bad) ++ [GP_GUESS_FBK ++ feedback_message k p c]) =
  GP_GUESS_REQ :: ((λ _, GP_GUESS_INV) <$> bad).
Proof.
  rewrite !prompts_app. change (prompts [GP_GUESS_REQ]) with [GP_GUESS_REQ].
  rewrite (prompts_cons (GP_GUESS_FBK ++ _)), (proj2 (feedback_fits k p c)).
  cbn [app]. f_equal. rewrite app_nil_r. induction bad as [|x bad IH]; [done|].
  cbn [fmap list_fmap]. rewrite prompts_cons. simpl. by f_equal.
Qed.

Lemma game_same n k secret ms lines texts won rest :
  game n k secret ms = Some (lines, texts, won, rest) →
  ∃ used, ms = used ++ rest ∧ length used = length (prompts texts) ∧
    ∀ used' rest', Forall2 same_string used used' →
      game n k secret (used' ++ rest') = Some (lines, texts, won, rest').
Proof.
  revert k ms lines texts won rest. induction n as [|n IH]; intros k ms lines texts won rest; cbn [game].
  { intros [= <- <- <- <-]. exists []. split; [done|]. split; [done|].
    intros used' rest' ->%Forall2_nil_inv_l. done. }
  destruct (first_valid ms) as [[[bad m] ms']|] eqn:Hfv; [|done].
  destruct (first_valid_Some _ _ _ _ Hfv) as [-> _].
  assert (∀ used', Forall2 same_string (bad ++ [m]) used' → ∃ bad' m',
    (∀ r, first_valid (used' ++ r) = Some (bad', m', r)) ∧ take 4 m' = take 4 m ∧
    ((λ _, GP_GUESS_INV) <$> bad') = ((λ _, GP_GUESS_INV) <$> bad)) as Hsame.
  { intros used' Hu. destruct (first_valid_same _ _ _ _ _ Hfv Hu) as (bad' & m' & H1 & H2 & H3).
    exists bad', m'. split; [done|]. split; [done|]. by rewrite !(const_fmap _ _ GP_GUESS_INV), H3 by done. }
  clear Hfv. set (p := positions secret (take 4 m)). set (c := shared secret (take 4 m) - p).
  set (T := [GP_GUESS_REQ] ++ _). pose proof (prompts_round k p c bad : prompts T = _) as HT.
  assert (HS : ∀ bad', ((λ _, GP_GUESS_INV) <$> bad') = ((λ _, GP_GUESS_INV) <$> bad) →
    [GP_GUESS_REQ] ++ ((λ _ : list ascii, GP_GUESS_INV) <$> bad') ++
      [GP_GUESS_FBK ++ feedback_message k p c] = T) by (by intros bad' ->).
  clearbody T. destruct (p =? 4) eqn:Hp.
  - intros [= <- <- <- <-]. exists (bad ++ [m]). split; [by rewrite <- app_assoc|].
    rewrite HT, length_app. cbn [length]. rewrite length_fmap. split; [lia|].
    intros used' rest' Hu. destruct (Hsame _ Hu) as (bad' & m' & Hfv & Ht & Hb).
    rewrite Hfv. cbv beta iota zeta. rewrite Ht. fold p. fold c. by rewrite (HS _ Hb), Hp.
  - destruct (game n (k + 1) secret ms') as [[[[lines' texts'] won'] rest1]|] eqn:Hg; [|done].
    intros [= <- <- <- <-]. destruct (IH _ _ _ _ _ _ Hg) as (used & -> & Hl & Hall).
    exists (bad ++ [m] ++ used). split; [by rewrite <- !app_assoc|].
    rewrite prompts_app, HT, !length_app. cbn [length]. rewrite length_fmap, Hl. split; [lia|].
    intros used' rest' Hu. rewrite (app_assoc bad [m]) in Hu.
    apply Forall2_app_inv_l in Hu as (u1 & u2 & Hu1 & Hu2 & ->).
    destruct (Hsame _ Hu1) as (bad' & m' & Hfv & Ht & Hb).
    rewrite <- app_assoc, Hfv. cbv beta iota zeta. rewrite Ht. fold p. fold c. by rewrite (HS _ Hb), Hp, (Hall u2).
Qed.

(** ** The two programs fit *)
Lemma block_string text : (length text < 192)%nat → NUL ∉ text →
  NUL ∈ block_text text ∧ cstr (block_text text) = text.
Proof.
  intros Hl Hn. unfold block_text. change (Z.to_nat GP_SIZE) with 192%nat.
  replace (192 - length text)%nat with (S (191 - length text)) by lia. cbn [replicate].
  split; [by apply elem_of_app; right; left|by apply cstr_app_NUL].
Qed.

Lemma same_reply p g : typeable g → same_string (block_text g) (reply p g).
Proof.
  intros (Hl & Hn & _). destruct (block_string g) as [H1 H2]; [lia|done|]. split; [done|].
  unfold reply. split; [by apply elem_of_app; right; left|]. by rewrite H2, cstr_app_NUL.
Qed.

Lemma game_replies secret gs lines texts won rest :
  Forall typeable gs → game 10 1 secret (block_text <$> gs) = Some (lines, texts, won, rest) →
  ∃ used unused, gs = used ++ unused ∧ length used = length (prompts texts) ∧
    game 10 1 secret (zip_with reply (prompts texts) used) = Some (lines, texts, won, []).
Proof.
  intros Hty Hg. destruct (game_same _ _ _ _ _ _ _ _ Hg) as (us & Hus & Hl & Hall).
  apply fmap_app_inv in Hus as (used & unused & -> & -> & ->). rewrite length_fmap in Hl.
  exists used, unused. split; [done|]. split; [done|]. rewrite <- (app_nil_r (zip_with _ _ _)).
  apply Hall. apply Forall_app in Hty as [Hty _]. clear -Hty Hl. revert used Hty Hl.
  induction (prompts texts) as [|p ps IH]; intros [|u used] Hty Hl; try done.
  apply Forall_cons in Hty as [Hu Hty]. constructor; [by apply same_reply|]. apply IH; [done|by injection Hl].
Qed.

Lemma session_prompts texts won : prompts (session_texts texts won) = prompts texts.
Proof.
  unfold session_texts. rewrite !prompts_app.
  assert (prompts [if won then GP_GAME_SUCC else GP_GAME_FAIL] = []) as -> by (by destruct won).
  by rewrite app_nil_r.
Qed.

Lemma display_fits : Forall fits [GP_DISP_MSG ++ WELCOME_MESSAGE; GP_DISP_MSG ++ INSTRUCTIONS_1_MESSAGE;
   GP_DISP_MSG ++ INSTRUCTIONS_2_MESSAGE].
Proof.
  repeat constructor; try (vm_compute; lia); by apply (bool_decide_unpack _); vm_compute.
Qed.

Lemma wp_session s0 texts won used unused fuel :
  Forall fits texts → Forall goes_on texts → Forall typeable used → length used = length (prompts texts) →
  reads (c_conn s0) = Chunk ∘ block_text <$> session_texts texts won → writes (c_conn s0) = [] →
  (length texts + 5 ≤ fuel)%nat →
  wp (client_loop fuel)
    (λ _ s', s' = Cli (Conn [] [] (sent (c_conn s0) ++ concat (zip_with reply (prompts texts) used)))
       (unlines unused ++ c_stdin s0) (c_stdout s0 ++ concat (printed <$> session_texts texts won))
       (c_stderr s0) (c_closed s0))
    (set_stdin (unlines (used ++ unused) ++ c_stdin s0) s0).
Proof.
  intros Hf Hg Hty Hl Hr Hw Hfu. set (pre := [GP_DISP_MSG ++ WELCOME_MESSAGE;
    GP_DISP_MSG ++ INSTRUCTIONS_1_MESSAGE; GP_DISP_MSG ++ INSTRUCTIONS_2_MESSAGE]).
  set (final := if won then GP_GAME_SUCC else GP_GAME_FAIL).
  assert (session_texts texts won = (pre ++ texts) ++ [final]) as Hst by apply app_assoc.
  pose proof (session_prompts texts won) as Hp. rewrite Hst, prompts_app in Hp.
  assert (prompts [final] = []) as Hfin by (by destruct won). rewrite Hfin, app_nil_r in Hp.
  assert (set_stdin (unlines (used ++ unused) ++ c_stdin s0) s0 =
    client_at s0 ((Chunk ∘ block_text <$> (pre ++ texts) ++ [final]) ++ []) (used ++ unused) [] []) as ->.
  { unfold client_at, set_stdin. rewrite !app_nil_r, <- Hst, <- Hr, <- Hw. by destruct (c_conn s0). }
  apply wp_client_rounds; try done.
  - apply Forall_app. split; [apply display_fits|done].
  - apply Forall_app. split; [by repeat constructor|done].
  - destruct won; (split; [simpl; lia|by apply (bool_decide_unpack _)]).
  - by destruct won.
  - rewrite length_app. simpl. lia.
Qed.

(** ** A lost connection

    The result of [receive_message] is ignored: with nothing to read the client
    finds a block of zeros, does nothing, and tries again. *)
Lemma wp_dispatch_zeros (Q : bool → cli → Prop) s :
  Q false s → wp (dispatch (replicate 192 NUL)) Q s.
Proof. done. Qed.

Lemma client_spins fuel s : reads (c_conn s) = [] → client_loop fuel s = NoFuel.
Proof.
  intros Hr. unfold client_loop. change (Z.to_nat GP_SIZE) with 192%nat.
  induction fuel as [|fuel IH]; [done|].
  apply nofuel_bind, wp_bind, wp_receive_none; [done|done|].
  apply wp_bind, wp_dispatch_zeros, wp_ret. exact IH.
Qed.

(** ** A message without an end *)
Lemma client_overread fuel s m rs :
  reads (c_conn s) = Chunk (GP_DISP_MSG ++ m) :: rs → length m = 185%nat → NUL ∉ m →
  client_loop (S fuel) s = UB.
Proof.
  intros Hr Hl Hn. assert (length (GP_DISP_MSG ++ m) = 192%nat) as Hlm by (by rewrite length_app, Hl).
  assert (header_is (GP_DISP_MSG ++ m) GP_DISP_MSG = true) as Hh by done.
  assert (drop (Z.to_nat GP_HEADER_SIZE) (GP_DISP_MSG ++ m) = m) as Hd by done.
  set (msg := GP_DISP_MSG ++ m) in *. clearbody msg. apply run_bind_ub. unfold client_round.
  destruct (proj1 (wp_run _ _ _) (wp_receive_chunk (replicate (Z.to_nat GP_SIZE) NUL) msg rs
    (λ r s', r = (GP_SIZE, msg)) s ltac:(done) Hlm Hr eq_refl)) as ([n b] & s' & Hrun & [= -> ->]).
  rewrite (run_bind _ _ _ _ _ Hrun). apply run_bind_ub. unfold dispatch. rewrite Hh.
  apply run_bind_ub. unfold printf_s. by rewrite Hd, bool_decide_false.
Qed.

(** ** End of input

    The result of [fgets] is ignored: at the end of the input the client sends
    the server's own block back. *)
Lemma strcspn_text text : NUL ∉ text → CR ∉ text → NEWLINE ∉ text →
  ∀ rest, strcspn (text ++ NUL :: rest) = Some (length text).
Proof.
  intros H1 H2 H3 rest. induction text as [|c text IH]; [done|].
  apply not_elem_of_cons in H1 as [? ?], H2 as [? ?], H3 as [? ?]. cbn [strcspn app].
  rewrite !bool_decide_false by (by intros ->). simpl. by rewrite IH.
Qed.

Lemma wp_submit_eof prompt text s :
  fits text → CR ∉ text → NEWLINE ∉ text → c_stdin s = [] → writes (c_conn s) = [] →
  wp (submit_guess prompt (block_text text))
    (λ _ s', s' = set_c_conn (Conn (reads (c_conn s)) [] (sent (c_conn s) ++ block_text text))
       (add_stdout prompt s)) s.
Proof.
  intros [[Hl1 Hl2] Hn] Hcr Hnl Hin Hw. apply wp_bind, wp_modify, wp_bind, wp_bind, wp_get. cbn [c_stdin add_stdout].
  rewrite Hin. cbn [fgets]. apply wp_ret, wp_bind. unfold chomp.
  assert (∃ z, block_text text = text ++ NUL :: z) as [z Hz].
  { unfold block_text. change (Z.to_nat GP_SIZE) with 192%nat.
    replace (192 - length text)%nat with (S (191 - length text)) by lia. cbn [replicate]. eauto. }
  rewrite Hz at 1. rewrite strcspn_text by done. apply wp_ret.
  rewrite list_insert_id by (rewrite Hz, lookup_app_r, Nat.sub_diag by done; done).
  apply wp_bind, wp_send_all; [by apply block_length|done|]. by apply wp_ret.
Qed.
