(* ===== verification/PrintHelpers.v ===== *)
(** * PrintHelpers: print-helpers.c

    What stands in front of the lines of the log: the time and an address.  The
    state is the text written to the stream so far.  What [time] and [localtime]
    return are arguments. *)
From Stdlib Require Import Ascii String.
From stdpp Require Import prelude strings.
From S2P Require Import Prelude CMonad CString.

Record tm := Tm {
  tm_sec : Z;
  tm_min : Z;
  tm_hour : Z;
  tm_mday : Z;
  tm_mon : Z;
  tm_year : Z
}.

(** [%.kd]: at least [k] digits, with zeros in front. *)
Definition print_min (k : nat) (n : Z) : list ascii :=
  let digits := dec_digits 10 (Z.abs n) [] in
  (if n <? 0 then [chr 45] else []) ++ replicate (k - length digits) (digit 0) ++ digits.

Definition fprintf (text : list ascii) : C (list ascii) () := modify (λ out, out ++ text).

(** [time(NULL)] returned [current_time]; [localtime] may return NULL. *)
Definition fprint_current_time (current_time : Z) (localtime : Z → option tm) : C (list ascii) () :=
  if current_time =? -1 then exit 1
  else match localtime current_time with
       | None => ub
       | Some t =>
           mon ← int_add (tm_mon t) 1;
           year ← int_add (tm_year t) 1900;
           fprintf (chars "[" ++ print_min 2 (tm_mday t) ++ chars " " ++ print_min 2 mon ++
                    chars " " ++ print_min 4 year ++ chars " " ++ print_min 2 (tm_hour t) ++
                    chars ":" ++ print_min 2 (tm_min t) ++ chars ":" ++ print_min 2 (tm_sec t) ++
                    chars "]")
       end.

(** [s_addr] is the address as it stands in memory, its first octet lowest. *)
Definition octet (i : Z) (s_addr : Z) : Z := Z.land (Z.shiftr s_addr (8 * i)) 255.

Definition fprint_ip_address (s_addr : Z) : C (list ascii) () :=
  fprintf (chars "(" ++ print_d (octet 0 s_addr) ++ chars "." ++ print_d (octet 1 s_addr) ++
           chars "." ++ print_d (octet 2 s_addr) ++ chars "." ++ print_d (octet 3 s_addr) ++ chars ")").

Definition fprint_current_time_and_ip_address (current_time : Z) (localtime : Z → option tm)
    (s_addr : Z) : C (list ascii) () :=
  fprint_current_time current_time localtime;;
  fprint_ip_address s_addr.

(** ** Reading the texts back *)

(** An address in dotted notation, between parentheses. *)
Definition read_ip (text : list ascii) : Z :=
  let '(a, r) := take_token (chr 46) (drop 1 text) in
  let '(b, r) := take_token (chr 46) r in
  let '(c, d) := take_token (chr 46) r in
  atoi_Z a + 256 * atoi_Z b + 65536 * atoi_Z c + 16777216 * atoi_Z d.

(** The fields of a time stamp, from their fixed columns. *)
Definition column (i n : nat) (text : list ascii) : Z := atoi_Z (take n (drop i text)).
Definition read_time (text : list ascii) : tm :=
  Tm (column 18 2 text) (column 15 2 text) (column 12 2 text)
     (column 1 2 text) (column 4 2 text - 1) (column 7 4 text - 1900).

(** A calendar time whose year has four digits. *)
Definition tm_ok (t : tm) : Prop :=
  0 ≤ tm_sec t ≤ 60 ∧ 0 ≤ tm_min t ≤ 59 ∧ 0 ≤ tm_hour t ≤ 23 ∧
  1 ≤ tm_mday t ≤ 31 ∧ 0 ≤ tm_mon t ≤ 11 ∧ -1900 ≤ tm_year t ≤ 8099.

(** ** Addresses *)
Lemma octet_spec i s : 0 ≤ i → octet i s = (s / 256 ^ i) `mod` 256.
Proof.
  intros Hi. unfold octet. change 255 with (Z.ones 8). rewrite Z.land_ones by lia.
  rewrite Z.shiftr_div_pow2, Z.pow_mul_r by lia. done.
Qed.

Lemma octets_sum s : 0 ≤ s < 2 ^ 32 →
  octet 0 s + 256 * octet 1 s + 65536 * octet 2 s + 16777216 * octet 3 s = s.
Proof.
  intros Hs. rewrite !octet_spec by lia. change (256 ^ 0) with 1. change (256 ^ 1) with 256.
  change (256 ^ 2) with 65536. change (256 ^ 3) with 16777216. change (2 ^ 32) with 4294967296 in Hs.
  Z.div_mod_to_equations. lia.
Qed.

Lemma octet_bounds i s : 0 ≤ i → 0 ≤ octet i s < 256.
Proof. intros Hi. rewrite octet_spec by done. by apply Z.mod_pos_bound. Qed.

Lemma take_token_app d t rest : d ∉ t → take_token d (t ++ d :: rest) = (t, rest).
Proof.
  induction t as [|c t IH]; simpl; [by rewrite bool_decide_true|].
  intros [Hc Ht]%not_elem_of_cons. by rewrite bool_decide_false, IH.
Qed.

Lemma print_d_no_dot n : 0 ≤ n → chr 46 ∉ print_d n.
Proof.
  intros Hn Hin. unfold print_d in Hin. rewrite (proj2 (Z.ltb_ge n 0)) in Hin by done.
  pose proof (dec_digits_digits 10 n [] Hn (Forall_nil_2 _)) as Hd.
  rewrite Forall_forall in Hd. by specialize (Hd _ Hin).
Qed.

Lemma atoi_octet i s rest : 0 ≤ i → match rest with [] => True | c :: _ => is_digit c = false end →
  atoi_Z (print_d (octet i s) ++ rest) = octet i s.
Proof. intros Hi Hr. pose proof (octet_bounds i s Hi). apply atoi_print; [lia|done]. Qed.

Lemma wp_print_ip s out (Q : () → list ascii → Prop) : 0 ≤ s < 2 ^ 32 →
  (∀ text, read_ip text = s → Q () (out ++ text)) → wp (fprint_ip_address s) Q out.
Proof.
  intros Hs HQ. apply wp_modify, HQ. unfold read_ip.
  change (chars "(") with [chr 40]. change (chars ".") with [chr 46]. cbn [app skipn].
  pose proof (λ i, print_d_no_dot (octet i s)) as Hnd.
  rewrite drop_0. do 3 (rewrite take_token_app by (apply Hnd, octet_bounds; lia); cbv beta iota).
  transitivity (octet 0 s + 256 * octet 1 s + 65536 * octet 2 s + 16777216 * octet 3 s); [|by apply octets_sum].
  pose proof (λ i Hi, atoi_octet i s [] Hi I) as Ha. rewrite (atoi_octet 3) by (lia || done).
  pose proof (Ha 0 ltac:(lia)) as H0. pose proof (Ha 1 ltac:(lia)) as H1. pose proof (Ha 2 ltac:(lia)) as H2.
  rewrite app_nil_r in H0, H1, H2. by rewrite H0, H1, H2.
Qed.

(** ** Times *)
Lemma atoi_digits_zeros m l : atoi_digits 0 (replicate m (digit 0) ++ l) = atoi_digits 0 l.
Proof. induction m as [|m IH]; [done|]. exact IH. Qed.

Lemma atoi_starts c l : is_digit c = true → atoi_Z (c :: l) = atoi_digits 0 (c :: l).
Proof.
  intros Hc. destruct (digit_not_sign _ Hc) as (Hs & H1 & H2). unfold atoi_Z. simpl. rewrite Hs.
  by rewrite (proj2 (Z.eqb_neq _ _) H1), (proj2 (Z.eqb_neq _ _) H2).
Qed.

(** A number that fits in [k] columns takes all of them and reads back. *)
Lemma print_min_fixed k n : (0 < k ≤ 10)%nat → 0 ≤ n < 10 ^ Z.of_nat k →
  length (print_min k n) = k ∧ atoi_Z (print_min k n) = n.
Proof.
  intros Hk Hn. unfold print_min. rewrite (proj2 (Z.ltb_ge n 0)) by lia. rewrite Z.abs_eq by lia.
  pose proof (dec_digits_short 10 k n [] ltac:(lia) Hn) as Hs. cbn [length app] in *.
  assert (Hv : atoi_digits 0 (dec_digits 10 n []) = n).
  { rewrite dec_digits_value; [done| |done]. split; [lia|]. eapply Z.lt_le_trans; [apply Hn|].
    apply Z.pow_le_mono_r; lia. }
  split; [rewrite length_app, length_replicate; lia|].
  rewrite <- (atoi_digits_zeros (k - length (dec_digits 10 n []))) in Hv. etrans; [|exact Hv].
  pose proof (dec_digits_digits 10 n [] ltac:(lia) (Forall_nil_2 _)) as Hd.
  destruct (k - length (dec_digits 10 n []))%nat; [|by apply atoi_starts].
  destruct (dec_digits_cons 9 n []) as (c & l & E). rewrite E in *. cbn [replicate app].
  apply atoi_starts. by apply Forall_cons in Hd as [? _].
Qed.

Lemma length_two {A} (l : list A) : length l = 2%nat → ∃ x y, l = [x; y].
Proof. destruct l as [|x [|y [|]]]; try done. eauto. Qed.
Lemma length_four {A} (l : list A) : length l = 4%nat → ∃ x y z w, l = [x; y; z; w].
Proof. destruct l as [|x [|y [|z [|w [|]]]]]; try done. eauto 6. Qed.

Lemma wp_print_time now lt t out (Q : () → list ascii → Prop) :
  now ≠ -1 → lt now = Some t → tm_ok t →
  (∀ text, length text = 21%nat → read_time text = t → Q () (out ++ text)) →
  wp (fprint_current_time now lt) Q out.
Proof.
  intros Hnow Hlt (H1 & H2 & H3 & H4 & H5 & H6) HQ. unfold fprint_current_time.
  rewrite (proj2 (Z.eqb_neq _ _) Hnow), Hlt. apply wp_bind. wp_step. apply wp_bind. wp_step.
  apply wp_modify, HQ; clear HQ Hlt Hnow.
  all: pose proof (λ n, print_min_fixed 2 n ltac:(lia)) as P2; pose proof (λ n, print_min_fixed 4 n ltac:(lia)) as P4;
    change (10 ^ Z.of_nat 2) with 100 in P2; change (10 ^ Z.of_nat 4) with 10000 in P4;
    destruct (P2 (tm_mday t) ltac:(lia)) as [(? & ? & ->)%length_two Va],
      (P2 (tm_mon t + 1) ltac:(lia)) as [(? & ? & ->)%length_two Vb],
      (P4 (tm_year t + 1900) ltac:(lia)) as [(? & ? & ? & ? & ->)%length_four Vc],
      (P2 (tm_hour t) ltac:(lia)) as [(? & ? & ->)%length_two Vd],
      (P2 (tm_min t) ltac:(lia)) as [(? & ? & ->)%length_two Ve],
      (P2 (tm_sec t) ltac:(lia)) as [(? & ? & ->)%length_two Vf].
  { done. }
  destruct t; cbn [tm_mon tm_year tm_sec tm_min tm_hour tm_mday] in *. unfold read_time.
  f_equal; [exact Vf|exact Ve|exact Vd|exact Va| |].
  - apply Z.sub_move_r. exact Vb.
  - apply Z.sub_move_r. exact Vc.
Qed.
