(* ===== verification/ResourceUsage.v ===== *)
(** * ResourceUsage: resource-usage.c

    Reading a field of /proc/self/status for the log.  The contents of the file
    are an argument, [None] when it cannot be opened, and so is what the
    uninitialised line buffer holds at first. *)
From Stdlib Require Import Ascii String.
From stdpp Require Import prelude strings.
From S2P Require Import Prelude CMonad CString SecretCode SecretCodeRefine.

Definition LINE_MAX_LEN : Z := 128.

(** [strlen]: undefined without a NUL. *)
Definition strlen {S} (buf : list ascii) : C S Z :=
  if bool_decide (NUL ∈ buf) then mret (Z.of_nat (length (cstr buf))) else ub.

(** [*line < '0' || *line > '9'] *)
Definition not_digit (c : ascii) : bool := negb (is_digit c).

(** [p] is how far the pointer [line] was moved. *)
Definition parse_proc_self_status_line {S} (line : list ascii) : C S Z :=
  i ← strlen line;
  p ← iter (Datatypes.S (length line)) (λ p,
    c ← at_index line p;
    if not_digit c then mret (inl (p + 1)) else mret (inr p)) 0;
  line ← set_index line (p + (i - 3)) NUL;
  if bool_decide (NUL ∈ drop (Z.to_nat p) line) then atoi (cstr (drop (Z.to_nat p) line)) else ub.

(** [fgets] into the buffer: the rest of the buffer keeps its contents. *)
Definition fill_line (line buf : list ascii) : list ascii := line ++ NUL :: drop (length line + 1) buf.

(** One round of the loop over the lines of the file. *)
Definition status_round {S} (field : list ascii) (l : list ascii * list ascii) :
    C S ((list ascii * list ascii) + Z) :=
  let '(text, line) := l in
  match fgets (Z.to_nat LINE_MAX_LEN) text with
  | None => mret (inr (-1))
  | Some (l, rest) =>
      let line := fill_line l line in
      if strncmp_eq (length field) line field then
        value ← parse_proc_self_status_line line;
        mret (inr value)
      else mret (inl (rest, line))
  end.

(** The loop over the lines of the file; every round reads at least a character. *)
Definition get_proc_self_status_info {S} (file : option (list ascii)) (line : list ascii)
    (field : list ascii) : C S Z :=
  match file with
  | None => ub
  | Some text =>
      iter (Datatypes.S (length text)) (status_round field) (text, line)
  end.

(** ** Parsing a line *)
Section parse.
Context {S : Type}.
Implicit Types s : S.

Lemma wp_at_nat {A} (a : list A) (i : nat) x (Q : A → S → Prop) s :
  a !! i = Some x → Q x s → wp (at_index a (Z.of_nat i)) Q s.
Proof. intros Hx HQ. eapply wp_at_index; [lia|by rewrite Nat2Z.id|done]. Qed.

(** The pointer stops at the first digit. *)
Lemma wp_first_digit line pre c post (Q : Z → S → Prop) s fuel :
  line = pre ++ c :: post → Forall (λ x, is_digit x = false) pre → is_digit c = true → (length pre < fuel)%nat →
  Q (Z.of_nat (length pre)) s →
  wp (iter fuel (λ p,
    x ← at_index line p;
    if not_digit x then mret (inl (p + 1)) else mret (inr p)) 0) Q s.
Proof.
  intros -> Hpre Hc Hf HQ.
  apply (wp_iter_idx (λ k p s', s' = s ∧ ∃ i, p = Z.of_nat i ∧ (i + k = length pre)%nat))
    with (k := length pre); [|split; [done|by exists 0%nat]|done].
  intros k p s' (-> & i & -> & Hi). apply wp_bind.
  destruct (decide (i < length pre)%nat) as [Hlt|Hge].
  - destruct (lookup_lt_is_Some_2 pre i Hlt) as [x Hx].
    eapply wp_at_nat; [by rewrite lookup_app_l|]. rewrite Forall_forall in Hpre. unfold not_digit.
    rewrite (Hpre x) by (by eapply list_elem_of_lookup_2). apply wp_ret. cbn beta iota.
    exists (k - 1)%nat. split; [lia|]. split; [done|]. exists (Datatypes.S i). lia.
  - assert (i = length pre) as -> by lia.
    eapply wp_at_nat; [by rewrite lookup_app_r, Nat.sub_diag by lia|]. unfold not_digit. rewrite Hc.
    by apply wp_ret.
Qed.

(** A line with a number: text without digits, the number, and what follows it.
    The NUL is written [length pre] places past the last three characters of the
    line: behind the number, and in the buffer when that is long enough. *)
Lemma wp_status_line pre n unit rest (Q : Z → S → Prop) s :
  Forall (λ x, is_digit x = false) pre → NUL ∉ pre → 0 ≤ n ≤ INT_MAX → NUL ∉ unit →
  match unit with [] => True | c :: _ => is_digit c = false end →
  (3 ≤ length pre)%nat → (length pre ≤ length rest + 3)%nat → Q n s →
  wp (parse_proc_self_status_line (pre ++ print_d n ++ unit ++ NUL :: rest)) Q s.
Proof.
  intros Hpre Hn0 Hn Hn1 Hu Hlp Hroom HQ.
  assert (NUL ∉ print_d n) as Hnd.
  { unfold print_d. rewrite (proj2 (Z.ltb_ge n 0)) by lia. intros Hin.
    pose proof (dec_digits_digits 10 n [] ltac:(lia) (Forall_nil_2 _)) as Hd.
    rewrite Forall_forall in Hd. by specialize (Hd _ Hin). }
  assert (cstr (pre ++ print_d n ++ unit ++ NUL :: rest) = pre ++ print_d n ++ unit) as Hstr.
  { rewrite !app_assoc. apply cstr_app_NUL. rewrite !not_elem_of_app. tauto. }
  unfold parse_proc_self_status_line. apply wp_bind. unfold strlen.
  rewrite bool_decide_true, Hstr by (rewrite !elem_of_app, elem_of_cons; tauto). apply wp_ret, wp_bind.
  assert (∃ c ds, print_d n = c :: ds ∧ is_digit c = true) as (c & ds & Hpd & Hc).
  { unfold print_d. rewrite (proj2 (Z.ltb_ge n 0)) by lia.
    pose proof (dec_digits_digits 10 n [] ltac:(lia) (Forall_nil_2 _)) as Hd.
    destruct (dec_digits_cons 9 n []) as (c & ds & E). rewrite E in *.
    apply Forall_cons in Hd as [? _]. eauto. }
  set (line := pre ++ print_d n ++ unit ++ NUL :: rest).
  assert (line = pre ++ c :: ds ++ unit ++ NUL :: rest) as Hline by (unfold line; by rewrite Hpd).
  apply (wp_first_digit _ _ _ _ _ _ _ Hline); [done|done|rewrite Hline, length_app; lia|]. apply wp_bind.
  set (k := (length pre - 3)%nat).
  assert (Z.of_nat (length pre) + (Z.of_nat (length (pre ++ print_d n ++ unit)) - 3) =
    Z.of_nat (length (pre ++ print_d n ++ unit) + k)) as -> by (rewrite !length_app; unfold k; lia).
  assert (Hll : length line = (length (pre ++ print_d n ++ unit) + 1 + length rest)%nat).
  { unfold line. rewrite !length_app. simpl. lia. }
  unfold set_index. rewrite bool_decide_true by lia. apply wp_ret. rewrite !Nat2Z.id.
  assert (<[(length (pre ++ print_d n ++ unit) + k)%nat := NUL]> line =
    pre ++ (print_d n ++ unit) ++ <[k := NUL]> (NUL :: rest)) as ->.
  { assert (line = (pre ++ print_d n ++ unit) ++ NUL :: rest) as -> by (unfold line; by rewrite <- !app_assoc).
    by rewrite insert_app_r, <- !app_assoc. }
  rewrite drop_app_length.
  assert (∃ rest', <[k := NUL]> (NUL :: rest) = NUL :: rest') as [rest' ->] by (destruct k; simpl; eauto).
  rewrite bool_decide_true by (rewrite !elem_of_app, elem_of_cons; tauto).
  rewrite cstr_app_NUL by (rewrite not_elem_of_app; tauto). unfold atoi.
  rewrite atoi_print by (lia || done). by apply wp_chk; [lia|].
Qed.

(** A number that starts too late in the line makes the write go past the end of
    the buffer. *)
Lemma parse_line_overflow pre c post s :
  Forall (λ x, is_digit x = false) pre → NUL ∉ pre → is_digit c = true → NUL ∈ post →
  (length pre + length (cstr (pre ++ c :: post)) - 3 ≥ length (pre ++ c :: post))%nat →
  parse_proc_self_status_line (pre ++ c :: post) s = UB.
Proof.
  intros Hpre Hn0 Hc Hn1 Hlong. unfold parse_proc_self_status_line, strlen.
  rewrite bool_decide_true by (rewrite elem_of_app, elem_of_cons; tauto).
  erewrite run_bind by done. destruct (proj1 (wp_run _ _ _)
    (wp_first_digit _ pre c post (λ p s', p = Z.of_nat (length pre) ∧ s' = s) s (Datatypes.S (length (pre ++ c :: post)))
      eq_refl Hpre Hc ltac:(rewrite length_app; lia) (conj eq_refl eq_refl))) as (p & s' & Hrun & -> & ->).
  erewrite run_bind by exact Hrun. apply run_bind_ub. unfold set_index.
  by rewrite bool_decide_false by lia.
Qed.
End parse.

(** ** Finding the field *)
Section status.
Context {S : Type}.
Implicit Types s : S.

(** A line of the file that fits in the buffer. *)
Definition plain_line (l : list ascii) : Prop := NEWLINE ∉ l ∧ NUL ∉ l ∧ (length l ≤ 126)%nat.

Lemma fill_line_length l buf : (length l < length buf)%nat → length (fill_line l buf) = length buf.
Proof. intros Hl. unfold fill_line. rewrite length_app. simpl. rewrite length_drop. lia. Qed.

Lemma prefix_line (field l rest : list ascii) :
  NEWLINE ∉ field → field `prefix_of` (l ++ NEWLINE :: rest) ↔ field `prefix_of` l.
Proof.
  intros Hf. split; [|intros [k ->]; exists (k ++ NEWLINE :: rest); by rewrite app_assoc].
  revert l. induction field as [|x f IH]; intros l; [intros; apply prefix_nil|].
  apply not_elem_of_cons in Hf as [Hx Hf]. destruct l as [|y l]; simpl.
  - intros H%prefix_cons_inv_1. congruence.
  - intros H. pose proof H as ->%prefix_cons_inv_1. apply prefix_cons, IH; [done|].
    by apply prefix_cons_inv_2 in H.
Qed.

Lemma fill_prefix (field l buf : list ascii) :
  NEWLINE ∉ field → field `prefix_of` fill_line (l ++ [NEWLINE]) buf ↔ field `prefix_of` l.
Proof. intros Hf. unfold fill_line. rewrite <- app_assoc. by apply prefix_line. Qed.

Lemma wp_status before field text line fuel (Q : Z → S → Prop) s :
  Forall plain_line before → Forall (λ l, ¬ field `prefix_of` l) before →
  NEWLINE ∉ field → NUL ∉ field → length line = 128%nat → (length (unlines before) < fuel)%nat →
  (∀ line' fuel', length line' = 128%nat → (fuel' + length (unlines before) >= fuel)%nat →
     wp (iter fuel' (status_round field) (text, line')) Q s) →
  wp (iter fuel (status_round field) (unlines before ++ text, line)) Q s.
Proof.
  intros Hpl Hnp Hf1 Hf2. revert line fuel. induction before as [|l before IH]; intros line fuel Hlen Hfu HQ.
  { apply HQ; [done|lia]. }
  apply Forall_cons in Hpl as [(Hl1 & Hl2 & Hl3) Hpl], Hnp as [Hp Hnp].
  unfold unlines in Hfu. cbn [fmap list_fmap concat] in Hfu. rewrite !length_app in Hfu. simpl in Hfu.
  destruct fuel as [|fuel]; [lia|]. apply wp_bind. unfold status_round at 1.
  unfold unlines. cbn [fmap list_fmap concat]. rewrite <- !app_assoc. cbn [app].
  rewrite fgets_line by (done || (change (Z.to_nat LINE_MAX_LEN) with 128%nat; lia)).
  cbv beta iota zeta. rewrite strncmp_prefix by done.
  rewrite bool_decide_false by (by rewrite fill_prefix). apply wp_ret. cbv beta iota.
  apply IH; [done|done|rewrite fill_line_length; [done|rewrite length_app; simpl; lia]|unfold unlines; lia|].
  intros line' fuel' Hl' Hfu'. apply HQ; [done|]. unfold unlines in *. cbn [fmap list_fmap concat].
  rewrite !length_app. simpl. lia.
Qed.

(** The field is there. *)
Lemma wp_status_found before field sep n unit after line (Q : Z → S → Prop) s :
  Forall plain_line before → Forall (λ l, ¬ field `prefix_of` l) before →
  let pre := field ++ sep in let l := pre ++ print_d n ++ unit in
  plain_line l → Forall (λ x, is_digit x = false) pre →
  match unit with [] => True | c :: _ => is_digit c = false end →
  0 ≤ n ≤ INT_MAX → (3 ≤ length pre)%nat → (length pre + length l ≤ 129)%nat →
  length line = 128%nat → Q n s →
  wp (get_proc_self_status_info (Some (unlines before ++ l ++ NEWLINE :: after)) line field) Q s.
Proof.
  intros Hpl Hnp pre l (Hl1 & Hl2 & Hl3) Hpre Hu Hn Hlp Hlong Hlen HQ.
  pose proof Hl1 as Hl1'. unfold l, pre in Hl1', Hl2. rewrite !not_elem_of_app in Hl1', Hl2.
  destruct Hl1' as ((Hf1 & _) & _), Hl2 as ((Hf2 & Hs2) & _ & Hu2).
  apply wp_status; [done..|rewrite length_app; lia|].
  intros line' fuel' Hl' Hfu. destruct fuel' as [|fuel']; [rewrite !length_app in Hfu; simpl in Hfu; lia|].
  apply wp_bind. unfold status_round.
  rewrite fgets_line; [|done|change (Z.to_nat LINE_MAX_LEN) with 128%nat; simpl; lia].
  cbv beta iota zeta. rewrite strncmp_prefix by done. rewrite bool_decide_true; last first.
  { apply fill_prefix; [done|]. exists (sep ++ print_d n ++ unit). unfold l, pre. by rewrite <- app_assoc. }
  apply wp_bind. assert (fill_line (l ++ [NEWLINE]) line' =
    pre ++ print_d n ++ (unit ++ [NEWLINE]) ++ NUL :: drop (length l + 2) line') as ->.
  { unfold fill_line. rewrite length_app. cbn [length]. rewrite <- Nat.add_assoc. unfold l. by rewrite <- !app_assoc. }
  apply wp_status_line; try done.
  - unfold pre. rewrite not_elem_of_app. done.
  - rewrite not_elem_of_app. split; [done|]. by apply (bool_decide_unpack _).
  - by destruct unit.
  - rewrite length_drop. lia.
Qed.

(** The field is not there. *)
Lemma wp_status_missing before field line (Q : Z → S → Prop) s :
  Forall plain_line before → Forall (λ l, ¬ field `prefix_of` l) before →
  NEWLINE ∉ field → NUL ∉ field → length line = 128%nat → Q (-1) s →
  wp (get_proc_self_status_info (Some (unlines before)) line field) Q s.
Proof.
  intros Hpl Hnp Hf1 Hf2 Hlen HQ. unfold get_proc_self_status_info.
  assert (H : wp (iter (Datatypes.S (length (unlines before))) (status_round field)
    (unlines before ++ [], line)) Q s); [|by rewrite app_nil_r in H].
  apply wp_status; [done..|lia|]. intros line' fuel' Hl' Hfu. destruct fuel' as [|fuel']; [lia|].
  apply wp_bind. by apply wp_ret, wp_ret.
Qed.

(** What the status file gives for a field, told from the text of the file alone:
    in the first line that starts with the field, the number that follows a text
    without digits; [-1] when no line starts with it. *)
Definition status_gives (text field : list ascii) (n : Z) : Prop :=
  (∃ before sep unit after,
    text = unlines before ++ (field ++ sep ++ print_d n ++ unit) ++ NEWLINE :: after ∧
    Forall plain_line before ∧ Forall (λ l, ¬ field `prefix_of` l) before ∧
    plain_line (field ++ sep ++ print_d n ++ unit) ∧ Forall (λ x, is_digit x = false) (field ++ sep) ∧
    match unit with [] => True | c :: _ => is_digit c = false end ∧ 0 ≤ n ≤ INT_MAX ∧
    (3 ≤ length (field ++ sep))%nat ∧
    (length (field ++ sep) + length (field ++ sep ++ print_d n ++ unit) ≤ 129)%nat) ∨
  (∃ lines, text = unlines lines ∧ Forall plain_line lines ∧ Forall (λ l, ¬ field `prefix_of` l) lines ∧
    NEWLINE ∉ field ∧ NUL ∉ field ∧ n = -1).

Lemma wp_status_gives text field n line (Q : Z → S → Prop) s :
  status_gives text field n → length line = 128%nat → Q n s →
  wp (get_proc_self_status_info (Some text) line field) Q s.
Proof.
  intros [(before & sep & unit & after & -> & Hpl & Hnp & Hl & Hd & Hu & Hn & H3 & Hlong)
    |(lines & -> & Hpl & Hnp & Hf1 & Hf2 & ->)] Hlen HQ; [|by apply wp_status_missing].
  rewrite app_assoc in Hl. rewrite (app_assoc field sep) in Hlong. rewrite (app_assoc field sep).
  by apply wp_status_found.
Qed.
End status.
