(* ===== verification/ServerMain.v ===== *)
(** * ServerMain: the main thread of server.c and its signal handler

    The main thread sets the server up, then accepts connections for ever: it
    refuses a client when the server is full, and starts a thread for it
    otherwise.  Every round of the loop is given what the operating system
    answers in it, and what the serving threads did to the shared state while the
    round waited for a client.  A signal ends the process in the handler. *)
From Stdlib Require Import Ascii String.
From stdpp Require Import prelude strings.
From S2P Require Import Prelude CMonad CString SecretCode Messages Server ResourceUsage.

Definition CLIENTS_NOW_MAX_COUNT : Z := 40.
Definition SIGINT : Z := 2.
Definition SIGTERM : Z := 15.

(** What happens in a round of the accept loop.  [others] is the effect of the
    serving threads on the shared state while the main thread waits. *)
Inductive round_event :=
  | MallocFails
  | AcceptFails
  | Arrives (c : conn) (created : bool) (others : srv → srv)
  | Interrupted (sig_number : Z) (others : srv → srv).

Record srv_main := SrvMain {
  m_srv : srv;                          (* what the threads share; the client's connection *)
  m_events : list round_event;
  m_inited : list mutex;                (* mutexes passed to pthread_mutex_init *)
  m_threads : list (list ascii * conn); (* threads started: secret code and client *)
  m_args : Z;                           (* live pthread_arg blocks no thread owns *)
  m_stderr : list (list ascii);
  m_listening : bool;
  m_main_left : bool                    (* the main thread called pthread_exit *)
}.

Definition set_m_srv x s :=
  SrvMain x (m_events s) (m_inited s) (m_threads s) (m_args s) (m_stderr s) (m_listening s) (m_main_left s).
Definition set_events x s :=
  SrvMain (m_srv s) x (m_inited s) (m_threads s) (m_args s) (m_stderr s) (m_listening s) (m_main_left s).
Definition add_inited x s :=
  SrvMain (m_srv s) (m_events s) (x :: m_inited s) (m_threads s) (m_args s) (m_stderr s) (m_listening s) (m_main_left s).
Definition add_thread x s :=
  SrvMain (m_srv s) (m_events s) (m_inited s) (m_threads s ++ [x]) (m_args s - 1) (m_stderr s) (m_listening s) (m_main_left s).
Definition add_args n s :=
  SrvMain (m_srv s) (m_events s) (m_inited s) (m_threads s) (m_args s + n) (m_stderr s) (m_listening s) (m_main_left s).
Definition add_m_stderr x s :=
  SrvMain (m_srv s) (m_events s) (m_inited s) (m_threads s) (m_args s) (m_stderr s ++ [x]) (m_listening s) (m_main_left s).
Definition set_listening x s :=
  SrvMain (m_srv s) (m_events s) (m_inited s) (m_threads s) (m_args s) (m_stderr s) x (m_main_left s).

(** A call of a function on the shared state.  [pthread_exit] in it ends the main
    thread, not the process. *)
Definition shared_call {A} (m : C srv A) : C srv_main A := λ s,
  match m (m_srv s) with
  | Ok a x => Ok a (set_m_srv x s)
  | Exit c x => Exit c (SrvMain x (m_events s) (m_inited s) (m_threads s) (m_args s) (m_stderr s)
                          (m_listening s) true)
  | UB => UB
  | NoFuel => NoFuel
  end.

Definition perror (name : list ascii) : C srv_main () := modify (add_m_stderr name).

(** ** The signal handler *)

(** What the system calls of the handler return. *)
Record shutdown_os := ShutdownOs {
  ru_utime : Z * Z;
  ru_stime : Z * Z;
  proc_self_status : option (list ascii);
  line_buffer : list ascii;             (* the uninitialised buffer of the reader *)
  attr_destroy_ok : bool;
  mutex_destroy_ok : mutex → bool
}.

Definition destroy_mutex (os : shutdown_os) (m : mutex) : C srv_main () :=
  if mutex_destroy_ok os m then mret () else perror (chars "pthread_mutex_destroy").

(** The log is closed before the attribute is destroyed; nothing is written to it
    after that, since the handler ends the process. *)
Definition sig_handler (os : shutdown_os) (sig_number : Z) : C srv_main () :=
  if (sig_number =? SIGINT) || (sig_number =? SIGTERM) then
    modify (set_listening false);;
    shared_call (
      pthread_mutex_lock log_file_mutex;;
      log ServerShutdown;;
      n ← get clients_count; log (ClientsConnected n);;
      n ← get clients_win_count; log (ClientsWon n);;
      log (CpuUser (ru_utime os).1 (ru_utime os).2);;
      log (CpuKernel (ru_stime os).1 (ru_stime os).2);;
      peak ← get_proc_self_status_info (proc_self_status os) (line_buffer os) (chars "VmPeak");
      log (PeakMemory peak);;
      current ← get_proc_self_status_info (proc_self_status os) (line_buffer os) (chars "VmSize");
      log (CurrentMemory current));;
    (if attr_destroy_ok os then mret () else perror (chars "pthread_attr_destroy"));;
    shared_call (pthread_mutex_unlock log_file_mutex);;
    destroy_mutex os log_file_mutex;;
    destroy_mutex os clients_count_mutex;;
    destroy_mutex os clients_win_count_mutex;;
    exit 0
  else mret ().

(** ** Set-up *)
Inductive setup_call :=
  | Fopen | SignalInt | SignalTerm | SignalPipe | AttrInit | AttrDetach
  | MutexInit (m : mutex) | Socket | Bind (port : Z) | Listen.

Definition call_name (c : setup_call) : list ascii :=
  match c with
  | Fopen => chars "fopen"
  | SignalInt | SignalTerm | SignalPipe => chars "signal"
  | AttrInit => chars "pthread_attr_init"
  | AttrDetach => chars "pthread_attr_setdetachstate"
  | MutexInit _ => chars "pthread_mutex_init"
  | Socket => chars "socket"
  | Bind _ => chars "bind"
  | Listen => chars "listen"
  end.

(** A call whose failure ends the program. *)
Definition attempt (works : setup_call → bool) (c : setup_call) : C srv_main () :=
  if works c then
    match c with
    | MutexInit m => modify (add_inited m)
    | Listen => modify (set_listening true)
    | _ => mret ()
    end
  else perror (call_name c);; exit 1.

(** [strncpy(dst, src, n)]: the string, cut or filled with NULs to [n] characters. *)
Definition strncpy (n : nat) (src : list ascii) : list ascii :=
  let s := take n (cstr src) in s ++ replicate (n - length s) NUL.

Definition htons16 (port : Z) : Z := port `mod` 65536.

(** The secret code of the command line, or an array of zeros. *)
Definition server_arguments (argv : list (list ascii)) : C srv_main (Z * list ascii) :=
  match argv with
  | _ :: port :: rest =>
      port ← atoi port;
      match rest with
      | code :: _ =>
          valid ← is_valid_secret_code (code ++ [NUL]);
          mret (port, if (valid : bool) then strncpy 5 (code ++ [NUL]) else replicate 5 NUL)
      | [] => mret (port, replicate 5 NUL)
      end
  | _ => perror (chars "Unspecified port number");; exit 1
  end.

(** [clients_now_count_mutex] is not among the mutexes that are initialised.  POSIX
    leaves locking it undefined; as a static variable it is filled with zeros, which
    is the free mutex of the usual implementations, and it is read like that here. *)
Definition server_setup (works : setup_call → bool) (port : Z) : C srv_main () :=
  attempt works Fopen;;
  attempt works SignalInt;;
  attempt works SignalTerm;;
  attempt works SignalPipe;;
  attempt works AttrInit;;
  attempt works AttrDetach;;
  attempt works (MutexInit log_file_mutex);;
  attempt works (MutexInit clients_count_mutex);;
  attempt works (MutexInit clients_win_count_mutex);;
  attempt works Socket;;
  attempt works (Bind (htons16 port));;
  attempt works Listen;;
  shared_call (log ServerStarted).

(** ** The accept loop *)
Definition next_event : C srv_main (option round_event) := λ s,
  match m_events s with
  | [] => Ok None s
  | e :: es => Ok (Some e) (set_events es s)
  end.

(** The connection is closed and the argument block freed. *)
Definition turn_away : C srv_main () :=
  shared_call close;;
  modify (add_args (-1)).

(** [accept] returned a client. *)
Definition take_client (secret_code : list ascii) (c : conn) (created : bool) : C srv_main () :=
  shared_call (modify (set_s_conn c));;
  n ← shared_call (get clients_now_count);
  if CLIENTS_NOW_MAX_COUNT <=? n then
    shared_call (
      pthread_mutex_lock log_file_mutex;;
      log ServerFull;;
      pthread_mutex_unlock log_file_mutex);;
    shared_call (send_gp_message GP_SERV_FULL None);;
    turn_away
  else if created then modify (add_thread (strncpy 5 secret_code, c))
  else
    perror (chars "pthread_create");;
    shared_call (
      pthread_mutex_lock log_file_mutex;;
      log ThreadFailed;;
      pthread_mutex_unlock log_file_mutex);;
    turn_away.

(** One round; without an event [accept] waits for ever.  Were the handler to
    return, [accept] would have failed. *)
Definition accept_round (os : shutdown_os) (secret_code : list ascii) : C srv_main () :=
  e ← next_event;
  match e with
  | None => λ _, NoFuel
  | Some MallocFails => perror (chars "malloc")
  | Some AcceptFails =>
      modify (add_args 1);; perror (chars "accept");; modify (add_args (-1))
  | Some (Arrives c created others) =>
      modify (add_args 1);;
      shared_call (modify others);;
      take_client secret_code c created
  | Some (Interrupted sig_number others) =>
      modify (add_args 1);;
      shared_call (modify others);;
      sig_handler os sig_number;;
      perror (chars "accept");; modify (add_args (-1))
  end.

Definition server_main (works : setup_call → bool) (os : shutdown_os) (fuel : nat)
    (argv : list (list ascii)) : C srv_main () :=
  '(port, secret_code) ← server_arguments argv;
  server_setup works port;;
  iter fuel (λ _ : (), accept_round os secret_code;; mret (inl ())) ().
