(* ===== verification/ServerMainRefine.v ===== *)
(** * ServerMainRefine: the rounds of the accept loop, and the shutdown *)
From Stdlib Require Import Ascii String.
From stdpp Require Import prelude strings.
From S2P Require Import Prelude CMonad CString SecretCode SecretCodeRefine Messages.
From S2P Require Import Server ServerRefine ResourceUsage ServerMain.

(** Nested updates of the state collapse. *)
Ltac norm_main :=
  cbv beta iota delta [add_args set_m_srv set_events add_thread add_m_stderr set_listening add_inited
    m_srv m_events m_inited m_threads m_args m_stderr m_listening m_main_left
    set_s_conn set_closed set_log set_now set_held
    s_conn s_closed s_log clients_now_count clients_count clients_win_count s_held reads writes sent] in *.

Section shared.
Implicit Types s : srv_main.

Lemma wp_shared {A} (m : C srv A) (Q : A → srv_main → Prop) s :
  wp m (λ a x, Q a (set_m_srv x s)) (m_srv s) → wp (shared_call m) Q s.
Proof. unfold wp, shared_call. by destruct (m (m_srv s)). Qed.

Lemma safe_shared {A} (m : C srv A) (Q : A → srv_main → Prop) (E : srv_main → Prop) s :
  safe m (λ a x, Q a (set_m_srv x s))
    (λ x, E (SrvMain x (m_events s) (m_inited s) (m_threads s) (m_args s) (m_stderr s) (m_listening s) true))
    (m_srv s) → safe (shared_call m) Q E s.
Proof. unfold safe, shared_call. by destruct (m (m_srv s)). Qed.

(** A line of the log, written under its mutex. *)
Lemma wp_log_line l (Q : () → srv → Prop) x :
  s_held x = [] → Q () (set_log (s_log x ++ [l]) x) →
  wp (pthread_mutex_lock log_file_mutex;; log l;; pthread_mutex_unlock log_file_mutex) Q x.
Proof.
  intros Hh HQ. apply wp_bind, wp_lock; [rewrite Hh; apply not_elem_of_nil|].
  apply wp_bind, wp_log. eapply wp_unlock; simpl; [by rewrite Hh|apply not_elem_of_nil|].
  destruct x. simpl in *. by subst.
Qed.

Lemma freed n : n + 1 + -1 = n.
Proof. lia. Qed.

(** What the main thread shares after it has accepted a client. *)
Definition arrived (s : srv_main) (c : conn) (others : srv → srv) : srv := set_s_conn c (others (m_srv s)).

(** The server is full: the client is told so and turned away. *)
Lemma wp_round_full os secret c created others es (Q : () → srv_main → Prop) s :
  m_events s = Arrives c created others :: es → let x := arrived s c others in
  s_held x = [] → 40 ≤ clients_now_count x → writes c = [] →
  Q () (SrvMain (Srv (Conn (reads c) [] (sent c ++ block_text GP_SERV_FULL)) (s_closed x + 1)
          (s_log x ++ [ServerFull]) (clients_now_count x) (clients_count x) (clients_win_count x) [])
        es (m_inited s) (m_threads s) (m_args s) (m_stderr s) (m_listening s) (m_main_left s)) →
  wp (accept_round os secret) Q s.
Proof.
  intros He x Hh Hn Hw HQ. apply wp_bind. unfold wp at 1, next_event. rewrite He.
  apply wp_bind, wp_modify, wp_bind, wp_shared, wp_modify, wp_bind, wp_shared, wp_modify, wp_bind, wp_shared, wp_get.
  cbn [m_srv set_m_srv add_args set_events]. fold (arrived s c others). fold x. unfold CLIENTS_NOW_MAX_COUNT.
  rewrite (proj2 (Z.leb_le _ _)) by done. apply wp_bind, wp_shared, wp_log_line; [done|].
  apply wp_bind, wp_shared, wp_send_gp_delivers; [simpl; lia|done|].
  change (gp_text GP_SERV_FULL None) with GP_SERV_FULL.
  generalize dependent (block_text GP_SERV_FULL). intros b HQ.
  apply wp_bind, wp_shared, wp_modify, wp_modify. unfold x, arrived in *. clear x.
  destruct (others (m_srv s)), s, c. norm_main. rewrite freed. by subst.
Qed.

(** There is room: a thread with a copy of the secret code serves the client. *)
Lemma wp_round_admits os secret c others es (Q : () → srv_main → Prop) s :
  m_events s = Arrives c true others :: es → let x := arrived s c others in
  clients_now_count x < 40 →
  Q () (SrvMain x es (m_inited s) (m_threads s ++ [(strncpy 5 secret, c)]) (m_args s) (m_stderr s)
          (m_listening s) (m_main_left s)) →
  wp (accept_round os secret) Q s.
Proof.
  intros He x Hn HQ. apply wp_bind. unfold wp at 1, next_event. rewrite He.
  apply wp_bind, wp_modify, wp_bind, wp_shared, wp_modify, wp_bind, wp_shared, wp_modify, wp_bind, wp_shared, wp_get.
  cbn [m_srv set_m_srv add_args set_events]. fold (arrived s c others). fold x. unfold CLIENTS_NOW_MAX_COUNT.
  rewrite (proj2 (Z.leb_gt _ _)) by done. apply wp_modify. unfold add_thread. cbn. by rewrite Z.add_simpl_r.
Qed.

(** The thread cannot be created: this is logged, and the client turned away. *)
Lemma wp_round_no_thread os secret c others es (Q : () → srv_main → Prop) s :
  m_events s = Arrives c false others :: es → let x := arrived s c others in
  s_held x = [] → clients_now_count x < 40 →
  Q () (SrvMain (set_closed (s_closed x + 1) (set_log (s_log x ++ [ThreadFailed]) x)) es (m_inited s)
          (m_threads s) (m_args s) (m_stderr s ++ [chars "pthread_create"]) (m_listening s) (m_main_left s)) →
  wp (accept_round os secret) Q s.
Proof.
  intros He x Hh Hn HQ. apply wp_bind. unfold wp at 1, next_event. rewrite He.
  apply wp_bind, wp_modify, wp_bind, wp_shared, wp_modify, wp_bind, wp_shared, wp_modify, wp_bind, wp_shared, wp_get.
  cbn [m_srv set_m_srv add_args set_events]. fold (arrived s c others). fold x. unfold CLIENTS_NOW_MAX_COUNT.
  rewrite (proj2 (Z.leb_gt _ _)) by done.
  apply wp_bind, wp_modify, wp_bind, wp_shared, wp_log_line; [done|].
  apply wp_bind, wp_shared, wp_modify, wp_modify. cbv [add_args set_m_srv add_m_stderr m_srv m_events m_inited m_threads m_args m_stderr m_listening m_main_left].
  by rewrite freed.
Qed.

Lemma exits_shared {A} (m : C srv A) (E : Z → srv_main → Prop) s :
  exits m (λ z x, E z (SrvMain x (m_events s) (m_inited s) (m_threads s) (m_args s) (m_stderr s)
    (m_listening s) true)) (m_srv s) → exits (shared_call m) E s.
Proof. unfold exits, shared_call. by destruct (m (m_srv s)). Qed.

(** A message that cannot be sent ends the thread that sends it, which is counted
    as a client less. *)
Lemma exits_send_gp t p o c' x :
  (length (gp_text t p) < 192)%nat → scatter 5 (block_text (gp_text t p)) (s_conn x) = (o, c') → o ≠ Sent →
  s_held x = [] → INT_MIN < clients_now_count x ≤ INT_MAX →
  exits (send_gp_message t p)
    (λ _ x', s_held x' = [] ∧ clients_now_count x' = clients_now_count x - 1 ∧ s_closed x' = s_closed x + 1) x.
Proof.
  intros Hl Hs Ho Hh Hn. apply exits_after, wp_compose; [done|]. apply exits_after.
  pose proof (block_length _ Hl) as Hbl. change GP_SIZE with (Z.of_nat 192). rewrite <- Hbl.
  apply wp_send; rewrite ?Hbl; [lia|done|]. cbn [get_conn srv_has_conn]. rewrite Hs. destruct o; [done| |].
  - change (send_code (Z.of_nat 192) Lost) with (-2). cbn [Z.eqb WRITE_CONN_LOST_ERROR Pos.eqb].
    apply exits_after, wp_lock; [simpl; rewrite Hh; apply not_elem_of_nil|]. apply exits_after, wp_log, exits_after.
    eapply wp_unlock; simpl; [by rewrite Hh|apply not_elem_of_nil|].
    apply exits_after, wp_modify, exits_after, wp_decrement_now; [apply not_elem_of_nil|simpl; lia|]. by apply exits_exit.
  - change (send_code (Z.of_nat 192) Failed) with (-1). cbn [Z.eqb WRITE_CONN_LOST_ERROR Pos.eqb WRITE_OTHER_ERROR].
    apply exits_after, wp_lock; [simpl; rewrite Hh; apply not_elem_of_nil|].
    apply exits_after, wp_log, exits_after, wp_modify, exits_after, wp_log, exits_after.
    eapply wp_unlock; simpl; [by rewrite Hh|apply not_elem_of_nil|].
    apply exits_after, wp_decrement_now; [apply not_elem_of_nil|simpl; lia|]. by apply exits_exit.
Qed.

(** The same when the main thread turns a client away: the server no longer
    accepts clients, counts one client less than it serves, and the argument
    block is lost. *)
Lemma exits_round_full os secret c created others es o c' s :
  m_events s = Arrives c created others :: es → let x := arrived s c others in
  s_held x = [] → 40 ≤ clients_now_count x ≤ INT_MAX →
  scatter 5 (block_text GP_SERV_FULL) c = (o, c') → o ≠ Sent →
  exits (accept_round os secret)
    (λ _ s', m_main_left s' = true ∧ m_args s' = m_args s + 1 ∧ m_threads s' = m_threads s ∧
       clients_now_count (m_srv s') = clients_now_count x - 1) s.
Proof.
  intros He x Hh Hn Hs Ho. apply exits_after. unfold wp at 1, next_event. rewrite He.
  apply exits_after, wp_modify, exits_after, wp_shared, wp_modify.
  apply exits_after, wp_shared, wp_modify, exits_after, wp_shared, wp_get.
  cbn [m_srv set_m_srv add_args set_events]. fold (arrived s c others). fold x. unfold CLIENTS_NOW_MAX_COUNT.
  rewrite (proj2 (Z.leb_le _ _)) by lia. apply exits_after, wp_shared, wp_log_line; [done|].
  apply exits_bind, exits_shared. eapply exits_mono.
  - eapply (exits_send_gp GP_SERV_FULL None o c'); [simpl; lia|exact Hs|done|done|change (INT_MIN < clients_now_count x ≤ INT_MAX); lia].
  - intros z x' (_ & Hnow & _). cbn. by rewrite Hnow.
Qed.
End shared.

(** ** Shutdown *)

(** The status file can be opened and its text gives a value for a field. *)
Definition readable (os : shutdown_os) (field : list ascii) (value : Z) : Prop :=
  length (line_buffer os) = 128%nat ∧
  ∃ text, proc_self_status os = Some text ∧ status_gives text field value.

Lemma wp_readable os field value (Q : Z → srv → Prop) x :
  readable os field value → Q value x →
  wp (get_proc_self_status_info (proc_self_status os) (line_buffer os) field) Q x.
Proof. intros (Hl & text & -> & Hg) HQ. by eapply wp_status_gives. Qed.

(** The messages about what could not be destroyed. *)
Definition complaint (ok : bool) (name : list ascii) : list (list ascii) := if ok then [] else [name].
Definition shutdown_errors (os : shutdown_os) : list (list ascii) :=
  complaint (attr_destroy_ok os) (chars "pthread_attr_destroy") ++
  concat ((λ m, complaint (mutex_destroy_ok os m) (chars "pthread_mutex_destroy")) <$>
    [log_file_mutex; clients_count_mutex; clients_win_count_mutex]).

Definition shutdown_log (os : shutdown_os) (x : srv) (peak current : Z) : list log_line :=
  [ServerShutdown; ClientsConnected (clients_count x); ClientsWon (clients_win_count x);
   CpuUser (ru_utime os).1 (ru_utime os).2; CpuKernel (ru_stime os).1 (ru_stime os).2;
   PeakMemory peak; CurrentMemory current].

Lemma wp_complaint (ok : bool) name (Q : () → srv_main → Prop) s :
  Q () (SrvMain (m_srv s) (m_events s) (m_inited s) (m_threads s) (m_args s) (m_stderr s ++ complaint ok name)
     (m_listening s) (m_main_left s)) → wp (if ok then mret () else perror name) Q s.
Proof.
  intros HQ. destruct ok; [|apply HQ]. apply wp_ret. cbn in HQ. rewrite app_nil_r in HQ. by destruct s.
Qed.

Lemma exits_sig_handler os sig peak current s :
  sig = SIGINT ∨ sig = SIGTERM → s_held (m_srv s) = [] →
  readable os (chars "VmPeak") peak → readable os (chars "VmSize") current →
  exits (sig_handler os sig)
    (λ z s', z = 0 ∧ s' = SrvMain
       (set_log (s_log (m_srv s) ++ shutdown_log os (m_srv s) peak current) (m_srv s)) (m_events s) (m_inited s)
       (m_threads s) (m_args s) (m_stderr s ++ shutdown_errors os) false (m_main_left s)) s.
Proof.
  intros Hsig Hh Hp Hc. unfold sig_handler.
  assert ((sig =? SIGINT) || (sig =? SIGTERM) = true) as -> by (unfold SIGINT, SIGTERM in *; lia).
  destruct s as [[] ? ? ? ? ? ? ?]. norm_main. subst.
  apply exits_after, wp_modify, exits_after, wp_shared. norm_main.
  apply wp_bind, wp_lock; [apply not_elem_of_nil|]. apply wp_bind, wp_log.
  apply wp_bind, wp_get, wp_bind, wp_log, wp_bind, wp_get, wp_bind, wp_log. norm_main.
  apply wp_bind, wp_log, wp_bind, wp_log, wp_bind, (wp_readable _ _ _ _ _ Hp). norm_main.
  apply wp_bind, wp_log, wp_bind, (wp_readable _ _ _ _ _ Hc), wp_log. norm_main.
  apply exits_after, wp_complaint, exits_after, wp_shared. norm_main.
  eapply wp_unlock; [done|apply not_elem_of_nil|]. norm_main.
  do 3 (apply exits_after, wp_complaint; norm_main). apply exits_exit. split; [done|].
  unfold shutdown_log, shutdown_errors. cbn [fmap list_fmap concat].
  repeat match goal with |- context [complaint ?ok ?name] => generalize (complaint ok name); intros ? end.
  by rewrite app_nil_r, <- !app_assoc.
Qed.

(** The handler takes the mutex of the log: when the signal interrupts a thread
    that holds it, the thread waits for itself. *)
Lemma sig_handler_deadlock os sig s :
  sig = SIGINT ∨ sig = SIGTERM → log_file_mutex ∈ s_held (m_srv s) → sig_handler os sig s = UB.
Proof.
  intros Hsig Hh. unfold sig_handler.
  assert ((sig =? SIGINT) || (sig =? SIGTERM) = true) as -> by (unfold SIGINT, SIGTERM in *; lia).
  erewrite run_bind by done. apply run_bind_ub. unfold shared_call.
  rewrite run_bind_ub; [done|]. unfold pthread_mutex_lock. by rewrite bool_decide_true.
Qed.

(** ** Set-up *)
Definition setup_calls (port : Z) : list setup_call :=
  [Fopen; SignalInt; SignalTerm; SignalPipe; AttrInit; AttrDetach; MutexInit log_file_mutex;
   MutexInit clients_count_mutex; MutexInit clients_win_count_mutex; Socket; Bind (htons16 port); Listen].

Lemma wp_attempt works c (Q : () → srv_main → Prop) s :
  works c = true →
  Q () (match c with MutexInit m => add_inited m s | Listen => set_listening true s | _ => s end) →
  wp (attempt works c) Q s.
Proof. intros Hw HQ. unfold attempt. rewrite Hw. by destruct c. Qed.

Lemma wp_server_setup works port (Q : () → srv_main → Prop) s :
  (∀ c, c ∈ setup_calls port → works c = true) →
  Q () (SrvMain (set_log (s_log (m_srv s) ++ [ServerStarted]) (m_srv s)) (m_events s)
         ([clients_win_count_mutex; clients_count_mutex; log_file_mutex] ++ m_inited s)
         (m_threads s) (m_args s) (m_stderr s) true (m_main_left s)) →
  wp (server_setup works port) Q s.
Proof.
  intros Hw HQ. unfold server_setup.
  do 12 (apply wp_bind, wp_attempt; [apply Hw; unfold setup_calls; rewrite !elem_of_cons; tauto|]).
  by apply wp_shared, wp_log.
Qed.

(** The calls before the first one that fails work; what they change. *)
Lemma exits_attempts works calls (k : C srv_main ()) s :
  (∃ c, c ∈ calls ∧ works c = false) →
  exits (foldr (λ c m, attempt works c;; m) k calls)
    (λ z s', z = 1 ∧ m_srv s' = m_srv s ∧ m_threads s' = m_threads s ∧
       ∃ c, c ∈ calls ∧ works c = false ∧ m_stderr s' = m_stderr s ++ [call_name c]) s.
Proof.
  revert s. induction calls as [|c calls IH]; intros s (c' & Hin & Hf); [by apply not_elem_of_nil in Hin|].
  cbn [foldr]. destruct (works c) eqn:Hc.
  - apply elem_of_cons in Hin as [->|Hin]; [congruence|]. apply exits_after, wp_attempt; [done|].
    eapply exits_mono; [apply IH; eauto|]. intros z s' (-> & Hs & Ht & c2 & Hc2 & Hf2 & He).
    split; [done|]. rewrite Hs, Ht, He. split_and!; [by destruct c|by destruct c|].
    exists c2. split_and!; [by right|done|]. by destruct c.
  - apply exits_bind. unfold attempt. rewrite Hc. apply exits_after, wp_modify, exits_exit.
    split_and!; try done. exists c. split_and!; [by left|done|done].
Qed.

(** ** Arguments *)
Lemma wp_arguments prog port code rest (Q : Z * list ascii → srv_main → Prop) s :
  in_int (atoi_Z port) = true → NUL ∉ code →
  Q (atoi_Z port, if bool_decide (valid_code code) then code ++ [NUL] else replicate 5 NUL) s →
  wp (server_arguments (prog :: port :: code :: rest)) Q s.
Proof.
  intros Hp Hn HQ. unfold server_arguments, atoi, chk. rewrite Hp. apply wp_bind, wp_ret, wp_bind.
  apply wp_is_valid; [right; apply elem_of_app; right; by left|]. apply wp_ret.
  rewrite (bool_decide_ext _ (valid_code code)) by (rewrite valid_buffer_string, cstr_app_NUL by
    (done || apply elem_of_app; right; by left); done).
  case_bool_decide as Hv; [|done]. destruct Hv as [Hl _]. change (Z.to_nat SECRET_CODE_LEN) with 4%nat in Hl.
  unfold strncpy. rewrite cstr_app_NUL, take_ge by (done || lia). rewrite Hl. done.
Qed.

(** ** Safety of the accept loop *)

(** Between two rounds: no mutex is held by the main thread and the number of
    clients is an [int] that can be decremented. *)
Definition idle (x : srv) : Prop := s_held x = [] ∧ INT_MIN < clients_now_count x ≤ INT_MAX.

(** The serving threads keep the shared state in order; the signals are those the
    handler is installed for. *)
Definition event_ok (e : round_event) : Prop :=
  match e with
  | Arrives _ _ others => ∀ x, idle x → idle (others x)
  | Interrupted sig others => (sig = SIGINT ∨ sig = SIGTERM) ∧ ∀ x, idle x → idle (others x)
  | _ => True
  end.

Record main_ok (secret : list ascii) (s : srv_main) : Prop := {
  mo_idle : idle (m_srv s);
  mo_args : m_args s = 0;
  mo_events : Forall event_ok (m_events s);
  mo_threads : Forall (λ t, t.1 = strncpy 5 secret) (m_threads s)
}.

(** However the process or the main thread ends. *)
Definition main_ended (secret : list ascii) (s : srv_main) : Prop :=
  s_held (m_srv s) = [] ∧ m_args s = 1 ∧ Forall (λ t, t.1 = strncpy 5 secret) (m_threads s).

Lemma safe_send_idle t p x :
  (length (gp_text t p) < 192)%nat → idle x →
  safe (send_gp_message t p) (λ _ x', idle x') (λ x', s_held x' = []) x.
Proof.
  intros Hl [Hh Hn]. destruct (scatter 5 (block_text (gp_text t p)) (s_conn x)) as [o c'] eqn:Hs.
  destruct (decide (o = Sent)) as [->|Ho].
  - apply safe_wp, wp_bind, wp_compose; [done|]. apply wp_bind.
    pose proof (block_length _ Hl) as Hbl. change GP_SIZE with (Z.of_nat 192). rewrite <- Hbl.
    apply wp_send; rewrite ?Hbl; [lia|done|]. cbn [get_conn srv_has_conn]. rewrite Hs. by apply wp_ret.
  - apply safe_exits. eapply exits_mono; [by eapply exits_send_gp|]. by intros z x' (Hh' & _).
Qed.

Lemma safe_turn_away secret s :
  idle (m_srv s) → m_args s = 1 → Forall event_ok (m_events s) →
  Forall (λ t, t.1 = strncpy 5 secret) (m_threads s) →
  safe turn_away (λ _ s', main_ok secret s') (main_ended secret) s.
Proof.
  intros [Hh Hn] Ha He Ht. apply safe_wp, wp_bind, wp_shared, wp_modify, wp_modify.
  constructor; cbn; [done|lia|done|done].
Qed.

Lemma safe_admit secret c created s :
  idle (m_srv s) → m_args s = 1 → Forall event_ok (m_events s) →
  Forall (λ t, t.1 = strncpy 5 secret) (m_threads s) →
  safe (take_client secret c created) (λ _ s', main_ok secret s') (main_ended secret) s.
Proof.
  intros [Hh Hn] Ha He Ht. apply safe_bind, safe_wp, wp_shared, wp_modify, safe_bind, safe_wp, wp_shared, wp_get.
  destruct (CLIENTS_NOW_MAX_COUNT <=? _).
  - apply safe_bind, safe_wp, wp_shared, wp_log_line; [done|]. apply safe_bind, safe_shared.
    eapply safe_conseq; [apply safe_send_idle; [simpl; lia|done]| |].
    + intros r x' Hx'. by apply safe_turn_away.
    + intros x' Hx'. by split.
  - destruct created.
    + apply safe_wp, wp_modify. constructor; cbn; [done|lia|done|]. by rewrite Forall_app, Forall_singleton.
    + apply safe_bind, safe_wp, wp_modify, safe_bind, safe_wp, wp_shared, wp_log_line; [done|]. by apply safe_turn_away.
Qed.

Lemma safe_accept_round os secret peak current s :
  readable os (chars "VmPeak") peak → readable os (chars "VmSize") current → main_ok secret s →
  safe (accept_round os secret) (λ _ s', main_ok secret s') (main_ended secret) s.
Proof.
  intros Hp Hc [Hi Ha He Ht]. apply safe_bind. unfold safe at 1, next_event.
  destruct (m_events s) as [|e es] eqn:Hes; [done|]. apply Forall_cons in He as [He Hes'].
  destruct e as [| |c created others|sig others].
  - by apply safe_wp, wp_modify.
  - apply safe_wp, wp_bind, wp_modify, wp_bind, wp_modify, wp_modify. constructor; cbn; [done|lia|done|done].
  - apply safe_bind, safe_wp, wp_modify, safe_bind, safe_wp, wp_shared, wp_modify.
    apply safe_admit; cbn; [by apply He|lia|done|done].
  - destruct He as [Hsig He].
    apply safe_bind, safe_wp, wp_modify, safe_bind, safe_wp, wp_shared, wp_modify, safe_bind.
    destruct (He _ Hi) as [Hh Hn]. apply safe_exits.
    eapply exits_mono; [by eapply exits_sig_handler|]. intros z s' [_ ->].
    split_and!; [done|cbn; lia|done].
Qed.

Lemma safe_main_loop os secret fuel peak current s :
  readable os (chars "VmPeak") peak → readable os (chars "VmSize") current → main_ok secret s →
  safe (iter fuel (λ _ : (), accept_round os secret;; mret (inl ())) ())
    (λ (_ : ()) _, False) (main_ended secret) s.
Proof.
  intros Hp Hc Hm. apply (safe_iter (λ _ s, main_ok secret s)); [|done].
  intros [] s' Hs'. apply safe_bind. eapply safe_mono; [by eapply safe_accept_round|].
  intros [] s2 Hs2. by apply safe_ret.
Qed.

(** ** The whole run of the main thread *)

(** What becomes of a client: it is refused when 40 are counted, and served by a
    thread of its own when one can be created. *)
Inductive verdict := Served | Refused | Unserved.

Definition verdict_of (now : Z) (created : bool) : verdict :=
  if 40 <=? now then Refused else if created then Served else Unserved.

(** The shared state after the main thread has dealt with the client: the refused
    one has been told so, the sockets of those that are not served are closed, and
    the log says why. *)
Definition after_client (c : conn) (v : verdict) (x : srv) : srv :=
  match v with
  | Served => set_s_conn c x
  | Refused => set_s_conn (Conn (reads c) [] (sent c ++ block_text GP_SERV_FULL))
                 (set_closed (s_closed x + 1) (set_log (s_log x ++ [ServerFull]) x))
  | Unserved => set_s_conn c (set_closed (s_closed x + 1) (set_log (s_log x ++ [ThreadFailed]) x))
  end.

(** The clients that come, one after the other: the shared state at the end, the
    clients that were given a thread, and the messages on the standard error. *)
Fixpoint accepts (es : list round_event) (x : srv) : srv * list conn * list (list ascii) :=
  match es with
  | [] => (x, [], [])
  | MallocFails :: es => let '(x', cs, errs) := accepts es x in (x', cs, chars "malloc" :: errs)
  | AcceptFails :: es => let '(x', cs, errs) := accepts es x in (x', cs, chars "accept" :: errs)
  | Arrives c created others :: es =>
      let v := verdict_of (clients_now_count (others x)) created in
      let '(x', cs, errs) := accepts es (after_client c v (others x)) in
      (x', match v with Served => c :: cs | _ => cs end,
       match v with Unserved => chars "pthread_create" :: errs | _ => errs end)
  | Interrupted _ _ :: _ => (x, [], [])
  end.

(** A client can be written to, and the other threads do not take or release
    mutexes for the main thread. *)
Definition orderly (e : round_event) : Prop :=
  match e with
  | MallocFails | AcceptFails => True
  | Arrives c _ others => writes c = [] ∧ ∀ x, s_held (others x) = s_held x
  | Interrupted _ _ => False
  end.

(** The state of the main thread after these events. *)
Definition after_events (es : list round_event) (secret : list ascii) (rest : list round_event)
    (s : srv_main) : srv_main :=
  let '(x, cs, errs) := accepts es (m_srv s) in
  SrvMain x rest (m_inited s) (m_threads s ++ ((λ c, (strncpy 5 secret, c)) <$> cs)) (m_args s)
    (m_stderr s ++ errs) (m_listening s) (m_main_left s).

Section run.
Context (os : shutdown_os) (secret : list ascii).

Lemma wp_round e es s (Q : () → srv_main → Prop) :
  m_events s = e :: es → orderly e → s_held (m_srv s) = [] →
  (let s' := after_events [e] secret es s in s_held (m_srv s') = [] → Q () s') → wp (accept_round os secret) Q s.
Proof.
  intros He Ho Hh HQ. destruct e as [| |c created others|]; [| | |done].
  - apply wp_bind. unfold wp at 1, next_event. rewrite He. apply wp_modify. specialize (HQ Hh).
    unfold after_events in HQ. cbn in HQ. by rewrite app_nil_r in HQ.
  - apply wp_bind. unfold wp at 1, next_event. rewrite He.
    apply wp_bind, wp_modify, wp_bind, wp_modify, wp_modify. specialize (HQ Hh).
    unfold after_events in HQ. cbn [accepts fmap list_fmap] in HQ. rewrite app_nil_r in HQ. norm_main. by rewrite freed.
  - destruct Ho as [Hw Hot]. specialize (Hot (m_srv s)). rewrite Hh in Hot.
    unfold after_events in HQ. cbn [accepts] in HQ. unfold verdict_of in HQ.
    destruct (40 <=? clients_now_count (others (m_srv s))) eqn:En; [|destruct created].
    + eapply wp_round_full; [done|done|cbn; lia|done|]. cbn [after_client fmap list_fmap] in HQ.
      rewrite !app_nil_r in HQ. specialize (HQ Hot). unfold arrived. generalize dependent (block_text GP_SERV_FULL).
      intros b HQ. norm_main. rewrite Hot in HQ. exact HQ.
    + eapply wp_round_admits; [done|cbn; lia|]. cbn [after_client fmap list_fmap] in HQ.
      rewrite !app_nil_r in HQ. exact (HQ Hot).
    + eapply wp_round_no_thread; [done|done|cbn; lia|]. cbn [after_client fmap list_fmap] in HQ.
      rewrite !app_nil_r in HQ. exact (HQ Hot).
Qed.

Lemma after_events_cons e es rest s :
  orderly e →
  after_events es secret rest (after_events [e] secret (es ++ rest) s) = after_events (e :: es) secret rest s.
Proof.
  intros Ho. unfold after_events. destruct e as [| |c created others|]; [| | |done]; cbn [accepts].
  - cbn [m_srv]. destruct (accepts es _) as [[x cs] errs]. cbn. by rewrite app_nil_r, <- app_assoc.
  - cbn [m_srv]. destruct (accepts es _) as [[x cs] errs]. cbn. by rewrite app_nil_r, <- app_assoc.
  - cbn [m_srv]. destruct (accepts es _) as [[x cs] errs]. unfold verdict_of.
    destruct (40 <=? _); [|destruct created]; cbn [m_threads m_stderr fmap list_fmap m_inited m_args m_listening m_main_left];
      by rewrite ?app_nil_r, <- ?app_assoc.
Qed.

(** The rounds before the signal, and the signal. *)
Lemma exits_rounds es sig others peak current fuel s :
  (length es < fuel)%nat → m_events s = es ++ [Interrupted sig others] → Forall orderly es →
  sig = SIGINT ∨ sig = SIGTERM → (∀ x, s_held (others x) = s_held x) → s_held (m_srv s) = [] →
  readable os (chars "VmPeak") peak → readable os (chars "VmSize") current →
  let s1 := after_events es secret [] s in let x := others (m_srv s1) in
  exits (iter fuel (λ _ : (), accept_round os secret;; mret (inl ())) () : C srv_main ())
    (λ z s', z = 0 ∧ s' = SrvMain (set_log (s_log x ++ shutdown_log os x peak current) x) [] (m_inited s)
       (m_threads s1) (m_args s + 1) (m_stderr s1 ++ shutdown_errors os) false (m_main_left s)) s.
Proof.
  revert fuel s. induction es as [|e es IH]; intros [|fuel] s Hf Hes Ho Hsig Hot Hh Hp Hc; simpl in Hf; try lia.
  - apply exits_bind, exits_bind, exits_after. unfold wp at 1, next_event. rewrite Hes.
    apply exits_after, wp_modify, exits_after, wp_shared, wp_modify, exits_bind.
    eapply exits_mono; [eapply (exits_sig_handler os sig peak current); [done|cbn; by rewrite Hot|done|done]|].
    intros z s' [-> ->]. split; [done|]. unfold after_events. cbn. by rewrite !app_nil_r.
  - apply Forall_cons in Ho as [Ho Hos]. apply exits_after, wp_bind.
    eapply wp_round; [exact Hes|done|done|]. intros s1 Hh1. apply wp_ret. cbn beta iota.
    assert (m_events s1 = es ++ [Interrupted sig others]) as He1.
    { unfold s1, after_events. by destruct (accepts [e] (m_srv s)) as [[? ?] ?]. }
    assert (m_inited s1 = m_inited s ∧ m_args s1 = m_args s ∧ m_main_left s1 = m_main_left s) as (Hi & Ha & Hml).
    { unfold s1, after_events. by destruct (accepts [e] (m_srv s)) as [[? ?] ?]. }
    pose proof (IH fuel s1 ltac:(lia) He1 Hos Hsig Hot Hh1 Hp Hc) as H. cbv zeta in H |- *.
    assert (after_events es secret [] s1 = after_events (e :: es) secret [] s) as Hs1.
    { rewrite <- after_events_cons by done. unfold s1, after_events.
      by destruct (accepts [e] (m_srv s)) as [[? ?] ?]. }
    rewrite Hs1, Hi, Ha, Hml in H. exact H.
Qed.
End run.

(** The secret code that the threads are given. *)
Definition secret_of (rest : list (list ascii)) : list ascii :=
  match rest with
  | code :: _ => if bool_decide (valid_code code) then code ++ [NUL] else replicate 5 NUL
  | [] => replicate 5 NUL
  end.

Lemma wp_secret prog port rest (Q : Z * list ascii → srv_main → Prop) s :
  in_int (atoi_Z port) = true → Forall (λ a, NUL ∉ a) rest → Q (atoi_Z port, secret_of rest) s →
  wp (server_arguments (prog :: port :: rest)) Q s.
Proof.
  intros Hp Hr HQ. destruct rest as [|code rest].
  - unfold server_arguments, atoi, chk. rewrite Hp. by apply wp_bind, wp_ret, wp_ret.
  - apply Forall_cons in Hr as [Hc _]. by apply wp_arguments.
Qed.

(** Its copy in the argument of a thread is itself. *)
Lemma secret_copied rest : strncpy 5 (secret_of rest) = secret_of rest.
Proof.
  destruct rest as [|code rest]; [done|]. cbn [secret_of]. case_bool_decide as Hv; [|done].
  destruct Hv as [Hl Hall]. change (Z.to_nat SECRET_CODE_LEN) with 4%nat in Hl. unfold strncpy.
  rewrite cstr_app_NUL, take_ge by (lia || (intros Hin; rewrite Forall_forall in Hall;
    by apply (color_not_NUL NUL); [apply Hall|])). by rewrite Hl.
Qed.
