(* ===== verification/Threads.v ===== *)
(** * Threads: interleavings of threads with mutexes and shared counters

    A thread is a sequence of instructions: it locks and unlocks mutexes, and
    updates shared counters by a load and a store, between which the others may
    run.  [run_step i] lets thread [i] execute one instruction; it is [None] when
    the thread has ended or is blocked.  For threads that take the mutexes in the
    order of their ranks and touch a counter only under its mutex, no update is
    lost, no deadlock can occur, and every schedule comes to an end. *)
From stdpp Require Import prelude functions list.
From S2P Require Import Prelude.

(** The mutexes, with the order in which they are taken, and the counters, with
    the mutexes that protect them. *)
Class Locking (M V : Type) `{!EqDecision M, !EqDecision V} := {
  rank : M → nat;
  max_rank : nat;
  rank_le m : (rank m ≤ max_rank)%nat;
  guard : V → M
}.

Inductive instr (M V : Type) :=
  | Lock (m : M)
  | Unlock (m : M)
  | Load (v : V)               (* the register gets the value of the counter *)
  | Store (v : V) (d : Z)      (* the counter gets the register plus [d] *)
  | Local.                     (* anything that leaves counters and mutexes alone *)
Arguments Lock {M V} m.
Arguments Unlock {M V} m.
Arguments Load {M V} v.
Arguments Store {M V} v d.
Arguments Local {M V}.

Section threads.
Context {M V : Type} `{Locking M V}.
Notation prog := (list (instr M V)).

Record thread := Thread {
  executed : prog;
  todo : prog;
  holding : list M;
  reg : Z
}.

Record config := Config {
  value : V → Z;
  owner : M → option nat;
  threads : list thread
}.

(** The thread after its next instruction. *)
Definition advance (t : thread) (h : list M) (r : Z) : thread :=
  match todo t with
  | [] => t
  | x :: p => Thread (executed t ++ [x]) p h r
  end.

Definition run_step (i : nat) (c : config) : option config :=
  t ← threads c !! i;
  match todo t with
  | [] => None
  | Lock m :: _ =>
      match owner c m with
      | None => Some (Config (value c) (<[m := Some i]> (owner c))
                  (<[i := advance t (m :: holding t) (reg t)]> (threads c)))
      | Some _ => None
      end
  | Unlock m :: _ =>
      if bool_decide (owner c m = Some i) then
        Some (Config (value c) (<[m := None]> (owner c))
          (<[i := advance t (filter (.≠ m) (holding t)) (reg t)]> (threads c)))
      else None
  | Load v :: _ =>
      Some (Config (value c) (owner c) (<[i := advance t (holding t) (value c v)]> (threads c)))
  | Store v d :: _ =>
      Some (Config (<[v := reg t + d]> (value c)) (owner c)
        (<[i := advance t (holding t) (reg t)]> (threads c)))
  | Local :: _ =>
      Some (Config (value c) (owner c) (<[i := advance t (holding t) (reg t)]> (threads c)))
  end.

(** Any thread may be next. *)
Definition tstep (c c' : config) : Prop := ∃ i, run_step i c = Some c'.

(** A schedule: the threads to run, one after the other. *)
Fixpoint run (sched : list nat) (c : config) : option config :=
  match sched with
  | [] => Some c
  | i :: sched => c' ← run_step i c; run sched c'
  end.

(** Threads that are about to run the programs [ps]. *)
Definition fresh (p : prog) : thread := Thread [] p [] 0.
Definition start (ps : list prog) : config := Config (λ _, 0) (λ _, None) (fresh <$> ps).

(** ** Discipline *)
Definition below (m : M) (h : list M) : bool := forallb (λ m', bool_decide (rank m' < rank m)%nat) h.

(** A program that keeps to the rules when the mutexes [h] are held: a mutex is
    taken above those that are held, the last one taken is released first, a
    counter is loaded and stored under its mutex, nothing is held at the end. *)
Fixpoint disciplined (h : list M) (p : prog) : bool :=
  match p with
  | [] => bool_decide (h = [])
  | Lock m :: p => below m h && disciplined (m :: h) p
  | Unlock m :: p =>
      match h with
      | m' :: h' => bool_decide (m = m') && disciplined h' p
      | [] => false
      end
  | Load v :: Store v' d :: p =>
      bool_decide (v = v') && bool_decide (guard v ∈ h) && disciplined h p
  | Local :: p => disciplined h p
  | _ => false
  end.

Lemma disciplined_app h p q : disciplined h p = true → disciplined h (p ++ q) = disciplined [] q.
Proof.
  remember (length p) as n eqn:Hn. revert h p Hn. induction (lt_wf n) as [n _ IH]. intros h p -> Hp.
  destruct p as [|[m|m|v|v d|] p]; cbn [disciplined app] in *.
  - by apply bool_decide_eq_true in Hp as ->.
  - apply andb_true_iff in Hp as [Hb Hp]. rewrite Hb. cbn [andb]. by eapply IH; [|done|]; [simpl; lia|].
  - destruct h as [|m' h]; [done|]. apply andb_true_iff in Hp as [Hb Hp]. rewrite Hb. cbn [andb].
    by eapply IH; [|done|]; [simpl; lia|].
  - destruct p as [|[| | |v' d|] p]; try done. cbn [app]. apply andb_true_iff in Hp as [Hb Hp]. rewrite Hb.
    cbn [andb]. by eapply IH; [|done|]; [simpl; lia|].
  - done.
  - by eapply IH; [|done|]; [simpl; lia|].
Qed.

(** What a program does to a counter. *)
Definition change (v : V) (x : instr M V) : Z :=
  match x with Store v' d => if bool_decide (v = v') then d else 0 | _ => 0 end.
Definition delta (v : V) (p : prog) : Z := foldr (λ x z, change v x + z) 0 p.

Definition total (v : V) (ts : list thread) : Z := foldr (λ t z, delta v (executed t) + z) 0 ts.

Lemma delta_app v p q : delta v (p ++ q) = delta v p + delta v q.
Proof.
  induction p as [|x p IH]; [done|]. change (change v x + delta v (p ++ q) = change v x + delta v p + delta v q). lia.
Qed.

Lemma delta_single v x : delta v [x] = change v x.
Proof. cbn. lia. Qed.

Lemma total_insert v ts i t t' :
  ts !! i = Some t →
  total v (<[i := t']> ts) = total v ts - delta v (executed t) + delta v (executed t').
Proof.
  revert i. induction ts as [|t0 ts IH]; intros [|i] Hi; [done|done|injection Hi as ->|].
  - change (delta v (executed t') + total v ts = delta v (executed t) + total v ts - delta v (executed t) + delta v (executed t')). lia.
  - change (delta v (executed t0) + total v (<[i := t']> ts) =
      delta v (executed t0) + total v ts - delta v (executed t) + delta v (executed t')).
    rewrite (IH i) by done. lia.
Qed.

(** ** The invariant *)

(** A thread keeps to the rules; between load and store its register has the
    value of the counter. *)
Definition thread_ok (f : V → Z) (t : thread) : Prop :=
  disciplined (holding t) (todo t) = true ∨
  ∃ v d p, todo t = Store v d :: p ∧ guard v ∈ holding t ∧ reg t = f v ∧ disciplined (holding t) p = true.

Fixpoint ordered (h : list M) : bool :=
  match h with [] => true | m :: h' => below m h' && ordered h' end.

Record inv (c : config) : Prop := {
  inv_thread i t : threads c !! i = Some t → thread_ok (value c) t ∧ ordered (holding t) = true;
  inv_owner m i : owner c m = Some i ↔ ∃ t, threads c !! i = Some t ∧ m ∈ holding t;
  inv_value v : value c v = total v (threads c)
}.

Lemma below_spec m h : below m h = true ↔ ∀ m', m' ∈ h → (rank m' < rank m)%nat.
Proof.
  unfold below. rewrite forallb_forall. split; intros Hh m' Hm.
  - apply list_elem_of_In in Hm. specialize (Hh _ Hm). by apply bool_decide_eq_true in Hh.
  - apply bool_decide_eq_true, Hh. by apply list_elem_of_In.
Qed.

Lemma below_notin m h : below m h = true → m ∉ h.
Proof. intros Hb Hin. rewrite below_spec in Hb. specialize (Hb _ Hin). lia. Qed.

Lemma filter_ne_notin m (h : list M) : m ∉ h → filter (.≠ m) h = h.
Proof.
  induction h as [|x h IH]; [done|]. intros [Hx Hh]%not_elem_of_cons.
  rewrite filter_cons_True by congruence. by rewrite IH.
Qed.

Lemma inv_start ps : Forall (λ p, disciplined [] p = true) ps → inv (start ps).
Proof.
  intros Hps. split; cbn [threads start value owner].
  - intros i t Ht. rewrite list_lookup_fmap in Ht. destruct (ps !! i) as [p|] eqn:Hp; [|done].
    injection Ht as <-. split; [left|done]. rewrite Forall_forall in Hps.
    apply Hps. by eapply list_elem_of_lookup_2.
  - intros m i. split; [done|]. intros (t & Ht & Hm). rewrite list_lookup_fmap in Ht.
    destruct (ps !! i); [|done]. injection Ht as <-. by apply not_elem_of_nil in Hm.
  - intros v. clear Hps. induction ps as [|p ps IH]; [done|]. cbn. exact IH.
Qed.

(** The same for a thread that has just been created. *)
Lemma inv_spawn p c :
  disciplined [] p = true → inv c → inv (Config (value c) (owner c) (threads c ++ [fresh p])).
Proof.
  intros Hp [Ht Ho Hv]. split; cbn [threads value owner].
  - intros i t [Hi|[_ Hi]]%lookup_app_Some; [by eapply Ht|].
    apply list_lookup_singleton_Some in Hi as [_ <-]. split; [by left|done].
  - intros m i. rewrite Ho. split; intros (t & Hi & Hm); exists t; (split; [|done]).
    + by apply lookup_app_l_Some.
    + apply lookup_app_Some in Hi as [Hi|[_ Hi]]; [done|].
      apply list_lookup_singleton_Some in Hi as [_ <-]. by apply not_elem_of_nil in Hm.
  - intros v. rewrite Hv. unfold total. rewrite foldr_app. done.
Qed.

(** One thread changes, and with it the owners and the counters. *)
Lemma inv_update c i t t' f o :
  inv c → threads c !! i = Some t → thread_ok f t' → ordered (holding t') = true →
  (∀ j tj, j ≠ i → threads c !! j = Some tj → thread_ok f tj) →
  (∀ m, (o m = Some i ↔ m ∈ holding t') ∧ ∀ j, j ≠ i → o m = Some j ↔ owner c m = Some j) →
  (∀ v, f v = value c v - delta v (executed t) + delta v (executed t')) →
  inv (Config f o (<[i := t']> (threads c))).
Proof.
  intros [Ht Ho Hv] Hi Hok Hord Hother Hown Hval.
  assert (i < length (threads c))%nat as Hlen by (by eapply lookup_lt_Some).
  split; cbn [threads value owner].
  - intros j tj Hj. destruct (decide (j = i)) as [->|Hne].
    + rewrite list_lookup_insert_eq in Hj by done. injection Hj as <-. done.
    + rewrite list_lookup_insert_ne in Hj by done. split; [by eapply Hother|]. by apply (Ht j).
  - intros m j. destruct (Hown m) as [Hm1 Hm2]. destruct (decide (j = i)) as [->|Hne].
    + rewrite Hm1. rewrite list_lookup_insert_eq by done. split; [eauto|]. intros (t0 & [= <-] & ?). done.
    + rewrite Hm2, Ho by done. by rewrite list_lookup_insert_ne by done.
  - intros v. rewrite (total_insert v _ _ _ _ Hi), <- Hv. apply Hval.
Qed.

Lemma thread_ok_todo f t x p :
  thread_ok f t → todo t = x :: p → disciplined (holding t) (x :: p) = true ∨
  ∃ v d, x = Store v d ∧ guard v ∈ holding t ∧ reg t = f v ∧ disciplined (holding t) p = true.
Proof. intros [Hd|(v & d & q & Hq & H1 & H2 & H3)] Ht; rewrite Ht in *; [by left|right]. simplify_eq. eauto 7. Qed.

(** The owner of a mutex that a thread holds is this thread, and nobody else. *)
Lemma holding_owner c i t m : inv c → threads c !! i = Some t → m ∈ holding t → owner c m = Some i.
Proof. intros Hi Ht Hm. apply (inv_owner c Hi). eauto. Qed.

Lemma others_ok c i v z j tj t :
  inv c → threads c !! i = Some t → guard v ∈ holding t → j ≠ i → threads c !! j = Some tj →
  thread_ok (<[v := z]> (value c)) tj.
Proof.
  intros Hinv Hi Hg Hne Hj. destruct (proj1 (inv_thread c Hinv j tj Hj)) as [Hd|(v' & d & p & H1 & H2 & H3 & H4)];
    [by left|]. right. exists v', d, p. split_and!; try done. rewrite H3.
  destruct (decide (v = v')) as [->|Hv]; [|by rewrite fn_lookup_insert_ne].
  pose proof (holding_owner _ _ _ _ Hinv Hi Hg). pose proof (holding_owner _ _ _ _ Hinv Hj H2). congruence.
Qed.

Lemma delta_snoc v p x : delta v (p ++ [x]) = delta v p + change v x.
Proof. by rewrite delta_app, delta_single. Qed.

(** A step that changes only the register of a thread. *)
Lemma inv_local c i t x p r :
  inv c → threads c !! i = Some t → todo t = x :: p → (∀ v, change v x = 0) →
  thread_ok (value c) (Thread (executed t ++ [x]) p (holding t) r) →
  inv (Config (value c) (owner c) (<[i := Thread (executed t ++ [x]) p (holding t) r]> (threads c))).
Proof.
  intros Hinv Hi Htodo Hch Hok. destruct (inv_thread c Hinv i t Hi) as [_ Hord].
  eapply inv_update; try done.
  - intros j tj _ Hj. by apply (inv_thread c Hinv j).
  - intros m. split; [|done]. rewrite (inv_owner c Hinv). split; [|eauto].
    intros (t0 & Ht0 & Hm). by simplify_eq.
  - intros v. cbn [executed]. rewrite delta_snoc, Hch. lia.
Qed.

Lemma inv_step c i c' : inv c → run_step i c = Some c' → inv c'.
Proof.
  intros Hinv Hs. unfold run_step in Hs. destruct (threads c !! i) as [t|] eqn:Hi; [|done]. cbn in Hs.
  destruct (inv_thread c Hinv i t Hi) as [Hok Hord]. unfold advance in Hs.
  destruct (todo t) as [|x p] eqn:Htodo; [done|].
  destruct (thread_ok_todo _ _ _ _ Hok Htodo) as [Hd|(v & d & -> & Hg & Hr & Hd)]; last first.
  { injection Hs as <-. eapply inv_update; try done.
    - by left.
    - intros j tj Hne Hj. by apply (others_ok c i v _ j tj t).
    - intros m. split; [|done]. cbn. rewrite (inv_owner c Hinv). split; [|eauto].
      intros (t0 & Ht0 & Hm). by simplify_eq.
    - intros v'. cbn [executed]. rewrite delta_snoc. cbn [change]. destruct (decide (v' = v)) as [->|Hne].
      + rewrite fn_lookup_insert, bool_decide_true by done. lia.
      + rewrite fn_lookup_insert_ne, bool_decide_false by done. lia. }
  destruct x as [m|m|v|v d|]; cbn [disciplined] in Hd.
  - destruct (owner c m) eqn:Hm; [done|]. injection Hs as <-. apply andb_true_iff in Hd as [Hb Hd].
    eapply inv_update; try done; cbn [holding executed].
    + by left.
    + cbn. by rewrite Hb.
    + intros j tj _ Hj. by apply (inv_thread c Hinv j).
    + intros m'. rewrite elem_of_cons. destruct (decide (m = m')) as [->|Hne].
      * rewrite fn_lookup_insert. split; [naive_solver|]. intros j Hj. rewrite Hm. naive_solver.
      * rewrite fn_lookup_insert_ne by done. split; [|done]. rewrite (inv_owner c Hinv).
        split; [intros (t0 & Ht0 & ?); simplify_eq; by right|]. intros [?|?]; [congruence|eauto].
    + intros v. rewrite delta_snoc. cbn [change]. lia.
  - destruct (holding t) as [|m' h] eqn:Hh; [done|]. apply andb_true_iff in Hd as [->%bool_decide_eq_true Hd].
    cbn [ordered] in Hord. apply andb_true_iff in Hord as [Hb Hord].
    case_bool_decide as Hm; [|done]. injection Hs as <-.
    rewrite filter_cons_False by (by intros Hx; apply Hx). rewrite filter_ne_notin by (by apply below_notin).
    eapply inv_update; try done; cbn [holding executed].
    + by left.
    + intros j tj _ Hj. by apply (inv_thread c Hinv j).
    + intros m. destruct (decide (m' = m)) as [->|Hne].
      * rewrite fn_lookup_insert. split; [split; [done|by intros ?%(below_notin _ _ Hb)]|].
        intros j Hj. rewrite Hm. naive_solver.
      * rewrite fn_lookup_insert_ne by done. split; [|done]. rewrite (inv_owner c Hinv).
        split; [intros (t0 & Ht0 & Hin); simplify_eq; rewrite Hh in Hin; apply elem_of_cons in Hin as [?|?]; [congruence|done]|].
        intros Hin. exists t. split; [done|]. rewrite Hh. by right.
    + intros v. rewrite delta_snoc. cbn [change]. lia.
  - injection Hs as <-. destruct p as [|[| | |v' d|] p]; try done.
    apply andb_true_iff in Hd as [[->%bool_decide_eq_true Hg%bool_decide_eq_true]%andb_true_iff Hd].
    eapply inv_local; try done. right. by exists v', d, p.
  - done.
  - injection Hs as <-. eapply inv_local; try done. by left.
Qed.

Lemma inv_run c sched c' : inv c → run sched c = Some c' → inv c'.
Proof.
  revert c. induction sched as [|i sched IH]; intros c Hc Hr; [by simplify_eq/=|].
  cbn in Hr. apply bind_Some in Hr as (c1 & H1 & H2). eapply IH; [|done]. by eapply inv_step.
Qed.

(** ** No deadlock *)

(** A thread that has not ended can run, unless it waits for a mutex. *)
Lemma can_run c i t x p :
  inv c → threads c !! i = Some t → todo t = x :: p →
  (∃ c', run_step i c = Some c') ∨ ∃ m j, x = Lock m ∧ owner c m = Some j.
Proof.
  intros Hinv Hi Htodo. unfold run_step. rewrite Hi. cbn. rewrite Htodo.
  destruct (inv_thread c Hinv i t Hi) as [Hok _].
  destruct x as [m|m|v|v d|]; try (left; by eexists).
  - destruct (owner c m) as [j|] eqn:Hm; [right; eauto|left; by eexists].
  - left. destruct (thread_ok_todo _ _ _ _ Hok Htodo) as [Hd|(v & d & ? & _)]; [|done].
    cbn in Hd. destruct (holding t) as [|m' h] eqn:Hh; [done|].
    apply andb_true_iff in Hd as [->%bool_decide_eq_true _].
    rewrite bool_decide_true; [by eexists|]. eapply holding_owner; [done..|]. rewrite Hh. by left.
Qed.

Lemma waits_progress k c i t m p :
  inv c → threads c !! i = Some t → todo t = Lock m :: p → (max_rank - rank m ≤ k)%nat →
  ∃ j c', run_step j c = Some c'.
Proof.
  intros Hinv. revert i t m p. induction k as [|k IH]; intros i t m p Hi Htodo Hk;
    (destruct (can_run _ _ _ _ _ Hinv Hi Htodo) as [[c' Hc']|(m' & j & [= <-] & Hj)]; [eauto|]);
    apply (inv_owner c Hinv) in Hj as (tj & Htj & Hm); destruct (inv_thread c Hinv j tj Htj) as [Hok _];
    (destruct (todo tj) as [|x q] eqn:Hq;
      [destruct Hok as [Hd|(? & ? & ? & ? & _)]; rewrite Hq in *; [|done]; apply bool_decide_eq_true in Hd;
       rewrite Hd in Hm; by apply not_elem_of_nil in Hm|]);
    (destruct (can_run _ _ _ _ _ Hinv Htj Hq) as [[c' Hc']|(m2 & j2 & -> & _)]; [eauto|]);
    (destruct (thread_ok_todo _ _ _ _ Hok Hq) as [Hd|(? & ? & ? & _)]; [|done]);
    cbn in Hd; apply andb_true_iff in Hd as [Hb _]; rewrite below_spec in Hb;
    pose proof (Hb _ Hm); pose proof (rank_le m2).
  - lia.
  - eapply (IH j tj m2); [done|done|lia].
Qed.

Definition all_ended (c : config) : Prop := ∀ i t, threads c !! i = Some t → todo t = [].

Lemma progress c i t :
  inv c → threads c !! i = Some t → todo t ≠ [] → ∃ j c', run_step j c = Some c'.
Proof.
  intros Hinv Hi Hne. destruct (todo t) as [|x p] eqn:Htodo; [done|].
  destruct (can_run _ _ _ _ _ Hinv Hi Htodo) as [[c' Hc']|(m & j & -> & _)]; [eauto|].
  by eapply (waits_progress (max_rank - rank m)).
Qed.

(** ** Every schedule ends *)
Definition remaining (c : config) : nat := sum_list_with (λ t, length (todo t)) (threads c).

(** A step moves one instruction of one thread. *)
Lemma step_shape c i c' : run_step i c = Some c' →
  ∃ t x p f o h r, threads c !! i = Some t ∧ todo t = x :: p ∧
    c' = Config f o (<[i := Thread (executed t ++ [x]) p h r]> (threads c)).
Proof.
  unfold run_step. destruct (threads c !! i) as [t|] eqn:Hi; [|done]. cbn. unfold advance.
  destruct (todo t) as [|x p] eqn:Htodo; [done|]. intros Hs. exists t, x, p.
  destruct x; repeat case_match; try done; injection Hs as <-; eauto 10.
Qed.

Lemma step_remaining c i c' : run_step i c = Some c' → remaining c = S (remaining c').
Proof.
  intros (t & x & p & f & o & h & r & Hi & Htodo & ->)%step_shape.
  unfold remaining. cbn [threads]. pose proof (sum_list_with_insert (λ t, length (todo t)) _ _ _
    (Thread (executed t ++ [x]) p h r) Hi) as Hsum. cbn [todo] in Hsum. rewrite Htodo in Hsum. cbn [length] in Hsum. lia.
Qed.

Lemma run_remaining c sched c' : run sched c = Some c' → remaining c = (length sched + remaining c')%nat.
Proof.
  revert c. induction sched as [|i sched IH]; intros c Hr; [by simplify_eq/=|].
  cbn in Hr. apply bind_Some in Hr as (c1 & H1 & H2). apply step_remaining in H1. apply IH in H2. simpl. lia.
Qed.

Lemma ended_remaining c : remaining c = 0%nat → all_ended c.
Proof.
  unfold remaining, all_ended. intros Hs i t Hi. revert i Hi. induction (threads c) as [|t0 ts IH]; intros [|i] Hi; simplify_eq/=.
  - destruct (todo t); [done|]. simpl in Hs. lia.
  - eapply IH; [lia|done].
Qed.

(** From every configuration the threads can run to their ends. *)
Lemma run_to_end c : inv c → ∃ sched c', run sched c = Some c' ∧ all_ended c' ∧ inv c'.
Proof.
  remember (remaining c) as n eqn:Hn. revert c Hn. induction n as [|n IH]; intros c Hn Hinv.
  { exists [], c. split; [done|]. split; [by apply ended_remaining|done]. }
  destruct (decide (Exists (λ t, todo t ≠ []) (threads c))) as [He|He].
  - apply Exists_exists in He as (t & [i Hi]%list_elem_of_lookup & Ht).
    destruct (progress _ _ _ Hinv Hi Ht) as (j & c1 & Hs). pose proof (step_remaining _ _ _ Hs).
    destruct (IH c1 ltac:(lia) (inv_step _ _ _ Hinv Hs)) as (sched & c' & Hr & Hc').
    exists (j :: sched), c'. split; [|done]. cbn. by rewrite Hs.
  - exists [], c. split; [done|]. split; [|done]. intros i t Hi.
    destruct (decide (todo t = [])) as [|Hne]; [done|]. exfalso. apply He, Exists_exists.
    exists t. split; [by eapply list_elem_of_lookup_2|done].
Qed.

(** The programs do not change. *)
Definition program (t : thread) : prog := executed t ++ todo t.

Lemma step_programs c i c' : run_step i c = Some c' → program <$> threads c' = program <$> threads c.
Proof.
  intros (t & x & p & f & o & h & r & Hi & Htodo & ->)%step_shape.
  cbn [threads]. rewrite list_fmap_insert. apply list_insert_id. rewrite list_lookup_fmap, Hi. cbn.
  unfold program. cbn. by rewrite Htodo, <- app_assoc.
Qed.

Lemma run_programs c sched c' : run sched c = Some c' → program <$> threads c' = program <$> threads c.
Proof.
  revert c. induction sched as [|i sched IH]; intros c Hr; [by simplify_eq/=|].
  cbn in Hr. apply bind_Some in Hr as (c1 & H1 & H2). by rewrite (IH _ H2), (step_programs _ _ _ H1).
Qed.

(** At the end the counters have been changed by every program, and no mutex is
    held. *)
Lemma ended_values c : inv c → all_ended c →
  (∀ v, value c v = foldr (λ p z, delta v p + z) 0 (program <$> threads c)) ∧ (∀ m, owner c m = None).
Proof.
  intros Hinv He. split.
  - intros v. rewrite (inv_value c Hinv). unfold all_ended in He. clear Hinv.
    assert (∀ t, t ∈ threads c → todo t = []) as Hall.
    { intros t [i Hi]%list_elem_of_lookup. by eapply He. }
    clear He. induction (threads c) as [|t ts IH]; [done|]. cbn [total foldr fmap list_fmap].
    unfold program at 1. rewrite (Hall t), app_nil_r by left. f_equal. apply IH. intros t' Ht'. apply Hall. by right.
  - intros m. destruct (owner c m) as [i|] eqn:Hm; [|done]. apply (inv_owner c Hinv) in Hm as (t & Hi & Hm).
    destruct (inv_thread c Hinv i t Hi) as [[Hd|(? & ? & ? & Hq & _)] _]; rewrite (He _ _ Hi) in *; [|done].
    apply bool_decide_eq_true in Hd. rewrite Hd in Hm. by apply not_elem_of_nil in Hm.
Qed.

(** ** A thread that runs alone

    When nobody else holds a mutex, a thread can run a disciplined part [p] of
    its program without a pause, and holds nothing after it. *)
Definition part_ok (h : list M) (p : prog) : Prop :=
  disciplined h p = true ∨ ∃ v d p', p = Store v d :: p' ∧ disciplined h p' = true.

Lemma solo_step c i t x p q :
  threads c !! i = Some t → todo t = x :: p ++ q → part_ok (holding t) (x :: p) →
  (∀ m, owner c m = if decide (m ∈ holding t) then Some i else None) → ordered (holding t) = true →
  ∃ c' h r, run_step i c = Some c' ∧ threads c' = <[i := Thread (executed t ++ [x]) (p ++ q) h r]> (threads c) ∧
    part_ok h p ∧ (∀ m, owner c' m = if decide (m ∈ h) then Some i else None) ∧ ordered h = true.
Proof.
  intros Hi Htodo Hp Hown Hord. unfold run_step, advance. rewrite Hi. cbn. rewrite Htodo.
  destruct Hp as [Hd|(v & d & p' & [= -> <-] & Hd)]; [|do 3 eexists; split; [done|]; split_and!; try done; by left].
  destruct x as [m|m|v|v d|]; cbn [disciplined] in Hd.
  - apply andb_true_iff in Hd as [Hb Hd]. pose proof (below_notin _ _ Hb) as Hm.
    rewrite Hown, decide_False by done. do 3 eexists. split; [done|]. cbn [threads owner].
    split_and!; [done|by left| |by apply andb_true_iff].
    intros m'. destruct (decide (m = m')) as [->|Hne].
    + rewrite fn_lookup_insert, decide_True by (by left). done.
    + rewrite fn_lookup_insert_ne, Hown by done. apply decide_ext. rewrite elem_of_cons. naive_solver.
  - destruct (holding t) as [|m' h]; [done|]. apply andb_true_iff in Hd as [->%bool_decide_eq_true Hd].
    cbn [ordered] in Hord. apply andb_true_iff in Hord as [Hb Hord]. pose proof (below_notin _ _ Hb) as Hm.
    rewrite Hown, decide_True, bool_decide_true by (done || by left).
    rewrite filter_cons_False by (by intros Hx; apply Hx). rewrite filter_ne_notin by done.
    do 3 eexists. split; [done|]. cbn. split_and!; [done|by left| |done].
    intros m. destruct (decide (m' = m)) as [->|Hne].
    + by rewrite fn_lookup_insert, decide_False by done.
    + rewrite fn_lookup_insert_ne, Hown by done. apply decide_ext. rewrite elem_of_cons. naive_solver.
  - destruct p as [|[| | |v' d|] p]; try done. apply andb_true_iff in Hd as [_ Hd].
    do 3 eexists. split; [done|]. cbn. split_and!; [done| |done|done]. right. eauto.
  - done.
  - do 3 eexists. split; [done|]. cbn. split_and!; [done|by left|done|done].
Qed.

Lemma solo_run c i t p q :
  threads c !! i = Some t → todo t = p ++ q → part_ok (holding t) p →
  (∀ m, owner c m = if decide (m ∈ holding t) then Some i else None) → ordered (holding t) = true →
  ∃ c' r, run (replicate (length p) i) c = Some c' ∧
    threads c' = <[i := Thread (executed t ++ p) q [] r]> (threads c) ∧ ∀ m, owner c' m = None.
Proof.
  revert c t. induction p as [|x p IH]; intros c t Hi Htodo Hp Hown Hord.
  - destruct Hp as [Hh%bool_decide_eq_true|(? & ? & ? & ? & _)]; [|done].
    exists c, (reg t). split; [done|]. split.
    + symmetry. rewrite app_nil_r. cbn in Htodo. rewrite <- Htodo, <- Hh. apply list_insert_id.
      rewrite Hi. by destruct t.
    + intros m. by rewrite Hown, Hh, decide_False by apply not_elem_of_nil.
  - destruct (solo_step c i t x p q Hi Htodo Hp Hown Hord) as (c1 & h & r & Hs & Ht & Hp1 & Ho1 & Hord1).
    assert (i < length (threads c))%nat as Hlen by (by eapply lookup_lt_Some).
    destruct (IH c1 (Thread (executed t ++ [x]) (p ++ q) h r)) as (c' & r' & Hr & Ht' & Ho'); try done.
    { by rewrite Ht, list_lookup_insert_eq. }
    exists c', r'. split; [cbn; by rewrite Hs|]. split; [|done].
    cbn [executed] in Ht'. by rewrite Ht', Ht, list_insert_insert_eq, <- app_assoc.
Qed.
End threads.
Arguments thread : clear implicits.
Arguments config : clear implicits.
