(* ===== verification/ServerThreads.v ===== *)
(** * ServerThreads: the counters of the server and the order of its mutexes

    The three counters that the threads of the server share, each with its mutex.
    The mutex of the log is taken first: a thread counts its client while it holds
    it. *)
From stdpp Require Import prelude functions list.
From S2P Require Import Prelude Server Threads.

Inductive counter := NowCount | Count | WinCount.
#[export] Instance counter_eq_dec : EqDecision counter.
Proof. solve_decision. Defined.

(** The mutex of the log is taken first. *)
Definition mutex_rank (m : mutex) : nat := match m with log_file_mutex => 0 | _ => 1 end.
Lemma mutex_rank_le m : (mutex_rank m ≤ 1)%nat.
Proof. destruct m; simpl; lia. Qed.

Definition counter_mutex (v : counter) : mutex :=
  match v with
  | NowCount => clients_now_count_mutex
  | Count => clients_count_mutex
  | WinCount => clients_win_count_mutex
  end.

#[export] Instance server_locking : Locking mutex counter :=
  {| rank := mutex_rank; max_rank := 1; rank_le := mutex_rank_le; guard := counter_mutex |}.

(** Threads that have all done the same. *)
Lemma total_all v (ts : list (thread mutex counter)) p :
  (∀ t, t ∈ ts → executed t = p) → total v ts = Z.of_nat (length ts) * delta v p.
Proof.
  intros Hall. induction ts as [|t ts IH]; [done|].
  change (delta v (executed t) + total v ts = Z.of_nat (S (length ts)) * delta v p).
  rewrite IH, (Hall t) by (intros; try apply Hall; by constructor). lia.
Qed.
