(* ===== verification/ServerCode.v ===== *)
(** * ServerCode: the code of a serving thread, cut at its shared accesses

    [Server.pthread_routine] runs a session in one go.  Here the same code is a
    tree of type [prog]: every lock, unlock, load and store of a counter and every
    line of the log is a node of its own, between which other threads may run,
    and the code in between, which only touches the connection and the local
    variables, is a [Run] node.  [interp] runs a tree in one go; the theorem of
    this file is that the tree of the thread then behaves exactly as
    [pthread_routine] does. *)
From Stdlib Require Import Ascii String.
From stdpp Require Import prelude functions list strings.
From S2P Require Import Prelude CMonad CString SecretCode Messages Server Threads ServerThreads.

(** ** What belongs to one thread: its client's connection *)
Record loc := Loc { l_conn : conn; l_closed : Z }.

#[export] Program Instance loc_has_conn : HasConn loc :=
  {| get_conn := l_conn; set_conn := λ c l, Loc c (l_closed l) |}.
Solve All Obligations with record_cases.

Definition loc_of (s : srv) : loc := Loc (s_conn s) (s_closed s).
Definition set_loc (l : loc) (s : srv) : srv :=
  Srv (l_conn l) (l_closed l) (s_log s) (clients_now_count s) (clients_count s) (clients_win_count s) (s_held s).

Definition counter_of (v : counter) (s : srv) : Z :=
  match v with NowCount => clients_now_count s | Count => clients_count s | WinCount => clients_win_count s end.
Definition set_counter (v : counter) (n : Z) (s : srv) : srv :=
  match v with NowCount => set_now n s | Count => set_count n s | WinCount => set_wins n s end.

(** ** Programs *)
Inductive prog (A : Type) : Type :=
  | Ret (a : A)
  | Exits                                    (* pthread_exit *)
  | Spins                                    (* a loop has spent its fuel *)
  | Undef
  | LockM (m : mutex) (k : prog A)
  | UnlockM (m : mutex) (k : prog A)
  | LoadC (v : counter) (k : Z → prog A)
  | StoreC (v : counter) (n : Z) (k : prog A)
  | LogL (l : log_line) (k : prog A)
  | Run (B : Type) (c : C loc B) (k : B → prog A).
Arguments Ret {A} a.
Arguments Exits {A}.
Arguments Spins {A}.
Arguments Undef {A}.
Arguments LockM {A} m k.
Arguments UnlockM {A} m k.
Arguments LoadC {A} v k.
Arguments StoreC {A} v n k.
Arguments LogL {A} l k.
Arguments Run {A B} c k.

Fixpoint pbind {A B} (f : A → prog B) (p : prog A) : prog B :=
  match p with
  | Ret a => f a
  | Exits => Exits
  | Spins => Spins
  | Undef => Undef
  | LockM m k => LockM m (pbind f k)
  | UnlockM m k => UnlockM m (pbind f k)
  | LoadC v k => LoadC v (λ z, pbind f (k z))
  | StoreC v n k => StoreC v n (pbind f k)
  | LogL l k => LogL l (pbind f k)
  | Run c k => Run c (λ b, pbind f (k b))
  end.
#[export] Instance prog_ret : MRet prog := @Ret.
#[export] Instance prog_bind : MBind prog := @pbind.

Definition locks (m : mutex) : prog () := LockM m (Ret ()).
Definition unlocks (m : mutex) : prog () := UnlockM m (Ret ()).
Definition logs (l : log_line) : prog () := LogL l (Ret ()).
Definition call {B} (c : C loc B) : prog B := Run c Ret.

Fixpoint piter {L R} (n : nat) (body : L → prog (L + R)) (l : L) : prog R :=
  match n with
  | O => Spins
  | Datatypes.S n =>
      r ← body l;
      match r with
      | inl l' => piter n body l'
      | inr r => mret r
      end
  end.

(** ** The code of server.c *)

(** [counter++] and [counter--]: a load and a store, under the counter's mutex. *)
Definition count_prog (v : counter) (d : Z) : prog () :=
  locks (counter_mutex v);;
  LoadC v (λ n, if in_int (n + d) then StoreC v (n + d) (Ret ()) else Undef);;
  unlocks (counter_mutex v).

Definition compose_at {S} (text : list ascii) : C S (list ascii) :=
  if bool_decide (Z.of_nat (length text) < GP_SIZE)
  then mret (text ++ replicate (Z.to_nat GP_SIZE - length text) NUL)
  else ub.
Definition close_l : C loc () := modify (λ l, Loc (l_conn l) (l_closed l + 1)).

Definition send_gp_prog (msg_type : list ascii) (msg_payload : option (list ascii)) :
    prog (Z * list ascii) :=
  buf ← call (compose_at (gp_text msg_type msg_payload));
  sent_msg_size ← call (send_message buf GP_SIZE);
  if sent_msg_size =? WRITE_CONN_LOST_ERROR then
    locks log_file_mutex;;
    logs ConnectionLost;;
    unlocks log_file_mutex;;
    call close_l;;
    count_prog NowCount (-1);;
    Exits
  else if sent_msg_size =? WRITE_OTHER_ERROR then
    locks log_file_mutex;;
    logs SendFailed;;
    call close_l;;
    logs ClientDisconnected;;
    unlocks log_file_mutex;;
    count_prog NowCount (-1);;
    Exits
  else mret (sent_msg_size, buf).

Definition await_prog (fuel : nat) (buffer : list ascii) : prog (list ascii) :=
  piter fuel (λ buffer,
    '(_, buffer) ← call (receive_message buffer GP_SIZE);
    valid ← call (is_valid_secret_code buffer);
    if (valid : bool) then mret (inr buffer)
    else
      '(_, buffer) ← send_gp_prog GP_GUESS_INV None;
      mret (inl buffer)) buffer.

Definition round_prog (fuel : nat) (secret_code : list ascii) (guesses_count : Z) : prog (Z * Z) :=
  '(_, buffer) ← send_gp_prog GP_GUESS_REQ None;
  buffer ← await_prog fuel buffer;
  locks log_file_mutex;;
  logs (ClientGuess (cstr buffer));;
  '(_, correct_positions_count, correct_colors_count) ←
    call (get_secret_code_guess_feedback secret_code buffer);
  logs (ServerHint correct_positions_count correct_colors_count);;
  unlocks log_file_mutex;;
  n ← call (int_add guesses_count 1);
  send_gp_prog GP_GUESS_FBK
    (Some (feedback_message n correct_positions_count correct_colors_count));;
  guesses_count ← call (int_add guesses_count 1);
  mret (guesses_count, correct_positions_count).

(** Until the secret code is chosen and logged. *)
Definition hello_prog (rands : Z → Z) (param_secret_code : list ascii) : prog (list ascii) :=
  let secret_code := param_secret_code in
  locks log_file_mutex;;
  logs ClientConnected;;
  count_prog NowCount 1;;
  count_prog Count 1;;
  valid ← call (is_valid_secret_code secret_code);
  secret_code ← (if (valid : bool) then mret secret_code
                 else call (get_random_secret_code rands secret_code));
  logs (ServerSecret (cstr secret_code));;
  unlocks log_file_mutex;;
  mret secret_code.

(** The rounds of the game. *)
Definition game_prog (fuel : nat) (secret_code : list ascii) : prog Z :=
  piter (Z.to_nat MAX_GUESSES_COUNT + 1) (λ '(guesses_count, correct_positions_count),
    if (guesses_count <? MAX_GUESSES_COUNT) && (correct_positions_count <? SECRET_CODE_LEN) then
      r ← round_prog fuel secret_code guesses_count;
      mret (inl r)
    else mret (inr correct_positions_count)) (0, 0).

(** The verdict. *)
Definition verdict_prog (correct_positions_count : Z) : prog (Z * list ascii) :=
  if correct_positions_count =? SECRET_CODE_LEN then
    count_prog WinCount 1;;
    locks log_file_mutex;;
    logs GameSuccess;;
    unlocks log_file_mutex;;
    send_gp_prog GP_GAME_SUCC None
  else
    locks log_file_mutex;;
    logs GameFailure;;
    unlocks log_file_mutex;;
    send_gp_prog GP_GAME_FAIL None.

Definition goodbye_prog : prog () :=
  call close_l;;
  locks log_file_mutex;;
  logs ClientDisconnected;;
  unlocks log_file_mutex;;
  count_prog NowCount (-1).

(** The session, from the welcome on. *)
Definition play_prog (fuel : nat) (secret_code : list ascii) : prog () :=
  send_gp_prog GP_DISP_MSG (Some WELCOME_MESSAGE);;
  send_gp_prog GP_DISP_MSG (Some INSTRUCTIONS_1_MESSAGE);;
  send_gp_prog GP_DISP_MSG (Some INSTRUCTIONS_2_MESSAGE);;
  correct_positions_count ← game_prog fuel secret_code;
  verdict_prog correct_positions_count;;
  goodbye_prog.

Definition routine_prog (rands : Z → Z) (fuel : nat) (param_secret_code : list ascii) : prog () :=
  secret_code ← hello_prog rands param_secret_code;
  play_prog fuel secret_code.

(** What the main thread does with a client that it cannot serve: the server is
    full, or no thread could be created. *)
Definition refuse_prog : prog () :=
  locks log_file_mutex;;
  logs ServerFull;;
  unlocks log_file_mutex;;
  send_gp_prog GP_SERV_FULL None;;
  call close_l.

Definition no_thread_prog : prog () :=
  locks log_file_mutex;;
  logs ThreadFailed;;
  unlocks log_file_mutex;;
  call close_l.

(** ** One thread alone *)
Definition on_loc {A} (c : C loc A) : C srv A := λ s,
  match c (loc_of s) with
  | Ok a l => Ok a (set_loc l s)
  | Exit z l => Exit z (set_loc l s)
  | UB => UB
  | NoFuel => NoFuel
  end.

Fixpoint interp {A} (p : prog A) : C srv A :=
  match p with
  | Ret a => mret a
  | Exits => pthread_exit
  | Spins => λ _, NoFuel
  | Undef => ub
  | LockM m k => pthread_mutex_lock m;; interp k
  | UnlockM m k => pthread_mutex_unlock m;; interp k
  | LoadC v k => n ← get (counter_of v); interp (k n)
  | StoreC v n k => modify (set_counter v n);; interp k
  | LogL l k => log l;; interp k
  | Run c k => b ← on_loc c; interp (k b)
  end.

(** Two pieces of code that do the same from every state. *)
Definition same {S A} (m m' : C S A) : Prop := ∀ s, m s = m' s.

#[export] Instance same_equiv {S A} : Equivalence (@same S A).
Proof. split; [done|by intros m m' H s|by intros m1 m2 m3 H1 H2 s; rewrite H1]. Qed.

Lemma same_bind {S A B} (m m' : C S A) (f f' : A → C S B) :
  same m m' → (∀ a, same (f a) (f' a)) → same (m ≫= f) (m' ≫= f').
Proof. intros Hm Hf s. unfold mbind, C_bind. rewrite Hm. destruct (m' s); [apply Hf|done..]. Qed.

#[export] Instance bind_proper {S A B} :
  Proper (pointwise_relation A same ==> same ==> same) (@mbind (C S) _ A B).
Proof. intros f f' Hf m m' Hm. by apply same_bind. Qed.

Lemma same_assoc {S A B D} (m : C S A) (f : A → C S B) (g : B → C S D) :
  same ((m ≫= f) ≫= g) (m ≫= (λ a, f a ≫= g)).
Proof. intros s. unfold mbind, C_bind. by destruct (m s). Qed.

Lemma same_ret_r {S A} (m : C S A) : same (m ≫= mret) m.
Proof. intros s. unfold mbind, C_bind. by destruct (m s). Qed.

Lemma same_unit {S} (m : C S ()) : same (m;; mret ()) m.
Proof. intros s. unfold mbind, C_bind. by destruct (m s) as [[]| | |]. Qed.

Lemma same_iter {S L R} n (body body' : L → C S (L + R)) l :
  (∀ l, same (body l) (body' l)) → same (iter n body l) (iter n body' l).
Proof.
  intros Hb. revert l. induction n as [|n IH]; intros l; [done|].
  apply same_bind; [apply Hb|]. intros [l'|r]; [apply IH|done].
Qed.

(** [interp] is a morphism of monads. *)
Lemma interp_bind {A B} (p : prog A) (f : A → prog B) :
  same (interp (p ≫= f)) (interp p ≫= (λ a, interp (f a))).
Proof.
  change (p ≫= f) with (pbind f p).
  induction p as [a| | | |m p IH|m p IH|v k IH|v n p IH|l p IH|B' c k IH]; try done; cbn [pbind interp];
    rewrite same_assoc; apply same_bind; done.
Qed.

Lemma interp_iter {L R} n (body : L → prog (L + R)) l :
  same (interp (piter n body l)) (iter n (λ l, interp (body l)) l).
Proof.
  revert l. induction n as [|n IH]; intros l; [done|]. cbn [piter]. rewrite interp_bind.
  apply same_bind; [done|]. intros [l'|r]; [apply IH|done].
Qed.

(** [p] is the tree of the code [m]. *)
Definition codes {A} (p : prog A) (m : C srv A) : Prop := same (interp p) m.

Lemma codes_bind {A B} (p : prog A) m (f : A → prog B) g :
  codes p m → (∀ a, codes (f a) (g a)) → codes (p ≫= f) (m ≫= g).
Proof. intros Hp Hf. unfold codes. rewrite interp_bind. by apply same_bind. Qed.

Lemma codes_assoc {A B D} (p : prog A) (f : A → prog B) (g : B → prog D) m :
  codes (p ≫= (λ a, f a ≫= g)) m → codes ((p ≫= f) ≫= g) m.
Proof.
  unfold codes. intros <-. rewrite !interp_bind, same_assoc. apply same_bind; [done|].
  intros a. by rewrite interp_bind.
Qed.

Lemma codes_iter {L R} n (body : L → prog (L + R)) body' l :
  (∀ l, codes (body l) (body' l)) → codes (piter n body l) (iter n body' l).
Proof. intros Hb. unfold codes. rewrite interp_iter. by apply same_iter. Qed.

Lemma codes_ret {A} (a : A) : codes (mret a) (mret a).
Proof. done. Qed.
Lemma codes_locks m : codes (locks m) (pthread_mutex_lock m).
Proof. exact (same_unit (pthread_mutex_lock m)). Qed.
Lemma codes_unlocks m : codes (unlocks m) (pthread_mutex_unlock m).
Proof. exact (same_unit (pthread_mutex_unlock m)). Qed.
Lemma codes_logs l : codes (logs l) (log l).
Proof. exact (same_unit (log l)). Qed.
Lemma codes_exits {A} : codes (A := A) Exits pthread_exit.
Proof. done. Qed.

(** Code that is polymorphic in the state does the same on the connection alone as
    on the whole state. *)
Definition lifts {A} (c : C loc A) (m : C srv A) : Prop := same (on_loc c) m.

Lemma codes_call {B} (c : C loc B) m : lifts c m → codes (call c) m.
Proof. intros Hc. unfold codes. cbn [call interp]. etrans; [exact (same_ret_r (on_loc c))|exact Hc]. Qed.

Lemma set_loc_of s : set_loc (loc_of s) s = s.
Proof. by destruct s. Qed.

Lemma lifts_ret {A} (a : A) : lifts (mret a) (mret a).
Proof. intros s. unfold on_loc. cbn. by rewrite set_loc_of. Qed.
Lemma lifts_ub {A} : lifts (@ub loc A) ub.
Proof. done. Qed.
Lemma lifts_bind {A B} (c : C loc A) m (f : A → C loc B) g :
  lifts c m → (∀ a, lifts (f a) (g a)) → lifts (c ≫= f) (m ≫= g).
Proof.
  intros Hc Hf s. specialize (Hc s). unfold on_loc, mbind, C_bind in *.
  destruct (c (loc_of s)) as [a l|z l| |]; rewrite <- Hc; try done.
  specialize (Hf a (set_loc l s)). unfold on_loc in Hf. by destruct l; rewrite <- Hf.
Qed.
Lemma lifts_iter {L R} n (body : L → C loc (L + R)) body' l :
  (∀ l, lifts (body l) (body' l)) → lifts (iter n body l) (iter n body' l).
Proof.
  intros Hb. revert l. induction n as [|n IH]; intros l; [done|].
  apply lifts_bind; [apply Hb|]. intros [l'|r]; [apply IH|apply lifts_ret].
Qed.
Lemma lifts_chk z : lifts (chk z) (chk z).
Proof. unfold chk. destruct (in_int z); [apply lifts_ret|apply lifts_ub]. Qed.
Lemma lifts_add x y : lifts (int_add x y) (int_add x y).
Proof. apply lifts_chk. Qed.
Lemma lifts_rem x y : lifts (int_rem x y) (int_rem x y).
Proof. unfold int_rem. repeat case_match; first [apply lifts_ret|apply lifts_ub]. Qed.
Lemma lifts_at_index {A} (a : list A) i : lifts (at_index a i) (at_index a i).
Proof. unfold at_index. repeat case_match; first [apply lifts_ret|apply lifts_ub]. Qed.
Lemma lifts_set_index {A} (a : list A) i x : lifts (set_index a i x) (set_index a i x).
Proof. unfold set_index. case_match; first [apply lifts_ret|apply lifts_ub]. Qed.
Lemma lifts_for {L R} n (body : Z → L → C loc (L + R)) body' l fin :
  (∀ i l, lifts (body i l) (body' i l)) → lifts (for_upto n body l fin) (for_upto n body' l fin).
Proof.
  intros Hb. apply lifts_iter. intros [i l']. case_match; [|apply lifts_ret].
  apply lifts_bind; [apply Hb|]. intros [l''|r]; apply lifts_ret.
Qed.
Lemma lifts_read_at buf off len : lifts (read_at buf off len) (read_at buf off len).
Proof.
  unfold read_at. case_match; [|apply lifts_ub]. apply lifts_bind; [|intros [n b]; apply lifts_ret].
  intros s. unfold on_loc, read. cbn. by destruct (conn_read _ _) as [[n b] c].
Qed.
Lemma lifts_write_at msg off len : lifts (write_at msg off len) (write_at msg off len).
Proof.
  unfold write_at. case_match; [|apply lifts_ub].
  intros s. unfold on_loc, write. cbn. by destruct (conn_write _ _) as [[n b] c].
Qed.
Lemma lifts_compose text : lifts (compose_at text) (compose text).
Proof. unfold compose_at, compose. case_match; [apply lifts_ret|apply lifts_ub]. Qed.
Lemma lifts_close : lifts close_l close.
Proof. done. Qed.

Create HintDb lifts.
#[export] Hint Resolve lifts_ret lifts_ub lifts_chk lifts_add lifts_rem lifts_at_index lifts_set_index
  lifts_read_at lifts_write_at lifts_compose lifts_close : lifts.

(** One construct of the code at a time. *)
Ltac lift :=
  repeat first
    [ progress eauto with lifts
    | match goal with
      | |- lifts (for_upto _ _ _ _) _ => apply lifts_for
      | |- lifts (iter _ _ _) _ => apply lifts_iter
      | |- lifts (mbind _ _) _ => apply lifts_bind
      end
    | progress intros
    | progress case_match ].

Lemma lifts_send msg n : lifts (send_message msg n) (send_message msg n).
Proof. unfold send_message. lift. Qed.
Lemma lifts_receive buf n : lifts (receive_message buf n) (receive_message buf n).
Proof. unfold receive_message. lift. Qed.
Lemma lifts_valid code : lifts (is_valid_secret_code code) (is_valid_secret_code code).
Proof. unfold is_valid_secret_code. lift. Qed.
Lemma lifts_random rands code : lifts (get_random_secret_code rands code) (get_random_secret_code rands code).
Proof. unfold get_random_secret_code. lift. Qed.
Lemma lifts_feedback a g :
  lifts (get_secret_code_guess_feedback a g) (get_secret_code_guess_feedback a g).
Proof. unfold get_secret_code_guess_feedback. lift. Qed.
#[export] Hint Resolve lifts_send lifts_receive lifts_valid lifts_random lifts_feedback : lifts.

(** ** The trees are those of the code *)
Lemma codes_count v d :
  codes (count_prog v d)
    (pthread_mutex_lock (counter_mutex v);;
     n ← get (counter_of v); n ← int_add n d; modify (set_counter v n);;
     pthread_mutex_unlock (counter_mutex v)).
Proof.
  apply codes_bind; [apply codes_locks|intros _]. unfold codes. rewrite interp_bind. cbn [interp].
  rewrite same_assoc. apply same_bind; [done|]. intros n. unfold int_add, chk.
  destruct (in_int (n + d)); [|done]. cbn [interp].
  rewrite same_unit. transitivity (modify (set_counter v (n + d));; pthread_mutex_unlock (counter_mutex v)); [|done].
  apply same_bind; [done|]. intros []. apply codes_unlocks.
Qed.

Lemma codes_increment_now : codes (count_prog NowCount 1) increment_clients_now_count.
Proof. apply (codes_count NowCount 1). Qed.
Lemma codes_decrement_now : codes (count_prog NowCount (-1)) decrement_clients_now_count.
Proof. apply (codes_count NowCount (-1)). Qed.
Lemma codes_increment_count : codes (count_prog Count 1) increment_clients_count.
Proof. apply (codes_count Count 1). Qed.
Lemma codes_increment_wins : codes (count_prog WinCount 1) increment_clients_win_count.
Proof. apply (codes_count WinCount 1). Qed.

Create HintDb codes.
#[export] Hint Resolve codes_ret codes_locks codes_unlocks codes_logs codes_exits codes_call
  codes_increment_now codes_decrement_now codes_increment_count codes_increment_wins : codes.

Ltac code :=
  repeat first
    [ progress eauto with codes lifts
    | match goal with
      | |- codes (piter _ _ _) _ => apply codes_iter
      | |- codes (mbind _ (mbind _ _)) _ => apply codes_assoc
      | |- codes (mbind ?f (mret ?a)) _ => change (mret a ≫= f) with (f a); cbv beta
      | |- codes (mbind _ _) _ => apply codes_bind
      end
    | progress intros
    | progress case_match ].

Lemma codes_send_gp t p : codes (send_gp_prog t p) (send_gp_message t p).
Proof. unfold send_gp_prog, send_gp_message. code. Qed.
#[export] Hint Resolve codes_send_gp : codes.
Lemma codes_await fuel b : codes (await_prog fuel b) (await_guess fuel b).
Proof. unfold await_prog, await_guess. code. Qed.
#[export] Hint Resolve codes_await : codes.
Lemma codes_round fuel secret n : codes (round_prog fuel secret n) (guess_round fuel secret n).
Proof. unfold round_prog, guess_round. code. Qed.
#[export] Hint Resolve codes_round : codes.

Lemma codes_routine rands fuel secret :
  codes (routine_prog rands fuel secret) (pthread_routine rands fuel secret).
Proof.
  unfold routine_prog, play_prog, pthread_routine, hello_prog, game_prog, verdict_prog, goodbye_prog. code.
Qed.
