(* ===== verification/ServerRun.v ===== *)
(** * ServerRun: the code of the server's threads, interleaved

    The threads of the server run the trees of [ServerCode], one node at a time
    and in any order, on the shared counters, the mutexes and the log.  Besides
    what is undefined for one thread it is undefined here to touch a counter
    without its mutex, to write to the log without the mutex of the log, and to
    release the mutex of another thread: an execution without undefined behaviour
    has no data race between serving threads.  Thread 0 is the main thread; it
    accepts a client when it has nothing else to do. *)
From Stdlib Require Import Ascii String.
From stdpp Require Import prelude functions list strings.
From S2P Require Import Prelude CMonad CString SecretCode Messages Server ServerMain Threads ServerThreads.
From S2P Require Import ServerCode.

(** ** Worlds *)

(** What the thread of a client is given: the connection and the random numbers. *)
Record client := Client { k_conn : conn; k_rands : Z → Z }.

Record thr := Thr { t_arg : client; t_loc : loc; t_code : prog () }.

Record world := World {
  w_count : counter → Z;
  w_owner : mutex → option nat;
  w_log : list (nat * log_line);    (* with the thread that wrote the line *)
  w_threads : list thr
}.

Inductive effect :=
  | Goes (w : world)
  | Stuck                           (* the thread waits for a mutex, or has ended *)
  | Undefined.

(** Thread [i], whose state is [x], goes on with the code [p]. *)
Definition put (i : nat) (x : thr) (l : loc) (p : prog ()) (w : world) : list thr :=
  <[i := Thr (t_arg x) l p]> (w_threads w).

Definition wstep (i : nat) (w : world) : effect :=
  match w_threads w !! i with
  | None => Stuck
  | Some x =>
      match t_code x with
      | Ret _ | Exits | Spins => Stuck
      | Undef => Undefined
      | LockM m k =>
          match w_owner w m with
          | None => Goes (World (w_count w) (<[m := Some i]> (w_owner w)) (w_log w) (put i x (t_loc x) k w))
          | Some j => if bool_decide (j = i) then Undefined else Stuck
          end
      | UnlockM m k =>
          if bool_decide (w_owner w m = Some i)
          then Goes (World (w_count w) (<[m := None]> (w_owner w)) (w_log w) (put i x (t_loc x) k w))
          else Undefined
      | LoadC v k =>
          if bool_decide (w_owner w (counter_mutex v) = Some i)
          then Goes (World (w_count w) (w_owner w) (w_log w) (put i x (t_loc x) (k (w_count w v)) w))
          else Undefined
      | StoreC v n k =>
          if bool_decide (w_owner w (counter_mutex v) = Some i)
          then Goes (World (<[v := n]> (w_count w)) (w_owner w) (w_log w) (put i x (t_loc x) k w))
          else Undefined
      | LogL l k =>
          if bool_decide (w_owner w log_file_mutex = Some i)
          then Goes (World (w_count w) (w_owner w) (w_log w ++ [(i, l)]) (put i x (t_loc x) k w))
          else Undefined
      | Run c k =>
          match c (t_loc x) with
          | Ok b l => Goes (World (w_count w) (w_owner w) (w_log w) (put i x l (k b) w))
          | Exit _ l => Goes (World (w_count w) (w_owner w) (w_log w) (put i x l Exits w))
          | UB => Undefined
          | NoFuel => Goes (World (w_count w) (w_owner w) (w_log w) (put i x (t_loc x) Spins w))
          end
      end
  end.

Fixpoint wrun (sched : list nat) (w : world) : effect :=
  match sched with
  | [] => Goes w
  | i :: sched => match wstep i w with Goes w' => wrun sched w' | e => e end
  end.

Section accept.
Context (fuel : nat) (secret_code : list ascii).

(** The tree of the thread that serves the client. *)
Definition serve (k : client) : prog () := routine_prog (k_rands k) fuel (strncpy 5 secret_code).

(** [accept] has returned a client; [created] tells whether [pthread_create] works.
    The number of clients is read without its mutex: a data race in C, read here as
    one access that sees the value last written. *)
Definition accept (k : client) (created : bool) (w : world) : option world :=
  match w_threads w !! 0%nat with
  | Some x =>
      match t_code x with
      | Ret _ =>
          let l := Loc (k_conn k) 0 in
          if CLIENTS_NOW_MAX_COUNT <=? w_count w NowCount
          then Some (World (w_count w) (w_owner w) (w_log w) (<[0%nat := Thr k l refuse_prog]> (w_threads w)))
          else if created
          then Some (World (w_count w) (w_owner w) (w_log w) (w_threads w ++ [Thr k l (serve k)]))
          else Some (World (w_count w) (w_owner w) (w_log w) (<[0%nat := Thr k l no_thread_prog]> (w_threads w)))
      | _ => None
      end
  | None => None
  end.

Definition no_client : client := Client (Conn [] [] []) (λ _, 0).
Definition world_start : world :=
  World (λ _, 0) (λ _, None) [] [Thr no_client (Loc (Conn [] [] []) 0) (Ret ())].

(** The states the server can get into. *)
Inductive wreach : world → Prop :=
  | wreach_start : wreach world_start
  | wreach_thread w i w' : wreach w → wstep i w = Goes w' → wreach w'
  | wreach_accept w k created w' :
      wreach w → (∀ i, 0 ≤ k_rands k i ≤ INT_MAX) → accept k created w = Some w' → wreach w'.
End accept.

(** The lines of one thread. *)
Definition own (i : nat) (lg : list (nat * log_line)) : list log_line :=
  (filter (λ e, e.1 = i) lg).*2.

(** ** What a thread does, told by its tree

    [does may p s t r s'] follows the tree [p] from the thread's own view [s] of the
    server, in which the counters only contain what the thread itself has counted:
    it executes the instructions [t] of [Threads], taking the mutexes in order,
    touching the counters and the log under their mutexes, taking a place among the
    current clients, if it [may], only before it is counted as a client, and ends as [r] tells
    with the view [s']. *)
Inductive ended (A : Type) := Returned (a : A) | Left | Spinning.
Arguments Returned {A} a.
Arguments Left {A}.
Arguments Spinning {A}.

(** Who may take a place ([may]), and when; a client is counted once and for all. *)
Definition placed (may : bool) (v : counter) (d : Z) (s : srv) : Prop :=
  match v with
  | NowCount => 0 < d → may = true ∧ counter_of Count s = 0
  | Count => 0 ≤ d
  | WinCount => True
  end.

Notation sinstrs := (list (instr mutex counter)).

Fixpoint does {A} (may : bool) (p : prog A) (s : srv) (t : sinstrs) (r : ended A) (s' : srv) : Prop :=
  match p with
  | Ret a => t = [] ∧ r = Returned a ∧ s' = s
  | Exits => t = [] ∧ r = Left ∧ s' = s
  | Spins => t = [] ∧ r = Spinning ∧ s' = s
  | Undef => False
  | LockM m k => ∃ t', t = Lock m :: t' ∧ below m (s_held s) = true ∧
      does may k (set_held (m :: s_held s) s) t' r s'
  | UnlockM m k => ∃ t' h, t = Unlock m :: t' ∧ s_held s = m :: h ∧ m ∉ h ∧ does may k (set_held h s) t' r s'
  | LoadC v k => ∃ t' d, t = Load v :: Store v d :: t' ∧ counter_mutex v ∈ s_held s ∧
      -1 ≤ counter_of v s + d ≤ 1 ∧ placed may v d s ∧
      ∀ z, in_int (z + d) = true →
        match k z with
        | StoreC v' n k' => v' = v ∧ n = z + d ∧ does may k' (set_counter v (counter_of v s + d) s) t' r s'
        | _ => False
        end
  | StoreC _ _ _ => False
  | LogL l k => ∃ t', t = Local :: t' ∧ log_file_mutex ∈ s_held s ∧
      does may k (set_log (s_log s ++ [l]) s) t' r s'
  | Run c k => ∃ t' b l, t = Local :: t' ∧ c (loc_of s) = Ok b l ∧ does may (k b) (set_loc l s) t' r s'
  end.

(** Induction on trees that looks two nodes ahead at a load. *)
Lemma prog_load_ind {A} (P : prog A → Prop) :
  (∀ a, P (Ret a)) → P Exits → P Spins → P Undef →
  (∀ m k, P k → P (LockM m k)) → (∀ m k, P k → P (UnlockM m k)) →
  (∀ v k, (∀ z v' n k', k z = StoreC v' n k' → P k') → P (LoadC v k)) →
  (∀ v n k, P k → P (StoreC v n k)) → (∀ l k, P k → P (LogL l k)) →
  (∀ B (c : C loc B) k, (∀ b, P (k b)) → P (Run c k)) → ∀ p, P p.
Proof.
  intros H1 H2 H3 H4 H5 H6 H7 H8 H9 H10 p.
  enough (P p ∧ ∀ v n k, p = StoreC v n k → P k) as [? _] by done.
  induction p as [a| | | |m p [IH _]|m p [IH _]|v k IH|v n p [IH _]|l p [IH _]|B c k IH];
    (split; [|try (by intros)]); auto.
  - apply H7. intros z. apply IH.
  - intros v0 n0 k0 Heq. by injection Heq as <- <- <-.
  - apply H10. intros b. apply IH.
Qed.

Section does.
Context {may : bool}.
Notation does := (does may).

Lemma does_bind {A B} (p : prog A) (f : A → prog B) s t a s1 t' r s' :
  does p s t (Returned a) s1 → does (f a) s1 t' r s' → does (p ≫= f) s (t ++ t') r s'.
Proof.
  change (p ≫= f) with (pbind f p). intros Hp Hf. revert s t Hp.
  induction p as [a'| | | |m p IH|m p IH|v k IH|v n p IH|l p IH|B' c k IH] using prog_load_ind;
    intros s t Hp; cbn [does pbind] in *; try done.
  - by destruct Hp as (-> & [= ->] & ->).
  - by destruct Hp as (_ & [=] & _).
  - by destruct Hp as (_ & [=] & _).
  - destruct Hp as (t1 & -> & ? & Hp). exists (t1 ++ t'). split_and!; auto.
  - destruct Hp as (t1 & h & -> & ? & ? & Hp). exists (t1 ++ t'), h. split_and!; auto.
  - destruct Hp as (t1 & d & -> & Hg & Hd & Hpl & Hp). exists (t1 ++ t'), d. split_and!; try done || lia.
    intros z Hz. specialize (Hp z Hz). destruct (k z) as [| | | | | | |v' n p| |] eqn:Hk; try done.
    destruct Hp as (-> & -> & Hp). cbn [pbind]. split_and!; [done|done|]. by eapply IH.
  - destruct Hp as (t1 & -> & ? & Hp). exists (t1 ++ t'). split_and!; auto.
  - destruct Hp as (t1 & b & l & -> & ? & Hp). exists (t1 ++ t'), b, l. split_and!; auto.
Qed.

(** A part that does not return is the last one. *)
Definition stopped {A B} (r : ended A) (r' : ended B) : Prop :=
  match r, r' with Left, Left | Spinning, Spinning => True | _, _ => False end.

Lemma does_stop {A B} (p : prog A) (f : A → prog B) s t r r' s' :
  does p s t r s' → stopped r r' → does (p ≫= f) s t r' s'.
Proof.
  change (p ≫= f) with (pbind f p). intros Hp Hf. revert s t Hp.
  induction p as [a'| | | |m p IH|m p IH|v k IH|v n p IH|l p IH|B' c k IH] using prog_load_ind;
    intros s t Hp; cbn [does pbind] in *.
  1-3: destruct Hp as (-> & -> & ->); by destruct r'.
  - done.
  - destruct Hp as (t1 & -> & ? & Hp). exists t1. split_and!; auto.
  - destruct Hp as (t1 & h & -> & ? & ? & Hp). exists t1, h. split_and!; auto.
  - destruct Hp as (t1 & d & -> & Hg & Hd & Hpl & Hp). exists t1, d. split_and!; try done || lia.
    intros z Hz. specialize (Hp z Hz). destruct (k z) as [| | | | | | |v' n p| |] eqn:Hk; try done.
    destruct Hp as (-> & -> & Hp). cbn [pbind]. split_and!; [done|done|]. by eapply IH.
  - done.
  - destruct Hp as (t1 & -> & ? & Hp). exists t1. split_and!; auto.
  - destruct Hp as (t1 & b & l & -> & ? & Hp). exists t1, b, l. split_and!; auto.
Qed.

(** A load whose store follows. *)
Lemma small_in_int z : -1 ≤ z ≤ 1 → in_int z = true.
Proof. intros Hz. apply in_int_spec. lia. Qed.

Lemma does_store {A} v (k : Z → prog A) d s t r s' z :
  (∀ z, in_int (z + d) = true →
     match k z with
     | StoreC v' n k' => v' = v ∧ n = z + d ∧ does k' (set_counter v (counter_of v s + d) s) t r s'
     | _ => False
     end) →
  in_int (z + d) = true →
  ∃ k', k z = StoreC v (z + d) k' ∧ does k' (set_counter v (counter_of v s + d) s) t r s'.
Proof. intros Hk Hz. specialize (Hk z Hz). destruct (k z); try done. destruct Hk as (-> & -> & Hk). eauto. Qed.

Lemma set_counter_of v n s v' :
  counter_of v' (set_counter v n s) = if bool_decide (v' = v) then n else counter_of v' s.
Proof. by destruct v, v'. Qed.

(** The instructions tell what the thread counted, ... *)
Lemma does_delta {A} (p : prog A) s t r s' v :
  does p s t r s' → counter_of v s' = counter_of v s + delta v t.
Proof.
  revert s t. induction p as [a| | | |m p IH|m p IH|v' k IH|v' n p IH|l p IH|B c k IH] using prog_load_ind;
    intros s t Hp; cbn [does] in Hp.
  1-3: destruct Hp as (-> & -> & ->); cbn; lia.
  - done.
  - destruct Hp as (t' & -> & _ & Hp). apply IH in Hp. rewrite Hp. by destruct v.
  - destruct Hp as (t' & h & -> & _ & _ & Hp). apply IH in Hp. rewrite Hp. by destruct v.
  - destruct Hp as (t' & d & -> & _ & Hd & _ & Hp).
    destruct (does_store _ _ _ _ _ _ _ (counter_of v' s) Hp (small_in_int _ Hd)) as (k' & Hk & Hk').
    apply (IH _ _ _ _ Hk) in Hk'. rewrite Hk', set_counter_of.
    change (delta v (Load v' :: Store v' d :: t')) with (0 + ((if bool_decide (v = v') then d else 0) + delta v t')).
    case_bool_decide; subst; lia.
  - done.
  - destruct Hp as (t' & -> & _ & Hp). apply IH in Hp. rewrite Hp. by destruct v.
  - destruct Hp as (t' & b & l & -> & _ & Hp). apply IH in Hp. rewrite Hp. by destruct v.
Qed.

(** ... and keep to the rules. *)
Lemma does_disciplined {A} (p : prog A) s t r s' :
  does p s t r s' → s_held s' = [] → disciplined (s_held s) t = true.
Proof.
  intros Hp Hs. revert s t Hp.
  induction p as [a| | | |m p IH|m p IH|v' k IH|v' n p IH|l p IH|B c k IH] using prog_load_ind;
    intros s t Hp; cbn [does] in Hp.
  1-3: destruct Hp as (-> & -> & ->); by rewrite Hs.
  - done.
  - destruct Hp as (t' & -> & Hb & Hp). apply IH in Hp. cbn [disciplined]. by rewrite Hb.
  - destruct Hp as (t' & h & -> & Hh & _ & Hp). apply IH in Hp. cbn [disciplined]. rewrite Hh.
    by rewrite bool_decide_true.
  - destruct Hp as (t' & d & -> & Hg & Hd & _ & Hp).
    destruct (does_store _ _ _ _ _ _ _ (counter_of v' s) Hp (small_in_int _ Hd)) as (k' & Hk & Hk').
    apply (IH _ _ _ _ Hk) in Hk'. cbn [disciplined]. rewrite !bool_decide_true by done. by destruct v'.
  - done.
  - destruct Hp as (t' & -> & _ & Hp). by apply IH in Hp.
  - destruct Hp as (t' & b & l & -> & _ & Hp). by apply IH in Hp.
Qed.

(** Run in one go, the tree does the same. *)
Definition outcome_of {A} (r : ended A) (s : srv) : outcome srv A :=
  match r with Returned a => Ok a s | Left => Exit 0 s | Spinning => NoFuel end.

Lemma does_interp {A} (p : prog A) s t r s' : does p s t r s' → interp p s = outcome_of r s'.
Proof.
  revert s t. induction p as [a| | | |m p IH|m p IH|v' k IH|v' n p IH|l p IH|B c k IH] using prog_load_ind;
    intros s t Hp; cbn [does] in Hp.
  1-3: by destruct Hp as (-> & -> & ->).
  - done.
  - destruct Hp as (t' & -> & Hb & Hp). apply IH in Hp. cbn [interp]. unfold mbind, C_bind, pthread_mutex_lock.
    by rewrite bool_decide_false by (by apply (below_notin m)).
  - destruct Hp as (t' & h & -> & Hh & Hm & Hp). apply IH in Hp. cbn [interp].
    unfold mbind, C_bind, pthread_mutex_unlock. rewrite Hh, bool_decide_true by (by left).
    rewrite filter_cons_False by (by intros Hx; apply Hx). by rewrite filter_ne_notin.
  - destruct Hp as (t' & d & -> & Hg & Hd & _ & Hp).
    destruct (does_store _ _ _ _ _ _ _ (counter_of v' s) Hp (small_in_int _ Hd)) as (k' & Hk & Hk').
    apply (IH _ _ _ _ Hk) in Hk'. cbn [interp]. unfold mbind, C_bind, get. by rewrite Hk.
  - done.
  - destruct Hp as (t' & -> & _ & Hp). by apply IH in Hp.
  - destruct Hp as (t' & b & l & -> & Hc & Hp). apply IH in Hp. cbn [interp].
    unfold mbind, C_bind, on_loc. by rewrite Hc.
Qed.
End does.
