(* ===== verification/ServerFate.v ===== *)
(** * ServerFate: what every serving thread does

    Total correctness for the trees of [ServerCode]: [runs p s Q] says that [p],
    followed from the thread's own view [s], keeps the rules of [does] up to its
    end, where [Q] holds.  Whatever the network does, the thread of a client keeps
    the rules, and ends in one of three ways: it has served the client, it has left
    after a message that could not be sent, or it still waits for a valid guess. *)
From Stdlib Require Import Ascii String.
From stdpp Require Import prelude functions list strings.
From S2P Require Import Prelude CMonad CString SecretCode SecretCodeRefine Messages Server ServerRefine.
From S2P Require Import ServerMain Threads ServerThreads ServerCode ServerRun.

Definition runs {A} (may : bool) (p : prog A) (s : srv) (Q : ended A → srv → Prop) : Prop :=
  ∃ t r s', does may p s t r s' ∧ Q r s'.

Section any.
Context {may : bool}.
Notation runs := (runs may).

Section rules.
Context {A : Type}.
Implicit Types Q : ended A → srv → Prop.

Lemma runs_ret (a : A) s Q : Q (Returned a) s → runs (mret a) s Q.
Proof. intros HQ. by exists [], (Returned a), s. Qed.

Lemma runs_exits s Q : Q Left s → runs Exits s Q.
Proof. intros HQ. by exists [], Left, s. Qed.

Lemma runs_mono (p : prog A) s (P Q : ended A → srv → Prop) :
  runs p s P → (∀ r s', P r s' → Q r s') → runs p s Q.
Proof. intros (t & r & s' & Hp & HP) HQ. exists t, r, s'. eauto. Qed.

Lemma runs_call (c : C loc A) s Q :
  wp c (λ b l, Q (Returned b) (set_loc l s)) (loc_of s) → runs (call c) s Q.
Proof.
  intros (b & l & Hc & HQ)%wp_run. exists [Local], (Returned b), (set_loc l s). split; [|done].
  exists [], b, l. done.
Qed.
End rules.

Lemma runs_bind {A B} (p : prog A) (f : A → prog B) s (Q : ended B → srv → Prop) :
  runs p s (λ r s', match r with
    | Returned a => runs (f a) s' Q
    | Left => Q Left s'
    | Spinning => Q Spinning s' end) → runs (p ≫= f) s Q.
Proof.
  intros (t & [a| |] & s1 & Hp & Hr).
  - destruct Hr as (t' & r & s' & Hf & HQ). exists (t ++ t'), r, s'. split; [by eapply does_bind|done].
  - exists t, Left, s1. split; [by eapply does_stop|done].
  - exists t, Spinning, s1. split; [by eapply does_stop|done].
Qed.

Lemma runs_locks m s (Q : ended () → srv → Prop) :
  below m (s_held s) = true → Q (Returned ()) (set_held (m :: s_held s) s) → runs (locks m) s Q.
Proof. intros Hb HQ. exists [Lock m], (Returned ()). eexists. split; [|done]. by exists []. Qed.

Lemma runs_unlocks m h s (Q : ended () → srv → Prop) :
  s_held s = m :: h → m ∉ h → Q (Returned ()) (set_held h s) → runs (unlocks m) s Q.
Proof. intros Hh Hm HQ. exists [Unlock m], (Returned ()). eexists. split; [|done]. by exists [], h. Qed.

Lemma runs_logs l s (Q : ended () → srv → Prop) :
  log_file_mutex ∈ s_held s → Q (Returned ()) (set_log (s_log s ++ [l]) s) → runs (logs l) s Q.
Proof. intros Hl HQ. exists [Local], (Returned ()). eexists. split; [|done]. by exists []. Qed.

Lemma runs_count v d s (Q : ended () → srv → Prop) :
  below (counter_mutex v) (s_held s) = true → -1 ≤ counter_of v s + d ≤ 1 → placed may v d s →
  Q (Returned ()) (set_counter v (counter_of v s + d) s) → runs (count_prog v d) s Q.
Proof.
  intros Hb Hd Hpl HQ. apply runs_bind, runs_locks; [done|]. apply runs_bind.
  set (s1 := set_held _ s). exists [Load v; Store v d], (Returned ()), (set_counter v (counter_of v s1 + d) s1).
  split.
  - exists [], d. assert (counter_of v s1 = counter_of v s) as -> by (by destruct v).
    split_and!; [done|by left|lia|lia|done|].
    intros z Hz. rewrite Hz. done.
  - apply (runs_unlocks _ (s_held s)); [by destruct v|by apply below_notin|].
    unfold s1. by destruct s, v.
Qed.

(** The invariant of a loop may depend on the iterations left. *)
Lemma runs_iter {L R} (I : nat → L → srv → Prop) n (body : L → prog (L + R)) l s (Q : ended R → srv → Prop) :
  (∀ k l s, I (S k) l s → runs (body l) s (λ r s', match r with
     | Returned (inl l') => I k l' s'
     | Returned (inr r) => Q (Returned r) s'
     | Left => Q Left s'
     | Spinning => Q Spinning s' end)) →
  (∀ l s, I 0%nat l s → Q Spinning s) → I n l s → runs (piter n body l) s Q.
Proof.
  intros Hb Hs. revert l s. induction n as [|n IH]; intros l s HI.
  - exists [], Spinning, s. split; [done|eauto].
  - apply runs_bind. eapply runs_mono; [by apply Hb|].
    intros [[l'|r]| |] s' Hr; [by apply IH|by apply runs_ret|done|done].
Qed.

(** A thread that serves a client, and has not been sent more than there was. *)
Definition busy (s0 : srv) (w : Z) (s : srv) : Prop :=
  serving s0 w s ∧ (demand (s_conn s) ≤ demand (s_conn s0))%nat.

(** What holds when a part of its code returns, leaves or spins.  With more fuel than
    its client's connection can demand, a thread spins because its client has stopped
    sending. *)
Definition while_serving {A} (fuel : nat) (s0 : srv) (P : A → srv → Prop) (r : ended A) (s : srv) : Prop :=
  match r with
  | Returned a => P a s
  | Left => served s0 s
  | Spinning => serving s0 0 s ∧ ((demand (s_conn s0) < fuel)%nat → drained (s_conn s))
  end.

Lemma runs_seq {A B} fuel (p : prog A) (f : A → prog B) s s0 (P : A → srv → Prop) (Q : B → srv → Prop) :
  runs p s (while_serving fuel s0 P) → (∀ a s', P a s' → runs (f a) s' (while_serving fuel s0 Q)) →
  runs (p ≫= f) s (while_serving fuel s0 Q).
Proof. intros Hp Hf. apply runs_bind. eapply runs_mono; [done|]. intros [a| |] s' Hr; [by apply Hf|done..]. Qed.

(** The counters of [s0], before the thread counted anything. *)
Definition blank (s0 : srv) : Prop := ∀ v, counter_of v s0 = 0.

Lemma busy_loc s0 w s l :
  busy s0 w s → l_closed l = s_closed s → (demand (l_conn l) ≤ demand (s_conn s))%nat → busy s0 w (set_loc l s).
Proof. intros [[] Hd] Hl Hc. split; [constructor; simpl; congruence|]. simpl. lia. Qed.

(** What a message that is awaited, and one that is sent, take from the connection. *)
Definition took (c c' : conn) : Prop :=
  writes c' = writes c ∧ (reads c = [] → c' = c) ∧ (reads c ≠ [] → demand c' < demand c)%nat.
Definition gave (c c' : conn) : Prop :=
  reads c' = reads c ∧ (writes c = [] → writes c' = []) ∧ (writes c ≠ [] → length (writes c') < length (writes c))%nat.

Lemma took_le c c' : took c c' → (demand c' ≤ demand c)%nat.
Proof. intros (_ & H1 & H2). destruct (reads c); [by rewrite H1|]. specialize (H2 ltac:(done)). lia. Qed.

Lemma gave_le c c' : gave c c' → (demand c' ≤ demand c)%nat.
Proof.
  unfold demand. intros (-> & H1 & H2). destruct (writes c); [rewrite H1 by done; done|].
  specialize (H2 ltac:(done)). lia.
Qed.

(** One after the other take something, or there was nothing. *)
Lemma took_gave c c1 c2 :
  took c c1 → gave c1 c2 → (drained c ∧ drained c2) ∨ (demand c2 < demand c)%nat.
Proof.
  intros Ht Hg. pose proof (gave_le _ _ Hg) as Hle.
  destruct (decide (reads c = [])) as [Er|Er]; [|right; destruct Ht as (_ & _ & Ht); specialize (Ht Er); lia].
  destruct Ht as (_ & Hc & _). rewrite (Hc Er) in *. clear Hc. destruct Hg as (Hr & Hw1 & Hw2).
  destruct (decide (writes c = [])) as [Ew|Ew].
  - left. split; [done|]. split; [by rewrite Hr|by apply Hw1].
  - right. unfold demand. rewrite Hr. specialize (Hw2 Ew). lia.
Qed.

Lemma runs_compose text s (Q : ended (list ascii) → srv → Prop) :
  (length text < 192)%nat → Q (Returned (block_text text)) s → runs (call (compose_at text)) s Q.
Proof.
  intros Hl HQ. apply runs_call. unfold compose_at. rewrite bool_decide_true by (unfold GP_SIZE; lia).
  apply wp_ret. by rewrite set_loc_of.
Qed.

(** The error paths of [send_gp_message]: the thread has closed the socket, given
    its place back, and left. *)
Record left_from (s s' : srv) : Prop := {
  lf_held : s_held s' = [];
  lf_now : clients_now_count s' = clients_now_count s - 1;
  lf_count : clients_count s' = clients_count s;
  lf_wins : clients_win_count s' = clients_win_count s;
  lf_closed : s_closed s' = s_closed s + 1;
  lf_log : last (s_log s') = Some ClientDisconnected ∨ last (s_log s') = Some ConnectionLost
}.

Lemma runs_leave s0 s :
  s_held s = [] → 0 ≤ clients_now_count s ≤ 2 →
  clients_now_count s = clients_now_count s0 → clients_count s = clients_count s0 →
  clients_win_count s = clients_win_count s0 → s_closed s = s_closed s0 + 1 →
  last (s_log s) = Some ClientDisconnected ∨ last (s_log s) = Some ConnectionLost →
  runs (count_prog NowCount (-1)) s (λ r s', r = Returned () ∧ left_from s0 s').
Proof.
  intros Hh Hn Hnow Hc Hw Hcl Hl. apply runs_count; [by rewrite Hh|simpl; lia|done|].
  split; [done|]. constructor; simpl; lia || done.
Qed.

Lemma runs_send t p s :
  s_held s = [] → 0 ≤ clients_now_count s ≤ 2 → (length (gp_text t p) < 192)%nat →
  runs (send_gp_prog t p) s (λ r s', match r with
    | Returned x => x.2 = block_text (gp_text t p) ∧ ∃ c, gave (s_conn s) c ∧ s' = set_loc (Loc c (s_closed s)) s
    | Left => left_from s s'
    | Spinning => False end).
Proof.
  intros Hh Hn Hl. pose proof (block_length _ Hl) as Hbl.
  apply runs_bind, runs_compose; [done|]. apply runs_bind, runs_call.
  change GP_SIZE with (Z.of_nat 192). rewrite <- Hbl. apply wp_send; rewrite ?Hbl; [lia|done|].
  destruct (scatter 5 _ _) as [[] c] eqn:Hsc; simpl send_code.
  - apply runs_ret. split; [done|]. exists c. split; [by eapply scatter_demand|done].
  - apply runs_bind, runs_locks; [by simpl; rewrite Hh|]. apply runs_bind, runs_logs; [by left|].
    apply runs_bind. eapply runs_unlocks; [done|simpl; rewrite Hh; apply not_elem_of_nil|].
    apply runs_bind, runs_call, wp_modify, runs_bind.
    eapply runs_mono; [apply (runs_leave s)|]; simpl; try done; [right; apply last_snoc|].
    intros r s' [-> Hs']. by apply runs_exits.
  - apply runs_bind, runs_locks; [by simpl; rewrite Hh|]. apply runs_bind, runs_logs; [by left|].
    apply runs_bind, runs_call, wp_modify, runs_bind, runs_logs; [by left|].
    apply runs_bind. eapply runs_unlocks; [done|simpl; rewrite Hh; apply not_elem_of_nil|]. apply runs_bind.
    eapply runs_mono; [apply (runs_leave s)|]; simpl; try done; [left; apply last_snoc|].
    intros r s' [-> Hs']. by apply runs_exits.
Qed.

End any.

(** ** The thread of a client *)
Notation serves := (runs true).

Section session.
Context (fuel : nat).
Notation while_serving := (while_serving fuel).

Lemma runs_send_gp s0 w t p s :
  blank s0 → busy s0 w s → 0 ≤ w ≤ 1 → (length (gp_text t p) < 192)%nat →
  serves (send_gp_prog t p) s
    (while_serving s0 (λ r s', busy s0 w s' ∧ r.2 = block_text (gp_text t p) ∧ gave (s_conn s) (s_conn s'))).
Proof.
  intros Hz Hsv Hw1 Hl. pose proof (Hz NowCount) as Hn. simpl in Hn. pose proof Hsv as [[Hh Hnow Hcnt Hcl Hw] _].
  eapply runs_mono; [apply runs_send; [done|lia|done]|].
  intros [r| |] s'; [|intros []; constructor; lia || done|done].
  intros [Hr (c & Hc & ->)]. split; [apply busy_loc; [done|done|by apply gave_le]|done].
Qed.

Lemma runs_receive s0 w buf s :
  busy s0 w s → length buf = 192%nat →
  serves (call (receive_message buf GP_SIZE)) s
    (while_serving s0 (λ r s', busy s0 w s' ∧ length r.2 = 192%nat ∧ took (s_conn s) (s_conn s'))).
Proof.
  intros Hsv Hl. apply runs_call, wp_receive; [unfold GP_SIZE; lia..|].
  destruct (gather 5 (Z.to_nat GP_SIZE) (get_conn (loc_of s))) as [b c] eqn:Hg.
  assert (took (s_conn s) c) as Ht.
  { pose proof (gather_stream _ _ _ _ _ Hg) as (_ & _ & Hwr & _). split; [exact Hwr|].
    apply (gather_demand _ _ _ _ _ Hg). unfold GP_SIZE. lia. }
  apply gather_stream in Hg as (_ & Hb & _). change (Z.to_nat GP_SIZE) with 192%nat in Hb.
  split; [apply busy_loc; [done|done|by apply took_le]|]. split; [simpl; rewrite filled_length; lia|done].
Qed.

Lemma runs_await s0 buf s :
  blank s0 → busy s0 0 s → length buf = 192%nat →
  serves (await_prog fuel buf) s
    (while_serving s0 (λ b s', busy s0 0 s' ∧ length b = 192%nat ∧ valid_buffer b)).
Proof.
  intros Hz Hsv Hl.
  apply runs_iter with (I := λ n b s, busy s0 0 s ∧ length b = 192%nat ∧
    ((demand (s_conn s0) < fuel)%nat → drained (s_conn s) ∨ (demand (s_conn s) < n)%nat)).
  2: { intros b s' ([] & _ & Hd). split; [done|]. intros Hf. destruct (Hd Hf); [done|lia]. }
  2: { split; [done|]. split; [done|]. intros Hf. right. destruct Hsv. lia. }
  clear -Hz. intros n b s (Hsv & Hl & Hd). apply runs_bind. eapply runs_mono; [by apply runs_receive|].
  intros [[r b']| |] s'; [|done..]. intros (Hsv' & Hl' & Ht). simpl in Hl'.
  apply runs_bind, runs_call, wp_is_valid; [left; lia|]. rewrite set_loc_of.
  case_bool_decide as Hv; [by apply runs_ret|].
  apply runs_bind. eapply runs_mono; [apply (runs_send_gp s0 0); [done|done|lia|simpl; lia]|].
  intros [[r2 b2]| |] s2; [|done..]. intros (Hsv2 & Hb2 & Hg). simpl in Hb2. apply runs_ret. split; [done|].
  split; [rewrite Hb2; apply block_length; simpl; lia|]. intros Hf.
  destruct (took_gave _ _ _ Ht Hg) as [[_ ?]|Hlt]; [by left|].
  destruct (Hd Hf) as [[Hr Hw]|?]; [|right; lia]. exfalso. unfold demand in Hlt. rewrite Hr, Hw in Hlt. simpl in Hlt. lia.
Qed.

Lemma runs_round s0 secret rest n s :
  blank s0 → busy s0 0 s → length secret = 4%nat → 0 ≤ n < 10 →
  serves (round_prog fuel (secret ++ rest) n) s
    (while_serving s0 (λ r s', busy s0 0 s' ∧ r.1 = n + 1 ∧ 0 ≤ r.2 ≤ 4)).
Proof.
  intros Hz Hsv Hsec Hn. eapply runs_seq; [apply (runs_send_gp s0 0); [done|done|lia|simpl; lia]|].
  intros [r1 b1] s1 (Hsv1 & Hb1 & _). simpl in Hb1.
  eapply runs_seq; [apply runs_await; [done|done|rewrite Hb1; apply block_length; simpl; lia]|].
  intros b2 s2 (Hsv2 & Hl2 & Hv2). destruct (valid_buffer_split _ Hv2) as (rst & Hb2 & Hg & _).
  destruct Hsv2 as [[Hh ? ? ? ?] Hd].
  apply runs_bind, runs_locks; [by rewrite Hh|]. apply runs_bind, runs_logs; [by left|].
  apply runs_bind, runs_call. rewrite Hb2 at 1.
  eapply wp_mono; [by apply (wp_feedback (ra := rest) (rg := NUL :: rst) Hsec Hg)|].
  intros [[x p] c] l3 (-> & [= -> -> ->]). rewrite set_loc_of.
  pose proof (positions_bounds secret (take 4 b2)) as Hp. rewrite Hsec in Hp.
  apply runs_bind, runs_logs; [by left|]. apply runs_bind.
  eapply runs_unlocks; [done|simpl; rewrite Hh; apply not_elem_of_nil|].
  apply runs_bind, runs_call. wp_step. rewrite set_loc_of.
  eapply runs_seq; [apply (runs_send_gp s0 0); [done|by split; [constructor|]|lia|apply feedback_length]|].
  intros [r4 b4] s4 [Hsv4 _]. apply runs_bind, runs_call. wp_step. rewrite set_loc_of. by apply runs_ret.
Qed.

Lemma runs_hello s0 rands secret :
  blank s0 → s_held s0 = [] → (∀ i, 0 ≤ rands i ≤ INT_MAX) → (4 < length secret)%nat →
  serves (hello_prog rands secret) s0
    (λ r s', busy s0 0 s' ∧ ∃ code rest, r = Returned (code ++ NUL :: rest) ∧ length code = 4%nat).
Proof.
  intros Hz Hh Hr Hlen. pose proof (Hz NowCount) as H1. pose proof (Hz Count) as H2.
  pose proof (Hz WinCount) as H3. simpl in *.
  apply runs_bind, runs_locks; [by rewrite Hh|]. apply runs_bind, runs_logs; [by left|]. rewrite Hh.
  apply runs_bind, runs_count; [done|simpl; lia|by intros _|].
  apply runs_bind, runs_count; [done|simpl; lia|done|].
  apply runs_bind, runs_call, wp_is_valid; [by left|]. rewrite set_loc_of. set (s1 := set_counter Count _ _).
  apply runs_bind.
  eapply runs_mono with (P := λ r s', s' = s1 ∧ ∃ code rest, r = Returned (code ++ NUL :: rest) ∧ length code = 4%nat).
  { case_bool_decide as Hv.
    - apply runs_ret. destruct (valid_buffer_split _ Hv) as (rest & Hb & Hl & _).
      split; [done|]. exists (take 4 secret), rest. by rewrite <- Hb.
    - apply runs_call, wp_random; [done..|]. intros code [Hl _].
      rewrite set_loc_of. split; [done|]. by do 2 eexists. }
  intros r s' (-> & code & rest & -> & Hcode).
  apply runs_bind, runs_logs; [by left|]. apply runs_bind.
  eapply runs_unlocks; [done|apply not_elem_of_nil|]. apply runs_ret.
  split; [|by do 2 eexists]. split; [constructor; simpl; lia || done|done].
Qed.

Lemma runs_game s0 secret rest s :
  blank s0 → busy s0 0 s → length secret = 4%nat →
  serves (game_prog fuel (secret ++ rest)) s (while_serving s0 (λ _ s', busy s0 0 s')).
Proof.
  intros Hz Hsv Hsec.
  apply runs_iter with (I := λ k '(n, p) s', busy s0 0 s' ∧ n + Z.of_nat k = 11 ∧ 0 ≤ n ≤ 10 ∧ 0 ≤ p ≤ 4).
  - intros k [n p] s3 (Hsv3 & Hk & Hn & Hp). destruct ((n <? MAX_GUESSES_COUNT) && (p <? SECRET_CODE_LEN)) eqn:E.
    + unfold MAX_GUESSES_COUNT in E. apply runs_bind.
      eapply runs_mono; [apply (runs_round s0); [done|done|done|lia]|].
      intros [[n' p']| |] s4; [|done..]. intros (Hsv4 & Hn' & Hp'). apply runs_ret. simpl in *. split; [done|]. unfold MAX_GUESSES_COUNT in *. lia.
    + by apply runs_ret.
  - intros [n p] s' (_ & Hk & Hn & _). lia.
  - split; [done|]. unfold MAX_GUESSES_COUNT. lia.
Qed.

Lemma runs_announce s0 w l t s :
  blank s0 → busy s0 w s → 0 ≤ w ≤ 1 → (length (gp_text t None) < 192)%nat →
  serves (locks log_file_mutex;; logs l;; unlocks log_file_mutex;; send_gp_prog t None) s
    (while_serving s0 (λ _ s', ∃ w, 0 ≤ w ≤ 1 ∧ busy s0 w s')).
Proof.
  intros Hz [[Hh ? ? ? ?] Hd] Hw Hl. apply runs_bind, runs_locks; [by rewrite Hh|].
  apply runs_bind, runs_logs; [by left|]. apply runs_bind.
  eapply runs_unlocks; [done|simpl; rewrite Hh; apply not_elem_of_nil|].
  eapply runs_mono; [apply (runs_send_gp s0 w); [done|by split; [constructor|]|done|done]|].
  intros [r| |] s' Hr; [|done..]. exists w. by destruct Hr.
Qed.

Lemma runs_verdict s0 p s :
  blank s0 → busy s0 0 s →
  serves (verdict_prog p) s (while_serving s0 (λ _ s', ∃ w, 0 ≤ w ≤ 1 ∧ busy s0 w s')).
Proof.
  intros Hz Hsv. unfold verdict_prog. case_match.
  - pose proof (Hz WinCount) as Hw. destruct Hsv as [[] Hd]. simpl in Hw. apply runs_bind, runs_count; [by rewrite sv_held|simpl; lia|done|].
    apply (runs_announce s0 1); [done| |lia|simpl; lia]. split; [constructor; simpl; lia || done|done].
  - apply (runs_announce s0 0); [done|done|lia|simpl; lia].
Qed.

Lemma runs_goodbye s0 w s :
  blank s0 → busy s0 w s → 0 ≤ w ≤ 1 →
  serves goodbye_prog s (while_serving s0 (λ _ s', served s0 s')).
Proof.
  intros Hz [[Hh ? ? ? ?] Hd] Hw. apply runs_bind, runs_call, wp_modify.
  apply runs_bind, runs_locks; [by simpl; rewrite Hh|]. apply runs_bind, runs_logs; [by left|].
  apply runs_bind. eapply runs_unlocks; [done|simpl; rewrite Hh; apply not_elem_of_nil|].
  apply runs_count; [by simpl; rewrite Hh|simpl; pose proof (Hz NowCount) as Hn; simpl in Hn; lia|done|].
  constructor; simpl; try lia || done. left. apply last_snoc.
Qed.

(** The session after the greeting. *)
Lemma runs_play s0 code rest s :
  blank s0 → busy s0 0 s → length code = 4%nat →
  serves (play_prog fuel (code ++ rest)) s (while_serving s0 (λ _ s', served s0 s')).
Proof.
  intros Hz Hsv Hcode.
  do 3 (eapply runs_seq; [apply (runs_send_gp s0 0); [done|done|lia|vm_compute; lia]|];
    clear Hsv; intros _ ? (Hsv & _)).
  eapply runs_seq; [by apply runs_game|]. intros p s3 Hsv3.
  eapply runs_seq; [by apply runs_verdict|]. intros r s4 (w & Hw & Hsv4). by eapply runs_goodbye.
Qed.

(** The whole thread: the instructions of the greeting, and those of the session. *)
Lemma does_routine s0 rands secret :
  blank s0 → s_held s0 = [] → (∀ i, 0 ≤ rands i ≤ INT_MAX) → (4 < length secret)%nat →
  ∃ t1 t2 b s1 r s', does true (hello_prog rands secret) s0 t1 (Returned b) s1 ∧ serving s0 0 s1 ∧
    does true (play_prog fuel b) s1 t2 r s' ∧
    does true (routine_prog rands fuel secret) s0 (t1 ++ t2) r s' ∧
    while_serving s0 (λ _ s', served s0 s') r s'.
Proof.
  intros Hz Hh Hr Hlen.
  destruct (runs_hello s0 rands secret Hz Hh Hr Hlen) as (t1 & ? & s1 & Hd1 & Hsv & code & rest & -> & Hcode).
  destruct (runs_play s0 code (NUL :: rest) s1 Hz Hsv Hcode) as (t2 & r & s' & Hd2 & Hw).
  exists t1, t2, (code ++ NUL :: rest), s1, r, s'. split_and!; try done; [by apply Hsv|]. by eapply does_bind.
Qed.
End session.

(** The main thread with a client that it does not serve: it is left with nothing
    counted, or, when the refusal cannot be sent, it leaves and has counted one
    client too few. *)
Definition main_view (s : srv) : Prop := s_held s = [] ∧ ∀ v, counter_of v s = 0.

Definition main_fate (r : ended ()) (s : srv) : Prop :=
  s_held s = [] ∧ clients_count s = 0 ∧ clients_win_count s = 0 ∧
  match r with
  | Returned _ => clients_now_count s = 0
  | Left => clients_now_count s = -1
  | Spinning => False
  end.

Lemma runs_no_thread s : main_view s → runs false no_thread_prog s main_fate.
Proof.
  intros [Hh Hz]. pose proof (Hz NowCount) as H1. pose proof (Hz Count) as H2. pose proof (Hz WinCount) as H3.
  apply runs_bind, runs_locks; [by rewrite Hh|]. apply runs_bind, runs_logs; [by left|].
  apply runs_bind. eapply runs_unlocks; [done|simpl; rewrite Hh; apply not_elem_of_nil|].
  apply runs_call, wp_modify. unfold main_fate. by simpl in *; rewrite H1, H2, H3.
Qed.

Lemma runs_refuse s : main_view s → runs false refuse_prog s main_fate.
Proof.
  intros [Hh Hz]. pose proof (Hz NowCount) as H1. pose proof (Hz Count) as H2. pose proof (Hz WinCount) as H3.
  apply runs_bind, runs_locks; [by rewrite Hh|]. apply runs_bind, runs_logs; [by left|].
  apply runs_bind. eapply runs_unlocks; [done|simpl; rewrite Hh; apply not_elem_of_nil|].
  apply runs_bind. eapply runs_mono; [apply runs_send; simpl in *; [done|lia|lia]|].
  intros [x| |] s'; [|intros []; unfold main_fate; simpl in *; split_and!; lia || done|done].
  intros [_ (c & _ & ->)]. apply runs_call, wp_modify. unfold main_fate. by simpl in *; rewrite Hh, H1, H2, H3.
Qed.
