(* ===== verification/ServerSim.v ===== *)
(** * ServerSim: the threads' code simulates the instruction sequences of [Threads]

    A state of the running server is matched with a configuration of [Threads]: the
    thread that runs the tree [p] has to do the instructions that [does] lists for
    [p].  The match is kept by every step, so that what [Threads] proves of
    disciplined programs (no lost update, no deadlock, the steps that remain) holds of
    the code, and every thread ends as it would have ended alone. *)
From Stdlib Require Import Ascii String.
From stdpp Require Import prelude functions list strings.
From S2P Require Import Prelude CMonad CString SecretCode Messages Server ServerRefine.
From S2P Require Import ServerMain Threads ServerThreads ServerCode ServerRun ServerFate.

Notation sthread := (thread mutex counter).
Notation sconfig := (config mutex counter).

(** The server as the thread of a new client sees it: nothing counted, an empty log. *)
Definition alone (k : client) : srv := Srv (k_conn k) 0 [] 0 0 0 [].

(** The main thread takes no place among the clients. *)
Definition role (i : nat) : bool := match i with O => false | S _ => true end.

(** The view [s] of thread [i], which runs the code of [x], matches the thread [t];
    the thread will end as [r] tells, with the view [s']. *)
Record view (i : nat) (lg : list (nat * log_line)) (x : thr) (t : sthread)
    (r : ended ()) (s' s : srv) : Prop := {
  vw_loc : t_loc x = loc_of s;
  vw_held : holding t = s_held s;
  vw_count v : counter_of v s = delta v (executed t);
  vw_small v : -1 ≤ counter_of v s ≤ 1;
  vw_log : own i lg = s_log s;
  vw_code : does (role i) (t_code x) s (todo t) r s' ∨
    ∃ v d k p, t_code x = StoreC v (reg t + d) k ∧ todo t = Store v d :: p ∧
      -1 ≤ counter_of v s + d ≤ 1 ∧ placed (role i) v d s ∧ does (role i) k (set_counter v (counter_of v s + d) s) p r s';
  vw_end : s_held s' = []
}.

Section sim.
Context (fuel : nat) (secret_code : list ascii).
Notation serve := (serve fuel secret_code).

(** How thread [i] ends: a serving thread as it would alone. *)
Definition fate (i : nat) (x : thr) (r : ended ()) (s' : srv) : Prop :=
  match i with
  | O => main_fate r s'
  | S _ => (∃ t, does true (serve (t_arg x)) (alone (t_arg x)) t r s') ∧
      while_serving fuel (alone (t_arg x)) (λ _ s', served (alone (t_arg x)) s') r s'
  end.

Definition linked (i : nat) (lg : list (nat * log_line)) (x : thr) (t : sthread) : Prop :=
  ∃ r s' s, view i lg x t r s' s ∧ fate i x r s'.

Record sim (w : world) (c : sconfig) : Prop := {
  sim_inv : inv c;
  sim_value : value c = w_count w;
  sim_owner : owner c = w_owner w;
  sim_length : length (threads c) = length (w_threads w);
  sim_linked i x t : w_threads w !! i = Some x → threads c !! i = Some t → linked i (w_log w) x t;
  sim_fresh i : (length (w_threads w) ≤ i)%nat → own i (w_log w) = []
}.

Lemma own_app i lg lg' : own i (lg ++ lg') = own i lg ++ own i lg'.
Proof. unfold own. by rewrite filter_app, fmap_app. Qed.
Lemma own_self i l : own i [(i, l)] = [l].
Proof. unfold own. by rewrite filter_cons_True. Qed.
Lemma own_other i j l : i ≠ j → own i [(j, l)] = [].
Proof. intros Hij. unfold own. rewrite filter_cons_False; [done|]. simpl. congruence. Qed.

(** One thread takes a step. *)
Lemma sim_update w c i x t x' t' f o lg :
  sim w c → w_threads w !! i = Some x → threads c !! i = Some t →
  inv (Config f o (<[i := t']> (threads c))) →
  (∀ j, j ≠ i → own j lg = own j (w_log w)) →
  linked i lg x' t' →
  sim (World f o lg (<[i := x']> (w_threads w))) (Config f o (<[i := t']> (threads c))).
Proof.
  intros [Hinv Hv Ho Hl Hlk Hfr] Hx Ht Hinv' Hown Hnew.
  assert (i < length (w_threads w))%nat as Hi by (by eapply lookup_lt_Some).
  split; cbn [value owner threads w_count w_owner w_threads w_log]; [done|done|done| | |].
  - by rewrite !length_insert.
  - intros j y u Hy Hu. destruct (decide (j = i)) as [->|Hne].
    + rewrite list_lookup_insert_eq in Hy by lia. rewrite list_lookup_insert_eq in Hu by lia. by simplify_eq.
    + rewrite list_lookup_insert_ne in Hy by done. rewrite list_lookup_insert_ne in Hu by done.
      destruct (Hlk j y u Hy Hu) as (r & s' & s & [] & Hf). exists r, s', s. split; [|done].
      split; try done. by rewrite Hown.
  - intros j Hj. rewrite length_insert in Hj. rewrite Hown by lia. by apply Hfr.
Qed.

(** What has been counted stays within the number of threads. *)
Lemma total_small v (ts : list sthread) :
  (∀ i t, ts !! i = Some t → -1 ≤ delta v (executed t) ≤ 1) →
  - Z.of_nat (length ts) ≤ total v ts ≤ Z.of_nat (length ts).
Proof.
  induction ts as [|t ts IH]; intros Hall; [cbn; lia|].
  change (- Z.of_nat (S (length ts)) ≤ delta v (executed t) + total v ts ≤ Z.of_nat (S (length ts))).
  specialize (Hall 0%nat t eq_refl) as H0.
  assert (- Z.of_nat (length ts) ≤ total v ts ≤ Z.of_nat (length ts)).
  { apply IH. intros i u Hu. by apply (Hall (S i)). }
  lia.
Qed.

Lemma sim_count w c v : sim w c → - Z.of_nat (length (w_threads w)) ≤ w_count w v ≤ Z.of_nat (length (w_threads w)).
Proof.
  intros [Hinv Hv Ho Hl Hlk _]. rewrite <- Hv, (inv_value c Hinv), <- Hl. apply total_small.
  intros i t Ht. destruct (lookup_lt_is_Some_2 (w_threads w) i) as [x Hx].
  { rewrite <- Hl. by eapply lookup_lt_Some. }
  destruct (Hlk i x t Hx Ht) as (r & s' & s & [] & _). by rewrite <- vw_count0.
Qed.

(** The thread [x] of the server does its first instruction. *)
Lemma linked_step i lg' x t (r : ended ()) s' s1 y p h z l k :
  fate i x r s' → s_held s' = [] →
  l = loc_of s1 → h = s_held s1 → own i lg' = s_log s1 →
  (∀ v, counter_of v s1 = delta v (executed t) + change v y) → (∀ v, -1 ≤ counter_of v s1 ≤ 1) →
  does (role i) k s1 p r s' →
  linked i lg' (Thr (t_arg x) l k) (Thread (executed t ++ [y]) p h z).
Proof.
  intros Hf He -> -> Hlg Hc Hs Hd. exists r, s', s1. split; [|done].
  split; cbn [t_loc t_code holding executed todo reg]; try done; [|by left].
  intros v. by rewrite delta_snoc.
Qed.

(** A thread that is about to run the node [t_code x]. *)
Section step.
Context (w : world) (c : sconfig) (i : nat) (x : thr) (t : sthread) (r : ended ()) (s' s : srv).
Context (Hsim : sim w c) (Hx : w_threads w !! i = Some x) (Ht : threads c !! i = Some t).
Context (Hvw : view i (w_log w) x t r s' s) (Hf : fate i x r s').
Context (Hmax : Z.of_nat (length (w_threads w)) + 2 ≤ INT_MAX).

(** The step of [Threads] that the thread takes, when its first instruction is [y]. *)
Lemma sim_goes f o lg y p h z x' :
  run_step i c = Some (Config f o (<[i := Thread (executed t ++ [y]) p h z]> (threads c))) →
  (∀ j, j ≠ i → own j lg = own j (w_log w)) →
  linked i lg x' (Thread (executed t ++ [y]) p h z) →
  ∃ c', run_step i c = Some c' ∧ sim (World f o lg (<[i := x']> (w_threads w))) c'.
Proof.
  intros Hs Hown Hl. eexists. split; [exact Hs|]. apply sim_update with x t; try done.
  by apply (inv_step c i); [apply Hsim|].
Qed.

Lemma view_owner m : m ∈ s_held s → w_owner w m = Some i.
Proof.
  intros Hm. rewrite <- (sim_owner w c Hsim). eapply holding_owner; [apply Hsim|done|].
  by rewrite (vw_held _ _ _ _ _ _ _ Hvw).
Qed.

(** A node that counts nothing. *)
Lemma view_keeps s1 : (∀ v, counter_of v s1 = counter_of v s) →
  (∀ v, counter_of v s1 = delta v (executed t) + 0) ∧ ∀ v, -1 ≤ counter_of v s1 ≤ 1.
Proof.
  destruct Hvw as [_ _ Hc Hs _ _ _]. intros Hs1. split; intros v; rewrite Hs1; [rewrite Hc; lia|apply Hs].
Qed.

(** The instruction of [Threads] is the first one to do. *)
Ltac step_to Hp :=
  unfold run_step; rewrite Ht; cbn [mbind option_bind]; unfold advance; rewrite Hp.

Lemma sim_store v d k p :
  t_code x = StoreC v (reg t + d) k → todo t = Store v d :: p → -1 ≤ counter_of v s + d ≤ 1 →
  does (role i) k (set_counter v (counter_of v s + d) s) p r s' →
  w_owner w (counter_mutex v) = Some i ∧
  ∃ c', run_step i c = Some c' ∧
    sim (World (<[v := reg t + d]> (w_count w)) (w_owner w) (w_log w) (put i x (t_loc x) k w)) c'.
Proof.
  intros Hk Hp Hd Hdoes. pose proof Hsim as [Hinv Hv Ho _ _ _]. destruct Hvw as [Hloc Hh Hc Hs Hlg _ He].
  destruct (inv_thread c Hinv i t Ht) as [[Hdis|(v' & d' & p' & Hp' & Hg & Hr & _)] _]; rewrite Hp in *; [done|].
  injection Hp' as <- <- <-. split; [by apply view_owner; rewrite <- Hh|].
  rewrite <- Ho, <- Hv. eapply sim_goes; [by step_to Hp|done|].
  apply (linked_step _ _ _ _ r s' (set_counter v (counter_of v s + d) s)); try done;
    [by rewrite Hloc; destruct v|by rewrite Hh; destruct v|by rewrite Hlg; destruct v| |].
  - intros v1. rewrite set_counter_of, <- Hc. cbn [change]. case_bool_decide; subst; lia.
  - intros v1. rewrite set_counter_of. case_bool_decide; [lia|apply Hs].
Qed.

Lemma sim_lock m k p :
  todo t = Lock m :: p → below m (s_held s) = true → does (role i) k (set_held (m :: s_held s) s) p r s' →
  match w_owner w m with
  | None => ∃ c', run_step i c = Some c' ∧
      sim (World (w_count w) (<[m := Some i]> (w_owner w)) (w_log w) (put i x (t_loc x) k w)) c'
  | Some j => j ≠ i ∧ run_step i c = None
  end.
Proof.
  intros Hp Hb Hd. pose proof Hsim as [Hinv Hv Ho _ _ _]. pose proof Hvw as [Hloc Hh Hc Hs Hlg _ He].
  rewrite <- Ho. destruct (owner c m) as [j|] eqn:Hm.
  - split; [|by step_to Hp; rewrite Hm]. intros ->. apply (inv_owner c Hinv) in Hm as (t0 & Ht0 & Hin).
    simplify_eq. rewrite Hh in Hin. by apply (below_notin m) in Hb.
  - rewrite <- Hv. eapply sim_goes; [by step_to Hp; rewrite Hm|done|].
    apply (linked_step _ _ _ _ r s' (set_held (m :: s_held s) s)); try done;
      first [by rewrite Hh|apply view_keeps; by intros []].
Qed.

Lemma sim_unlock m h k p :
  todo t = Unlock m :: p → s_held s = m :: h → m ∉ h → does (role i) k (set_held h s) p r s' →
  ∃ c', run_step i c = Some c' ∧
    sim (World (w_count w) (<[m := None]> (w_owner w)) (w_log w) (put i x (t_loc x) k w)) c'.
Proof.
  intros Hp Hhm Hm Hd. pose proof Hsim as [Hinv Hv Ho _ _ _]. pose proof Hvw as [Hloc Hh Hc Hs Hlg _ He].
  rewrite <- Hv, <- Ho. eapply sim_goes; [|done|].
  - step_to Hp. rewrite bool_decide_true; [done|]. rewrite Ho. apply view_owner. rewrite Hhm. by left.
  - apply (linked_step _ _ _ _ r s' (set_held h s)); try done; try (apply view_keeps; by intros []).
    rewrite Hh, Hhm, filter_cons_False by (by intros Hn; apply Hn). by rewrite filter_ne_notin.
Qed.

Lemma sim_load v d (k : Z → prog ()) p :
  todo t = Load v :: Store v d :: p → -1 ≤ counter_of v s + d ≤ 1 → placed (role i) v d s →
  (∀ z, in_int (z + d) = true →
     match k z with
     | StoreC v' n k' => v' = v ∧ n = z + d ∧ does (role i) k' (set_counter v (counter_of v s + d) s) p r s'
     | _ => False
     end) →
  ∃ c', run_step i c = Some c' ∧
    sim (World (w_count w) (w_owner w) (w_log w) (put i x (t_loc x) (k (w_count w v)) w)) c'.
Proof.
  intros Hp Hd Hpl Hdoes. pose proof Hsim as [Hinv Hv Ho _ _ _]. destruct Hvw as [Hloc Hh Hc Hs Hlg _ He].
  pose proof (sim_count w c v Hsim) as Hbound.
  destruct (does_store _ _ _ _ _ _ _ (w_count w v) Hdoes) as (k' & -> & Hk').
  { apply in_int_spec. specialize (Hs v). lia. }
  rewrite <- Hv, <- Ho. eapply sim_goes; [by step_to Hp|done|].
  exists r, s', s. split; [|done]. split; try done; cbn [t_code holding executed todo reg].
  - intros v1. rewrite delta_snoc. cbn [change]. rewrite Hc. lia.
  - right. exists v, d, k', p. done.
Qed.

(** A line of the log, or code on the connection. *)
Lemma sim_local lg l k s1 p :
  todo t = Local :: p → does (role i) k s1 p r s' → l = loc_of s1 → s_held s1 = s_held s →
  (∀ v, counter_of v s1 = counter_of v s) → own i lg = s_log s1 →
  (∀ j, j ≠ i → own j lg = own j (w_log w)) →
  ∃ c', run_step i c = Some c' ∧ sim (World (w_count w) (w_owner w) lg (put i x l k w)) c'.
Proof.
  intros Hp Hd Hl Hh1 Hc1 Hlg1 Hown. pose proof Hsim as [Hinv Hv Ho _ _ _].
  pose proof Hvw as [Hloc Hh Hc Hs Hlg _ He].
  rewrite <- Hv, <- Ho. eapply sim_goes; [by step_to Hp|done|].
  apply (linked_step _ _ _ _ r s' s1); try done; first [congruence|by apply view_keeps].
Qed.

Lemma sim_node :
  match wstep i w with
  | Goes w' => ∃ c', run_step i c = Some c' ∧ sim w' c'
  | Stuck => run_step i c = None
  | Undefined => False
  end.
Proof.
  unfold wstep. rewrite Hx.
  destruct (vw_code _ _ _ _ _ _ _ Hvw) as [Hcode|(v & d & k & p & Hk & Hp & Hd & _ & Hdoes)]; last first.
  { destruct (sim_store _ _ _ _ Hk Hp Hd Hdoes) as [Hi Hc]. rewrite Hk. by rewrite bool_decide_true. }
  destruct (t_code x) as [a| | | |m k|m k|v k|v n k|l k|B b k] eqn:Hxc; cbn [does] in Hcode.
  1-3: destruct Hcode as (Hp & _); unfold run_step; rewrite Ht; cbn; by rewrite Hp.
  - done.
  - destruct Hcode as (p & Hp & Hb & Hd). pose proof (sim_lock m k p Hp Hb Hd) as Hl.
    destruct (w_owner w m); [|done]. destruct Hl. by rewrite bool_decide_false.
  - destruct Hcode as (p & h & Hp & Hh & Hm & Hd).
    rewrite bool_decide_true by (apply view_owner; rewrite Hh; by left). by eapply sim_unlock.
  - destruct Hcode as (p & d & Hp & Hg & Hd & Hpl & Hdoes). rewrite bool_decide_true by (by apply view_owner).
    by eapply sim_load.
  - done.
  - destruct Hcode as (p & Hp & Hg & Hd). rewrite bool_decide_true by (by apply view_owner).
    eapply sim_local; [done|done|apply Hvw|done|by intros []| |].
    + by rewrite own_app, own_self, (vw_log _ _ _ _ _ _ _ Hvw).
    + intros j Hj. by rewrite own_app, own_other, app_nil_r.
  - destruct Hcode as (p & a & l & Hp & Hb & Hd). rewrite (vw_loc _ _ _ _ _ _ _ Hvw), Hb.
    eapply sim_local; [done|done|by destruct l|done|by intros []|apply Hvw|done].
Qed.
End step.

(** The code and the instructions run in step, and nothing is undefined. *)
Lemma sim_step w c i :
  sim w c → Z.of_nat (length (w_threads w)) + 2 ≤ INT_MAX →
  match wstep i w with
  | Goes w' => ∃ c', run_step i c = Some c' ∧ sim w' c'
  | Stuck => run_step i c = None
  | Undefined => False
  end.
Proof.
  intros Hsim Hmax. destruct (w_threads w !! i) as [x|] eqn:Hx; last first.
  { unfold wstep. rewrite Hx. unfold run_step.
    by rewrite (proj2 (lookup_ge_None _ _)) by (rewrite (sim_length w c Hsim); by apply lookup_ge_None). }
  destruct (lookup_lt_is_Some_2 (threads c) i) as [t Ht].
  { rewrite (sim_length w c Hsim). by eapply lookup_lt_Some. }
  destruct (sim_linked w c Hsim i x t Hx Ht) as (r & s' & s & Hvw & Hf). by eapply sim_node.
Qed.

(** ** The main thread *)
Lemma sim_start : sim world_start (start [[]]).
Proof.
  split; [apply inv_start; by constructor|done|done|done| |done].
  intros [|i] x t Hx Ht; [|done]. injection Hx as <-. injection Ht as <-.
  exists (Returned ()), (Srv (Conn [] [] []) 0 [] 0 0 0 []), (Srv (Conn [] [] []) 0 [] 0 0 0 []).
  split; [|done]. split; try done; [by intros []|intros []; cbn; lia|by left].
Qed.

(** A thread that has nothing to do gets something to do. *)
Lemma inv_assign (c : sconfig) i t p :
  inv c → threads c !! i = Some t → todo t = [] → disciplined [] p = true →
  holding t = [] ∧ inv (Config (value c) (owner c) (<[i := Thread (executed t) p (holding t) (reg t)]> (threads c))).
Proof.
  intros Hinv Ht Hp Hd. destruct (inv_thread c Hinv i t Ht) as [[Hok|(? & ? & ? & Hq & _)] Hord];
    rewrite Hp in *; [|done]. apply bool_decide_eq_true in Hok. split; [done|].
  eapply inv_update; try done; cbn [holding executed].
  - left. by rewrite Hok.
  - intros j tj _ Hj. by apply (inv_thread c Hinv j).
  - intros m. split; [|done]. rewrite (inv_owner c Hinv). split; [|eauto].
    intros (t0 & Ht0 & Hm). by simplify_eq.
  - intros v. cbn [executed]. lia.
Qed.

(** It turns a client away. *)
Lemma sim_turn_away w c x k p :
  sim w c → w_threads w !! 0%nat = Some x → t_code x = Ret () →
  (∀ s, main_view s → runs false p s main_fate) →
  ∃ c', sim (World (w_count w) (w_owner w) (w_log w)
    (<[0%nat := Thr k (Loc (k_conn k) 0) p]> (w_threads w))) c' ∧
    executed <$> threads c' = executed <$> threads c.
Proof.
  intros Hsim Hx Hk Hruns. pose proof Hsim as [Hinv Hv Ho Hl Hlk _].
  destruct (lookup_lt_is_Some_2 (threads c) 0%nat) as [t Ht].
  { rewrite Hl. by eapply lookup_lt_Some. }
  destruct (Hlk 0%nat x t Hx Ht) as (r & s' & s & [Hloc Hh Hc Hs Hlg Hcode He] & Hf).
  rewrite Hk in Hcode. destruct Hcode as [(Hp & -> & ->)|(? & ? & ? & ? & ? & _)]; [|done].
  destruct Hf as (_ & Hf1 & Hf2 & Hf3).
  set (s1 := set_loc (Loc (k_conn k) 0) s).
  destruct (Hruns s1) as (q & r & s' & Hdoes & Hfate); [by split; [|intros []]|].
  destruct (inv_assign c 0 t q Hinv Ht Hp) as [Hht Hinv'].
  { pose proof (does_disciplined _ _ _ _ _ Hdoes (proj1 Hfate)) as Hd. unfold s1 in Hd. simpl in Hd. by rewrite He in Hd. }
  eexists. rewrite <- Hv, <- Ho. split; [eapply sim_update; [done|done|done|exact Hinv'|done|]|]; last first.
  { cbn [threads]. rewrite list_fmap_insert. apply list_insert_id. by rewrite list_lookup_fmap, Ht. }
  exists r, s', s1. split; [|done]. split; cbn [t_loc t_code holding executed todo reg]; try done.
  - by left.
  - apply Hfate.
Qed.

(** It starts a thread. *)
Lemma strncpy_length n src : length (strncpy n src) = n.
Proof. unfold strncpy. rewrite length_app, length_replicate, length_take. lia. Qed.

Lemma does_serve k : (∀ i, 0 ≤ k_rands k i ≤ INT_MAX) →
  ∃ t1 t2 r s', does true (serve k) (alone k) (t1 ++ t2) r s' ∧ s_held s' = [] ∧
    while_serving fuel (alone k) (λ _ s', served (alone k) s') r s' ∧
    disciplined [] t1 = true ∧ delta NowCount t1 = 1 ∧ t2 ≠ [].
Proof.
  intros Hr. destruct (does_routine fuel (alone k) (k_rands k) (strncpy 5 secret_code))
    as (t1 & t2 & b & s1 & r & s' & Hd1 & Hsv & Hd2 & Hd & Hw); [by intros []|done|done|rewrite strncpy_length; lia|].
  exists t1, t2, r, s'. split_and!; [done| |done| | |].
  - destruct r; [by destruct Hw..|by destruct Hw as [[] _]].
  - apply (does_disciplined _ _ _ _ _ Hd1), Hsv.
  - pose proof (does_delta _ _ _ _ _ NowCount Hd1) as Hn. pose proof (sv_now _ _ _ Hsv). simpl in *. lia.
  - destruct Hd2 as (t' & x & l & -> & _). done.
Qed.

Lemma sim_spawn w c k p r s' :
  sim w c → (0 < length (w_threads w))%nat → does true (serve k) (alone k) p r s' → s_held s' = [] →
  while_serving fuel (alone k) (λ _ s', served (alone k) s') r s' →
  sim (World (w_count w) (w_owner w) (w_log w) (w_threads w ++ [Thr k (Loc (k_conn k) 0) (serve k)]))
    (Config (value c) (owner c) (threads c ++ [fresh p])).
Proof.
  intros [Hinv Hv Ho Hl Hlk Hfr] Hlen Hd He Hw.
  split; cbn [value owner threads w_count w_owner w_threads w_log]; [|done|done| | |].
  - apply inv_spawn; [|done]. by apply (does_disciplined _ _ _ _ _ Hd).
  - rewrite !length_app. simpl. lia.
  - intros i x t Hx Ht. apply lookup_app_Some in Hx as [Hx|[Hi Hx]].
    { rewrite lookup_app_l in Ht by (rewrite Hl; by eapply lookup_lt_Some). eauto. }
    apply list_lookup_singleton_Some in Hx as [Hi0 <-].
    assert (i = length (threads c)) as -> by lia.
    rewrite lookup_app_r, Nat.sub_diag in Ht by lia. injection Ht as <-.
    destruct (length (threads c)) as [|n] eqn:Hz; [lia|]. exists r, s', (alone k). split.
    + split; try done; [by intros []|intros []; simpl; lia| |by left]. apply Hfr. lia.
    + split; [by exists p|done].
  - intros i Hi. rewrite length_app in Hi. simpl in Hi. apply Hfr. lia.
Qed.

(** The main thread turns the client away, or starts a thread. *)
Lemma sim_accept w c k created w' :
  sim w c → (∀ i, 0 ≤ k_rands k i ≤ INT_MAX) → accept fuel secret_code k created w = Some w' →
  ∃ c', sim w' c' ∧
    (executed <$> threads c' = executed <$> threads c ∨
     w_count w NowCount < CLIENTS_NOW_MAX_COUNT ∧ executed <$> threads c' = (executed <$> threads c) ++ [[]]).
Proof.
  intros Hsim Hr Ha. unfold accept in Ha. destruct (w_threads w !! 0%nat) as [x|] eqn:Hx; [|done].
  destruct (t_code x) as [[]| | | | | | | | |] eqn:Hk; try done.
  destruct (CLIENTS_NOW_MAX_COUNT <=? w_count w NowCount) eqn:Hfull; [|destruct created]; injection Ha as <-.
  - destruct (sim_turn_away w c x k refuse_prog Hsim Hx Hk) as (c' & Hc' & He); [apply runs_refuse|]. eauto.
  - destruct (does_serve k Hr) as (t1 & t2 & r & s' & Hd & He & Hw & _). eexists. split.
    + eapply sim_spawn; [done| |done..]. by eapply lookup_lt_Some.
    + right. cbn [threads]. rewrite fmap_app. split; [lia|done].
  - destruct (sim_turn_away w c x k no_thread_prog Hsim Hx Hk) as (c' & Hc' & He); [apply runs_no_thread|]. eauto.
Qed.

(** The number of threads never goes down. *)
Lemma wstep_length i w w' : wstep i w = Goes w' → length (w_threads w') = length (w_threads w).
Proof.
  unfold wstep. intros Hs. repeat case_match; simplify_eq; cbn [w_threads put]; unfold put; by rewrite length_insert.
Qed.

Lemma accept_length k created w w' :
  accept fuel secret_code k created w = Some w' → (length (w_threads w) ≤ length (w_threads w'))%nat.
Proof.
  unfold accept. intros Ha. repeat case_match; simplify_eq; cbn [w_threads]; rewrite ?length_insert, ?length_app; simpl; lia.
Qed.

Lemma reach_sim w :
  wreach fuel secret_code w → Z.of_nat (length (w_threads w)) + 2 ≤ INT_MAX → ∃ c, sim w c.
Proof.
  induction 1 as [|w i w' _ IH Hs|w k created w' _ IH Hr Ha]; intros Hl.
  - eexists. apply sim_start.
  - pose proof (wstep_length _ _ _ Hs) as Hl'. rewrite Hl' in Hl. destruct (IH Hl) as [c Hc].
    pose proof (sim_step w c i Hc Hl) as Hgo. rewrite Hs in Hgo. destruct Hgo as (c' & _ & Hc'). eauto.
  - pose proof (accept_length _ _ _ _ Ha) as Hl'. destruct (IH ltac:(lia)) as [c Hc].
    destruct (sim_accept _ _ _ _ _ Hc Hr Ha) as (c' & Hc' & _). eauto.
Qed.
End sim.
