(* ===== verification/ServerEnds.v ===== *)
(** * ServerEnds: the ends of the server's threads

    What the simulation of [ServerSim] says of the code: which threads have ended
    and how, that the others can be run to their ends, what the threads that spend
    their fuel have in common, and what the counters, mutexes and sockets are when
    every thread is through. *)
From Stdlib Require Import Ascii String.
From stdpp Require Import prelude functions list strings.
From S2P Require Import Prelude CMonad CString SecretCode SecretCodeRefine Messages Server ServerRefine.
From S2P Require Import ServerMain Threads ServerThreads ServerCode ServerRun ServerFate ServerSim.

(** The thread has ended, or its loop has spent its fuel. *)
Definition over (x : thr) : bool :=
  match t_code x with Ret _ | Exits | Spins => true | _ => false end.

Definition code_of (r : ended ()) : prog () :=
  match r with Returned a => Ret a | Left => Exits | Spinning => Spins end.

Lemma view_over i lg x t r s' s :
  view i lg x t r s' s → over x = true → todo t = [] ∧ s = s' ∧ t_code x = code_of r.
Proof.
  intros [_ _ _ _ _ Hcode _]. unfold over. destruct Hcode as [Hcode|(v & d & k & p & -> & _)]; [|done].
  destruct (t_code x) as [a| | | | | | | | |] eqn:Hx; try done; destruct Hcode as (? & -> & ->); done.
Qed.

Lemma view_busy i lg x t r s' s :
  view i lg x t r s' s → over x = false → todo t ≠ [].
Proof.
  intros [_ _ _ _ _ Hcode _]. unfold over. destruct Hcode as [Hcode|(v & d & k & p & -> & -> & _)]; [|done].
  destruct (t_code x) as [a| | | | | | | | |]; try done; intros _; cbn [does] in Hcode;
    first [by destruct Hcode as (? & -> & _)|by destruct Hcode as (? & ? & -> & _)|by destruct Hcode as (? & ? & ? & -> & _)].
Qed.

(** The secret code of the command line, as a thread gets it. *)
Lemma strncpy_code secret : valid_code secret → strncpy 5 secret = secret ++ [NUL].
Proof.
  intros [Hl Hall]. change (Z.to_nat SECRET_CODE_LEN) with 4%nat in Hl. unfold strncpy.
  rewrite cstr_id, take_ge by (lia || (intros Hin; rewrite Forall_forall in Hall;
    by apply (color_not_NUL NUL); [apply Hall|])). by rewrite Hl.
Qed.

Section ends.
Context (fuel : nat) (secret_code : list ascii).
Notation sim := (sim fuel secret_code).
Notation serve := (serve fuel secret_code).

(** The session of a client that is served alone. *)
Definition alone_run (k : client) : outcome srv () :=
  pthread_routine (k_rands k) fuel (strncpy 5 secret_code) (alone k).

Lemma does_alone k t r s' : does true (serve k) (alone k) t r s' → alone_run k = outcome_of r s'.
Proof. intros Hd. unfold alone_run. rewrite <- codes_routine. by eapply does_interp. Qed.

Lemma sim_lookup w c i x : sim w c → w_threads w !! i = Some x → ∃ t, threads c !! i = Some t.
Proof.
  intros Hs Hx. apply lookup_lt_is_Some_2. rewrite (sim_length _ _ _ _ Hs). by eapply lookup_lt_Some.
Qed.

(** A client's thread that is over ended as it would have ended alone. *)
Lemma sim_alone w c i x :
  sim w c → w_threads w !! S i = Some x → over x = true →
  match alone_run (t_arg x) with
  | Ok _ s' | Exit _ s' => t_loc x = loc_of s' ∧ own (S i) (w_log w) = s_log s'
  | NoFuel => t_code x = Spins
  | UB => False
  end.
Proof.
  intros Hs Hx Ho. destruct (sim_lookup _ _ _ _ Hs Hx) as [t Ht].
  destruct (sim_linked _ _ _ _ Hs _ _ _ Hx Ht) as (r & s' & s & Hvw & [[q Hd] _]).
  destruct (view_over _ _ _ _ _ _ _ Hvw Ho) as (_ & -> & Hk). rewrite (does_alone _ _ _ _ Hd).
  destruct Hvw as [Hloc _ _ _ Hlg _ _]. by destruct r.
Qed.

(** A client that plays: its thread, alone, plays the game. *)
Lemma sim_game w c i x ms lines texts won rest :
  sim w c → valid_code secret_code → w_threads w !! S i = Some x → over x = true →
  reads (k_conn (t_arg x)) = Chunk <$> ms → writes (k_conn (t_arg x)) = [] →
  Forall (λ m, length m = 192%nat) ms → (length ms < fuel)%nat →
  game 10 1 secret_code ms = Some (lines, texts, won, rest) →
  sent (l_conn (t_loc x)) = sent (k_conn (t_arg x)) ++ blocks (session_texts texts won) ∧
  l_closed (t_loc x) = 1 ∧ own (S i) (w_log w) = session_log secret_code lines won.
Proof.
  intros Hs Hv Hx Ho Hreads Hwrites Hms Hfuel Hg. pose proof (sim_alone w c i x Hs Hx Ho) as Ha.
  unfold alone_run in Ha. rewrite (strncpy_code _ Hv) in Ha.
  assert (counters_ok (alone (t_arg x))) as Hok by (unfold counters_ok; simpl; lia).
  destruct (proj1 (wp_run _ _ _) (wp_routine_ok (alone (t_arg x)) (k_rands (t_arg x)) fuel secret_code [] ms
    lines texts won rest Hok eq_refl Hreads Hwrites Hms Hfuel Hv Hg)) as (u & s' & Hrun & ->).
  rewrite Hrun in Ha. by destruct Ha as [-> ->].
Qed.

(** Some thread can go on, unless all are over. *)
Lemma sim_progress w c i x :
  sim w c → Z.of_nat (length (w_threads w)) + 2 ≤ INT_MAX →
  w_threads w !! i = Some x → over x = false → ∃ j w', wstep j w = Goes w'.
Proof.
  intros Hs Hl Hx Ho. destruct (sim_lookup _ _ _ _ Hs Hx) as [t Ht].
  destruct (sim_linked _ _ _ _ Hs _ _ _ Hx Ht) as (r & s' & s & Hvw & _).
  destruct (progress c i t (sim_inv _ _ _ _ Hs) Ht (view_busy _ _ _ _ _ _ _ Hvw Ho)) as (j & c' & Hj).
  exists j. pose proof (sim_step _ _ w c j Hs Hl) as Hgo. destruct (wstep j w); [by eexists|congruence|done].
Qed.

Lemma sim_run w c sched :
  sim w c → Z.of_nat (length (w_threads w)) + 2 ≤ INT_MAX →
  match wrun sched w with
  | Goes w' => ∃ c', run sched c = Some c' ∧ sim w' c'
  | Stuck => run sched c = None
  | Undefined => False
  end.
Proof.
  revert w c. induction sched as [|i sched IH]; intros w c Hs Hl; [by exists c|]. cbn [wrun run].
  pose proof (sim_step _ _ w c i Hs Hl) as Hgo. destruct (wstep i w) as [w1| |] eqn:Hi; [|by rewrite Hgo|done].
  destruct Hgo as (c1 & -> & Hs1). cbn. apply IH; [done|]. by rewrite (wstep_length _ _ _ Hi).
Qed.

(** Every run can be continued until all threads are over. *)
Lemma busy_cases (xs : list thr) :
  Forall (λ x, over x = true) xs ∨ ∃ i x, xs !! i = Some x ∧ over x = false.
Proof.
  induction xs as [|x xs [IH|(i & y & Hy & Ho)]]; [by left| |right; by exists (S i), y].
  destruct (over x) eqn:Hx; [left; by constructor|right; by exists 0%nat, x].
Qed.

Lemma sim_finishes w c :
  sim w c → Z.of_nat (length (w_threads w)) + 2 ≤ INT_MAX →
  ∃ sched w' c', wrun sched w = Goes w' ∧ sim w' c' ∧ length (w_threads w') = length (w_threads w) ∧
    Forall (λ x, over x = true) (w_threads w').
Proof.
  remember (remaining c) as n eqn:Hn. revert w c Hn.
  induction n as [|n IH]; intros w c Hn Hs Hl;
    (destruct (busy_cases (w_threads w)) as [Ho|(i & x & Hx & Ho)]; [by exists [], w, c|]);
    destruct (sim_progress w c i x Hs Hl Hx Ho) as (j & w1 & Hj);
    pose proof (sim_step _ _ w c j Hs Hl) as Hgo; rewrite Hj in Hgo; destruct Hgo as (c1 & Hc1 & Hs1);
    pose proof (step_remaining _ _ _ Hc1) as Hrem; [lia|].
  destruct (IH w1 c1) as (sched & w' & c' & Hrun & Hs' & Hlen & Hall);
    [lia|done|by rewrite (wstep_length _ _ _ Hj)|].
  exists (j :: sched), w', c'. cbn [wrun]. rewrite Hj. split_and!; [done|done| |done].
  by rewrite Hlen, (wstep_length _ _ _ Hj).
Qed.

(** ** The ends of the threads *)
Definition spinning (x : thr) : bool := match t_code x with Spins => true | _ => false end.
Definition has_left (x : thr) : bool := match t_code x with Exits => true | _ => false end.

(** A thread whose run alone comes to the end of [pthread_routine] does so here. *)
Lemma sim_returns w c i x u s' :
  sim w c → w_threads w !! S i = Some x → over x = true → alone_run (t_arg x) = Ok u s' → t_code x = Ret ().
Proof.
  intros Hs Hx Ho Ha. destruct (sim_lookup _ _ _ _ Hs Hx) as [t Ht].
  destruct (sim_linked _ _ _ _ Hs _ _ _ Hx Ht) as (r & s2 & s & Hvw & [[q Hd] _]).
  destruct (view_over _ _ _ _ _ _ _ Hvw Ho) as (_ & _ & Hk). rewrite (does_alone _ _ _ _ Hd) in Ha.
  destruct r as [[]| |]; [done|discriminate Ha|discriminate Ha].
Qed.

(** A client that plays: the server is able to send to it, and its whole messages,
    of which the fuel can consume more, lead a game to its end. *)
Definition plays (k : client) : Prop :=
  ∃ ms lines texts won rest, reads (k_conn k) = Chunk <$> ms ∧ writes (k_conn k) = [] ∧
    Forall (λ m, length m = 192%nat) ms ∧ (length ms < fuel)%nat ∧
    game 10 1 secret_code ms = Some (lines, texts, won, rest).

Lemma sim_plays w c i x :
  sim w c → valid_code secret_code → w_threads w !! S i = Some x → over x = true →
  plays (t_arg x) → t_code x = Ret ().
Proof.
  intros Hs Hv Hx Ho (ms & lines & texts & won & rest & Hreads & Hwrites & Hms & Hfuel & Hg).
  assert (counters_ok (alone (t_arg x))) as Hok by (unfold counters_ok; simpl; lia).
  destruct (proj1 (wp_run _ _ _) (wp_routine_ok (alone (t_arg x)) (k_rands (t_arg x)) fuel secret_code [] ms
    lines texts won rest Hok eq_refl Hreads Hwrites Hms Hfuel Hv Hg)) as (u & s' & Hrun & _).
  rewrite <- (strncpy_code _ Hv) in Hrun. by eapply sim_returns.
Qed.

(** The socket is closed once by a thread that has ended, and is open while the
    thread spins; it spins, given enough fuel, when its client has stopped sending. *)
Lemma sim_closed w c i x :
  sim w c → w_threads w !! S i = Some x → over x = true →
  l_closed (t_loc x) = (if spinning x then 0 else 1) ∧
  (spinning x = true → (demand (k_conn (t_arg x)) < fuel)%nat → drained (l_conn (t_loc x))).
Proof.
  intros Hs Hx Ho. destruct (sim_lookup _ _ _ _ Hs Hx) as [t Ht].
  destruct (sim_linked _ _ _ _ Hs _ _ _ Hx Ht) as (r & s' & s & Hvw & [_ Hw]).
  destruct (view_over _ _ _ _ _ _ _ Hvw Ho) as (_ & -> & Hk). rewrite (vw_loc _ _ _ _ _ _ _ Hvw).
  unfold spinning. rewrite Hk. destruct r; cbn [while_serving code_of] in *; [by destruct Hw..|].
  destruct Hw as [[] Hd]. done.
Qed.

(** Every mutex is free when all threads are over. *)
Lemma sim_free w c m : sim w c → Forall (λ x, over x = true) (w_threads w) → w_owner w m = None.
Proof.
  intros Hs Ho. rewrite <- (sim_owner _ _ _ _ Hs). apply ended_values; [apply (sim_inv _ _ _ _ Hs)|].
  intros i t Ht. destruct (lookup_lt_is_Some_2 (w_threads w) i) as [x Hx].
  { rewrite <- (sim_length _ _ _ _ Hs). by eapply lookup_lt_Some. }
  destruct (sim_linked _ _ _ _ Hs _ _ _ Hx Ht) as (r & s' & s & Hvw & _).
  rewrite Forall_forall in Ho. by destruct (view_over _ _ _ _ _ _ _ Hvw (Ho _ (list_elem_of_lookup_2 _ _ _ Hx))).
Qed.

(** ** The counters at the end *)

(** The wins of a session. *)
Definition wins (k : client) : Z :=
  match alone_run k with Ok _ s' | Exit _ s' => clients_win_count s' | _ => 0 end.

(** What the thread of a client leaves in a counter. *)
Definition leaves (v : counter) (x : thr) : Z :=
  match v with
  | NowCount => if spinning x then 1 else 0
  | Count => 1
  | WinCount => wins (t_arg x)
  end.

Lemma sim_leaves w c i x t v :
  sim w c → w_threads w !! S i = Some x → threads c !! S i = Some t → over x = true →
  delta v (executed t) = leaves v x.
Proof.
  intros Hs Hx Ht Ho. destruct (sim_linked _ _ _ _ Hs _ _ _ Hx Ht) as (r & s' & s & Hvw & [[q Hd] Hw]).
  destruct (view_over _ _ _ _ _ _ _ Hvw Ho) as (_ & -> & Hk). rewrite <- (vw_count _ _ _ _ _ _ _ Hvw v).
  unfold leaves, spinning, wins. rewrite Hk, (does_alone _ _ _ _ Hd).
  destruct r; cbn [while_serving outcome_of code_of] in *; [..|destruct Hw as [Hw _]]; destruct Hw, v; simpl in *; lia || done.
Qed.

Lemma total_leaves v xs (ts : list sthread) :
  length ts = length xs →
  (∀ i x t, xs !! i = Some x → ts !! i = Some t → delta v (executed t) = leaves v x) →
  total v ts = foldr (λ x z, leaves v x + z) 0 xs.
Proof.
  revert ts. induction xs as [|x xs IH]; intros [|t ts] Hl Hall; try done.
  change (delta v (executed t) + total v ts = leaves v x + foldr (λ x z, leaves v x + z) 0 xs).
  rewrite (Hall 0%nat x t), (IH ts); [done|simpl in Hl; lia| |done|done].
  intros i x' t' Hx Ht. by apply (Hall (S i)).
Qed.

Lemma sim_counts w c x xs v :
  sim w c → w_threads w = x :: xs → Forall (λ x, over x = true) (x :: xs) →
  w_count w v = foldr (λ x z, leaves v x + z) 0 xs -
    (if bool_decide (v = NowCount) then if has_left x then 1 else 0 else 0).
Proof.
  intros Hs Hxs Ho. pose proof Hs as [Hinv Hv Hw Hl Hlk _]. rewrite <- Hv, (inv_value c Hinv v).
  rewrite Hxs in Hl, Hlk. destruct (threads c) as [|t ts] eqn:Hts; [done|].
  change (total v (t :: ts)) with (delta v (executed t) + total v ts).
  apply Forall_cons in Ho as [Hox Ho].
  rewrite (total_leaves v xs ts); [|simpl in Hl; lia|].
  - destruct (Hlk 0%nat x t eq_refl eq_refl) as (r & s' & s & Hvw & (_ & H1 & H2 & H3)).
    destruct (view_over _ _ _ _ _ _ _ Hvw Hox) as (_ & -> & Hk). rewrite <- (vw_count _ _ _ _ _ _ _ Hvw v).
    unfold has_left. rewrite Hk. destruct r, v; simpl in *; lia.
  - intros i y u Hy Hu. apply (sim_leaves w c i y u v); [done|by rewrite Hxs|by rewrite Hts|].
    rewrite Forall_forall in Ho. apply Ho. by eapply list_elem_of_lookup_2.
Qed.

Lemma leaves_count xs : foldr (λ x z, leaves Count x + z) 0 xs = Z.of_nat (length xs).
Proof. induction xs as [|x xs IH]; [done|]. cbn [foldr length]. rewrite IH. unfold leaves. lia. Qed.

Lemma leaves_now xs :
  foldr (λ x z, leaves NowCount x + z) 0 xs = Z.of_nat (length (filter (λ x, spinning x = true) xs)).
Proof.
  induction xs as [|x xs IH]; [done|]. cbn [foldr]. rewrite IH, filter_cons. unfold leaves.
  destruct (spinning x); [rewrite decide_True by done|rewrite decide_False by done]; cbn [length]; lia.
Qed.
End ends.
