(* ===== verification/ServerAdmission.v ===== *)
(** * ServerAdmission: more clients than the server has places for

    The main thread decides by a number that the threads it has started have not
    updated yet.  Run on the code of [ServerCode]: any number of clients is
    admitted before the first thread counts itself, and then all of them do.  When
    the main thread waits until its threads have counted themselves, the limit
    holds. *)
From Stdlib Require Import Ascii String.
From stdpp Require Import prelude functions list strings.
From S2P Require Import Prelude CMonad CString SecretCode Messages Server ServerRefine.
From S2P Require Import ServerMain Threads ServerThreads ServerCode ServerRun ServerFate ServerSim ServerEnds.

Section admission.
Context (fuel : nat) (secret_code : list ascii).
Notation sim := (sim fuel secret_code).
Notation serve := (serve fuel secret_code).
Notation wreach := (wreach fuel secret_code).

Lemma reach_run w sched w' : wreach w → wrun sched w = Goes w' → wreach w'.
Proof.
  revert w. induction sched as [|i sched IH]; intros w Hw Hr; cbn [wrun] in Hr; [by injection Hr as <-|].
  destruct (wstep i w) as [w1| |] eqn:Hi; try done. eapply IH; [|done]. by eapply wreach_thread.
Qed.

(** A schedule of [Threads] is one of the code. *)
Lemma sim_follow w c sched c' :
  sim w c → Z.of_nat (length (w_threads w)) + 2 ≤ INT_MAX → wreach w → run sched c = Some c' →
  ∃ w', wreach w' ∧ sim w' c'.
Proof.
  intros Hs Hl Hw Hr. pose proof (sim_run _ _ _ _ sched Hs Hl) as Hgo.
  destruct (wrun sched w) as [w'| |] eqn:Hrun; [|congruence|done].
  destruct Hgo as (c2 & Hc2 & Hs2). rewrite Hr in Hc2. injection Hc2 as <-.
  exists w'. split; [by eapply reach_run|done].
Qed.

Section clients.
Context (k : client) (Hk : ∀ i, 0 ≤ k_rands k i ≤ INT_MAX).
Context (t1 t2 : sinstrs) (r : ended ()) (s' : srv).
Context (Hd : does true (serve k) (alone k) (t1 ++ t2) r s') (He : s_held s' = []).
Context (Hw : while_serving fuel (alone k) (λ _ s', served (alone k) s') r s').
Context (Ht1 : disciplined [] t1 = true) (Hdelta : delta NowCount t1 = 1) (Ht2 : t2 ≠ []).

(** [n] threads are created, and none has run. *)
Lemma admit_many n :
  ∃ w c, wreach w ∧ sim w c ∧ value c = (λ _, 0) ∧ owner c = (λ _, None) ∧
    w_threads w !! 0%nat = Some (Thr no_client (Loc (Conn [] [] []) 0) (Ret ())) ∧
    length (w_threads w) = S n ∧ threads c = fresh [] :: replicate n (fresh (t1 ++ t2)).
Proof.
  induction n as [|n (w & c & Hr & Hs & Hv & Ho & H0 & Hl & Hc)].
  - exists world_start, (start [[]]). split_and!; try done; [apply wreach_start|apply sim_start].
  - exists (World (w_count w) (w_owner w) (w_log w) (w_threads w ++ [Thr k (Loc (k_conn k) 0) (serve k)])),
      (Config (value c) (owner c) (threads c ++ [fresh (t1 ++ t2)])).
    split_and!; cbn [value owner threads w_threads]; try done.
    + apply (wreach_accept _ _ w k true); [done|done|]. unfold accept. rewrite H0. cbn [t_code].
      rewrite <- (sim_value _ _ _ _ Hs), Hv. done.
    + eapply sim_spawn; try done. lia.
    + by rewrite lookup_app_l by lia.
    + rewrite length_app, Hl. simpl. lia.
    + by rewrite Hc, replicate_S_end.
Qed.

(** They count themselves, one after the other. *)
Lemma greet_all n j :
  Z.of_nat n + 3 ≤ INT_MAX → (j ≤ n)%nat →
  ∃ w c, wreach w ∧ sim w c ∧ (∀ m, owner c m = None) ∧ length (w_threads w) = S n ∧
    threads c !! 0%nat = Some (fresh []) ∧
    (∀ i, (i < j)%nat → ∃ z, threads c !! S i = Some (Thread t1 t2 [] z)) ∧
    ∀ i, (j ≤ i < n)%nat → threads c !! S i = Some (fresh (t1 ++ t2)).
Proof.
  intros Hn. induction j as [|j IH]; intros Hj.
  - destruct (admit_many n) as (w & c & Hr & Hs & Hv & Ho & _ & Hl & Hc). exists w, c.
    split_and!; [done|done|by rewrite Ho|done|by rewrite Hc|lia|]. intros i Hi. rewrite Hc. cbn.
    apply lookup_replicate_2. lia.
  - destruct (IH ltac:(lia)) as (w & c & Hr & Hs & Ho & Hl & H0 & H1 & H2).
    destruct (solo_run c (S j) (fresh (t1 ++ t2)) t1 t2) as (c' & z & Hrun & Hc' & Ho');
      [apply H2; lia|done|by left|intros m; by rewrite Ho|done|].
    destruct (sim_follow w c _ c' Hs ltac:(rewrite Hl; lia) Hr Hrun) as (w' & Hr' & Hs').
    exists w', c'. pose proof (sim_length _ _ _ _ Hs) as Hlc. pose proof (sim_length _ _ _ _ Hs') as Hlc'.
    rewrite Hc', length_insert in Hlc'.
    split_and!; [done|done|done|lia|by rewrite Hc', list_lookup_insert_ne| |].
    + intros i Hi. rewrite Hc'. destruct (decide (i = j)) as [->|Hne].
      * exists z. by rewrite list_lookup_insert_eq by lia.
      * rewrite list_lookup_insert_ne by lia. apply H1. lia.
    + intros i Hi. rewrite Hc', list_lookup_insert_ne by lia. apply H2. lia.
Qed.

Lemma admitted_counted n :
  Z.of_nat n + 3 ≤ INT_MAX →
  ∃ w, wreach w ∧ length (w_threads w) = S n ∧ w_count w NowCount = Z.of_nat n ∧
    ∀ i x, w_threads w !! S i = Some x → over x = false.
Proof.
  intros Hn. destruct (greet_all n n Hn ltac:(lia)) as (w & c & Hr & Hs & _ & Hl & H0 & H1 & _).
  exists w. pose proof (sim_length _ _ _ _ Hs) as Hlc. split_and!; [done|done| |].
  - rewrite <- (sim_value _ _ _ _ Hs), (inv_value c (sim_inv _ _ _ _ Hs)).
    destruct (threads c) as [|t ts] eqn:Hts; [done|]. injection H0 as ->.
    change (total NowCount (fresh [] :: ts)) with (0 + total NowCount ts).
    rewrite (total_all _ _ t1), Hdelta; [simpl in Hlc; lia|].
    intros t [i Hi]%list_elem_of_lookup. destruct (H1 i) as [z Hz].
    { pose proof (lookup_lt_Some _ _ _ Hi). simpl in Hlc. lia. }
    change (ts !! i = Some (Thread t1 t2 [] z)) in Hz. rewrite Hi in Hz. by injection Hz as ->.
  - intros i x Hx. destruct (over x) eqn:Hover; [|done]. exfalso.
    destruct (H1 i) as [z Hz]. { pose proof (lookup_lt_Some _ _ _ Hx). lia. }
    destruct (sim_linked _ _ _ _ Hs _ _ _ Hx Hz) as (r0 & s0 & s & Hvw & _).
    by destruct (view_over _ _ _ _ _ _ _ Hvw Hover) as (? & _).
Qed.
End clients.

Lemma over_the_places k n :
  (∀ i, 0 ≤ k_rands k i ≤ INT_MAX) → Z.of_nat n + 3 ≤ INT_MAX →
  ∃ w, wreach w ∧ length (w_threads w) = S n ∧ w_count w NowCount = Z.of_nat n ∧
    ∀ i x, w_threads w !! S i = Some x → over x = false.
Proof.
  intros Hk Hn. destruct (does_serve fuel secret_code k Hk) as (t1 & t2 & r & s' & Hd & He & Hw & H1 & H2 & H3).
  by eapply admitted_counted.
Qed.

(** ** The limit *)

(** A client is accepted only when every thread has counted its client. *)
Inductive settled : world → Prop :=
  | settled_start : settled world_start
  | settled_thread w i w' : settled w → wstep i w = Goes w' → settled w'
  | settled_accept w k created w' :
      settled w → w_count w Count = Z.of_nat (length (w_threads w)) - 1 →
      (∀ i, 0 ≤ k_rands k i ≤ INT_MAX) → accept fuel secret_code k created w = Some w' → settled w'.

(** The place that a thread has or may still take, by what it has executed. *)
Definition reserved (p : sinstrs) : Z :=
  if bool_decide (delta Count p = 1) then delta NowCount p else 1.
Definition places (ps : list sinstrs) : Z := foldr (λ p z, reserved p + z) 0 ps.
Definition occupied (ps : list sinstrs) : Z :=
  match ps with [] => 0 | p :: ps => delta NowCount p + places ps end.

Lemma places_app ps qs : places (ps ++ qs) = places ps + places qs.
Proof.
  induction ps as [|p ps IH]; [done|]. change (reserved p + places (ps ++ qs) = reserved p + places ps + places qs). lia.
Qed.

Lemma places_insert ps i p q :
  ps !! i = Some p → reserved q ≤ reserved p → places (<[i := q]> ps) ≤ places ps.
Proof.
  revert i. induction ps as [|p0 ps IH]; intros [|i] Hi Hle; [done|done|injection Hi as ->|].
  - change (reserved q + places ps ≤ reserved p + places ps). lia.
  - change (reserved p0 + places (<[i := q]> ps) ≤ reserved p0 + places ps). specialize (IH i Hi Hle). lia.
Qed.

Lemma occupied_insert ps i p q :
  ps !! i = Some p → (if role i then reserved q ≤ reserved p else delta NowCount q ≤ delta NowCount p) →
  occupied (<[i := q]> ps) ≤ occupied ps.
Proof.
  destruct ps as [|p0 ps], i as [|i]; intros Hi Hle; try done; cbn [role] in Hle.
  - injection Hi as ->. change (delta NowCount q + places ps ≤ delta NowCount p + places ps). lia.
  - change (delta NowCount p0 + places (<[i := q]> ps) ≤ delta NowCount p0 + places ps).
    pose proof (places_insert ps i p q Hi Hle). lia.
Qed.

(** A store within the rules. *)
Lemma store_reserved may v d s p :
  (∀ v, counter_of v s = delta v p) → (∀ v, -1 ≤ counter_of v s ≤ 1) → -1 ≤ counter_of v s + d ≤ 1 →
  placed may v d s →
  if may then reserved (p ++ [Store v d]) ≤ reserved p
  else delta NowCount (p ++ [Store v d]) ≤ delta NowCount p.
Proof.
  intros Hc Hs Hd Hpl. unfold reserved. rewrite !delta_snoc, <- !Hc.
  pose proof (Hs NowCount). pose proof (Hs Count).
  destruct v; cbn [placed change] in *; repeat case_bool_decide; destruct may; try done || lia.
Qed.

Lemma step_occupied w c i c' :
  sim w c → run_step i c = Some c' →
  occupied (executed <$> threads c') ≤ occupied (executed <$> threads c).
Proof.
  intros Hs (t & y & p & f & o & h & z & Ht & Hp & ->)%step_shape. cbn [threads]. rewrite list_fmap_insert.
  apply (occupied_insert _ _ (executed t)); [by rewrite list_lookup_fmap, Ht|]. cbn [executed].
  destruct (lookup_lt_is_Some_2 (w_threads w) i) as [x Hx].
  { rewrite <- (sim_length _ _ _ _ Hs). by eapply lookup_lt_Some. }
  destruct (sim_linked _ _ _ _ Hs _ _ _ Hx Ht) as (r & s' & s & [_ _ Hc Hsm _ Hcode _] & _).
  destruct Hcode as [Hcode|(v & d & k & q & _ & Hq & Hd & Hpl & _)].
  - assert (∀ v, delta v (executed t ++ [y]) = delta v (executed t)) as Hy.
    { intros v. rewrite delta_snoc. rewrite Hp in Hcode.
      destruct (t_code x) as [a| | | | | | | | |]; cbn [does] in Hcode; try done;
        first [by destruct Hcode as (? & _)|destruct Hcode as (? & [= -> _] & _)
              |destruct Hcode as (? & ? & [= -> _] & _)|destruct Hcode as (? & ? & ? & [= -> _] & _)];
        cbn [change]; lia. }
    unfold reserved. rewrite !Hy. by destruct (role i).
  - rewrite Hp in Hq. injection Hq as -> _. by eapply store_reserved.
Qed.

(** All clients are counted: every thread that has a place holds it. *)
Lemma places_settled (ps : list sinstrs) :
  (∀ p, p ∈ ps → delta Count p ≤ 1) → foldr (λ p z, delta Count p + z) 0 ps = Z.of_nat (length ps) →
  places ps = foldr (λ p z, delta NowCount p + z) 0 ps.
Proof.
  intros Hle Hsum.
  assert (∀ qs : list sinstrs, (∀ p, p ∈ qs → delta Count p ≤ 1) →
    foldr (λ p z, delta Count p + z) 0 qs ≤ Z.of_nat (length qs)) as Hmax.
  { clear. intros qs Hle. induction qs as [|q qs IH]; [done|]. cbn [foldr length].
    pose proof (Hle q ltac:(by left)). pose proof (IH (λ p Hp, Hle p ltac:(by right))). lia. }
  revert Hle Hsum. induction ps as [|p ps IH]; intros Hle Hsum; [done|]. cbn [foldr length] in Hsum |- *.
  pose proof (Hle p ltac:(by left)) as Hp. pose proof (Hmax ps (λ p Hp, Hle p ltac:(by right))) as Hps.
  change (places (p :: ps)) with (reserved p + places ps). unfold reserved.
  rewrite bool_decide_true by lia. rewrite IH; [done|auto using list_elem_of_further|lia].
Qed.

Lemma total_executed v (ts : list sthread) :
  total v ts = foldr (λ p z, delta v p + z) 0 (executed <$> ts).
Proof.
  induction ts as [|t ts IH]; [done|]. cbn [fmap list_fmap foldr]. rewrite <- IH. done.
Qed.

(** What every thread has counted so far. *)
Lemma sim_executed w c p v :
  sim w c → p ∈ executed <$> threads c → -1 ≤ delta v p ≤ 1.
Proof.
  intros Hs [i Hi]%list_elem_of_lookup. rewrite list_lookup_fmap in Hi.
  destruct (threads c !! i) as [t|] eqn:Ht; [|done]. injection Hi as <-.
  destruct (lookup_lt_is_Some_2 (w_threads w) i) as [x Hx].
  { rewrite <- (sim_length _ _ _ _ Hs). by eapply lookup_lt_Some. }
  destruct (sim_linked _ _ _ _ Hs _ _ _ Hx Ht) as (r & s' & s & [] & _). by rewrite <- vw_count.
Qed.

Lemma count_occupied w c : sim w c → w_count w NowCount ≤ occupied (executed <$> threads c).
Proof.
  intros Hs. rewrite <- (sim_value _ _ _ _ Hs), (inv_value c (sim_inv _ _ _ _ Hs)), total_executed.
  assert (∀ p, p ∈ executed <$> threads c → delta NowCount p ≤ reserved p) as Hle.
  { intros p Hp. pose proof (sim_executed w c p NowCount Hs Hp). unfold reserved. case_bool_decide; lia. }
  destruct (executed <$> threads c) as [|p ps]; [done|]. cbn [foldr occupied].
  assert (foldr (λ p z, delta NowCount p + z) 0 ps ≤ places ps); [|lia].
  assert (∀ q, q ∈ ps → delta NowCount q ≤ reserved q) as Hps by auto using list_elem_of_further.
  clear Hle. induction ps as [|q ps IH]; [done|]. cbn [foldr].
  change (places (q :: ps)) with (reserved q + places ps).
  pose proof (Hps q ltac:(by left)). pose proof (IH (λ p Hp, Hps p ltac:(by right))). lia.
Qed.

(** The main thread is idle, and every client is counted. *)
Lemma settled_occupied w c x :
  sim w c → w_threads w !! 0%nat = Some x → t_code x = Ret () →
  w_count w Count = Z.of_nat (length (w_threads w)) - 1 →
  occupied (executed <$> threads c) = w_count w NowCount.
Proof.
  intros Hs Hx Hk Hn. pose proof (sim_executed w c) as Hex. pose proof (sim_length _ _ _ _ Hs) as Hl.
  destruct (sim_lookup _ _ _ _ _ _ Hs Hx) as [t Ht].
  destruct (sim_linked _ _ _ _ Hs _ _ _ Hx Ht) as (r & s' & s & Hvw & (_ & H1 & _ & H3)).
  assert (over x = true) as Hover by (unfold over; by rewrite Hk).
  destruct (view_over _ _ _ _ _ _ _ Hvw Hover) as (_ & -> & Hr). rewrite Hk in Hr. destruct r; try done.
  pose proof (vw_count _ _ _ _ _ _ _ Hvw Count) as Hc. pose proof (vw_count _ _ _ _ _ _ _ Hvw NowCount) as Hc'.
  rewrite <- (sim_value _ _ _ _ Hs), (inv_value c (sim_inv _ _ _ _ Hs)) in Hn |- *.
  rewrite total_executed in Hn |- *.
  destruct (threads c) as [|t0 ts]; [done|]. injection Ht as ->.
  cbn [fmap list_fmap foldr occupied] in Hn, Hex |- *. simpl in Hl, Hc, Hc'. rewrite places_settled; [done| |].
  - intros p Hp. by apply (Hex p Count Hs); right.
  - rewrite length_fmap. lia.
Qed.

Lemma settled_limit w :
  settled w → Z.of_nat (length (w_threads w)) + 2 ≤ INT_MAX →
  ∃ c, sim w c ∧ occupied (executed <$> threads c) ≤ CLIENTS_NOW_MAX_COUNT.
Proof.
  induction 1 as [|w i w' _ IH Hst|w k created w' _ IH Hn Hr Ha]; intros Hl.
  - exists (start [[]]). split; [apply sim_start|done].
  - pose proof (wstep_length _ _ _ Hst) as Hl'. rewrite Hl' in Hl. destruct (IH Hl) as (c & Hs & Ho).
    pose proof (sim_step _ _ w c i Hs Hl) as Hgo. rewrite Hst in Hgo. destruct Hgo as (c' & Hc' & Hs').
    exists c'. split; [done|]. pose proof (step_occupied _ _ _ _ Hs Hc'). lia.
  - pose proof (accept_length _ _ _ _ _ _ Ha) as Hl'. destruct (IH ltac:(lia)) as (c & Hs & Ho).
    destruct (sim_accept _ _ _ _ _ _ _ Hs Hr Ha) as (c' & Hs' & [He|[Hlt He]]); exists c'; (split; [done|]);
      rewrite He; [done|].
    unfold accept in Ha. destruct (w_threads w !! 0%nat) as [x|] eqn:Hx; [|done].
    destruct (t_code x) as [[]| | | | | | | | |] eqn:Hk; try done.
    pose proof (settled_occupied w c x Hs Hx Hk Hn) as Hocc.
    destruct (executed <$> threads c) as [|p ps]; [done|]. cbn [app occupied] in Hocc |- *.
    rewrite places_app. change (places [[]]) with 1. lia.
Qed.
End admission.
