(* ===== verification/BoundedBuffer.v ===== *)
(** * BoundedBuffer: the buffer of the producers and the consumers

    The array of [BUFFER_SIZE] items and the number of free places, as both
    versions of the program have them, with the bodies of the critical sections
    of [insert_item] and [remove_item]; and that they are the operations of a
    queue. *)
From stdpp Require Import prelude list.
From S2P Require Import Prelude CMonad SecretCode SecretCodeRefine.

Definition BUFFER_SIZE : Z := 5.

Record buf := Buf { buffer : list Z; buffer_space : Z }.

Definition buffer_has_space : C buf bool := n ← get buffer_space; mret (0 <? n).
Definition buffer_has_item : C buf bool := n ← get buffer_space; mret (n <? BUFFER_SIZE).

(** [buffer[i]] and [buffer[i] = x]. *)
Definition buf_at (i : Z) : C buf Z := b ← get buffer; at_index b i.
Definition buf_set (i x : Z) : C buf () :=
  b ← get buffer;
  b ← set_index b i x;
  modify (λ s, Buf b (buffer_space s)).
Definition add_space (d : Z) : C buf () :=
  n ← get buffer_space;
  n ← int_add n d;
  modify (λ s, Buf (buffer s) n).

(** The item goes behind the others. *)
Definition put (item : Z) : C buf () :=
  n ← get buffer_space;
  buf_pos ← int_sub BUFFER_SIZE n;
  buf_set buf_pos item;;
  add_space (-1).

(** The first item is taken, and the others move up by one place. *)
Definition take_first : C buf Z :=
  n ← get buffer_space;
  n ← int_sub BUFFER_SIZE n;
  buf_pos ← int_sub n 1;
  item ← buf_at 0;
  add_space 1;;
  for_upto buf_pos (λ i (_ : ()),
    x ← buf_at (i + 1);
    buf_set i x;;
    mret (inl ())) () (λ _, ());;
  mret item.

(** The buffer before any thread runs: [for (i = 0; i < BUFFER_SIZE; i++) buffer[i] = 0]. *)
Definition clear_buffer : C buf () :=
  for_upto BUFFER_SIZE (λ i (_ : ()), buf_set i 0;; mret (inl ())) () (λ _, ()).

(** ** The queue *)
Definition buf_ok (b : buf) : Prop := length (buffer b) = 5%nat ∧ 0 ≤ buffer_space b ≤ 5.
Definition contents (b : buf) : list Z := take (Z.to_nat (5 - buffer_space b)) (buffer b).

Lemma contents_length b : buf_ok b → Z.of_nat (length (contents b)) = 5 - buffer_space b.
Proof. intros [Hl Hs]. unfold contents. rewrite length_take. lia. Qed.

Lemma wp_put item (Q : () → buf → Prop) b :
  buf_ok b → 0 < buffer_space b →
  (∀ b', buf_ok b' → contents b' = contents b ++ [item] → buffer_space b' = buffer_space b - 1 → Q () b') →
  wp (put item) Q b.
Proof.
  intros [Hl Hs] Hsp HQ. unfold put, buf_set, add_space, BUFFER_SIZE.
  apply wp_bind, wp_get, wp_bind. wp_step. apply wp_bind, wp_bind, wp_get, wp_bind.
  apply wp_set_index; [lia|]. apply wp_modify, wp_bind, wp_get, wp_bind. cbn [buffer_space]. wp_step.
  apply wp_modify. cbn [buffer_space buffer].
  apply HQ; unfold buf_ok, contents; cbn [buffer buffer_space].
  - rewrite length_insert. lia.
  - replace (Z.to_nat (5 - (buffer_space b + -1))) with (S (Z.to_nat (5 - buffer_space b))) by lia.
    rewrite (take_S_r _ _ item) by (by apply list_lookup_insert_eq; lia).
    by rewrite take_insert_ge by lia.
  - lia.
Qed.

(** Moving the items up: the first [i] places hold the items behind the first. *)
Lemma wp_shift (l : list Z) k n (Q : () → buf → Prop) :
  length l = 5%nat → 0 ≤ k < 5 →
  (∀ l', length l' = 5%nat → take (Z.to_nat k) l' = take (Z.to_nat k) (drop 1 l) → Q () (Buf l' n)) →
  wp (for_upto k (λ i (_ : ()), x ← buf_at (i + 1); buf_set i x;; mret (inl ())) () (λ _, ())) Q (Buf l n).
Proof.
  intros Hl Hk HQ.
  apply (wp_for _ _ (λ i _ b, ∃ l', b = Buf l' n ∧ length l' = 5%nat ∧
    take (Z.to_nat i) l' = take (Z.to_nat i) (drop 1 l) ∧ drop (Z.to_nat i + 1) l' = drop (Z.to_nat i + 1) l)).
  - lia.
  - intros i [] b Hi (l' & -> & Hl' & Ht & Hd). unfold buf_at, buf_set.
    destruct (lookup_lt_is_Some_2 l (Z.to_nat (i + 1)) ltac:(lia)) as [x Hx].
    assert (l' !! Z.to_nat (i + 1) = Some x) as Hx'.
    { rewrite <- Hx. rewrite <- (Nat.add_0_r (Z.to_nat (i + 1))), <- !lookup_drop.
      replace (Z.to_nat (i + 1)) with (Z.to_nat i + 1)%nat by lia. by rewrite Hd. }
    apply wp_bind, wp_bind, wp_get. eapply wp_at_index; [lia|exact Hx'|].
    apply wp_bind, wp_bind, wp_get, wp_bind, wp_set_index; [cbn [buffer]; lia|]. apply wp_modify, wp_ret.
    exists (<[Z.to_nat i := x]> l'). cbn [buffer buffer_space]. split; [done|]. rewrite length_insert.
    split; [done|]. replace (Z.to_nat (i + 1)) with (S (Z.to_nat i)) by lia. split.
    + rewrite !(take_S_r _ _ x); [by rewrite take_insert_ge, Ht by lia| |by apply list_lookup_insert_eq; lia].
      rewrite lookup_drop. by replace (1 + Z.to_nat i)%nat with (Z.to_nat (i + 1)) by lia.
    + rewrite drop_insert_lt by lia. replace (S (Z.to_nat i) + 1)%nat with (Z.to_nat i + 1 + 1)%nat by lia.
      by rewrite <- !(drop_drop _ 1 (Z.to_nat i + 1)), Hd.
  - intros [] b (l' & -> & Hl' & Ht & _). by apply HQ.
  - exists l. done.
Qed.

Lemma wp_take_first (Q : Z → buf → Prop) b :
  buf_ok b → buffer_space b < 5 →
  (∀ item b', buf_ok b' → contents b = item :: contents b' → buffer_space b' = buffer_space b + 1 → Q item b') →
  wp take_first Q b.
Proof.
  intros [Hl Hs] Hsp HQ. unfold take_first, buf_at, add_space, BUFFER_SIZE.
  apply wp_bind, wp_get, wp_bind. wp_step. apply wp_bind. wp_step.
  destruct (buffer b) as [|x l] eqn:Hb; [done|].
  apply wp_bind, wp_bind, wp_get. rewrite Hb. eapply wp_at_index; [lia|done|].
  apply wp_bind, wp_bind, wp_get, wp_bind. wp_step. apply wp_modify, wp_bind. rewrite Hb.
  apply wp_shift; [done|lia|]. intros l' Hl' Ht. apply wp_ret.
  apply HQ; unfold buf_ok, contents; cbn [buffer buffer_space]; [lia| |done].
  rewrite Hb. replace (Z.to_nat (5 - (buffer_space b + 1))) with (Z.to_nat (5 - buffer_space b - 1)) by lia.
  rewrite Ht. replace (Z.to_nat (5 - buffer_space b)) with (S (Z.to_nat (5 - buffer_space b - 1))) by lia.
  done.
Qed.

Lemma wp_clear b : length (buffer b) = 5%nat →
  wp clear_buffer (λ _ b', b' = Buf (replicate 5 0) (buffer_space b)) b.
Proof.
  intros Hl. destruct b as [[|a1 [|a2 [|a3 [|a4 [|a5 [|]]]]]] n]; try done.
Qed.

Lemma put_runs item b : buf_ok b → 0 < buffer_space b →
  ∃ b', put item b = Ok () b' ∧ buf_ok b' ∧ contents b' = contents b ++ [item] ∧
    buffer_space b' = buffer_space b - 1.
Proof.
  intros Hb Hs. destruct (proj1 (wp_run (put item) (λ _ b', buf_ok b' ∧ contents b' = contents b ++ [item] ∧
    buffer_space b' = buffer_space b - 1) b)) as ([] & b' & Hr & H); [by apply wp_put|eauto].
Qed.

Lemma take_first_runs b : buf_ok b → buffer_space b < 5 →
  ∃ x b', take_first b = Ok x b' ∧ buf_ok b' ∧ contents b = x :: contents b' ∧
    buffer_space b' = buffer_space b + 1.
Proof.
  intros Hb Hs. destruct (proj1 (wp_run take_first (λ x b', buf_ok b' ∧ contents b = x :: contents b' ∧
    buffer_space b' = buffer_space b + 1) b)) as (x & b' & Hr & H); [by apply wp_take_first|eauto].
Qed.
