(* ===== verification/ProducerConsumer.v ===== *)
(** * ProducerConsumer: producer-consumer-problem.c

    Producers and consumers that share the buffer under a mutex and poll it until
    they succeed or the program is exiting.  A thread is where it stands in its
    code; a step runs one thread up to its next access to the lock, to the flag
    [is_exiting] or to the buffer.  The critical sections are those of
    BoundedBuffer. *)
From Stdlib Require Import Ascii String.
From stdpp Require Import prelude list strings.
From S2P Require Import Prelude CMonad CString SecretCode BoundedBuffer.

Inductive role := Producer | Consumer.
#[export] Instance role_eq_dec : EqDecision role.
Proof. solve_decision. Defined.

Inductive message := Produced (item : Z) | Consumed (item : Z) | BufferFull | BufferEmpty | Exiting (r : role).

(** The main thread sleeps, then joins the threads one after the other. *)
Inductive main_place := Sleeping | Joining (k : nat) | Finished.
#[export] Instance main_place_eq_dec : EqDecision main_place.
Proof. solve_decision. Defined.

(** ** main, up to the threads

    [inits] are the results of [pthread_mutex_init] or of the calls of
    [sem_init]; [malloc] is asked for an array of [n] thread identifiers;
    [created k] tells whether the [k]-th call of [pthread_create] works. *)
Record pc_os := PcOs { inits : list bool; malloc_ok : Z → bool; created : nat → bool }.

Definition create_threads (os : pc_os) (first n : nat) : bool :=
  forallb (λ k, created os (first + k)) (seq 0 n).

(** The numbers of producers and consumers that were created, or the code that
    [main] returns. *)
Definition create_all (os : pc_os) (argv : list (list ascii)) : C buf (Z + nat * nat) :=
  match argv with
  | _ :: duration :: producers :: consumers :: _ =>
      _ ← atoi duration;
      n_producer_threads ← atoi producers;
      n_consumer_threads ← atoi consumers;
      clear_buffer;;
      let np := Z.to_nat n_producer_threads in
      let nc := Z.to_nat n_consumer_threads in
      if negb (forallb id (inits os)) then mret (inl 1)
      else if negb (malloc_ok os n_producer_threads) then mret (inl 1)
      else if negb (create_threads os 0 np) then mret (inl 1)
      else if negb (malloc_ok os n_consumer_threads) then mret (inl 1)
      else if negb (create_threads os np nc) then mret (inl 1)
      else mret (inr (np, nc))
  | _ => mret (inl 1)
  end.

Module Polling.
(** Where a thread stands; [item] and [done] are its local variables. *)
Inductive place :=
  | Top                              (* at the top of its loop *)
  | Test (item : Z) (done : bool)    (* at the condition of the polling loop *)
  | Wanting (item : Z)               (* at pthread_mutex_lock *)
  | Critical (item : Z)
  | Leaving (item : Z) (done : bool) (* at pthread_mutex_unlock *)
  | Returned (item : Z) (result : Z) (* insert_item or remove_item has returned *)
  | Exited.

#[export] Instance place_eq_dec : EqDecision place.
Proof. solve_decision. Defined.

Record state := State {
  sbuf : buf;
  lock : option nat;
  is_exiting : bool;
  places : list (role * place);
  main_at : main_place;
  inserted : list Z;                 (* the items put into the buffer, in order *)
  removed : list Z;                  (* the items taken from it, in order *)
  messages : list message
}.

Inductive result := Next (s : state) | Blocked | Undefined.

(** ** The critical sections *)
Definition insert_section (item : Z) : C buf bool :=
  has_space ← buffer_has_space;
  if (has_space : bool) then put item;; mret true else mret false.
Definition remove_section : C buf (option Z) :=
  has_item ← buffer_has_item;
  if (has_item : bool) then item ← take_first; mret (Some item) else mret None.

(** ** Steps *)
Definition goto (i : nat) (r : role) (p : place) (s : state) : state :=
  State (sbuf s) (lock s) (is_exiting s) (<[i := (r, p)]> (places s)) (main_at s) (inserted s) (removed s) (messages s).
Definition set_lock l s :=
  State (sbuf s) l (is_exiting s) (places s) (main_at s) (inserted s) (removed s) (messages s).
Definition say m s :=
  State (sbuf s) (lock s) (is_exiting s) (places s) (main_at s) (inserted s) (removed s) (messages s ++ [m]).
Definition insert_done b item s :=
  State b (lock s) (is_exiting s) (places s) (main_at s) (inserted s ++ [item]) (removed s) (messages s).
Definition remove_done b item s :=
  State b (lock s) (is_exiting s) (places s) (main_at s) (inserted s) (removed s ++ [item]) (messages s).

(** [insert_item] and [remove_item], from the test of the loop to the return.
    What happens between [pthread_mutex_lock] and [pthread_mutex_unlock] is one
    step: no other thread is in such a section at the same time, which
    [polling_invariant] shows, and only these sections touch the buffer. *)
Definition item_step (i : nat) (r : role) (p : place) (s : state) : result :=
  match p with
  | Test item done =>
      Next (goto i r (if (done : bool) then Returned item 0
                      else if is_exiting s then Returned item (-1) else Wanting item) s)
  | Wanting item =>
      match lock s with
      | None => Next (goto i r (Critical item) (set_lock (Some i) s))
      | Some _ => Blocked
      end
  | Critical item =>
      match r with
      | Producer =>
          match insert_section item (sbuf s) with
          | Ok true b => Next (goto i r (Leaving item true) (insert_done b item s))
          | Ok false b => Next (goto i r (Leaving item false) s)
          | _ => Undefined
          end
      | Consumer =>
          match remove_section (sbuf s) with
          | Ok (Some x) b => Next (goto i r (Leaving x true) (remove_done b x s))
          | Ok None b => Next (goto i r (Leaving item false) s)
          | _ => Undefined
          end
      end
  | Leaving item done => Next (goto i r (Test item done) (set_lock None s))
  | _ => Blocked
  end.

(** [producer] and [consumer], around them.  [rnd] is what [rand()] returns for an
    item. *)
Definition loop_step (rnd : Z) (i : nat) (r : role) (p : place) (s : state) : result :=
  match p with
  | Top => Next (goto i r (Test (if decide (r = Producer) then rnd else 0) false) s)
  | Returned item result =>
      if result =? -1 then
        if is_exiting s then Next (goto i r Exited (say (Exiting r) s))
        else Next (goto i r Top (say (if decide (r = Producer) then BufferFull else BufferEmpty) s))
      else Next (goto i r Top (say (if decide (r = Producer) then Produced item else Consumed item) s))
  | _ => Blocked
  end.

Definition thread_step (rnd : Z) (i : nat) (s : state) : result :=
  match places s !! i with
  | None => Blocked
  | Some (r, p) =>
      match p with
      | Top | Returned _ _ => loop_step rnd i r p s
      | Exited => Blocked
      | _ => item_step i r p s
      end
  end.

(** [main] after the threads are created: [sleep], the flag, the joins. *)
Definition main_step (s : state) : result :=
  match main_at s with
  | Sleeping => Next (State (sbuf s) (lock s) true (places s) (Joining 0) (inserted s) (removed s) (messages s))
  | Joining k =>
      match places s !! k with
      | None => Next (State (sbuf s) (lock s) (is_exiting s) (places s) Finished (inserted s) (removed s) (messages s))
      | Some (_, Exited) =>
          Next (State (sbuf s) (lock s) (is_exiting s) (places s) (Joining (S k)) (inserted s) (removed s) (messages s))
      | Some _ => Blocked
      end
  | Finished => Blocked
  end.

Inductive step (s : state) : state → Prop :=
  | step_thread rnd i s' : thread_step rnd i s = Next s' → step s s'
  | step_main s' : main_step s = Next s' → step s s'.

(** The threads are created, the producers first. *)
Definition start (np nc : nat) : state :=
  State (Buf (replicate 5 0) BUFFER_SIZE) None false
    (replicate np (Producer, Top) ++ replicate nc (Consumer, Top)) Sleeping [] [] [].

Inductive reachable (np nc : nat) : state → Prop :=
  | reach_start : reachable np nc (start np nc)
  | reach_step s s' : reachable np nc s → step s s' → reachable np nc s'.

(** [main] up to [sleep]. *)
Definition main (os : pc_os) (argv : list (list ascii)) : C buf (Z + state) :=
  r ← create_all os argv;
  match r with
  | inl code => mret (inl code)
  | inr (np, nc) =>
      b ← get id;
      mret (inr (State b None false
        (replicate np (Producer, Top) ++ replicate nc (Consumer, Top)) Sleeping [] [] []))
  end.
End Polling.
