(* ===== verification/ProducerConsumerRefine.v ===== *)
(** * ProducerConsumerRefine: invariant and termination of the polling version *)
From stdpp Require Import prelude list.
From S2P Require Import Prelude CMonad SecretCode BoundedBuffer ProducerConsumer.
Import Polling.

(** ** The critical sections *)
Lemma wp_insert_section item b :
  buf_ok b →
  wp (insert_section item) (λ r b', buf_ok b' ∧
    if r : bool then contents b' = contents b ++ [item] else b' = b ∧ length (contents b) = 5%nat) b.
Proof.
  intros Hb. pose proof (contents_length b Hb) as Hl. apply wp_bind, wp_bind, wp_get, wp_ret.
  destruct (Z.ltb_spec 0 (buffer_space b)).
  - apply wp_bind, wp_put; [done..|]. intros b' Hb' Hc _. by apply wp_ret.
  - apply wp_ret. split; [done|]. split; [done|]. destruct Hb as [_ Hs]. lia.
Qed.

Lemma wp_remove_section b :
  buf_ok b →
  wp remove_section (λ r b', buf_ok b' ∧
    match r with Some x => contents b = x :: contents b' | None => b' = b ∧ contents b = [] end) b.
Proof.
  intros Hb. pose proof (contents_length b Hb) as Hl. apply wp_bind, wp_bind, wp_get, wp_ret.
  unfold BUFFER_SIZE. destruct (Z.ltb_spec (buffer_space b) 5).
  - apply wp_bind, wp_take_first; [done..|]. intros x b' Hb' Hc _. by apply wp_ret.
  - apply wp_ret. split; [done|]. split; [done|]. destruct Hb as [_ Hs]. apply nil_length_inv. lia.
Qed.

(** ** The invariant *)
Definition inside (p : place) : bool := match p with Critical _ | Leaving _ _ => true | _ => false end.

Definition joined (m : main_place) (ps : list (role * place)) : Prop :=
  match m with
  | Sleeping => True
  | Joining k => ∀ i, (i < k)%nat → ∃ r, ps !! i = Some (r, Exited)
  | Finished => ∀ i rp, ps !! i = Some rp → rp.2 = Exited
  end.

Record pinv (s : state) : Prop := {
  pi_buf : buf_ok (sbuf s);
  pi_lock i : lock s = Some i ↔ ∃ r p, places s !! i = Some (r, p) ∧ inside p = true;
  pi_fifo : inserted s = removed s ++ contents (sbuf s);
  pi_result i r item x : places s !! i = Some (r, Returned item x) → x = 0 ∨ (x = -1 ∧ is_exiting s = true);
  pi_flag : is_exiting s = true ↔ main_at s ≠ Sleeping;
  pi_joined : joined (main_at s) (places s)
}.

Lemma inv_goto s i r p p' b l ins rem msgs :
  pinv s → places s !! i = Some (r, p) → p ≠ Exited → buf_ok b → ins = rem ++ contents b →
  (l = Some i ↔ inside p' = true) → (∀ j, j ≠ i → l = Some j ↔ lock s = Some j) →
  (∀ item x, p' = Returned item x → x = 0 ∨ (x = -1 ∧ is_exiting s = true)) →
  pinv (State b l (is_exiting s) (<[i := (r, p')]> (places s)) (main_at s) ins rem msgs).
Proof.
  intros [_ Hlk _ Hres Hflag Hj] Hi Hne Hb Hf Hl1 Hl2 Hr.
  assert (i < length (places s))%nat as Hlen by (by eapply lookup_lt_Some).
  split; cbn [sbuf lock is_exiting places main_at inserted removed]; [done| |done| |done|].
  - intros j. destruct (decide (j = i)) as [->|Hji].
    + rewrite list_lookup_insert_eq by done. rewrite Hl1. split; [eauto|]. by intros (? & ? & [= <- <-] & ?).
    + rewrite list_lookup_insert_ne by done. by rewrite Hl2.
  - intros j r' item x Hx. destruct (decide (j = i)) as [->|Hji].
    + rewrite list_lookup_insert_eq in Hx by done. injection Hx as <- ->. by eapply Hr.
    + rewrite list_lookup_insert_ne in Hx by done. by eapply Hres.
  - unfold joined in *. destruct (main_at s) as [|k|]; [done| |].
    + intros j Hjk. destruct (decide (j = i)) as [->|Hji]; [|rewrite list_lookup_insert_ne by done; by apply Hj].
      destruct (Hj i Hjk) as [r' Hr']. rewrite Hi in Hr'. by injection Hr' as <- ->.
    + specialize (Hj _ _ Hi). done.
Qed.

(** The thread that is inside holds the lock. *)
Lemma inside_lock s i r p : pinv s → places s !! i = Some (r, p) → inside p = true → lock s = Some i.
Proof. intros Hs Hi Hp. apply (pi_lock s Hs). eauto. Qed.

Lemma outside_lock s i r p : pinv s → places s !! i = Some (r, p) → inside p = false → lock s ≠ Some i.
Proof. intros Hs Hi Hp Hl. apply (pi_lock s Hs) in Hl as (r' & p' & Hi' & Hp'). congruence. Qed.

Lemma thread_inv rnd i s :
  pinv s → match thread_step rnd i s with Next s' => pinv s' | Blocked => True | Undefined => False end.
Proof.
  intros Hs. unfold thread_step, loop_step, item_step. destruct (places s !! i) as [[r p]|] eqn:Hi; [|done].
  pose proof (pi_buf s Hs) as Hb. pose proof (pi_fifo s Hs) as Hf.
  destruct p as [|item dn|item|item|item dn|item x|]; [| | | | | |done].
  - pose proof (outside_lock _ _ _ _ Hs Hi eq_refl). by eapply inv_goto.
  - pose proof (outside_lock _ _ _ _ Hs Hi eq_refl).
    eapply inv_goto; try done; [by destruct dn, (is_exiting s)|].
    destruct dn; [intros ? ? [= <- <-]; by left|].
    destruct (is_exiting s) eqn:E; [intros ? ? [= <- <-]; by right|done].
  - pose proof (outside_lock _ _ _ _ Hs Hi eq_refl). destruct (lock s) as [j|] eqn:Hl; [done|].
    eapply (inv_goto s i _ (Wanting item)); try done. naive_solver.
  - pose proof (inside_lock _ _ _ _ Hs Hi eq_refl) as Hl. destruct r.
    + pose proof (wp_insert_section item _ Hb) as Hw. unfold wp in Hw.
      destruct (insert_section item (sbuf s)) as [[] b| | |]; try done.
      * destruct Hw as [Hb' Hc]. eapply (inv_goto s i _ (Critical item)); try done; cbn; first [by rewrite Hl|by rewrite Hc, Hf, app_assoc].
      * eapply (inv_goto s i _ (Critical item)); try done; by rewrite Hl.
    + pose proof (wp_remove_section _ Hb) as Hw. unfold wp in Hw.
      destruct (remove_section (sbuf s)) as [[x|] b| | |]; try done.
      * destruct Hw as [Hb' Hc]. eapply (inv_goto s i _ (Critical item)); try done; cbn; first [by rewrite Hl|by rewrite Hf, Hc, <- app_assoc].
      * eapply (inv_goto s i _ (Critical item)); try done; by rewrite Hl.
  - pose proof (inside_lock _ _ _ _ Hs Hi eq_refl) as Hl. eapply (inv_goto s i _ (Leaving item dn)); try done. rewrite Hl. naive_solver.
  - pose proof (outside_lock _ _ _ _ Hs Hi eq_refl).
    destruct (x =? -1); [destruct (is_exiting s)|]; by eapply (inv_goto s i r (Returned item x)).
Qed.

Lemma main_inv s s' : pinv s → main_step s = Next s' → pinv s'.
Proof.
  intros [Hb Hl Hf Hr Hfl Hj] Hm. unfold main_step in Hm. destruct (main_at s) as [|k|] eqn:Hma; [| |done].
  - injection Hm as <-. split; cbn; try done; [|lia]. intros i r item x Hi. destruct (Hr _ _ _ _ Hi); naive_solver.
  - destruct (places s !! k) as [[r p]|] eqn:Hk.
    + destruct p; try done. injection Hm as <-. split; cbn; try done; [by rewrite Hfl|].
      intros i Hi. destruct (decide (i = k)) as [->|Hne]; [by exists r|]. apply Hj. lia.
    + injection Hm as <-. split; cbn; try done; [by rewrite Hfl|]. intros i [r p] Hi.
      assert (i < k)%nat as Hik. { apply lookup_ge_None_1 in Hk. apply lookup_lt_Some in Hi. lia. }
      destruct (Hj i Hik) as [r' Hr']. rewrite Hi in Hr'. by injection Hr' as <- ->.
Qed.

Lemma start_inv np nc : pinv (start np nc).
Proof.
  assert (∀ i r p, places (start np nc) !! i = Some (r, p) → p = Top) as Htop.
  { intros i r p Hi. cbn in Hi. apply list_elem_of_lookup_2, elem_of_app in Hi as [Hi|Hi];
      apply elem_of_replicate_inv in Hi; by injection Hi. }
  split; try done.
  - intros i. split; [done|]. intros (r & p & ->%Htop & ?). done.
  - intros i r item x Hi. by apply Htop in Hi.
Qed.

Lemma reachable_pinv np nc s : reachable np nc s → pinv s.
Proof.
  induction 1 as [|s s' _ IH [rnd i s'' Hs|s'' Hs]]; [apply start_inv| |by eapply main_inv].
  pose proof (thread_inv rnd i s IH) as Hi. by rewrite Hs in Hi.
Qed.

(** ** After the flag is set every thread comes to its end *)
Definition place_weight (p : place) : nat :=
  match p with
  | Exited => 0
  | Returned _ x => if x =? -1 then 1 else 4
  | Test _ false => 2
  | Top | Leaving _ false => 3
  | Test _ true => 5
  | Leaving _ true => 6
  | Critical _ => 7
  | Wanting _ => 8
  end.
Definition main_weight (s : state) : nat :=
  match main_at s with
  | Sleeping => 0
  | Joining k => S (length (places s) - k)
  | Finished => 0
  end.
Definition weight (s : state) : nat :=
  sum_list_with (λ rp, place_weight rp.2) (places s) + main_weight s.

Lemma goto_weight s t i r p p' :
  places s !! i = Some (r, p) → places t = places s → main_at t = main_at s →
  (place_weight p' < place_weight p)%nat → (weight (goto i r p' t) < weight s)%nat.
Proof.
  intros Hi Hp Hm Hw. unfold weight, main_weight. cbn [goto places main_at].
  rewrite Hp, Hm, length_insert. pose proof (sum_list_with_insert (λ rp : role * place, place_weight rp.2) _ _ _ (r, p') Hi) as Hsum.
  cbn [snd] in Hsum. lia.
Qed.

Lemma exit_decreases s s' :
  pinv s → is_exiting s = true → step s s' → (weight s' < weight s)%nat ∧ is_exiting s' = true.
Proof.
  intros Hs Hex [rnd i s'' Ht|s'' Hm].
  - unfold thread_step, loop_step, item_step in Ht. destruct (places s !! i) as [[r p]|] eqn:Hi; [|done]. rewrite Hex in Ht.
    destruct p as [|item dn|item|item|item dn|item x|]; try done.
    + injection Ht as <-. split; [|done]. eapply goto_weight; [done..|cbn; lia].
    + injection Ht as <-. split; [|done]. eapply goto_weight; [done..|]. destruct dn; cbn; lia.
    + destruct (lock s); [done|]. injection Ht as <-. split; [|done]. eapply goto_weight; [done..|cbn; lia].
    + destruct r; [destruct (insert_section item (sbuf s)) as [[] b| | |]|
        destruct (remove_section (sbuf s)) as [[y|] b| | |]]; try done; injection Ht as <-;
        (split; [eapply goto_weight; [done..|cbn; lia]|done]).
    + injection Ht as <-. split; [|done]. eapply goto_weight; [done..|]. destruct dn; cbn; lia.
    + destruct (x =? -1) eqn:E; injection Ht as <-; (split; [|done]); eapply goto_weight; try done;
        cbn [place_weight]; rewrite E; lia.
  - unfold main_step in Hm. pose proof (proj1 (pi_flag s Hs) Hex) as Hns. destruct (main_at s) as [|k|] eqn:Hma; [done| |done].
    unfold weight, main_weight. rewrite Hma. destruct (places s !! k) as [[r p]|] eqn:Hk.
    + destruct p; try done. injection Hm as <-. cbn [places main_at]. apply lookup_lt_Some in Hk. split; [lia|done].
    + injection Hm as <-. cbn [places main_at]. split; [lia|done].
Qed.

(** A thread can run unless it has ended or waits for the lock. *)
Lemma thread_runs s i r p :
  pinv s → places s !! i = Some (r, p) → p ≠ Exited → inside p = true ∨ lock s = None →
  ∃ s', thread_step 0 i s = Next s'.
Proof.
  intros Hs Hi Hp Hl. pose proof (thread_inv 0 i s Hs) as Hinv.
  destruct (thread_step 0 i s) as [s'| |] eqn:Ht; [by exists s'| |done]. exfalso.
  unfold thread_step, loop_step, item_step in Ht. rewrite Hi in Ht. destruct p; try done.
  - destruct Hl as [?|Hl]; [done|]. by rewrite Hl in Ht.
  - destruct r; [destruct (insert_section item (sbuf s)) as [[] b| | |]|
        destruct (remove_section (sbuf s)) as [[y|] b| | |]]; done.
  - by repeat case_match.
Qed.

Lemma exit_progress s :
  pinv s → is_exiting s = true → main_at s ≠ Finished → ∃ s', step s s'.
Proof.
  intros Hs Hex Hm. destruct (lock s) as [j|] eqn:Hl.
  { pose proof Hl as (r & p & Hj & Hp)%(pi_lock s Hs).
    destruct (thread_runs s j r p) as [s' Hs']; [done|done|by destruct p|by left|]. exists s'. by eapply step_thread. }
  pose proof (proj1 (pi_flag s Hs) Hex). destruct (main_at s) as [|k|] eqn:Hma; [done| |done].
  destruct (places s !! k) as [[r p]|] eqn:Hk.
  - destruct (decide (p = Exited)) as [->|Hne].
    + eexists. apply step_main. unfold main_step. by rewrite Hma, Hk.
    + destruct (thread_runs s k r p) as [s' Hs']; [done|done|done|by right|]. exists s'. by eapply step_thread.
  - eexists. apply step_main. unfold main_step. by rewrite Hma, Hk.
Qed.

Lemma step_pinv s s' : pinv s → step s s' → pinv s'.
Proof.
  intros Hs [rnd i s'' Ht|s'' Hm]; [|by eapply main_inv].
  pose proof (thread_inv rnd i s Hs) as Hi. by rewrite Ht in Hi.
Qed.

(** No run is longer than the weight, and one that cannot go on has ended. *)
Lemma exit_bounded n s s' :
  pinv s → is_exiting s = true → nsteps step n s s' →
  pinv s' ∧ is_exiting s' = true ∧ (n + weight s' ≤ weight s)%nat.
Proof.
  intros Hs Hex Hn. revert Hs Hex. induction Hn as [s|n s s1 s' Hst Hn IH]; intros Hs Hex; [split_and!; [done|done|lia]|].
  destruct (exit_decreases _ _ Hs Hex Hst) as [Hw Hex1].
  destruct (IH (step_pinv _ _ Hs Hst) Hex1) as (H1 & H2 & H3). split_and!; [done|done|lia].
Qed.

Lemma exit_finishes s : pinv s → is_exiting s = true → ∃ s', rtc step s s' ∧ main_at s' = Finished.
Proof.
  remember (weight s) as n eqn:Hn. revert s Hn. induction (lt_wf n) as [n _ IH]. intros s -> Hs Hex.
  destruct (main_at s) as [|k|] eqn:Hm; [| |by exists s].
  all: destruct (exit_progress s Hs Hex ltac:(by rewrite Hm)) as [s1 Hst];
    destruct (exit_decreases _ _ Hs Hex Hst) as [Hw Hex1];
    destruct (IH _ Hw s1 eq_refl (step_pinv _ _ Hs Hst) Hex1) as (s' & Hr & Hf);
    exists s'; (split; [by eapply rtc_l|done]).
Qed.
