(* ===== verification/ProducerConsumerSem.v ===== *)
(** * ProducerConsumerSem: producer-consumer-problem-semaphore.c

    The same program with semaphores: [space_sem] counts the free places,
    [items_sem] the items, [buffer_sem] admits one thread to the buffer.  The
    critical sections do not look at the number of free places: the semaphores
    alone keep the accesses in bounds. *)
From Stdlib Require Import Ascii.
From stdpp Require Import prelude list.
From S2P Require Import Prelude CMonad SecretCode BoundedBuffer ProducerConsumer.

Module Semaphores.
Inductive place :=
  | Top
  | Check (item : Z)               (* at the test of is_exiting *)
  | WaitFirst (item : Z)           (* at sem_wait of space_sem or items_sem *)
  | WaitBuffer (item : Z)          (* at sem_wait of buffer_sem *)
  | Critical (item : Z)
  | PostBuffer (item : Z)
  | PostSecond (item : Z)          (* at sem_post of items_sem or space_sem *)
  | Returned (item : Z) (result : Z)
  | Exited.
#[export] Instance place_eq_dec : EqDecision place.
Proof. solve_decision. Defined.

Record state := State {
  sbuf : buf;
  buffer_sem : Z;
  space_sem : Z;
  items_sem : Z;
  is_exiting : bool;
  places : list (role * place);
  main_at : main_place;
  inserted : list Z;
  removed : list Z;
  messages : list message
}.

Inductive result := Next (s : state) | Blocked | Undefined.

Definition goto (i : nat) (r : role) (p : place) (s : state) : state :=
  State (sbuf s) (buffer_sem s) (space_sem s) (items_sem s) (is_exiting s) (<[i := (r, p)]> (places s))
    (main_at s) (inserted s) (removed s) (messages s).
Definition set_sems b sp it s :=
  State (sbuf s) b sp it (is_exiting s) (places s) (main_at s) (inserted s) (removed s) (messages s).
Definition say m s :=
  State (sbuf s) (buffer_sem s) (space_sem s) (items_sem s) (is_exiting s) (places s)
    (main_at s) (inserted s) (removed s) (messages s ++ [m]).
Definition insert_done b item s :=
  State b (buffer_sem s) (space_sem s) (items_sem s) (is_exiting s) (places s)
    (main_at s) (inserted s ++ [item]) (removed s) (messages s).
Definition remove_done b item s :=
  State b (buffer_sem s) (space_sem s) (items_sem s) (is_exiting s) (places s)
    (main_at s) (inserted s) (removed s ++ [item]) (messages s).

(** [insert_item] and [remove_item]; [sem_wait] blocks at 0, [sem_post] adds one.
    What happens between the wait and the post of [buffer_sem] is one step: no
    other thread is there at the same time, which [semaphores_safe] shows, and only
    these sections touch the buffer. *)
Definition item_step (i : nat) (r : role) (p : place) (s : state) : result :=
  match p with
  | Check item => Next (goto i r (if is_exiting s then Returned item (-1) else WaitFirst item) s)
  | WaitFirst item =>
      match r with
      | Producer =>
          if 0 <? space_sem s
          then Next (goto i r (WaitBuffer item) (set_sems (buffer_sem s) (space_sem s - 1) (items_sem s) s))
          else Blocked
      | Consumer =>
          if 0 <? items_sem s
          then Next (goto i r (WaitBuffer item) (set_sems (buffer_sem s) (space_sem s) (items_sem s - 1) s))
          else Blocked
      end
  | WaitBuffer item =>
      if 0 <? buffer_sem s
      then Next (goto i r (Critical item) (set_sems (buffer_sem s - 1) (space_sem s) (items_sem s) s))
      else Blocked
  | Critical item =>
      match r with
      | Producer =>
          match put item (sbuf s) with
          | Ok _ b => Next (goto i r (PostBuffer item) (insert_done b item s))
          | _ => Undefined
          end
      | Consumer =>
          match take_first (sbuf s) with
          | Ok x b => Next (goto i r (PostBuffer x) (remove_done b x s))
          | _ => Undefined
          end
      end
  | PostBuffer item =>
      Next (goto i r (PostSecond item) (set_sems (buffer_sem s + 1) (space_sem s) (items_sem s) s))
  | PostSecond item =>
      match r with
      | Producer =>
          Next (goto i r (Returned item 0) (set_sems (buffer_sem s) (space_sem s) (items_sem s + 1) s))
      | Consumer =>
          Next (goto i r (Returned item 0) (set_sems (buffer_sem s) (space_sem s + 1) (items_sem s) s))
      end
  | _ => Blocked
  end.

(** [producer] and [consumer], around them. *)
Definition loop_step (rnd : Z) (i : nat) (r : role) (p : place) (s : state) : result :=
  match p with
  | Top => Next (goto i r (Check (if decide (r = Producer) then rnd else 0)) s)
  | Returned item result =>
      if result =? -1 then
        if is_exiting s then Next (goto i r Exited (say (Exiting r) s))
        else Next (goto i r Top (say (if decide (r = Producer) then BufferFull else BufferEmpty) s))
      else Next (goto i r Top (say (if decide (r = Producer) then Produced item else Consumed item) s))
  | _ => Blocked
  end.

Definition thread_step (rnd : Z) (i : nat) (s : state) : result :=
  match places s !! i with
  | None => Blocked
  | Some (r, p) =>
      match p with
      | Top | Returned _ _ => loop_step rnd i r p s
      | Exited => Blocked
      | _ => item_step i r p s
      end
  end.

Definition set_main b m s :=
  State (sbuf s) (buffer_sem s) (space_sem s) (items_sem s) b (places s) m (inserted s) (removed s) (messages s).

Definition main_step (s : state) : result :=
  match main_at s with
  | Sleeping => Next (set_main true (Joining 0) s)
  | Joining k =>
      match places s !! k with
      | None => Next (set_main (is_exiting s) Finished s)
      | Some (_, Exited) => Next (set_main (is_exiting s) (Joining (S k)) s)
      | Some _ => Blocked
      end
  | Finished => Blocked
  end.

Inductive step (s : state) : state → Prop :=
  | step_thread rnd i s' : thread_step rnd i s = Next s' → step s s'
  | step_main s' : main_step s = Next s' → step s s'.

(** [sem_init] with 1, [BUFFER_SIZE] and 0. *)
Definition start (np nc : nat) : state :=
  State (Buf (replicate 5 0) BUFFER_SIZE) 1 BUFFER_SIZE 0 false
    (replicate np (Producer, Top) ++ replicate nc (Consumer, Top)) Sleeping [] [] [].

Inductive reachable (np nc : nat) : state → Prop :=
  | reach_start : reachable np nc (start np nc)
  | reach_step s s' : reachable np nc s → step s s' → reachable np nc s'.

(** [main] up to [sleep]. *)
Definition main (os : pc_os) (argv : list (list ascii)) : C buf (Z + state) :=
  r ← create_all os argv;
  match r with
  | inl code => mret (inl code)
  | inr (np, nc) =>
      b ← get id;
      mret (inr (State b 1 BUFFER_SIZE 0 false
        (replicate np (Producer, Top) ++ replicate nc (Consumer, Top)) Sleeping [] [] []))
  end.
End Semaphores.
