(* ===== verification/ProducerConsumerSemRefine.v ===== *)
(** * ProducerConsumerSemRefine: what the semaphores count *)
From stdpp Require Import prelude list.
From S2P Require Import Prelude CMonad SecretCode BoundedBuffer ProducerConsumer ProducerConsumerSem.
Import Semaphores.

(** ** What the threads have taken from the semaphores and not given back *)
Definition at_buffer (rp : role * place) : nat :=
  match rp.2 with Critical _ | PostBuffer _ => 1 | _ => 0 end.

(** A producer that has claimed a place and not used it; a consumer that has
    freed a place and not said so. *)
Definition claims_space (rp : role * place) : nat :=
  match rp with
  | (Producer, (WaitBuffer _ | Critical _)) => 1
  | (Consumer, (PostBuffer _ | PostSecond _)) => 1
  | _ => 0
  end.
Definition claims_item (rp : role * place) : nat :=
  match rp with
  | (Consumer, (WaitBuffer _ | Critical _)) => 1
  | (Producer, (PostBuffer _ | PostSecond _)) => 1
  | _ => 0
  end.

Definition tally (f : role * place → nat) (s : state) : Z := Z.of_nat (sum_list_with f (places s)).

Record sinv (s : state) : Prop := {
  si_buf : buf_ok (sbuf s);
  si_sems : 0 ≤ buffer_sem s ∧ 0 ≤ space_sem s ∧ 0 ≤ items_sem s;
  si_buffer : buffer_sem s + tally at_buffer s = 1;
  si_space : space_sem s + tally claims_space s = buffer_space (sbuf s);
  si_items : items_sem s + tally claims_item s = 5 - buffer_space (sbuf s);
  si_fifo : inserted s = removed s ++ contents (sbuf s)
}.

Lemma tally_goto f i r p p' s :
  places s !! i = Some (r, p) →
  Z.of_nat (sum_list_with f (<[i := (r, p')]> (places s))) =
  tally f s - Z.of_nat (f (r, p)) + Z.of_nat (f (r, p')).
Proof.
  intros Hi. unfold tally. pose proof (sum_list_with_insert f _ _ _ (r, p') Hi). lia.
Qed.

Lemma tally_ge f i rp s : places s !! i = Some rp → Z.of_nat (f rp) ≤ tally f s.
Proof.
  unfold tally. revert i. induction (places s) as [|x l IH]; intros [|i] Hi; [done|done|injection Hi as ->; cbn; lia|].
  specialize (IH i Hi). cbn. lia.
Qed.

(** A thread moves from [p] to [p']: the balance of the semaphores. *)
Lemma sinv_goto s i r p p' b bs ss it ex m ins rem msgs :
  sinv s → places s !! i = Some (r, p) → buf_ok b → ins = rem ++ contents b →
  0 ≤ bs → 0 ≤ ss → 0 ≤ it →
  bs - buffer_sem s = Z.of_nat (at_buffer (r, p)) - Z.of_nat (at_buffer (r, p')) →
  ss - space_sem s = Z.of_nat (claims_space (r, p)) - Z.of_nat (claims_space (r, p'))
    + (buffer_space b - buffer_space (sbuf s)) →
  it - items_sem s = Z.of_nat (claims_item (r, p)) - Z.of_nat (claims_item (r, p'))
    - (buffer_space b - buffer_space (sbuf s)) →
  sinv (State b bs ss it ex (<[i := (r, p')]> (places s)) m ins rem msgs).
Proof.
  intros [_ _ H1 H2 H3 _] Hi Hb Hf Hbs Hss His E1 E2 E3.
  split; cbn [sbuf buffer_sem space_sem items_sem places inserted removed]; try done; unfold tally at 1; cbn [places];
    rewrite (tally_goto _ _ _ _ _ _ Hi); lia.
Qed.

(** In its critical section a producer finds a free place, a consumer an item. *)
Lemma put_room s i item :
  sinv s → places s !! i = Some (Producer, Critical item) → 0 < buffer_space (sbuf s).
Proof.
  intros [_ (_ & Hs & _) _ H2 _ _] Hi. pose proof (tally_ge claims_space _ _ _ Hi) as Ht. cbn in Ht. lia.
Qed.
Lemma take_room s i item :
  sinv s → places s !! i = Some (Consumer, Critical item) → buffer_space (sbuf s) < 5.
Proof.
  intros [_ (_ & _ & Hs) _ _ H3 _] Hi. pose proof (tally_ge claims_item _ _ _ Hi) as Ht. cbn in Ht. lia.
Qed.

Lemma sem_thread_inv rnd i s :
  sinv s → match thread_step rnd i s with Next s' => sinv s' | Blocked => True | Undefined => False end.
Proof.
  intros Hs. unfold thread_step, loop_step, item_step. destruct (places s !! i) as [[r p]|] eqn:Hi; [|done].
  pose proof (si_buf s Hs) as Hb. pose proof (si_fifo s Hs) as Hf. destruct (si_sems s Hs) as (H1 & H2 & H3).
  destruct p as [|item|item|item|item|item|item|item x|]; [| | | | | | | |done].
  - eapply (sinv_goto s i r Top); try done; cbn; destruct r; lia.
  - eapply (sinv_goto s i r (Check item)); try done; cbn; destruct r, (is_exiting s); cbn; lia.
  - destruct r.
    + destruct (Z.ltb_spec 0 (space_sem s)); [|done].
      eapply (sinv_goto s i _ (WaitFirst item)); try done; cbn; lia.
    + destruct (Z.ltb_spec 0 (items_sem s)); [|done].
      eapply (sinv_goto s i _ (WaitFirst item)); try done; cbn; lia.
  - destruct (Z.ltb_spec 0 (buffer_sem s)); [|done].
    eapply (sinv_goto s i _ (WaitBuffer item)); try done; cbn; destruct r; lia.
  - destruct r.
    + destruct (put_runs item _ Hb (put_room _ _ _ Hs Hi)) as (b & -> & Hb' & Hc & Hn).
      eapply (sinv_goto s i _ (Critical item)); try done; cbn; try lia. by rewrite Hc, Hf, app_assoc.
    + destruct (take_first_runs _ Hb (take_room _ _ _ Hs Hi)) as (x & b & -> & Hb' & Hc & Hn).
      eapply (sinv_goto s i _ (Critical item)); try done; cbn; try lia. by rewrite Hf, Hc, <- app_assoc.
  - eapply (sinv_goto s i _ (PostBuffer item)); try done; cbn; destruct r; lia.
  - destruct r; eapply (sinv_goto s i _ (PostSecond item)); try done; cbn; lia.
  - destruct (x =? -1); [destruct (is_exiting s)|];
      (eapply (sinv_goto s i _ (Returned item x)); try done; cbn; destruct r; lia).
Qed.

Lemma sem_main_inv s s' : sinv s → main_step s = Next s' → sinv s'.
Proof.
  intros [? ? ? ? ? ?] Hm. unfold main_step in Hm.
  assert (∃ b m, s' = set_main b m s) as (b & m & ->); [|by split].
  destruct (main_at s); [injection Hm as <-; eauto| |done].
  destruct (places s !! k) as [[r []]|]; try done; injection Hm as <-; eauto.
Qed.

Lemma sem_step_inv s s' : sinv s → step s s' → sinv s'.
Proof.
  intros Hs [rnd i s'' Ht|s'' Hm]; [|by eapply sem_main_inv].
  pose proof (sem_thread_inv rnd i s Hs) as Hi. by rewrite Ht in Hi.
Qed.

Lemma sem_start_inv np nc : sinv (start np nc).
Proof.
  assert (∀ f : role * place → nat, (∀ r, f (r, Top) = 0%nat) → tally f (start np nc) = 0) as Ht.
  { intros f Hf. unfold tally. cbn [places start]. rewrite sum_list_with_app.
    assert (∀ n r, sum_list_with f (replicate n (r, Top)) = 0%nat) as Hn.
    { intros n r. induction n as [|n IH]; [done|]. cbn. rewrite Hf. exact IH. }
    by rewrite !Hn. }
  split; cbn [start sbuf buffer_sem space_sem items_sem inserted removed buffer_space];
    rewrite ?Ht by (by intros []); done.
Qed.

Lemma sem_reachable_inv np nc s : reachable np nc s → sinv s.
Proof. induction 1 as [|s s' _ IH Hs]; [apply sem_start_inv|by eapply sem_step_inv]. Qed.

(** ** No deadlock before the exit *)

(** A thread is blocked only at a semaphore that is 0. *)
Lemma sem_blocked s i r p :
  sinv s → places s !! i = Some (r, p) → thread_step 0 i s = Blocked →
  p = Exited ∨ (∃ item, p = WaitBuffer item ∧ buffer_sem s = 0) ∨
  (∃ item, p = WaitFirst item ∧ if decide (r = Producer) then space_sem s = 0 else items_sem s = 0).
Proof.
  intros Hs Hi Hb. destruct (si_sems s Hs) as (H1 & H2 & H3). unfold thread_step, loop_step, item_step in Hb. rewrite Hi in Hb.
  destruct p as [|item|item|item|item|item|item|item x|]; try done.
  - right; right. exists item. split; [done|]. destruct r; [rewrite decide_True by done|rewrite decide_False by done].
    + destruct (Z.ltb_spec 0 (space_sem s)); [done|lia].
    + destruct (Z.ltb_spec 0 (items_sem s)); [done|lia].
  - right; left. exists item. split; [done|]. destruct (Z.ltb_spec 0 (buffer_sem s)); [done|lia].
  - by destruct r; [destruct (put item (sbuf s))|destruct (take_first (sbuf s))].
  - by destruct r.
  - by repeat case_match.
  - by left.
Qed.

Lemma tally_zero f s : (∀ i rp, places s !! i = Some rp → f rp = 0%nat) → tally f s = 0.
Proof.
  unfold tally. induction (places s) as [|x l IH]; intros Hf; [done|]. cbn.
  rewrite (Hf 0%nat x) by done. apply IH. intros i rp Hi. by apply (Hf (S i)).
Qed.

Lemma sem_progress s i j p q :
  sinv s → (∀ k rp, places s !! k = Some rp → rp.2 ≠ Exited) →
  places s !! i = Some (Producer, p) → places s !! j = Some (Consumer, q) →
  ∃ k s', thread_step 0 k s = Next s'.
Proof.
  intros Hs Hne Hi Hj.
  destruct (decide (Exists (λ k, match thread_step 0 k s with Next _ => true | _ => false end = true)
    (seq 0 (length (places s))))) as [He|He].
  { apply Exists_exists in He as (k & _ & Hk). destruct (thread_step 0 k s) eqn:E; [eauto|done..]. }
  exfalso. assert (∀ k rp, places s !! k = Some rp → thread_step 0 k s = Blocked) as Hall.
  { intros k rp Hk. pose proof (sem_thread_inv 0 k s Hs) as Hinv.
    destruct (thread_step 0 k s) eqn:E; [|done|done]. exfalso. apply He, Exists_exists. exists k.
    split; [|by rewrite E]. apply elem_of_seq. apply lookup_lt_Some in Hk. lia. }
  assert (Hat : ∀ k r p', places s !! k = Some (r, p') → (∃ item, p' = WaitBuffer item ∧ buffer_sem s = 0) ∨
    (∃ item, p' = WaitFirst item ∧ if decide (r = Producer) then space_sem s = 0 else items_sem s = 0)).
  { intros k r p' Hk. destruct (sem_blocked s k r p' Hs Hk (Hall _ _ Hk)) as [->|?]; [|done].
    by specialize (Hne _ _ Hk). }
  assert (tally at_buffer s = 0) as Htb.
  { apply tally_zero. intros k [r p'] Hk. by destruct (Hat _ _ _ Hk) as [(? & -> & _)|(? & -> & _)]. }
  pose proof (si_buffer s Hs) as Hb1.
  assert (Hfirst : ∀ k r p', places s !! k = Some (r, p') →
    ∃ item, p' = WaitFirst item ∧ if decide (r = Producer) then space_sem s = 0 else items_sem s = 0).
  { intros k r p' Hk. destruct (Hat _ _ _ Hk) as [(? & _ & ?)|?]; [lia|done]. }
  assert (tally claims_space s = 0) as Ht1.
  { apply tally_zero. intros k [r p'] Hk. destruct (Hfirst _ _ _ Hk) as (? & -> & _). by destruct r. }
  assert (tally claims_item s = 0) as Ht2.
  { apply tally_zero. intros k [r p'] Hk. destruct (Hfirst _ _ _ Hk) as (? & -> & _). by destruct r. }
  destruct (Hfirst _ _ _ Hi) as (? & _ & Hsp), (Hfirst _ _ _ Hj) as (? & _ & Hit). rewrite decide_True in Hsp by done.
  rewrite decide_False in Hit by done.
  pose proof (si_space s Hs). pose proof (si_items s Hs). lia.
Qed.

(** ** A consumer that waits for an item after the producers have ended *)
Record abandoned (i : nat) (s : state) : Prop := {
  ab_items : items_sem s = 0;
  ab_producers k p : places s !! k = Some (Producer, p) → p = Exited;
  ab_waits : ∃ item, places s !! i = Some (Consumer, WaitFirst item);
  ab_main : match main_at s with Sleeping => True | Joining k => (k ≤ i)%nat | Finished => False end
}.

Lemma abandoned_step i s s' : abandoned i s → step s s' → abandoned i s'.
Proof.
  intros [Hit Hp [item Hw] Hm] [rnd k s'' Ht|s'' Hma].
  - unfold thread_step, loop_step, item_step in Ht. destruct (places s !! k) as [[r p]|] eqn:Hk; [|done].
    destruct r; [rewrite (Hp _ _ Hk) in Ht; done|].
    assert (Hik : p ≠ WaitFirst item → k ≠ i) by congruence.
    assert (∀ p', p ≠ WaitFirst item → abandoned i (goto k Consumer p' s)) as Hgo.
    { intros p' Hne. specialize (Hik Hne). split; cbn; [done| | |done].
      - intros k' q Hk'. destruct (decide (k' = k)) as [->|Hkk].
        + rewrite list_lookup_insert_eq in Hk' by (by eapply lookup_lt_Some). done.
        + rewrite list_lookup_insert_ne in Hk' by done. by eapply Hp.
      - exists item. by rewrite list_lookup_insert_ne by done. }
    destruct p as [|x|x|x|x|x|x|x res|]; try done.
    + injection Ht as <-. by apply Hgo.
    + injection Ht as <-. by apply Hgo.
    + rewrite Hit in Ht. done.
    + destruct (0 <? buffer_sem s); [|done]. injection Ht as <-. by destruct (Hgo (Critical x)).
    + destruct (take_first (sbuf s)) as [y b| | |]; try done. injection Ht as <-. by destruct (Hgo (PostBuffer y)).
    + injection Ht as <-. by destruct (Hgo (PostSecond x)).
    + injection Ht as <-. by destruct (Hgo (Returned x 0)).
    + destruct (res =? -1); [destruct (is_exiting s)|]; injection Ht as <-;
        [by destruct (Hgo Exited)|by destruct (Hgo Top)|by destruct (Hgo Top)].
  - unfold main_step in Hma. destruct (main_at s) as [|k|] eqn:E; [| |done].
    + injection Hma as <-. split; cbn; [done|done|eauto|lia].
    + destruct (places s !! k) as [[r q]|] eqn:Hk.
      * destruct q; try done. injection Hma as <-. split; cbn; [done|done|eauto|].
        destruct (decide (k = i)) as [->|]; [congruence|lia].
      * apply lookup_ge_None_1 in Hk. apply lookup_lt_Some in Hw. lia.
Qed.

Lemma abandoned_forever i s s' : abandoned i s → rtc step s s' → abandoned i s'.
Proof. intros Ha Hr. induction Hr as [|s s1 s' Hst _ IH]; [done|]. by apply IH, (abandoned_step i s). Qed.

(** Such a state can be reached: the first consumer waits, the flag is set, and
    the producers end one after the other. *)
Lemma reachable_rtc np nc s s' : reachable np nc s → rtc step s s' → reachable np nc s'.
Proof. intros Hs Hr. induction Hr as [|s s1 s' Hst _ IH]; [done|]. apply IH. by eapply reach_step. Qed.

Lemma producer_leaves s k :
  is_exiting s = true → places s !! k = Some (Producer, Top) →
  ∃ msgs, rtc step s (State (sbuf s) (buffer_sem s) (space_sem s) (items_sem s) (is_exiting s)
    (<[k := (Producer, Exited)]> (places s)) (main_at s) (inserted s) (removed s) msgs).
Proof.
  intros Hex Hk. pose proof (lookup_lt_Some _ _ _ Hk) as Hlen. eexists.
  eapply rtc_l. { apply (step_thread s 0 k). unfold thread_step, loop_step, item_step. rewrite Hk. done. }
  eapply rtc_l. { apply (step_thread _ 0 k). unfold thread_step, loop_step, item_step. cbn [goto places].
    rewrite list_lookup_insert_eq by done. cbn [is_exiting goto]. rewrite Hex. done. }
  eapply rtc_l. { apply (step_thread _ 0 k). unfold thread_step, loop_step, item_step. cbn [goto places].
    rewrite list_lookup_insert_eq by (by rewrite length_insert). cbn [is_exiting goto]. rewrite Hex. done. }
  unfold goto, say. cbn. rewrite !list_insert_insert_eq. apply rtc_refl.
Qed.

Lemma abandon_reached np nc k :
  (k ≤ np)%nat → (1 ≤ nc)%nat →
  ∃ s, reachable np nc s ∧ is_exiting s = true ∧ items_sem s = 0 ∧ main_at s = Joining 0 ∧
    length (places s) = (np + nc)%nat ∧
    places s !! np = Some (Consumer, WaitFirst 0) ∧
    (∀ i, (i < k)%nat → places s !! i = Some (Producer, Exited)) ∧
    (∀ i, (k ≤ i < np)%nat → places s !! i = Some (Producer, Top)) ∧
    (∀ i r p, (np ≤ i)%nat → places s !! i = Some (r, p) → r = Consumer).
Proof.
  intros Hk Hnc. induction k as [|k IH].
  - set (s0 := start np nc).
    assert (H0 : places s0 !! np = Some (Consumer, Top)).
    { cbn. rewrite lookup_app_r by (by rewrite length_replicate). rewrite length_replicate, Nat.sub_diag.
      by apply lookup_replicate_2; lia. }
    assert (Hlen : length (places s0) = (np + nc)%nat) by (cbn; by rewrite length_app, !length_replicate).
    set (s1 := goto np Consumer (Check 0) s0). set (s2 := goto np Consumer (WaitFirst 0) s1).
    exists (set_main true (Joining 0) s2).
    assert (Hr : reachable np nc (set_main true (Joining 0) s2)).
    { eapply (reachable_rtc np nc s0); [apply reach_start|].
      eapply (rtc_l _ _ s1). { apply (step_thread _ 0 np). unfold thread_step, loop_step, item_step. by rewrite H0. }
      eapply (rtc_l _ _ s2). { apply (step_thread _ 0 np). unfold thread_step, loop_step, item_step, s1. cbn [goto places].
        rewrite list_lookup_insert_eq by lia. done. }
      eapply rtc_l; [|apply rtc_refl]. by apply step_main. }
    split; [done|]. split_and!; try done.
    + cbn [set_main places s2 s1 goto]. rewrite !length_insert. done.
    + cbn [set_main places s2 s1 goto]. rewrite list_lookup_insert_eq by (rewrite length_insert; lia). done.
    + lia.
    + intros i Hi. cbn [set_main places s2 s1 goto]. rewrite !list_lookup_insert_ne by lia.
      cbn. rewrite lookup_app_l by (rewrite length_replicate; lia). by apply lookup_replicate_2; lia.
    + intros i r p Hi Hp. cbn [set_main places s2 s1 goto] in Hp. destruct (decide (i = np)) as [->|Hne].
      * rewrite list_lookup_insert_eq in Hp by (rewrite length_insert; lia). congruence.
      * rewrite !list_lookup_insert_ne in Hp by done. cbn in Hp.
        rewrite lookup_app_r in Hp by (rewrite length_replicate; lia).
        apply lookup_replicate in Hp as [Hp _]. congruence.
  - destruct (IH ltac:(lia)) as (s & Hr & Hex & Hit & Hm & Hlen & Hw & Hdone & Htop & Hcons).
    destruct (producer_leaves s k Hex) as [msgs Hgo]; [apply Htop; lia|].
    eexists. split; [by eapply reachable_rtc|]. cbn [is_exiting items_sem main_at places].
    rewrite length_insert. split_and!; try done.
    + by rewrite list_lookup_insert_ne by lia.
    + intros i Hi. destruct (decide (i = k)) as [->|]; [apply list_lookup_insert_eq; lia|].
      rewrite list_lookup_insert_ne by done. apply Hdone. lia.
    + intros i Hi. rewrite list_lookup_insert_ne by lia. apply Htop. lia.
    + intros i r p Hi Hp. rewrite list_lookup_insert_ne in Hp by lia. by eapply Hcons.
Qed.

Lemma abandon_possible np nc : (1 ≤ nc)%nat →
  ∃ s, reachable np nc s ∧ is_exiting s = true ∧ abandoned np s.
Proof.
  intros Hnc. destruct (abandon_reached np nc np ltac:(lia) Hnc)
    as (s & Hr & Hex & Hit & Hm & _ & Hw & Hdone & _ & Hcons).
  exists s. split; [done|]. split; [done|]. split; [done| |by exists 0|rewrite Hm; lia].
  intros k p Hk. destruct (decide (k < np)%nat) as [Hlt|Hge].
  - rewrite (Hdone k Hlt) in Hk. by injection Hk.
  - by specialize (Hcons k Producer p ltac:(lia) Hk).
Qed.
