(* ===== verification/Shell.v ===== *)
(** * Shell: my-shell.c

    A shell that reads a line, splits it at the blanks, and runs the program it
    names.  Strings and arrays of strings are blocks of memory: a cell that was
    never written may not be read, an access outside of a block or to a freed
    block is undefined behaviour.  The answers of the operating system are scripts
    in the state, and its calls that matter are recorded. *)
From Stdlib Require Import Ascii String.
From stdpp Require Import prelude gmap strings.
From S2P Require Import Prelude CMonad CString.

Definition CMD_PROMPT : list ascii := chars "> ".
Definition STRSCAN_INITIAL_MAX_STR_LEN : Z := 64.
Definition STRSCAN_STR_LEN_GROW_FACTOR : Z := 2.
Definition STRSPLIT_INITIAL_MAX_STR_ARRAY_LEN : Z := 1.
Definition STRSPLIT_STR_ARRAY_LEN_GROW_FACTOR : Z := 2.
Definition SIGALRM : Z := 14.

(** What [read] on the standard input does; the end of the list is end of file. *)
Inductive input := Key (c : ascii) | ReadFails.

(** What happens while the shell waits for a command. *)
Inductive waiting := ChildEnds | AlarmRings (kill_ok : bool).

(** The calls of the operating system that are recorded. *)
Inductive call :=
  | CFork (pid : Z) | CExec (argv : list (list ascii)) | CAlarm (seconds : Z) | CWait | CKill (pid : Z).

Record sh := Sh {
  strings : gmap Z (list (option ascii));          (* blocks of characters *)
  arrays : gmap Z (list (option (option Z)));      (* blocks of pointers to them *)
  next_block : Z;
  faults : list bool;                              (* the next calls of malloc that fail *)
  stdin : list input;
  stdout : list ascii;
  stdout_ok : bool;
  forks : list (Z * bool);                         (* the results of fork, and of execve *)
  waits : list waiting;
  childpid : Z;
  calls : list call
}.

Definition set_strings x s := Sh x (arrays s) (next_block s) (faults s) (stdin s) (stdout s) (stdout_ok s) (forks s) (waits s) (childpid s) (calls s).
Definition set_arrays x s := Sh (strings s) x (next_block s) (faults s) (stdin s) (stdout s) (stdout_ok s) (forks s) (waits s) (childpid s) (calls s).
Definition set_next x s := Sh (strings s) (arrays s) x (faults s) (stdin s) (stdout s) (stdout_ok s) (forks s) (waits s) (childpid s) (calls s).
Definition set_faults x s := Sh (strings s) (arrays s) (next_block s) x (stdin s) (stdout s) (stdout_ok s) (forks s) (waits s) (childpid s) (calls s).
Definition set_input x s := Sh (strings s) (arrays s) (next_block s) (faults s) x (stdout s) (stdout_ok s) (forks s) (waits s) (childpid s) (calls s).
Definition add_output x s := Sh (strings s) (arrays s) (next_block s) (faults s) (stdin s) (stdout s ++ x) (stdout_ok s) (forks s) (waits s) (childpid s) (calls s).
Definition set_forks x s := Sh (strings s) (arrays s) (next_block s) (faults s) (stdin s) (stdout s) (stdout_ok s) x (waits s) (childpid s) (calls s).
Definition set_waits x s := Sh (strings s) (arrays s) (next_block s) (faults s) (stdin s) (stdout s) (stdout_ok s) (forks s) x (childpid s) (calls s).
Definition set_child x s := Sh (strings s) (arrays s) (next_block s) (faults s) (stdin s) (stdout s) (stdout_ok s) (forks s) (waits s) x (calls s).
Definition add_call x s := Sh (strings s) (arrays s) (next_block s) (faults s) (stdin s) (stdout s) (stdout_ok s) (forks s) (waits s) (childpid s) (calls s ++ [x]).

(** ** Memory *)

(** The address of the next block; a failing [malloc] ends the shell. *)
Definition new_block : C sh Z := λ s,
  match faults s with
  | true :: fs => Exit 1 (set_faults fs s)
  | _ => Ok (next_block s) (set_next (next_block s + 1) (set_faults (tail (faults s)) s))
  end.

Definition malloc_chars (n : Z) : C sh Z :=
  p ← new_block;
  modify (λ s, set_strings (<[p := replicate (Z.to_nat n) None]> (strings s)) s);;
  mret p.
Definition malloc_ptrs (n : Z) : C sh Z :=
  p ← new_block;
  modify (λ s, set_arrays (<[p := replicate (Z.to_nat n) None]> (arrays s)) s);;
  mret p.

(** [realloc] to [n] cells, not fewer than before: the contents move to a new block. *)
Definition realloc_chars (p n : Z) : C sh Z :=
  h ← get strings;
  match h !! p with
  | None => ub
  | Some b =>
      q ← new_block;
      modify (λ s, set_strings (<[q := b ++ replicate (Z.to_nat n - length b) None]> (delete p (strings s))) s);;
      mret q
  end.
Definition realloc_ptrs (p n : Z) : C sh Z :=
  h ← get arrays;
  match h !! p with
  | None => ub
  | Some b =>
      q ← new_block;
      modify (λ s, set_arrays (<[q := b ++ replicate (Z.to_nat n - length b) None]> (delete p (arrays s))) s);;
      mret q
  end.

Definition free_chars (p : Z) : C sh () :=
  h ← get strings;
  match h !! p with None => ub | Some _ => modify (λ s, set_strings (delete p (strings s)) s) end.
Definition free_ptrs (p : Z) : C sh () :=
  h ← get arrays;
  match h !! p with None => ub | Some _ => modify (λ s, set_arrays (delete p (arrays s)) s) end.

(** [p[i]] and [p[i] = x]. *)
Definition cell {A} (b : list (option A)) (i : Z) : option A :=
  if 0 <=? i then match b !! Z.to_nat i with Some c => c | None => None end else None.

Definition char_at (p i : Z) : C sh ascii :=
  h ← get strings;
  match h !! p with
  | Some b => match cell b i with Some c => mret c | None => ub end
  | None => ub
  end.
Definition ptr_at (p i : Z) : C sh (option Z) :=
  h ← get arrays;
  match h !! p with
  | Some b => match cell b i with Some c => mret c | None => ub end
  | None => ub
  end.
Definition set_char (p i : Z) (c : ascii) : C sh () :=
  h ← get strings;
  match h !! p with
  | Some b =>
      if bool_decide (0 ≤ i < Z.of_nat (length b))
      then modify (λ s, set_strings (<[p := <[Z.to_nat i := Some c]> b]> (strings s)) s) else ub
  | None => ub
  end.
Definition set_ptr (p i : Z) (x : option Z) : C sh () :=
  h ← get arrays;
  match h !! p with
  | Some b =>
      if bool_decide (0 ≤ i < Z.of_nat (length b))
      then modify (λ s, set_arrays (<[p := <[Z.to_nat i := Some x]> b]> (arrays s)) s) else ub
  | None => ub
  end.

(** ** Strings *)

(** The shell's own [strcmp], of the string at [s1] and a constant; the
    difference of the first characters that differ.  [fuel] bounds the length. *)
Definition strcmp (fuel : nat) (s1 : Z) (s2 : list ascii) : C sh Z :=
  iter fuel (λ i,
    a ← char_at s1 i;
    match (s2 ++ [NUL]) !! Z.to_nat i with
    | None => ub
    | Some b =>
        if negb (bool_decide (a = NUL)) && bool_decide (a = b) then mret (inl (i + 1))
        else mret (inr (code a - code b))
    end) 0.

Definition strlen (fuel : nat) (str : Z) : C sh Z :=
  iter fuel (λ len,
    c ← char_at str len;
    if negb (bool_decide (c = NUL)) then len ← int_add len 1; mret (inl len) else mret (inr len)) 0.

(** [strprint] of a constant. *)
Definition strprint (str : list ascii) : C sh () :=
  ok ← get stdout_ok;
  if (ok : bool) then modify (add_output str) else exit 1.

(** [read(STDIN_FILENO, s + slen, 1)]: the value returned. *)
Definition read_key (s slen : Z) : C sh Z :=
  inp ← get stdin;
  match inp with
  | [] => mret 0
  | ReadFails :: rest => modify (set_input rest);; mret (-1)
  | Key c :: rest => modify (set_input rest);; set_char s slen c;; mret 1
  end.

Definition strscan_round (l : Z * Z * Z) : C sh ((Z * Z * Z) + Z) :=
  let '(s, slen, maxslen) := l in
  '(s, maxslen) ← (if maxslen <=? slen then
    maxslen ← int_mul maxslen STRSCAN_STR_LEN_GROW_FACTOR;
    n ← int_add maxslen 1;
    s ← realloc_chars s n;
    mret (s, maxslen) else mret (s, maxslen));
  r ← read_key s slen;
  if r <? 0 then exit 1
  else
    slen ← int_add slen 1;
    i ← int_sub slen 1;
    c ← char_at s i;
    if bool_decide (c = NEWLINE) then set_char s i NUL;; mret (inr s)
    else mret (inl (s, slen, maxslen)).

Definition strscan (fuel : nat) : C sh Z :=
  s ← malloc_chars (STRSCAN_INITIAL_MAX_STR_LEN + 1);
  iter fuel strscan_round (s, 0, STRSCAN_INITIAL_MAX_STR_LEN).

(** The end of the token that begins at [strarrayi]. *)
Definition token_end (origstr : Z) (origstrlen : Z) (delimiter : ascii) (strarrayi : Z) : C sh Z :=
  iter (S (Z.to_nat (origstrlen - strarrayi))) (λ strarrayj,
    if strarrayj <? origstrlen then
      c ← char_at origstr strarrayj;
      if bool_decide (c = delimiter) then mret (inr strarrayj)
      else strarrayj ← int_add strarrayj 1; mret (inl strarrayj)
    else mret (inr strarrayj)) strarrayi.

(** A copy of the [n] characters at [i], with a NUL. *)
Definition copy_token (origstr i n : Z) : C sh Z :=
  m ← int_add n 1;
  strtoken ← malloc_chars m;
  k ← iter (S (Z.to_nat n)) (λ k,
    if k <? n then
      j ← int_add i k;
      c ← char_at origstr j;
      set_char strtoken k c;;
      k ← int_add k 1;
      mret (inl k)
    else mret (inr k)) 0;
  set_char strtoken k NUL;;
  mret strtoken.

Definition strsplit_round (origstr origstrlen : Z) (delimiter : ascii) (l : Z * Z * Z * Z) :
    C sh ((Z * Z * Z * Z) + (Z * Z)) :=
  let '(strarray, strarraylen, maxstrarraylen, strarrayi) := l in
  if strarrayi <? origstrlen then
    c ← char_at origstr strarrayi;
    if bool_decide (c = delimiter) then
      strarrayi ← int_add strarrayi 1;
      mret (inl (strarray, strarraylen, maxstrarraylen, strarrayi))
    else
      strarrayj ← token_end origstr origstrlen delimiter strarrayi;
      strtokenlen ← int_sub strarrayj strarrayi;
      strtoken ← copy_token origstr strarrayi strtokenlen;
      '(strarray, maxstrarraylen) ← (if maxstrarraylen <=? strarraylen then
        maxstrarraylen ← int_mul maxstrarraylen STRSPLIT_STR_ARRAY_LEN_GROW_FACTOR;
        n ← int_add maxstrarraylen 1;
        strarray ← realloc_ptrs strarray n;
        mret (strarray, maxstrarraylen) else mret (strarray, maxstrarraylen));
      set_ptr strarray strarraylen (Some strtoken);;
      strarraylen ← int_add strarraylen 1;
      mret (inl (strarray, strarraylen, maxstrarraylen, strarrayj))
  else mret (inr (strarray, strarraylen)).

Definition strsplit (fuel : nat) (origstr : Z) (delimiter : ascii) : C sh Z :=
  origstrlen ← strlen fuel origstr;
  strarray ← malloc_ptrs (STRSPLIT_INITIAL_MAX_STR_ARRAY_LEN + 1);
  '(strarray, strarraylen) ←
    iter (S (Z.to_nat origstrlen)) (strsplit_round origstr origstrlen delimiter)
      (strarray, 0, STRSPLIT_INITIAL_MAX_STR_ARRAY_LEN, 0);
  set_ptr strarray strarraylen None;;
  mret strarray.

Definition freestrarray (fuel : nat) (strarray : Z) : C sh () :=
  iter fuel (λ i,
    p ← ptr_at strarray i;
    match p with
    | Some q => free_chars q;; mret (inl (i + 1))
    | None => mret (inr ())
    end) 0;;
  free_ptrs strarray.

(** ** Running commands *)
Definition kill_child (ok : bool) : C sh () :=
  pid ← get childpid;
  modify (add_call (CKill pid));;
  if ok then mret () else exit 1.

Definition sighandler (kill_ok : bool) (signo : Z) : C sh () :=
  if signo =? SIGALRM then
    strprint (chars "Process timed out" ++ [NEWLINE]);;
    kill_child kill_ok
  else mret ().

(** [wait(NULL)]: the alarm may ring first when one was set. *)
Definition wait_child (timeout : Z) : C sh () :=
  modify (add_call CWait);;
  ws ← get waits;
  match ws with
  | AlarmRings kill_ok :: rest =>
      modify (set_waits rest);;
      if 0 <? timeout then sighandler kill_ok SIGALRM else mret ()
  | _ => modify (set_waits (tail ws))
  end.

(** The string at [p], for the record of [execve]. *)
Definition string_at (h : gmap Z (list (option ascii))) (p : Z) : list ascii :=
  match h !! p with Some b => cstr (omap id b) | None => [] end.
Fixpoint pointers (b : list (option (option Z))) : list Z :=
  match b with Some (Some p) :: b' => p :: pointers b' | _ => [] end.

(** One round of the loop of [main]; [inr] is the value it returns. *)
Definition shell_round (fuel : nat) (timeout : Z) : C sh (() + Z) :=
  strprint CMD_PROMPT;;
  cmd ← strscan fuel;
  cmdargv ← strsplit fuel cmd SPACE;
  cmdfilename ← ptr_at cmdargv 0;
  match cmdfilename with
  | None => mret (inl ())
  | Some name =>
      r ← strcmp fuel name (chars "exit");
      if r =? 0 then mret (inr 0)
      else
        fs ← get forks;
        let '(pid, exec_ok) := match fs with f :: _ => f | [] => (-1, false) end in
        modify (set_forks (tail fs));;
        modify (add_call (CFork pid));;
        if pid <? 0 then mret (inr 1)
        else if pid =? 0 then
          h ← get strings;
          a ← get arrays;
          modify (add_call (CExec (string_at h <$> pointers (default [] (a !! cmdargv)))));;
          if (exec_ok : bool) then exit 0 else mret (inr 1)
        else
          modify (set_child pid);;
          modify (add_call (CAlarm timeout));;
          wait_child timeout;;
          modify (add_call (CAlarm 0));;
          free_chars cmd;;
          freestrarray fuel cmdargv;;
          mret (inl ())
  end.

(** [signal] for a time limit may fail. *)
Definition shell_main (signal_ok : bool) (fuel rounds : nat) (argv : list (list ascii)) : C sh Z :=
  timeout ← match argv with _ :: t :: _ => atoi t | _ => mret 0 end;
  if (0 <? timeout) && negb signal_ok then mret 1
  else iter rounds (λ _ : (), shell_round fuel timeout) ().
