(* ===== verification/ShellRefine.v ===== *)
(** * ShellRefine: lines, words and memory of the shell *)
From Stdlib Require Import Ascii String.
From stdpp Require Import prelude gmap strings.
From S2P Require Import Prelude CMonad CString Shell.

(** ** Words *)

(** The characters up to the next delimiter. *)
Fixpoint word (d : ascii) (l : list ascii) : list ascii :=
  match l with
  | [] => []
  | c :: l' => if bool_decide (c = d) then [] else c :: word d l'
  end.

(** The words of a line: the maximal parts without a delimiter; [cur] is the part
    read so far. *)
Fixpoint words_from (d : ascii) (cur l : list ascii) : list (list ascii) :=
  match l with
  | [] => match cur with [] => [] | _ => [cur] end
  | c :: l' =>
      if bool_decide (c = d)
      then match cur with [] => words_from d [] l' | _ => cur :: words_from d [] l' end
      else words_from d (cur ++ [c]) l'
  end.
Definition words (d : ascii) (l : list ascii) : list (list ascii) := words_from d [] l.

Lemma words_from_cur d cur l : cur ≠ [] →
  words_from d cur l = (cur ++ word d l) :: words d (drop (length (word d l)) l).
Proof.
  revert cur. induction l as [|c l IH]; intros cur Hc; cbn [words_from word].
  { rewrite app_nil_r. by destruct cur. }
  destruct (decide (c = d)) as [->|Hne].
  - rewrite !bool_decide_true by done. cbn [length drop]. rewrite app_nil_r. destruct cur; [done|].
    unfold words. cbn [words_from]. by rewrite bool_decide_true.
  - rewrite !bool_decide_false by done. rewrite IH by (by destruct cur). cbn [length drop].
    by rewrite <- app_assoc.
Qed.

Lemma words_skip d l : words d (d :: l) = words d l.
Proof. unfold words. cbn [words_from]. by rewrite bool_decide_true. Qed.

Lemma words_word d c l : c ≠ d →
  words d (c :: l) = word d (c :: l) :: words d (drop (length (word d (c :: l))) (c :: l)).
Proof.
  intros Hc. unfold words at 1. cbn [words_from word]. rewrite !bool_decide_false by done.
  rewrite words_from_cur by done. done.
Qed.

(** Words are not empty and contain no delimiter. *)
Lemma word_no_delim d l : d ∉ word d l.
Proof.
  induction l as [|c l IH]; cbn [word]; [apply not_elem_of_nil|].
  case_bool_decide as Hc; [apply not_elem_of_nil|]. rewrite not_elem_of_cons. split; [congruence|done].
Qed.

Lemma word_length d l : (length (word d l) ≤ length l)%nat.
Proof. induction l as [|c l IH]; cbn [word]; [done|]. case_bool_decide; cbn [length]; lia. Qed.

Lemma word_take d l : take (length (word d l)) l = word d l.
Proof.
  induction l as [|c l IH]; cbn [word]; [done|]. case_bool_decide; [done|]. cbn [length take]. by rewrite IH.
Qed.

Lemma words_ok d l : Forall (λ w, w ≠ [] ∧ d ∉ w ∧ (∀ c, c ∈ w → c ∈ l) ∧ (length w ≤ length l)%nat) (words d l).
Proof.
  remember (length l) as n eqn:Hn. revert l Hn. induction (lt_wf n) as [n _ IH]. intros l ->.
  destruct l as [|c l]; [constructor|]. destruct (decide (c = d)) as [->|Hc].
  - rewrite words_skip. eapply Forall_impl; [eapply (IH (length l)); [cbn [length]; lia|done]|].
    intros w (H1 & H2 & H3 & H4). split_and!; [done|done| |cbn [length]; lia]. intros x Hx. right. by apply H3.
  - rewrite words_word by done. constructor.
    + split_and!; [|apply word_no_delim| |apply word_length].
      * cbn [word]. by rewrite bool_decide_false.
      * intros x Hx. rewrite <- (take_drop (length (word d (c :: l))) (c :: l)), word_take.
        apply elem_of_app. by left.
    + set (r := drop _ _).
      assert (length r ≤ length l)%nat.
      { unfold r. rewrite length_drop. cbn [word]. rewrite bool_decide_false by done. cbn [length]. lia. }
      eapply Forall_impl; [eapply (IH (length r)); [cbn [length]; lia|done]|].
      intros w (H1 & H2 & H3 & H4). split_and!; [done|done| |cbn [length]; lia]. intros x Hx.
      rewrite <- (take_drop (length (word d (c :: l))) (c :: l)). apply elem_of_app. right. by apply H3.
Qed.

(** ** Memory *)
Section memory.
Implicit Types s : sh.

(** Blocks have addresses below the next one. *)
Definition heap_ok (s : sh) : Prop :=
  (∀ p b, strings s !! p = Some b → p < next_block s) ∧ (∀ p b, arrays s !! p = Some b → p < next_block s).

Lemma fresh_string s p : heap_ok s → next_block s ≤ p → strings s !! p = None.
Proof. intros [H _] Hp. destruct (strings s !! p) eqn:E; [|done]. apply H in E. lia. Qed.
Lemma fresh_array s p : heap_ok s → next_block s ≤ p → arrays s !! p = None.
Proof. intros [_ H] Hp. destruct (arrays s !! p) eqn:E; [|done]. apply H in E. lia. Qed.

Lemma wp_new_block (Q : Z → sh → Prop) s :
  faults s = [] → Q (next_block s) (set_next (next_block s + 1) s) → wp new_block Q s.
Proof. intros Hf HQ. unfold wp, new_block. rewrite Hf. destruct s. cbn in *. by subst. Qed.

Lemma wp_char_at p i b c (Q : ascii → sh → Prop) s :
  strings s !! p = Some b → b !! i = Some (Some c) → Q c s → wp (char_at p (Z.of_nat i)) Q s.
Proof.
  intros Hp Hc HQ. apply wp_bind, wp_get. rewrite Hp. unfold cell.
  rewrite (proj2 (Z.leb_le _ _)), Nat2Z.id, Hc by lia. by apply wp_ret.
Qed.

Lemma wp_set_char p i b c (Q : () → sh → Prop) s :
  strings s !! p = Some b → (i < length b)%nat →
  Q () (set_strings (<[p := <[i := Some c]> b]> (strings s)) s) → wp (set_char p (Z.of_nat i) c) Q s.
Proof.
  intros Hp Hi HQ. apply wp_bind, wp_get. rewrite Hp, bool_decide_true by lia. rewrite Nat2Z.id. by apply wp_modify.
Qed.

Lemma wp_ptr_at p i b x (Q : option Z → sh → Prop) s :
  arrays s !! p = Some b → b !! i = Some (Some x) → Q x s → wp (ptr_at p (Z.of_nat i)) Q s.
Proof.
  intros Hp Hc HQ. apply wp_bind, wp_get. rewrite Hp. unfold cell.
  rewrite (proj2 (Z.leb_le _ _)), Nat2Z.id, Hc by lia. by apply wp_ret.
Qed.

Lemma wp_set_ptr p i b x (Q : () → sh → Prop) s :
  arrays s !! p = Some b → (i < length b)%nat →
  Q () (set_arrays (<[p := <[i := Some x]> b]> (arrays s)) s) → wp (set_ptr p (Z.of_nat i) x) Q s.
Proof.
  intros Hp Hi HQ. apply wp_bind, wp_get. rewrite Hp, bool_decide_true by lia. rewrite Nat2Z.id. by apply wp_modify.
Qed.

(** A block with the characters [l], then cells that were not written. *)
Definition filled_block (l : list ascii) (m : nat) : list (option ascii) := (Some <$> l) ++ replicate m None.
(** A block that holds a string. *)
Definition string_block (l : list ascii) (r : list (option ascii)) : list (option ascii) :=
  (Some <$> l) ++ Some NUL :: r.

Lemma filled_block_length l m : length (filled_block l m) = (length l + m)%nat.
Proof. unfold filled_block. by rewrite length_app, length_fmap, length_replicate. Qed.

Lemma filled_write l m c :
  <[length l := Some c]> (filled_block l (S m)) = filled_block (l ++ [c]) m.
Proof.
  unfold filled_block. cbn [replicate]. rewrite <- (length_fmap Some l), insert_mid, fmap_app, <- app_assoc. done.
Qed.

Lemma filled_last l c m : filled_block (l ++ [c]) m !! length l = Some (Some c).
Proof.
  unfold filled_block. rewrite fmap_app, <- app_assoc. rewrite lookup_app_r by (by rewrite length_fmap).
  by rewrite length_fmap, Nat.sub_diag.
Qed.

Lemma filled_end l c m :
  <[length l := Some NUL]> (filled_block (l ++ [c]) m) = string_block l (replicate m None).
Proof.
  unfold filled_block, string_block. rewrite fmap_app, <- app_assoc. cbn [fmap list_fmap app].
  by rewrite <- (length_fmap Some l), insert_mid.
Qed.

Lemma filled_grow l m n :
  filled_block l m ++ replicate (n - length (filled_block l m)) None = filled_block l (m + (n - (length l + m))).
Proof. rewrite filled_block_length. unfold filled_block. by rewrite <- app_assoc, <- replicate_add. Qed.

Lemma string_char l r i c : l !! i = Some c → string_block l r !! i = Some (Some c).
Proof.
  intros Hi. unfold string_block. rewrite lookup_app_l by (rewrite length_fmap; by eapply lookup_lt_Some).
  by rewrite list_lookup_fmap, Hi.
Qed.
Lemma string_end l r : string_block l r !! length l = Some (Some NUL).
Proof.
  unfold string_block. rewrite lookup_app_r by (by rewrite length_fmap). by rewrite length_fmap, Nat.sub_diag.
Qed.

(** ** strscan *)

(** The state while a line is read: one new block. *)
Definition scanning (s0 : sh) (p : Z) (b : list (option ascii)) (nx : Z) (inp : list input) : sh :=
  set_strings (<[p := b]> (strings s0)) (set_next nx (set_input inp s0)).

(** The block has room for one more character. *)
Lemma wp_grow_line s0 got p m mx nx inp (Q : Z * Z → sh → Prop) :
  heap_ok s0 → faults s0 = [] → Z.of_nat (length got) < 2 ^ 29 →
  Z.of_nat (length got + m) = mx + 1 → 0 < mx ≤ 2 ^ 30 → Z.of_nat (length got) ≤ mx → next_block s0 ≤ p < nx →
  (∀ p' m' mx' nx', Z.of_nat (length got + m') = mx' + 1 → 0 < mx' ≤ 2 ^ 30 → Z.of_nat (length got) < mx' →
    next_block s0 ≤ p' < nx' → Q (p', mx') (scanning s0 p' (filled_block got m') nx' inp)) →
  wp (if mx <=? Z.of_nat (length got) then
        maxslen ← int_mul mx STRSCAN_STR_LEN_GROW_FACTOR;
        n ← int_add maxslen 1;
        s ← realloc_chars p n;
        mret (s, maxslen)
      else mret (p, mx)) Q (scanning s0 p (filled_block got m) nx inp).
Proof.
  intros Hok Hfa Hlen Hm Hmx Hgot Hp HQ. change (2 ^ 29) with 536870912 in *. change (2 ^ 30) with 1073741824 in *.
  destruct (Z.leb_spec mx (Z.of_nat (length got))) as [Hle|Hlt]; [|apply wp_ret, HQ; lia].
  unfold STRSCAN_STR_LEN_GROW_FACTOR. apply wp_bind. wp_step. apply wp_bind. wp_step.
  apply wp_bind, wp_bind, wp_get. cbn [strings scanning set_strings].
  rewrite lookup_insert_eq. apply wp_bind, wp_new_block; [done|]. cbn [next_block scanning set_strings set_next].
  apply wp_bind, wp_modify, wp_ret, wp_ret.
  rewrite filled_grow. set (m' := (m + _)%nat).
  match goal with |- Q _ ?st => assert (st = scanning s0 nx (filled_block got m') (nx + 1) inp) as -> end.
  { unfold scanning, set_strings, set_next, set_input. cbn. f_equal.
    rewrite delete_insert_id; [done|]. apply fresh_string; [done|lia]. }
  apply HQ; unfold m'; lia.
Qed.

(** A character is read into it. *)
Lemma wp_read_key s0 got p m nx c inp (Q : Z → sh → Prop) :
  Q 1 (scanning s0 p (filled_block (got ++ [c]) m) nx inp) →
  wp (read_key p (Z.of_nat (length got))) Q (scanning s0 p (filled_block got (S m)) nx (Key c :: inp)).
Proof.
  intros HQ. apply wp_bind, wp_get. cbn [stdin scanning set_strings set_next set_input].
  apply wp_bind, wp_modify, wp_bind. eapply (wp_set_char p (length got)).
  - cbn. by rewrite lookup_insert_eq.
  - rewrite filled_block_length. lia.
  - rewrite filled_write. apply wp_ret. revert HQ. unfold scanning, set_strings, set_next, set_input. cbn.
    by rewrite insert_insert_eq.
Qed.

Lemma wp_scan_loop s0 line rest (Q : Z → sh → Prop) :
  heap_ok s0 → faults s0 = [] → NEWLINE ∉ line → Z.of_nat (length line) < 2 ^ 29 →
  (∀ p' nx' n, next_block s0 ≤ p' < nx' →
    Q p' (scanning s0 p' (string_block line (replicate n None)) nx' rest)) →
  ∀ todo got fuel p m mx nx,
  line = got ++ todo → (length todo < fuel)%nat →
  Z.of_nat (length got + m) = mx + 1 → 0 < mx ≤ 2 ^ 30 → Z.of_nat (length got) ≤ mx →
  next_block s0 ≤ p < nx →
  wp (iter fuel strscan_round (p, Z.of_nat (length got), mx)) Q
    (scanning s0 p (filled_block got m) nx ((Key <$> todo) ++ Key NEWLINE :: rest)).
Proof.
  intros Hok Hfa Hnl Hlen HQ todo. change (2 ^ 29) with 536870912 in *.
  induction todo as [|c todo IH]; intros got fuel p m mx nx Hline Hfuel Hm Hmx Hgot Hp;
    (destruct fuel as [|fuel]; [cbn in Hfuel; lia|]); apply wp_bind, wp_bind;
    (assert (Z.of_nat (length got) < 536870912) by (rewrite Hline, length_app in Hlen; lia));
    (apply wp_grow_line; [done..|]); intros p' m' mx' nx' Hm' Hmx' Hgot' Hp';
    (destruct m' as [|m']; [lia|]); apply wp_bind, wp_read_key; cbn [Z.ltb Z.compare];
    apply wp_bind; wp_step; apply wp_bind; wp_step; apply wp_bind;
    replace (Z.of_nat (length got) + 1 - 1) with (Z.of_nat (length got)) by lia.
  - eapply (wp_char_at p' (length got)); [cbn; by rewrite lookup_insert_eq|apply filled_last|].
    rewrite bool_decide_true by done. apply wp_bind.
    eapply (wp_set_char p' (length got)); [cbn; by rewrite lookup_insert_eq|rewrite filled_block_length, length_app; cbn; lia|].
    apply wp_ret, wp_ret. rewrite filled_end. rewrite app_nil_r in Hline. subst got.
    match goal with |- Q _ ?st => assert (st = scanning s0 p' (string_block line (replicate m' None)) nx' rest) as ->; [|by apply HQ] end.
    unfold scanning, set_strings, set_next, set_input. cbn. by rewrite insert_insert_eq.
  - eapply (wp_char_at p' (length got)); [cbn; by rewrite lookup_insert_eq|apply filled_last|].
    rewrite bool_decide_false; last first.
    { intros ->. apply Hnl. rewrite Hline. apply elem_of_app. right. by left. }
    apply wp_ret. replace (Z.of_nat (length got) + 1) with (Z.of_nat (length (got ++ [c]))) by (rewrite length_app; cbn; lia).
    apply IH; [by rewrite <- app_assoc|cbn in Hfuel; lia| |done| |done]; rewrite length_app; cbn [length]; lia.
Qed.

Lemma wp_strscan s line rest fuel (Q : Z → sh → Prop) :
  heap_ok s → faults s = [] → NEWLINE ∉ line → Z.of_nat (length line) < 2 ^ 29 →
  stdin s = (Key <$> line) ++ Key NEWLINE :: rest → (length line < fuel)%nat →
  (∀ p nx n, next_block s ≤ p < nx → Q p (scanning s p (string_block line (replicate n None)) nx rest)) →
  wp (strscan fuel) Q s.
Proof.
  intros Hok Hfa Hnl Hlen Hin Hf HQ. apply wp_bind, wp_bind, wp_new_block; [done|].
  apply wp_bind, wp_modify, wp_ret.
  match goal with |- wp _ _ ?st => assert (st = scanning s (next_block s) (filled_block [] 65) (next_block s + 1)
    ((Key <$> line) ++ Key NEWLINE :: rest)) as -> end.
  { rewrite <- Hin. by destruct s. }
  apply (wp_scan_loop s line rest Q Hok Hfa Hnl Hlen HQ line []); try done; cbn; lia.
Qed.

(** At the end of the input [read] stores nothing, and the cell that is looked at
    next was never written. *)
Lemma strscan_eof s fuel : heap_ok s → faults s = [] → stdin s = [] → strscan (S fuel) s = UB.
Proof.
  intros Hok Hfa Hin. destruct s as [st ar nb fa si so ok fo wa ch ca]. cbn in Hfa, Hin. subst fa si.
  unfold strscan. eapply run_bind_eq; [reflexivity|]. apply run_iter_ub. unfold strscan_round.
  do 4 (eapply run_bind_eq; [reflexivity|]; cbv beta iota). apply run_bind_ub. eapply run_bind_eq; [reflexivity|].
  cbn [strings set_strings set_next]. by rewrite lookup_insert_eq.
Qed.

(** ** strlen and strcmp *)
Lemma wp_strlen p l r fuel (Q : Z → sh → Prop) s :
  strings s !! p = Some (string_block l r) → NUL ∉ l → (length l < fuel)%nat → Z.of_nat (length l) ≤ INT_MAX →
  Q (Z.of_nat (length l)) s → wp (strlen fuel p) Q s.
Proof.
  intros Hp Hn Hf Hmax HQ.
  apply (wp_iter_idx (λ k n s', s' = s ∧ ∃ i, n = Z.of_nat i ∧ (i + k = length l)%nat)) with (k := length l);
    [|split; [done|by exists 0%nat]|done].
  intros k n s' (-> & i & -> & Hi). apply wp_bind. destruct k as [|k].
  - assert (i = length l) as -> by lia. eapply wp_char_at; [done|apply string_end|].
    rewrite bool_decide_true by done. by apply wp_ret.
  - destruct (lookup_lt_is_Some_2 l i) as [c Hc]; [lia|]. eapply wp_char_at; [done|by apply string_char|].
    rewrite bool_decide_false by (intros ->; apply Hn; by eapply list_elem_of_lookup_2).
    cbn [negb]. apply wp_bind. wp_step. apply wp_ret. exists k. split; [lia|]. split; [done|]. exists (S i). lia.
Qed.

(** The result is 0 exactly when the strings are equal. *)
Lemma wp_strcmp p l r w fuel (Q : Z → sh → Prop) s :
  strings s !! p = Some (string_block l r) → NUL ∉ l → NUL ∉ w → (length l < fuel)%nat →
  (∀ z, (z = 0 ↔ l = w) → Q z s) → wp (strcmp fuel p w) Q s.
Proof.
  intros Hp Hn Hw Hf HQ.
  apply (wp_iter_idx (λ k n s', s' = s ∧ ∃ i, n = Z.of_nat i ∧ (i + k = length l)%nat ∧ take i l = take i w ∧ (i ≤ length w)%nat))
    with (k := length l); [|split; [done|exists 0%nat; split_and!; [done|done|done|lia]]|done].
  intros k n s' (-> & i & -> & Hi & Ht & Hiw). apply wp_bind.
  assert (Hlen : length (take i l) = i) by (rewrite length_take; lia).
  assert (Hw' : (w ++ [NUL]) !! i = Some (default NUL (w !! i))).
  { destruct (decide (i < length w)%nat) as [Hlt|Hge].
    - rewrite lookup_app_l by done. by destruct (lookup_lt_is_Some_2 w i Hlt) as [c ->].
    - assert (i = length w) as -> by lia. rewrite lookup_app_r, Nat.sub_diag by lia.
      by rewrite (lookup_ge_None_2 w) by lia. }
  assert (Hl' : string_block l r !! i = Some (Some (default NUL (l !! i)))).
  { destruct (decide (i < length l)%nat) as [Hlt|Hge].
    - destruct (lookup_lt_is_Some_2 l i Hlt) as [c Hc]. rewrite Hc. by apply string_char.
    - assert (i = length l) as -> by lia. rewrite string_end. by rewrite (lookup_ge_None_2 l) by lia. }
  eapply wp_char_at; [done|exact Hl'|]. rewrite Nat2Z.id, Hw'.
  assert (Hinj : ∀ a b : ascii, code a - code b = 0 → a = b).
  { intros a b Hab. unfold code in Hab. rewrite <- (ascii_N_embedding a), <- (ascii_N_embedding b). f_equal. lia. }
  destruct (decide (l !! i = w !! i)) as [He|Hne].
  - rewrite <- He. destruct (l !! i) as [c|] eqn:Hc; cbn [default].
    + assert (c ≠ NUL) by (intros ->; apply Hn; by eapply list_elem_of_lookup_2).
      rewrite bool_decide_false, bool_decide_true by done. apply wp_ret. symmetry in He.
      pose proof (lookup_lt_Some _ _ _ Hc). pose proof (lookup_lt_Some _ _ _ He).
      exists (k - 1)%nat. split; [lia|]. split; [done|]. exists (S i). split_and!; [lia|lia| |lia].
      by rewrite (take_S_r _ _ _ Hc), (take_S_r _ _ _ He), Ht.
    + rewrite bool_decide_true by done. apply wp_ret, HQ. split; [intros _|done].
      symmetry in He. apply lookup_ge_None_1 in Hc, He.
      rewrite <- (take_ge l i), <- (take_ge w i) by done. done.
  - assert (default NUL (l !! i) ≠ default NUL (w !! i)) as Hd.
    { destruct (l !! i) as [a|] eqn:Ha, (w !! i) as [b|] eqn:Hb; cbn; try congruence.
      - intros ->. apply Hn. by eapply list_elem_of_lookup_2.
      - intros <-. apply Hw. by eapply list_elem_of_lookup_2. }
    rewrite (bool_decide_false (_ = default NUL (w !! i))) by done. rewrite andb_false_r. apply wp_ret, HQ.
    split; [by intros ?%Hinj|]. intros ->. done.
Qed.

(** ** strsplit *)
Lemma wp_token_end p l r d i (Q : Z → sh → Prop) s :
  strings s !! p = Some (string_block l r) → (i ≤ length l)%nat → Z.of_nat (length l) ≤ INT_MAX →
  Q (Z.of_nat (i + length (word d (drop i l)))) s →
  wp (token_end p (Z.of_nat (length l)) d (Z.of_nat i)) Q s.
Proof.
  intros Hp Hi Hmax HQ.
  apply (wp_iter_idx (λ k n s', s' = s ∧ ∃ j, n = Z.of_nat j ∧ (j + k = length l)%nat ∧
    (j + length (word d (drop j l)) = i + length (word d (drop i l)))%nat)) with (k := (length l - i)%nat);
    [|split; [done|exists i; split_and!; [done|lia|done]]|lia].
  intros k n s' (-> & j & -> & Hj & Hw).
  destruct (Z.ltb_spec (Z.of_nat j) (Z.of_nat (length l))) as [Hlt|Hge].
  - destruct (lookup_lt_is_Some_2 l j) as [c Hc]; [lia|]. rewrite (drop_S _ _ _ Hc) in Hw. cbn [word] in Hw.
    apply wp_bind. eapply wp_char_at; [done|by apply string_char|].
    destruct (decide (c = d)) as [->|Hne].
    + rewrite bool_decide_true in Hw by done. rewrite bool_decide_true by done. apply wp_ret. cbn in Hw.
      by replace (i + length (word d (drop i l)))%nat with j in HQ by lia.
    + rewrite bool_decide_false in Hw by done. rewrite bool_decide_false by done. apply wp_bind. wp_step. apply wp_ret.
      exists (k - 1)%nat. split; [lia|]. split; [done|]. exists (S j). cbn [length] in Hw. split_and!; [lia|lia|lia].
  - apply wp_ret. assert (j = length l) as -> by lia. rewrite drop_all in Hw. cbn in Hw.
    by replace (i + length (word d (drop i l)))%nat with (length l) in HQ by lia.
Qed.

Lemma wp_copy_token o l r i n (Q : Z → sh → Prop) s :
  heap_ok s → faults s = [] → strings s !! o = Some (string_block l r) →
  (i + n ≤ length l)%nat → Z.of_nat (length l) < INT_MAX →
  Q (next_block s) (set_strings (<[next_block s := string_block (take n (drop i l)) []]> (strings s))
      (set_next (next_block s + 1) s)) →
  wp (copy_token o (Z.of_nat i) (Z.of_nat n)) Q s.
Proof.
  intros Hok Hfa Ho Hn Hmax HQ. set (q := next_block s) in *.
  assert (Hoq : o ≠ q). { apply (proj1 Hok) in Ho. unfold q. lia. }
  apply wp_bind. wp_step. apply wp_bind, wp_bind, wp_new_block; [done|]. apply wp_bind, wp_modify, wp_ret, wp_bind.
  set (copying := λ j, set_strings (<[q := filled_block (take j (drop i l)) (S n - j)]> (strings s)) (set_next (q + 1) s)).
  assert (Hlen : ∀ j, (j ≤ n)%nat → length (take j (drop i l)) = j) by (intros; rewrite length_take, length_drop; lia).
  apply (wp_iter_idx (λ k m s', ∃ j, m = Z.of_nat j ∧ (j + k = n)%nat ∧ s' = copying j)) with (k := n);
    [|exists 0%nat; split_and!; [done|done|]|lia].
  - intros k m s' (j & -> & Hj & ->). destruct (Z.ltb_spec (Z.of_nat j) (Z.of_nat n)) as [Hlt|Hge].
    + destruct (lookup_lt_is_Some_2 l (i + j)) as [c Hc]; [lia|].
      apply wp_bind. wp_step. apply wp_bind. replace (Z.of_nat i + Z.of_nat j) with (Z.of_nat (i + j)) by lia.
      eapply wp_char_at; [cbn; by rewrite lookup_insert_ne|by apply string_char|].
      apply wp_bind. eapply (wp_set_char q j); [cbn; by rewrite lookup_insert_eq|rewrite filled_block_length, Hlen; lia|].
      apply wp_bind. wp_step. apply wp_ret. exists (k - 1)%nat. split; [lia|]. exists (S j). split_and!; [lia|lia|].
      unfold copying, set_strings, set_next. cbn. rewrite insert_insert_eq. f_equal. f_equal.
      replace (S n - j)%nat with (S (n - j)) by lia. rewrite <- (Hlen j) at 1 by lia. rewrite filled_write.
      f_equal. symmetry. apply take_S_r. by rewrite lookup_drop.
    + assert (j = n) as -> by lia. apply wp_ret, wp_bind.
      eapply (wp_set_char q n); [cbn; by rewrite lookup_insert_eq|rewrite filled_block_length, Hlen; lia|].
      apply wp_ret. unfold copying. replace (S n - n)%nat with 1%nat by lia. rewrite <- (Hlen n) at 1 by lia.
      rewrite filled_write. revert HQ. unfold set_strings, set_next. cbn. rewrite insert_insert_eq.
      unfold filled_block, string_block. by rewrite fmap_app, app_nil_r.
  - unfold copying, set_strings, set_next. cbn. f_equal. f_equal. unfold filled_block. cbn.
    replace (Z.to_nat (Z.of_nat n + 1)) with (S n) by lia. done.
Qed.

(** The memory with the words [ws] in the blocks [ps]. *)
Fixpoint put_words (h : gmap Z (list (option ascii))) (ps : list Z) (ws : list (list ascii)) :
    gmap Z (list (option ascii)) :=
  match ps, ws with
  | p :: ps, w :: ws => <[p := string_block w []]> (put_words h ps ws)
  | _, _ => h
  end.

Lemma put_words_other h ps ws p : p ∉ ps → put_words h ps ws !! p = h !! p.
Proof.
  revert ws. induction ps as [|q ps IH]; intros [|w ws] Hp; try done. cbn.
  apply not_elem_of_cons in Hp as [Hpq Hp]. rewrite lookup_insert_ne by done. by apply IH.
Qed.

Lemma put_words_snoc h ps ws p w : p ∉ ps → length ps = length ws →
  put_words h (ps ++ [p]) (ws ++ [w]) = <[p := string_block w []]> (put_words h ps ws).
Proof.
  revert ws. induction ps as [|q ps IH]; intros [|v ws] Hp Hl; try done. cbn.
  apply not_elem_of_cons in Hp as [Hpq Hp]. rewrite IH by (done || by injection Hl). by apply insert_insert_ne.
Qed.

Lemma put_words_at h ps ws i p w : NoDup ps → ps !! i = Some p → ws !! i = Some w →
  put_words h ps ws !! p = Some (string_block w []).
Proof.
  revert ws i. induction ps as [|q ps IH]; intros [|v ws] [|i] Hd Hp Hw; try done; cbn in *; apply NoDup_cons in Hd as [Hq Hd].
  - injection Hp as ->. injection Hw as ->. by rewrite lookup_insert_eq.
  - rewrite lookup_insert_ne; [by eapply IH|]. intros ->. apply Hq. by eapply list_elem_of_lookup_2.
Qed.

(** The state while the line is split: the strings [h], and an array [a] with the
    pointers [ps] and room for [m] more. *)
Definition splitting (s0 : sh) (a : Z) (ps : list Z) (m : nat) (h : gmap Z (list (option ascii))) (nx : Z) : sh :=
  set_strings h
    (set_arrays (<[a := ((λ p, Some (Some p)) <$> ps) ++ replicate m None]> (arrays s0)) (set_next nx s0)).

(** The new strings. *)
Record words_at (s0 : sh) (ps : list Z) (ws : list (list ascii)) (nx : Z) : Prop := {
  wa_len : length ps = length ws;
  wa_nodup : NoDup ps;
  wa_fresh : Forall (λ p, next_block s0 ≤ p < nx) ps
}.

Lemma words_at_notin s0 ps ws nx p : words_at s0 ps ws nx → p < next_block s0 ∨ nx ≤ p → p ∉ ps.
Proof. intros [_ _ Hp] Hlt Hin. rewrite Forall_forall in Hp. apply Hp in Hin. lia. Qed.

Lemma words_at_snoc s0 ps ws nx w nx' :
  words_at s0 ps ws nx → next_block s0 ≤ nx < nx' → words_at s0 (ps ++ [nx]) (ws ++ [w]) nx'.
Proof.
  intros Hw Hnx. pose proof (words_at_notin _ _ _ _ nx Hw ltac:(lia)) as Hn. destruct Hw as [Hl Hd Hp]. split.
  - rewrite !length_app, Hl. done.
  - apply NoDup_app. split; [done|]. split; [|apply NoDup_singleton].
    intros x Hx ->%list_elem_of_singleton. done.
  - apply Forall_app. split; [eapply Forall_impl; [done|]; cbn; lia|]. by constructor; [lia|].
Qed.

Lemma splitting_heap s0 a ps m ws nx :
  heap_ok s0 → words_at s0 ps ws nx → next_block s0 ≤ a < nx →
  heap_ok (splitting s0 a ps m (put_words (strings s0) ps ws) nx).
Proof.
  intros Hok Hw Ha. split; intros q b Hq; cbn in *.
  - destruct (decide (q < nx)) as [|Hge]; [done|].
    rewrite put_words_other in Hq by (eapply words_at_notin; [done|lia]). apply (proj1 Hok) in Hq. lia.
  - destruct (decide (q = a)) as [->|Hne]; [lia|]. rewrite lookup_insert_ne in Hq by done.
    apply (proj2 Hok) in Hq. lia.
Qed.

(** The array has room for one more pointer. *)
Lemma wp_grow_array s0 a ps m h nx mx (Q : Z * Z → sh → Prop) :
  heap_ok s0 → faults s0 = [] → next_block s0 ≤ a < nx → Z.of_nat (length ps) < 2 ^ 29 →
  Z.of_nat (length ps + m) = mx + 1 → 0 < mx ≤ 2 ^ 30 → Z.of_nat (length ps) ≤ mx →
  (∀ a' m' mx' nx', next_block s0 ≤ a' < nx' → nx ≤ nx' → Z.of_nat (length ps + m') = mx' + 1 →
    0 < mx' ≤ 2 ^ 30 → Z.of_nat (length ps) < mx' → Q (a', mx') (splitting s0 a' ps m' h nx')) →
  wp (if mx <=? Z.of_nat (length ps) then
        maxstrarraylen ← int_mul mx STRSPLIT_STR_ARRAY_LEN_GROW_FACTOR;
        n ← int_add maxstrarraylen 1;
        strarray ← realloc_ptrs a n;
        mret (strarray, maxstrarraylen)
      else mret (a, mx)) Q (splitting s0 a ps m h nx).
Proof.
  intros Hok Hfa Ha Hlen Hm Hmx Hle HQ. change (2 ^ 29) with 536870912 in *. change (2 ^ 30) with 1073741824 in *.
  destruct (Z.leb_spec mx (Z.of_nat (length ps))) as [Hge|Hlt]; [|apply wp_ret, HQ; lia].
  unfold STRSPLIT_STR_ARRAY_LEN_GROW_FACTOR. apply wp_bind. wp_step. apply wp_bind. wp_step.
  apply wp_bind, wp_bind, wp_get. cbn [arrays splitting set_strings set_arrays].
  rewrite lookup_insert_eq. apply wp_bind, wp_new_block; [done|]. cbn [next_block splitting set_strings set_next set_arrays].
  apply wp_bind, wp_modify, wp_ret, wp_ret.
  rewrite <- app_assoc, <- replicate_add, length_app, length_fmap, length_replicate. set (m' := (m + _)%nat).
  match goal with |- Q _ ?st => assert (st = splitting s0 nx ps m' h (nx + 1)) as -> end.
  { unfold splitting, set_strings, set_next, set_arrays. cbn. f_equal.
    rewrite delete_insert_id; [done|]. apply fresh_array; [done|lia]. }
  apply HQ; unfold m'; lia.
Qed.

(** A pointer is stored behind the others. *)
Lemma wp_store_ptr s0 a ps m h nx q (Q : () → sh → Prop) :
  Q () (splitting s0 a (ps ++ [q]) m h nx) →
  wp (set_ptr a (Z.of_nat (length ps)) (Some q)) Q (splitting s0 a ps (S m) h nx).
Proof.
  intros HQ. eapply wp_set_ptr; [cbn; by rewrite lookup_insert_eq|rewrite length_app, length_fmap; cbn; lia|].
  revert HQ. unfold splitting, set_arrays, set_strings, set_next. cbn.
  rewrite fmap_app. cbn [fmap list_fmap].
  rewrite <- (length_fmap (λ p, Some (Some p)) ps), insert_mid, insert_insert_eq, <- app_assoc. done.
Qed.

Lemma wp_split_loop s0 o l r d (Q : Z * Z → sh → Prop) :
  heap_ok s0 → faults s0 = [] → strings s0 !! o = Some (string_block l r) → Z.of_nat (length l) < 2 ^ 29 →
  (∀ a ps m nx, words_at s0 ps (words d l) nx → next_block s0 ≤ a < nx → (0 < m)%nat →
    Q (a, Z.of_nat (length ps)) (splitting s0 a ps m (put_words (strings s0) ps (words d l)) nx)) →
  ∀ k i fuel a ps ws m mx nx,
  (i + k = length l)%nat → (k < fuel)%nat → words d l = ws ++ words d (drop i l) →
  words_at s0 ps ws nx → next_block s0 ≤ a < nx → (length ps ≤ i)%nat →
  Z.of_nat (length ps + m) = mx + 1 → 0 < mx ≤ 2 ^ 30 → Z.of_nat (length ps) ≤ mx →
  wp (iter fuel (strsplit_round o (Z.of_nat (length l)) d) (a, Z.of_nat (length ps), mx, Z.of_nat i)) Q
    (splitting s0 a ps m (put_words (strings s0) ps ws) nx).
Proof.
  intros Hok Hfa Ho Hlen HQ k. induction (lt_wf k) as [k _ IH].
  intros i fuel a ps ws m mx nx Hik Hfuel Hws Hwa Ha Hpi Hm Hmx Hle. change (2 ^ 29) with 536870912 in *.
  destruct fuel as [|fuel]; [lia|]. apply wp_bind. unfold strsplit_round.
  assert (Ho' : put_words (strings s0) ps ws !! o = Some (string_block l r)).
  { rewrite put_words_other; [done|]. eapply words_at_notin; [done|]. apply (proj1 Hok) in Ho. lia. }
  destruct (Z.ltb_spec (Z.of_nat i) (Z.of_nat (length l))) as [Hlt|Hge]; last first.
  { apply wp_ret, wp_ret. assert (i = length l) as -> by lia. rewrite drop_all in Hws. cbn in Hws.
    rewrite app_nil_r in Hws. rewrite <- Hws. rewrite <- Hws in Hwa. apply HQ; [done|done|lia]. }
  destruct (lookup_lt_is_Some_2 l i) as [c Hc]; [lia|]. pose proof (drop_S _ _ _ Hc) as Hdr.
  apply wp_bind. eapply wp_char_at; [exact Ho'|by apply string_char|].
  destruct (decide (c = d)) as [->|Hne].
  - rewrite bool_decide_true by done. apply wp_bind. wp_step. apply wp_ret.
    replace (Z.of_nat i + 1) with (Z.of_nat (S i)) by lia.
    apply (IH (k - 1)%nat); try done; try lia. by rewrite Hws, Hdr, words_skip.
  - rewrite bool_decide_false by done. set (w := word d (drop i l)).
    assert (Hwl : (0 < length w)%nat ∧ (i + length w ≤ length l)%nat).
    { unfold w. pose proof (word_length d (drop i l)) as Hw. rewrite length_drop in Hw. split; [|lia].
      rewrite Hdr. cbn [word]. rewrite bool_decide_false by done. cbn. lia. }
    apply wp_bind. eapply wp_token_end; [exact Ho'|lia|lia|]. fold w. apply wp_bind. wp_step. apply wp_bind.
    replace (Z.of_nat (i + length w) - Z.of_nat i) with (Z.of_nat (length w)) by lia.
    eapply wp_copy_token; [by apply splitting_heap|done|exact Ho'|lia|lia|].
    cbn [next_block splitting set_strings set_arrays set_next].
    assert (take (length w) (drop i l) = w) as -> by apply word_take.
    change (set_strings _ _) with (splitting s0 a ps m (<[nx := string_block w []]> (put_words (strings s0) ps ws)) (nx + 1)).
    rewrite <- put_words_snoc by (apply Hwa || (eapply words_at_notin; [exact Hwa|lia])).
    apply wp_bind, wp_grow_array; [done|done|lia|lia|done|done|done|].
    intros a' m' mx' nx' Ha' Hnx' Hm' Hmx' Hlt'. destruct m' as [|m']; [lia|].
    apply wp_bind, wp_store_ptr, wp_bind. wp_step. apply wp_ret.
    replace (Z.of_nat (length ps) + 1) with (Z.of_nat (length (ps ++ [nx]))) by (rewrite length_app; cbn; lia).
    apply (IH (k - length w)%nat); try (rewrite ?length_app; cbn [length]; done || lia).
    + rewrite <- app_assoc. cbn [app]. rewrite Hws. f_equal. rewrite Hdr, words_word, <- Hdr by done. fold w.
      f_equal. by rewrite drop_drop.
    + apply words_at_snoc; [done|lia].
Qed.

Lemma words_count d l : (length (words d l) ≤ length l)%nat.
Proof.
  remember (length l) as n eqn:Hn. revert l Hn. induction (lt_wf n) as [n _ IH]. intros l ->.
  destruct l as [|c l]; [done|]. destruct (decide (c = d)) as [->|Hc].
  - rewrite words_skip. specialize (IH (length l) ltac:(cbn [length]; lia) l eq_refl). cbn. lia.
  - rewrite words_word by done. cbn [length]. set (r := drop _ _).
    assert (length r ≤ length l)%nat.
    { unfold r. rewrite length_drop. cbn [word]. rewrite bool_decide_false by done. cbn. lia. }
    specialize (IH (length r) ltac:(cbn [length]; lia) r eq_refl). lia.
Qed.

(** The array that [strsplit] returns. *)
Definition array_block (ps : list Z) (r : list (option (option Z))) : list (option (option Z)) :=
  ((λ p, Some (Some p)) <$> ps) ++ Some None :: r.

Definition split_result (s0 : sh) (a : Z) (ps : list Z) (r : list (option (option Z)))
    (ws : list (list ascii)) (nx : Z) : sh :=
  set_strings (put_words (strings s0) ps ws)
    (set_arrays (<[a := array_block ps r]> (arrays s0)) (set_next nx s0)).

Lemma wp_strsplit s o l r d fuel (Q : Z → sh → Prop) :
  heap_ok s → faults s = [] → strings s !! o = Some (string_block l r) → NUL ∉ l →
  Z.of_nat (length l) < 2 ^ 29 → (length l < fuel)%nat →
  (∀ a ps m nx, words_at s ps (words d l) nx → next_block s ≤ a < nx →
    Q a (split_result s a ps (replicate m None) (words d l) nx)) →
  wp (strsplit fuel o d) Q s.
Proof.
  intros Hok Hfa Ho Hn Hlen Hf HQ. apply wp_bind. pose proof Hlen as Hlen'. change (2 ^ 29) with 536870912 in Hlen'.
  eapply wp_strlen; [done..|lia|]. apply wp_bind, wp_bind, wp_new_block; [done|]. apply wp_bind, wp_modify, wp_ret, wp_bind.
  rewrite Nat2Z.id.
  match goal with |- wp _ _ ?st => assert (st = splitting s (next_block s) [] 2
    (put_words (strings s) [] []) (next_block s + 1)) as -> by (by destruct s) end.
  change 0 with (Z.of_nat (length (@nil Z))) at 1.
  apply (wp_split_loop s o l r d _ Hok Hfa Ho Hlen) with (k := length l) (i := 0%nat); try done; try (cbn; lia).
  - intros a ps m nx Hw Ha Hm. apply wp_bind. destruct m as [|m]; [lia|].
    eapply wp_set_ptr; [cbn; by rewrite lookup_insert_eq|rewrite length_app, length_fmap; cbn; lia|].
    apply wp_ret. specialize (HQ a ps m nx Hw Ha). revert HQ.
    unfold split_result, splitting, array_block, set_arrays, set_strings, set_next. cbn.
    by rewrite <- (length_fmap (λ p, Some (Some p)) ps), insert_mid, insert_insert_eq.
  - split; [done|apply NoDup_nil_2|constructor].
Qed.

(** ** freestrarray *)
Lemma wp_freestrarray s h ar a ps r ws fuel (Q : () → sh → Prop) :
  strings s = put_words h ps ws → arrays s = <[a := array_block ps r]> ar → ar !! a = None →
  NoDup ps → length ps = length ws → (∀ p, p ∈ ps → h !! p = None) → (length ps < fuel)%nat →
  Q () (set_arrays ar (set_strings h s)) → wp (freestrarray fuel a) Q s.
Proof.
  intros Hs Ha Har Hd Hl Hh Hf HQ. apply wp_bind.
  apply (wp_iter_idx (λ k n s', ∃ i, n = Z.of_nat i ∧ (i + k = length ps)%nat ∧
    s' = set_strings (put_words h (drop i ps) (drop i ws)) s)) with (k := length ps);
    [|exists 0%nat; split_and!; [done|done|rewrite !drop_0, <- Hs; by destruct s]|done].
  intros k n s' (i & -> & Hi & ->). apply wp_bind. destruct k as [|k].
  - eapply (wp_ptr_at a i _ None); [cbn; rewrite Ha; by rewrite lookup_insert_eq| |].
    { unfold array_block. rewrite lookup_app_r by (rewrite length_fmap; lia). rewrite length_fmap.
      by replace (i - length ps)%nat with 0%nat by lia. }
    apply wp_ret, wp_bind, wp_get. rewrite !drop_ge by lia. cbn [arrays set_strings]. rewrite Ha, lookup_insert_eq.
    apply wp_modify. revert HQ. unfold set_arrays, set_strings. cbn. rewrite Ha, delete_insert_id by done. done.
  - destruct (lookup_lt_is_Some_2 ps i) as [p Hp]; [lia|]. destruct (lookup_lt_is_Some_2 ws i) as [w Hw]; [lia|].
    eapply (wp_ptr_at a i _ (Some p)); [cbn; rewrite Ha; by rewrite lookup_insert_eq| |].
    { unfold array_block. rewrite lookup_app_l by (rewrite length_fmap; lia). by rewrite list_lookup_fmap, Hp. }
    assert (Hnp : p ∉ drop (S i) ps).
    { rewrite <- (take_drop i ps) in Hd. apply NoDup_app in Hd as (_ & _ & Hd).
      rewrite (drop_S _ _ _ Hp) in Hd. by apply NoDup_cons in Hd as [? _]. }
    apply wp_bind, wp_bind, wp_get. rewrite (drop_S _ _ _ Hp), (drop_S _ _ _ Hw). cbn [strings set_strings put_words].
    rewrite lookup_insert_eq. apply wp_modify, wp_ret. exists k. split; [lia|]. exists (S i). split_and!; [lia|lia|].
    unfold set_strings. cbn. f_equal. apply delete_insert_id. rewrite put_words_other by done.
    apply Hh. by eapply list_elem_of_lookup_2.
Qed.

(** ** A round of the shell *)

(** A line that the shell can read. *)
Record typed_line (s : sh) (line : list ascii) (rest : list input) (fuel : nat) : Prop := {
  tl_heap : heap_ok s;
  tl_faults : faults s = [];
  tl_out : stdout_ok s = true;
  tl_input : stdin s = (Key <$> line) ++ Key NEWLINE :: rest;
  tl_chars : NUL ∉ line ∧ NEWLINE ∉ line;
  tl_length : Z.of_nat (length line) < 2 ^ 29;
  tl_fuel : (length line < fuel)%nat
}.

(** The state after the line was read into [p] and split into the words [ps]. *)
Definition parsed (s : sh) (p : Z) (b : list (option ascii)) (a : Z) (ps : list Z)
    (r : list (option (option Z))) (line : list ascii) (nx : Z) (rest : list input) : sh :=
  Sh (put_words (<[p := b]> (strings s)) ps (words SPACE line)) (<[a := array_block ps r]> (arrays s)) nx
    (faults s) rest (stdout s ++ CMD_PROMPT) (stdout_ok s) (forks s) (waits s) (childpid s) (calls s).

Record parsed_ok (s : sh) (p a : Z) (ps : list Z) (line : list ascii) (nx : Z) : Prop := {
  pk_string : next_block s ≤ p;
  pk_array : next_block s ≤ a < nx;
  pk_words : length ps = length (words SPACE line) ∧ NoDup ps ∧ ∀ q, q ∈ ps → next_block s ≤ q ∧ q ≠ p
}.

Lemma wp_front {B} s line rest fuel (k : Z → Z → C sh B) (Q : B → sh → Prop) :
  typed_line s line rest fuel →
  (∀ p a ps n m nx, parsed_ok s p a ps line nx →
    wp (k p a) Q (parsed s p (string_block line (replicate n None)) a ps (replicate m None) line nx rest)) →
  wp (strprint CMD_PROMPT;; cmd ← strscan fuel; cmdargv ← strsplit fuel cmd SPACE; k cmd cmdargv) Q s.
Proof.
  intros [Hok Hfa Hout Hin [Hn Hnl] Hlen Hf] HQ. apply wp_bind, wp_bind, wp_get. rewrite Hout. apply wp_modify, wp_bind.
  set (s1 := add_output CMD_PROMPT s). apply (wp_strscan s1 line rest); [exact Hok|done..|].
  intros p nx n Hp. apply wp_bind. set (s2 := scanning s1 p _ nx rest).
  assert (Hok2 : heap_ok s2).
  { split; intros q b Hq; cbn in *.
    - destruct (decide (q = p)) as [->|Hne]; [lia|]. rewrite lookup_insert_ne in Hq by done. apply (proj1 Hok) in Hq. lia.
    - apply (proj2 Hok) in Hq. lia. }
  apply (wp_strsplit s2 p line (replicate n None)); try done.
  { cbn. by rewrite lookup_insert_eq. }
  intros a ps m nx' [Hl Hd Hps] Ha. cbn [next_block s2 scanning set_strings set_next] in Hps, Ha, Hp.
  cbn [next_block s1 add_output] in Hp. apply HQ. split; [lia|cbn [next_block set_arrays set_next]; lia|]. split_and!; [done|done|].
  intros q Hq. rewrite Forall_forall in Hps. apply Hps in Hq. lia.
Qed.

Lemma parsed_first s p b a ps m line nx rest :
  length ps = length (words SPACE line) → NoDup ps →
  wp (ptr_at a 0) (λ x s', s' = parsed s p b a ps (replicate m None) line nx rest ∧
    match words SPACE line with
    | [] => x = None
    | w :: _ => ∃ q, x = Some q ∧ strings s' !! q = Some (string_block w [])
    end) (parsed s p b a ps (replicate m None) line nx rest).
Proof.
  intros Hl Hd. change 0 with (Z.of_nat 0).
  eapply wp_ptr_at with (x := ps !! 0%nat); [cbn; by rewrite lookup_insert_eq|by destruct ps|].
  split; [done|]. unfold parsed. cbn [strings]. destruct (words SPACE line) as [|w ws] eqn:Hw, ps as [|q ps]; try done.
  exists q. split; [done|]. cbn. by rewrite lookup_insert_eq.
Qed.

(** The programs that are run find their arguments. *)
Lemma pointers_array ps r : pointers (array_block ps r) = ps.
Proof. induction ps as [|p ps IH]; [done|]. change (p :: pointers (array_block ps r) = p :: ps). by rewrite IH. Qed.

Lemma string_at_block h p w : NUL ∉ w → h !! p = Some (string_block w []) → string_at h p = w.
Proof.
  intros Hw Hp. unfold string_at. rewrite Hp. unfold string_block.
  assert (omap id ((Some <$> w) ++ [Some NUL]) = w ++ [NUL]) as ->; [|by apply cstr_app_NUL].
  clear. induction w as [|c w IH]; [done|].
  change (c :: omap id ((Some <$> w) ++ [Some NUL]) = c :: w ++ [NUL]). by rewrite IH.
Qed.

Lemma parsed_argv s p b a ps r line nx rest :
  length ps = length (words SPACE line) → NoDup ps → NUL ∉ line →
  string_at (strings (parsed s p b a ps r line nx rest)) <$>
    pointers (default [] (arrays (parsed s p b a ps r line nx rest) !! a)) = words SPACE line.
Proof.
  intros Hl Hd Hn. cbn [strings arrays parsed]. rewrite lookup_insert_eq. change (default [] (Some (array_block ps r))) with (array_block ps r). rewrite pointers_array.
  apply list_eq. intros i. rewrite list_lookup_fmap. destruct (words SPACE line !! i) as [w|] eqn:Hw.
  - destruct (lookup_lt_is_Some_2 ps i) as [q Hq]; [rewrite Hl; by eapply lookup_lt_Some|]. rewrite Hq. cbn. f_equal.
    apply string_at_block; [|by eapply put_words_at].
    pose proof (words_ok SPACE line) as Hok. rewrite Forall_forall in Hok.
    destruct (Hok w ltac:(by eapply list_elem_of_lookup_2)) as (_ & _ & Hin & _). intros H. by apply Hn, Hin.
  - rewrite (lookup_ge_None_2 ps); [done|]. apply lookup_ge_None_1 in Hw. lia.
Qed.
End memory.

(** ** What a round does *)
Section rounds.
Implicit Types s : sh.

(** The state after a round: the memory, and the calls that were made. *)
Definition after (s : sh) (h : gmap Z (list (option ascii))) (ar : gmap Z (list (option (option Z)))) (nx : Z)
    (rest : list input) (out : list ascii) (fs : list (Z * bool)) (wt : list waiting) (pid : Z) (cs : list call) : sh :=
  Sh h ar nx (faults s) rest (stdout s ++ CMD_PROMPT ++ out) (stdout_ok s) fs wt pid (calls s ++ cs).

(** A blank line: nothing is run, and the line and the empty array stay allocated. *)
Lemma wp_round_blank s line rest fuel timeout (Q : () + Z → sh → Prop) :
  typed_line s line rest fuel → words SPACE line = [] →
  (∀ p a b r nx, strings s !! p = None → arrays s !! a = None →
    Q (inl ()) (after s (<[p := b]> (strings s)) (<[a := r]> (arrays s)) nx rest [] (forks s) (waits s) (childpid s) [])) →
  wp (shell_round fuel timeout) Q s.
Proof.
  intros Ht Hw HQ. apply (wp_front s line rest); [done|]. intros p a ps n m nx [Hp Ha (Hl & Hd & Hps)].
  apply wp_bind. eapply wp_mono; [by apply parsed_first|]. intros x s' [-> Hx]. rewrite Hw in Hx. subst x. apply wp_ret.
  rewrite Hw in Hl. destruct ps; [|done]. unfold parsed. rewrite Hw. cbn [put_words].
  specialize (HQ p a (string_block line (replicate n None)) (array_block [] (replicate m None)) nx).
  unfold after in HQ. rewrite !app_nil_r in HQ. apply HQ.
  - by apply fresh_string; [apply (tl_heap _ _ _ _ Ht)|].
  - apply fresh_array; [apply (tl_heap _ _ _ _ Ht)|lia].
Qed.

(** The first word decides whether the shell ends. *)
Lemma wp_first_word s p b a ps m line nx rest w ws fuel (Q : Z → Z → sh → Prop) :
  words SPACE line = w :: ws → NUL ∉ line → (length line < fuel)%nat →
  length ps = length (words SPACE line) → NoDup ps →
  (∀ q z, (z = 0 ↔ w = chars "exit") → Q q z (parsed s p b a ps (replicate m None) line nx rest)) →
  wp (ptr_at a 0) (λ x s', ∃ q, x = Some q ∧ wp (strcmp fuel q (chars "exit")) (λ z, Q q z) s')
    (parsed s p b a ps (replicate m None) line nx rest).
Proof.
  intros Hw Hn Hf Hl Hd HQ. eapply wp_mono; [by apply parsed_first|]. intros x s' [-> Hx]. rewrite Hw in Hx.
  destruct Hx as (q & -> & Hq). exists q. split; [done|].
  pose proof (words_ok SPACE line) as Hok. rewrite Hw in Hok. apply Forall_cons in Hok as [(_ & _ & Hin & Hlw) _].
  eapply wp_strcmp; [exact Hq| |by apply (bool_decide_unpack _)|lia|].
  - intros HN. by apply Hn, Hin.
  - intros z Hz. by apply HQ.
Qed.

Lemma wp_round_exit s line rest fuel timeout ws (Q : () + Z → sh → Prop) :
  typed_line s line rest fuel → words SPACE line = chars "exit" :: ws →
  (∀ s', calls s' = calls s → stdin s' = rest → stdout s' = stdout s ++ CMD_PROMPT → Q (inr 0) s') →
  wp (shell_round fuel timeout) Q s.
Proof.
  intros Ht Hw HQ. apply (wp_front s line rest); [done|]. intros p a ps n m nx [Hp Ha (Hl & Hd & Hps)].
  apply wp_bind. destruct Ht as [_ _ _ _ [Hn _] _ Hf].
  eapply wp_mono; [eapply (wp_first_word s p _ a ps m line nx rest _ _ fuel
    (λ _ z s', z = 0 ∧ calls s' = calls s ∧ stdin s' = rest ∧ stdout s' = stdout s ++ CMD_PROMPT)); try done|].
  - intros q z Hz. split; [by apply Hz|done].
  - intros x s' (q & -> & Hq). apply wp_bind. eapply wp_mono; [exact Hq|]. intros z s2 (-> & Hc & Hi & Hso).
    cbn [Z.eqb]. apply wp_ret. by apply HQ.
Qed.

(** What the handler of the alarm prints, and the calls while a command is waited
    for: the alarm matters only when a limit was set. *)
Definition told (timeout : Z) (wv : waiting) : list ascii :=
  match wv with
  | AlarmRings _ => if 0 <? timeout then chars "Process timed out" ++ [NEWLINE] else []
  | ChildEnds => []
  end.
Definition killed (timeout pid : Z) (wv : waiting) : list call :=
  match wv with AlarmRings _ => if 0 <? timeout then [CKill pid] else [] | ChildEnds => [] end.

(** A wait that ends: the child has come to its end, or it can be killed. *)
Definition wait_ends (wv : waiting) : Prop := wv ≠ AlarmRings false.

Lemma wp_wait_child timeout wv wt (Q : () → sh → Prop) s :
  waits s = wv :: wt → wait_ends wv → stdout_ok s = true →
  Q () (Sh (strings s) (arrays s) (next_block s) (faults s) (stdin s) (stdout s ++ told timeout wv)
     (stdout_ok s) (forks s) wt (childpid s) (calls s ++ CWait :: killed timeout (childpid s) wv)) →
  wp (wait_child timeout) Q s.
Proof.
  intros Hw Hwv Ho HQ. apply wp_bind, wp_modify, wp_bind, wp_get. cbn [waits add_call]. rewrite Hw.
  unfold told, killed in HQ. destruct wv as [|ok].
  - apply wp_modify. rewrite app_nil_r in HQ. exact HQ.
  - destruct ok; [|done]. apply wp_bind, wp_modify. destruct (0 <? timeout).
    + unfold sighandler. cbn [Z.eqb SIGALRM Pos.eqb].
      apply wp_bind, wp_bind, wp_get. cbn [stdout_ok set_waits add_call]. rewrite Ho.
      apply wp_modify, wp_bind, wp_get, wp_bind, wp_modify, wp_ret. revert HQ.
      unfold add_call, add_output, set_waits. cbn [strings arrays next_block faults stdin stdout stdout_ok forks waits childpid calls].
      by rewrite <- app_assoc.
    + apply wp_ret. rewrite app_nil_r in HQ. exact HQ.
Qed.

Definition run_calls (timeout pid : Z) (wv : waiting) : list call :=
  [CFork pid; CAlarm timeout; CWait] ++ killed timeout pid wv ++ [CAlarm 0].

(** A command: it is forked and waited for, with a time limit, and the memory is
    given back. *)
Lemma wp_round_command s line rest fuel timeout w ws pid ok fs wv wt (Q : () + Z → sh → Prop) :
  typed_line s line rest fuel → words SPACE line = w :: ws → w ≠ chars "exit" →
  forks s = (pid, ok) :: fs → 0 < pid → waits s = wv :: wt → wait_ends wv →
  (∀ nx, next_block s ≤ nx → Q (inl ()) (after s (strings s) (arrays s) nx rest (told timeout wv) fs wt pid
     (run_calls timeout pid wv))) →
  wp (shell_round fuel timeout) Q s.
Proof.
  intros Ht Hw He Hfk Hpid Hwt Hwv HQ. apply (wp_front s line rest); [done|].
  intros p a ps n m nx [Hp Ha (Hl & Hd & Hps)]. apply wp_bind. pose proof Ht as [Hok _ _ _ [Hn _] _ Hf].
  eapply wp_mono; [eapply (wp_first_word s p _ a ps m line nx rest _ _ fuel
    (λ _ z s', z ≠ 0 ∧ s' = parsed s p (string_block line (replicate n None)) a ps (replicate m None) line nx rest)); try done|].
  { intros q z Hz. split; [|done]. intros ->. by apply He, Hz. }
  intros x s' (q & -> & Hq). apply wp_bind. eapply wp_mono; [exact Hq|]. intros z s2 (Hz & ->).
  rewrite (proj2 (Z.eqb_neq _ _) Hz). apply wp_bind, wp_get. cbn [forks parsed]. rewrite Hfk.
  apply wp_bind, wp_modify, wp_bind, wp_modify. rewrite (proj2 (Z.ltb_ge _ _)), (proj2 (Z.eqb_neq _ _)) by lia.
  apply wp_bind, wp_modify, wp_bind, wp_modify, wp_bind.
  eapply wp_wait_child; [exact Hwt|done|apply (tl_out _ _ _ _ Ht)|].
  cbn [strings arrays next_block faults stdin stdout stdout_ok forks waits childpid calls parsed set_forks add_call set_child].
  apply wp_bind, wp_modify, wp_bind, wp_bind, wp_get. cbn [strings add_call].
  rewrite put_words_other by (intros Hin; by apply Hps in Hin as [_ ?]). rewrite lookup_insert_eq. apply wp_modify, wp_bind.
  pose proof (fresh_string s p Hok Hp) as Hfp.
  assert (Hdel : delete p (put_words (<[p := string_block line (replicate n None)]> (strings s)) ps (words SPACE line))
    = put_words (strings s) ps (words SPACE line)).
  { assert (p ∉ ps) as Hpp by (intros Hin; by apply Hps in Hin as [_ ?]). clear -Hpp Hl Hfp. revert Hl.
    generalize (words SPACE line). induction ps as [|q ps IH]; intros [|v vs] Hl; try done; cbn.
    - by apply delete_insert_id.
    - apply not_elem_of_cons in Hpp as [Hpq Hpp]. rewrite delete_insert_ne by done. f_equal. apply IH; [done|by injection Hl]. }
  eapply (wp_freestrarray _ (strings s) (arrays s) a ps (replicate m None) (words SPACE line)); cbn; try done.
  - apply fresh_array; [done|lia].
  - intros q' Hq'. apply fresh_string; [done|]. by apply Hps.
  - rewrite Hl. pose proof (words_count SPACE line). lia.
  - apply wp_ret. specialize (HQ nx ltac:(lia)). unfold after, run_calls in HQ.
    revert HQ. unfold set_arrays, set_strings. cbn. by rewrite <- !app_assoc.
Qed.

(** In the child the program is executed with the words of the line. *)
Lemma exits_round_child s line rest fuel timeout w ws fs :
  typed_line s line rest fuel → words SPACE line = w :: ws → w ≠ chars "exit" → forks s = (0, true) :: fs →
  exits (shell_round fuel timeout) (λ _ s', calls s' = calls s ++ [CFork 0; CExec (words SPACE line)]) s.
Proof.
  intros Ht Hw He Hfk.
  assert (wp (strprint CMD_PROMPT;; cmd ← strscan fuel; cmdargv ← strsplit fuel cmd SPACE; mret (cmd, cmdargv))
    (λ pa s', ∃ ps n m nx, parsed_ok s pa.1 pa.2 ps line nx ∧
      s' = parsed s pa.1 (string_block line (replicate n None)) pa.2 ps (replicate m None) line nx rest) s) as Hfront.
  { apply (wp_front s line rest); [done|]. intros p a ps n m nx Hk. apply wp_ret. by exists ps, n, m, nx. }
  apply wp_bind_inv in Hfront. apply exits_after. eapply wp_mono; [exact Hfront|]. intros [] s1 H1.
  apply wp_bind_inv in H1. apply exits_after. eapply wp_mono; [exact H1|]. intros p s2 H2.
  apply wp_bind_inv in H2. apply exits_after. eapply wp_mono; [exact H2|]. intros a s3 H3.
  destruct H3 as (ps & n & m & nx & [Hp Ha (Hl & Hd & Hps)] & ->). cbn [fst snd] in *.
  apply exits_after. pose proof Ht as [_ _ _ _ [Hn _] _ Hf].
  eapply wp_mono; [eapply (wp_first_word s _ _ _ ps m line nx rest _ _ fuel
    (λ _ z s', z ≠ 0 ∧ s' = parsed s _ (string_block line (replicate n None)) _ ps (replicate m None) line nx rest)); try done|].
  { intros q z Hz. split; [|done]. intros ->. by apply He, Hz. }
  intros x s4 (q & -> & Hq). apply exits_after. eapply wp_mono; [exact Hq|]. intros z s5 (Hz & ->).
  rewrite (proj2 (Z.eqb_neq _ _) Hz). apply exits_after, wp_get. cbn [forks parsed]. rewrite Hfk.
  apply exits_after, wp_modify, exits_after, wp_modify. cbn [Z.ltb Z.eqb Z.compare].
  apply exits_after, wp_get, exits_after, wp_get, exits_after, wp_modify, exits_exit.
  pose proof (parsed_argv s p (string_block line (replicate n None)) a ps (replicate m None) line nx rest Hl Hd Hn) as Hargv.
  revert Hargv. cbn. intros Hargv. rewrite <- app_assoc. cbn [app]. by rewrite Hargv.
Qed.

(** ** A session: commands, then exit *)

(** A line that is a command, not the end of the session. *)
Definition command_line (fuel : nat) (line : list ascii) : Prop :=
  NUL ∉ line ∧ NEWLINE ∉ line ∧ Z.of_nat (length line) < 2 ^ 29 ∧ (length line < fuel)%nat ∧
  ∃ w ws, words SPACE line = w :: ws ∧ w ≠ chars "exit".

Definition typed (lines : list (list ascii)) : list input := Key <$> unlines lines.

Definition command_calls (timeout pid : Z) : list call := [CFork pid; CAlarm timeout; CWait; CAlarm 0].

Lemma typed_cons line lines rest :
  typed (line :: lines) ++ rest = (Key <$> line) ++ Key NEWLINE :: typed lines ++ rest.
Proof. unfold typed, unlines. cbn [fmap list_fmap concat]. by rewrite !fmap_app, <- !app_assoc. Qed.

(** The commands are run one after the other: for each the number that [fork]
    gave and how it was waited for. *)
Definition runs_calls (timeout : Z) (runs : list (Z * waiting)) : list call :=
  concat ((λ r, run_calls timeout r.1 r.2) <$> runs).
Definition runs_output (timeout : Z) (runs : list (Z * waiting)) : list ascii :=
  concat ((λ r, CMD_PROMPT ++ told timeout r.2) <$> runs).
Definition parents (runs : list (Z * waiting)) : list (Z * bool) := (λ r, (r.1, true)) <$> runs.

(** The shell before it reads a line. *)
Record ready (s : sh) (input : list input) (fs : list (Z * bool)) (wt : list waiting) : Prop := {
  rd_heap : heap_ok s;
  rd_faults : faults s = [];
  rd_out : stdout_ok s = true;
  rd_input : stdin s = input;
  rd_forks : forks s = fs;
  rd_waits : waits s = wt
}.

Lemma ready_forks s input fs wt fs' : ready s input fs wt → ready (set_forks fs' s) input fs' wt.
Proof. by intros []. Qed.

(** The rounds of the commands come to their ends, and the shell goes on. *)
Lemma rounds_run s cmds runs rest fuel rounds timeout fs wt :
  ready s (typed cmds ++ rest) (parents runs ++ fs) (runs.*2 ++ wt) →
  Forall (command_line fuel) cmds → length runs = length cmds → Forall (λ r, 0 < r.1 ∧ wait_ends r.2) runs →
  ∃ s', ready s' rest fs wt ∧ calls s' = calls s ++ runs_calls timeout runs ∧
    stdout s' = stdout s ++ runs_output timeout runs ∧
    iter (length cmds + rounds) (λ _ : (), shell_round fuel timeout) () s =
    iter rounds (λ _ : (), shell_round fuel timeout) () s'.
Proof.
  revert runs s. induction cmds as [|line cmds IH]; intros [|[pid wv] runs] s Hs Hcmds Hlen Hruns; try done.
  { exists s. split_and!; [done|by rewrite app_nil_r|by rewrite app_nil_r|done]. }
  apply Forall_cons in Hruns as [[Hpid Hwv] Hruns]. destruct Hs as [Hok Hfa Hout Hin Hfk Hwt].
  apply Forall_cons in Hcmds as [(Hn & Hnl & Hl & Hf & w & ws & Hw & Hne) Hcmds]. rewrite typed_cons in Hin.
  destruct (proj1 (wp_run _ _ _) (wp_round_command s line (typed cmds ++ rest) fuel timeout w ws pid true
    (parents runs ++ fs) wv (runs.*2 ++ wt)
    (λ r s', r = inl () ∧ ∃ nx, next_block s ≤ nx ∧ s' = after s (strings s) (arrays s) nx (typed cmds ++ rest)
      (told timeout wv) (parents runs ++ fs) (runs.*2 ++ wt) pid (run_calls timeout pid wv))
    ltac:(by constructor) Hw Hne Hfk Hpid Hwt Hwv (λ nx Hnx, conj eq_refl (ex_intro _ nx (conj Hnx eq_refl))))) as (r & s1 & Hrun & -> & nx & Hnx & ->).
  destruct (IH runs (after s (strings s) (arrays s) nx (typed cmds ++ rest) (told timeout wv)
    (parents runs ++ fs) (runs.*2 ++ wt) pid (run_calls timeout pid wv))) as (s' & Hs' & Hc & Ho & Hit).
  - constructor; try done. split; intros q b Hq; cbn in *; [apply (proj1 Hok) in Hq|apply (proj2 Hok) in Hq]; lia.
  - done.
  - by injection Hlen.
  - done.
  - exists s'. split; [done|]. split; [rewrite Hc; cbn [calls after]; unfold runs_calls; by rewrite <- app_assoc|].
    split; [rewrite Ho; cbn [stdout after]; unfold runs_output; cbn [fmap list_fmap concat]; by rewrite <- !app_assoc|].
    rewrite <- Hit. exact (run_bind (shell_round fuel timeout) (λ r, match r with
      | inl l' => iter (length cmds + rounds) (λ _ : (), shell_round fuel timeout) l'
      | inr r => mret r end) _ _ _ Hrun).
Qed.

(** The time limit of the command line. *)
Lemma wp_limit prog limit fuel rounds (Q : Z → sh → Prop) s :
  in_int (atoi_Z limit) = true → wp (iter rounds (λ _ : (), shell_round fuel (atoi_Z limit)) ()) Q s →
  wp (shell_main true fuel rounds [prog; limit]) Q s.
Proof.
  intros Hl HQ. unfold shell_main, atoi, chk. rewrite Hl. apply wp_bind, wp_ret. by rewrite andb_false_r.
Qed.

Lemma exits_limit prog limit fuel rounds (E : Z → sh → Prop) s :
  in_int (atoi_Z limit) = true → exits (iter rounds (λ _ : (), shell_round fuel (atoi_Z limit)) ()) E s →
  exits (shell_main true fuel rounds [prog; limit]) E s.
Proof.
  intros Hl HE. unfold shell_main, atoi, chk. rewrite Hl. apply exits_after, wp_ret. by rewrite andb_false_r.
Qed.

(** The commands, then the line that ends the session. *)
Lemma wp_session_end s cmds runs rest fuel rounds timeout ws last fs wt :
  ready s (typed cmds ++ (Key <$> last) ++ Key NEWLINE :: rest) (parents runs ++ fs) (runs.*2 ++ wt) →
  NUL ∉ last ∧ NEWLINE ∉ last → Z.of_nat (length last) < 2 ^ 29 → (length last < fuel)%nat →
  words SPACE last = chars "exit" :: ws →
  Forall (command_line fuel) cmds → length runs = length cmds →
  Forall (λ r, 0 < r.1 ∧ wait_ends r.2) runs → (length cmds < rounds)%nat →
  wp (iter rounds (λ _ : (), shell_round fuel timeout) ())
    (λ r s', r = 0 ∧ stdin s' = rest ∧ calls s' = calls s ++ runs_calls timeout runs ∧
       stdout s' = stdout s ++ runs_output timeout runs ++ CMD_PROMPT) s.
Proof.
  intros Hs Hlast Hll Hlf Hw Hc Hlen Hr Hrounds.
  destruct (rounds_run s cmds runs _ fuel (rounds - length cmds) timeout fs wt Hs Hc Hlen Hr)
    as (s1 & [] & Hcs & Hout & Hit).
  replace (length cmds + (rounds - length cmds))%nat with rounds in Hit by lia.
  unfold wp. rewrite Hit. destruct (rounds - length cmds)%nat as [|n] eqn:En; [lia|].
  apply (wp_bind (shell_round fuel timeout)), (wp_round_exit s1 last rest fuel timeout ws); [by constructor|done|].
  intros s' Hc' Hi' Ho'. apply wp_ret. rewrite Hc', Ho', Hout, Hcs, <- !app_assoc. done.
Qed.

(** The child of the [k]-th command. *)
Lemma exits_session_child s cmds runs rest fuel rounds timeout fs wt k cmd :
  ready s (typed cmds ++ rest) fs (runs.*2 ++ wt) →
  Forall (command_line fuel) cmds → length runs = length cmds →
  Forall (λ r, 0 < r.1 ∧ wait_ends r.2) runs → (length cmds < rounds)%nat → cmds !! k = Some cmd →
  exits (iter rounds (λ _ : (), shell_round fuel timeout) ())
    (λ _ s', calls s' = calls s ++ runs_calls timeout (take k runs) ++ [CFork 0; CExec (words SPACE cmd)])
    (set_forks (parents (take k runs) ++ [(0, true)]) s).
Proof.
  intros Hs Hc Hlen Hr Hrounds Hk. pose proof (lookup_lt_Some _ _ _ Hk) as Hlt.
  assert (Hcmd : command_line fuel cmd) by (by eapply Forall_lookup_1).
  destruct (rounds_run (set_forks (parents (take k runs) ++ [(0, true)]) s) (take k cmds) (take k runs)
    (typed (drop k cmds) ++ rest) fuel (rounds - k) timeout [(0, true)] ((drop k runs).*2 ++ wt))
    as (s1 & [] & Hcs & _ & Hit).
  - apply ready_forks with (fs := fs). rewrite (app_assoc (take k runs).*2), <- fmap_app, take_drop.
    rewrite app_assoc. unfold typed, unlines. rewrite <- fmap_app, <- concat_app, <- fmap_app, take_drop. exact Hs.
  - by apply Forall_take.
  - rewrite !length_take. lia.
  - by apply Forall_take.
  - rewrite length_take_le in Hit by lia. replace (k + (rounds - k))%nat with rounds in Hit by lia.
    unfold exits. rewrite Hit. destruct (rounds - k)%nat as [|n] eqn:En; [lia|].
    rewrite (drop_S _ _ _ Hk), typed_cons in rd_input0. destruct Hcmd as (Hn & Hnl & Hl & Hf & w & ws & Hw & Hne).
    apply (exits_bind (shell_round fuel timeout)). eapply exits_mono; [by eapply exits_round_child|].
    cbn beta. intros z s' Hs'. rewrite Hs', Hcs, <- app_assoc. done.
Qed.
End rounds.
