(* ===== verification/Primes.v ===== *)
(** * Primes: signal-prime-number.c

    The parent reads numbers and tells the child of every prime by a signal; the
    child prints a line for it.  What [scanf] and [kill] do are scripts. *)
From Stdlib Require Import Ascii String Znumtheory.
From stdpp Require Import prelude strings.
From S2P Require Import Prelude CMonad CString.

Definition SIGUSR1 : Z := 10.
Definition SIGUSR2 : Z := 12.

(** [scanf("%d", &n)] reads a number, or finds something else; the end of the list
    is end of file. *)
Inductive scan := Number (n : Z) | NoNumber.

Record parent := Parent {
  scans : list scan;
  var_n : option Z;            (* the variable [n], before it has a value *)
  kills : list bool;           (* the next calls of kill that fail *)
  signals : list Z;            (* the signals sent to the child *)
  printed_lines : list (list ascii)
}.
Definition set_scans x y s := Parent x y (kills s) (signals s) (printed_lines s).
Definition add_signal k x s := Parent (scans s) (var_n s) k (signals s ++ [x]) (printed_lines s).
Definition set_kills k s := Parent (scans s) (var_n s) k (signals s) (printed_lines s).
Definition add_line l s := Parent (scans s) (var_n s) (kills s) (signals s) (printed_lines s ++ [l]).

(** ** isprimeno *)
Definition isprimeno {S} (n : Z) : C S bool :=
  if n <? 2 then mret false
  else
    i ← int_div n 2;
    iter (Datatypes.S (Z.to_nat n)) (λ i,
      if 2 <=? i then
        r ← int_rem n i;
        if r =? 0 then mret (inr false)
        else i ← int_sub i 1; mret (inl i)
      else mret (inr true)) i.

(** ** The child *)
Record child := Child { child_lines : list (list ascii) }.

Definition sighandler (signo : Z) : C child () :=
  if signo =? SIGUSR1 then
    modify (λ s, Child (child_lines s ++ [chars "A prime number was found by the parent process"]))
  else if signo =? SIGUSR2 then
    modify (λ s, Child (child_lines s ++ [chars "Parent process is ending, I must go now. :("]));;
    exit 0
  else mret ().

(** The child sleeps for ever; the signals that are delivered interrupt it. *)
Fixpoint child_run (delivered : list Z) : C child () :=
  match delivered with
  | [] => λ _, NoFuel
  | signo :: rest => sighandler signo;; child_run rest
  end.

(** ** The parent *)

(** The value of [scanf]: the number of items read, or [-1] at end of file. *)
Definition scanf_n : C parent Z := λ s,
  match scans s with
  | Number n :: rest => Ok 1 (set_scans rest (Some n) s)
  | NoNumber :: rest => Ok 0 (set_scans rest (var_n s) s)
  | [] => Ok (-1) s
  end.

(** [kill(pid, signo) == -1] ends the program. *)
Definition kill (signo : Z) : C parent bool := λ s,
  match kills s with
  | true :: k => Ok false (set_kills k s)
  | _ => Ok true (add_signal (tail (kills s)) signo s)
  end.

Definition read_n : C parent Z := n ← get var_n; match n with Some n => mret n | None => ub end.

(** The loop of the parent; [inr] is the value that [main] returns. *)
Definition parent_loop (fuel : nat) : C parent Z :=
  iter fuel (λ _ : (),
    r ← scanf_n;
    if negb (r =? 0) then
      n ← read_n;
      prime ← isprimeno n;
      if (prime : bool) then
        ok ← kill SIGUSR1;
        if (ok : bool) then mret (inl ())
        else modify (add_line (chars "Kill failed"));; mret (inr 1)
      else mret (inl ())
    else
      ok ← kill SIGUSR2;
      if (ok : bool) then mret (inr 0)
      else modify (add_line (chars "Kill failed"));; mret (inr 1)) ().

(** [pid] is what [fork] returned; in the child it is 0, and the child, whose state
    is that of [child_run], sleeps for ever. *)
Definition prime_main (signals_ok : bool) (pid : Z) (fuel : nat) : C parent Z :=
  if negb signals_ok then modify (add_line (chars "Signal error"));; mret 1
  else if pid <? 0 then modify (add_line (chars "Fork failed"));; mret 1
  else if pid =? 0 then λ _, NoFuel
  else
    modify (add_line (chars "Enter numbers: (enter non-integer values to quit)"));;
    parent_loop fuel.

(** ** isprimeno decides primality *)
Lemma prime_half n : 2 ≤ n → prime n ↔ ∀ i, 2 ≤ i ≤ n / 2 → ¬ (i | n).
Proof.
  intros Hn. split.
  - intros Hp i Hi Hd. destruct (prime_divisors n Hp i Hd) as [|[|[|]]]; Z.div_mod_to_equations; lia.
  - intros Hall. apply prime_alt. split; [lia|]. intros i Hi [q Hq].
    destruct (decide (i ≤ n / 2)) as [Hle|Hgt].
    + apply (Hall i); [lia|]. by exists q.
    + assert (1 < q < 2) by (Z.div_mod_to_equations; nia). lia.
Qed.

Lemma wp_isprimeno {S} n (Q : bool → S → Prop) s :
  INT_MIN ≤ n ≤ INT_MAX → (∀ b, (b = true ↔ prime n) → Q b s) → wp (isprimeno n) Q s.
Proof.
  intros Hn HQ. unfold isprimeno. destruct (Z.ltb_spec n 2) as [Hlt|Hge].
  { apply wp_ret, HQ. split; [done|]. intros []. lia. }
  apply wp_bind. unfold int_div. rewrite bool_decide_false by done.
  rewrite Z.quot_div_nonneg by lia. apply wp_chk; [Z.div_mod_to_equations; lia|].
  apply (wp_iter_idx (λ k i s', s' = s ∧ i ≤ Z.of_nat k ∧ 1 ≤ i ≤ n / 2 ∧ ∀ j, i < j ≤ n / 2 → ¬ (j | n)))
    with (k := Z.to_nat n).
  - intros k i s' (-> & Hk & Hi & Hall). destruct (Z.leb_spec 2 i) as [H2|H1].
    + apply wp_bind. unfold int_rem. rewrite bool_decide_false by lia.
      rewrite (proj2 (in_int_spec _)); last first.
      { rewrite Z.quot_div_nonneg by lia. Z.div_mod_to_equations. nia. }
      apply wp_ret. rewrite Z.rem_mod_nonneg by lia. destruct (Z.eqb_spec (n `mod` i) 0) as [He|Hne].
      * apply wp_ret, HQ. split; [done|]. intros Hp. exfalso.
        apply (proj1 (prime_half n Hge) Hp i); [lia|]. by apply Z.mod_divide; [lia|].
      * apply wp_bind. wp_step; [Z.div_mod_to_equations; lia|]. apply wp_ret.
        exists (k - 1)%nat. split; [lia|]. split_and!; [done|lia|lia|lia|].
        intros j Hj. destruct (decide (j = i)) as [->|]; [|apply Hall; lia].
        intros Hd. by apply Hne, Z.mod_divide; [lia|].
    + apply wp_ret, HQ. split; [|done]. intros _. apply prime_half; [done|]. intros j Hj. apply Hall. lia.
  - split_and!; [done|Z.div_mod_to_equations; lia|Z.div_mod_to_equations; lia|done|lia].
  - lia.
Qed.

(** ** The conversation *)
#[export] Instance prime_decision n : Decision (prime n) := prime_dec n.

(** The signals for the numbers [ns]. *)
Definition announced (ns : list Z) : list Z :=
  concat ((λ n, if decide (prime n) then [SIGUSR1] else []) <$> ns).

Lemma wp_kill signo (Q : bool → parent → Prop) s :
  kills s = [] → Q true (add_signal [] signo s) → wp (kill signo) Q s.
Proof. intros Hk HQ. unfold wp, kill. by rewrite Hk. Qed.

Lemma wp_parent_loop ns rest fuel (Q : Z → parent → Prop) s :
  scans s = (Number <$> ns) ++ NoNumber :: rest → kills s = [] → Forall (λ n, INT_MIN ≤ n ≤ INT_MAX) ns →
  (length ns < fuel)%nat →
  Q 0 (Parent rest (default (var_n s) (Some <$> last ns)) []
    (signals s ++ announced ns ++ [SIGUSR2]) (printed_lines s)) →
  wp (parent_loop fuel) Q s.
Proof.
  intros Hs Hk Hns Hf HQ. revert fuel s Hs Hk Hf HQ. induction ns as [|n ns IH]; intros fuel s Hs Hk Hf HQ;
    (destruct fuel as [|fuel]; [cbn in Hf; lia|]); apply wp_bind, wp_bind; unfold wp at 1, scanf_n; rewrite Hs; cbn.
  - apply wp_bind, wp_kill; [done|]. by apply wp_ret, wp_ret.
  - apply Forall_cons in Hns as [Hn Hns]. apply wp_bind, wp_bind, wp_get. cbn. apply wp_ret, wp_bind, wp_isprimeno; [done|].
    intros b Hb. assert (default (var_n s) (Some <$> last (n :: ns)) = default (Some n) (Some <$> last ns)) as Hlast.
    { destruct ns as [|m ns]; [done|]. cbn [last]. destruct (last (m :: ns)) eqn:E; [done|]. by apply last_None in E. }
    unfold announced in HQ. cbn [fmap list_fmap concat] in HQ. fold (announced ns) in HQ. rewrite Hlast in HQ.
    destruct (decide (prime n)) as [Hp|Hp].
    + rewrite (proj2 Hb Hp). apply wp_bind, wp_kill; [done|]. apply wp_ret.
      apply IH; [done|done|done|cbn in Hf; lia|]. revert HQ. cbn. by rewrite <- !app_assoc.
    + assert (b = false) as -> by (destruct b; [exfalso; by apply Hp, Hb|done]).
      apply wp_ret. apply IH; [done|done|done|cbn in Hf; lia|]. exact HQ.
Qed.

(** At end of file [scanf] returns [-1], which the loop takes for success. *)
Lemma parent_spins fuel s n :
  scans s = [] → var_n s = Some n → INT_MIN ≤ n ≤ INT_MAX → kills s = [] → parent_loop fuel s = NoFuel.
Proof.
  intros Hs Hn Hi. revert s Hs Hn. induction fuel as [|fuel IH]; intros s Hs Hn Hk; [done|].
  apply nofuel_bind. apply wp_bind. unfold wp at 1, scanf_n. rewrite Hs. cbn.
  apply wp_bind, wp_bind, wp_get. rewrite Hn. apply wp_ret, wp_bind, wp_isprimeno; [done|]. intros b _.
  destruct b; [apply wp_bind, wp_kill; [done|]|]; apply wp_ret; by apply IH.
Qed.

Lemma parent_eof fuel s : scans s = [] → var_n s = None → parent_loop (S fuel) s = UB.
Proof.
  intros Hs Hn. apply run_bind_ub. eapply run_bind_eq; [unfold scanf_n; by rewrite Hs|]. cbn.
  apply run_bind_ub. eapply run_bind_eq; [done|]. by rewrite Hn.
Qed.

Lemma child_told k s :
  exits (child_run (replicate k SIGUSR1 ++ [SIGUSR2]))
    (λ z s', z = 0 ∧ child_lines s' = child_lines s ++
       replicate k (chars "A prime number was found by the parent process") ++
       [chars "Parent process is ending, I must go now. :("]) s.
Proof.
  revert s. induction k as [|k IH]; intros s; cbn [replicate app child_run].
  - apply exits_bind. unfold sighandler. cbn [Z.eqb SIGUSR1 SIGUSR2 Pos.eqb].
    apply exits_after, wp_modify, exits_exit. done.
  - apply exits_after. unfold sighandler. cbn [Z.eqb SIGUSR1 SIGUSR2 Pos.eqb]. apply wp_modify.
    eapply exits_mono; [apply IH|]. intros z s' [-> Hl]. split; [done|]. rewrite Hl. cbn [child_lines].
    by rewrite <- app_assoc.
Qed.

Lemma announced_replicate ns :
  announced ns = replicate (length (filter (λ n, prime n) ns)) SIGUSR1.
Proof.
  induction ns as [|n ns IH]; [done|]. unfold announced in *. cbn [fmap list_fmap concat]. rewrite IH, filter_cons.
  by destruct (decide (prime n)).
Qed.
