(* ===== verification/PlayProps.v ===== *)
(** * PlayProps: the correctness of the client, and of the server around its threads

    The theorems about client.c, about [main] and the signal handler of server.c,
    and about print-helpers.c and resource-usage.c. *)
From Stdlib Require Import Ascii String.
From stdpp Require Import prelude gmultiset strings.
From S2P Require Import Prelude CMonad CString SecretCode SecretCodeRefine Messages.
From S2P Require Import Server ServerRefine Client ClientRefine PrintHelpers ResourceUsage.
From S2P Require Import ServerMain ServerMainRefine.

(** ** The client *)

(** C5: the two programs fit.  Let [game] be the game that the
    user's lines [guesses] make.  Then there are messages, one for every prompt
    of the game, such that the serving thread answers them with the texts of that
    game and reads them all, and the client, given these texts and the user's
    lines, sends exactly these messages, prints what the texts say and comes to
    its end. *)
Theorem client_server_fit (s0 : srv) (c0 : cli) rands fuel fuel' secret tail guesses lines texts won rest :
  counters_ok s0 → s_held s0 = [] → valid_code secret → Forall typeable guesses →
  game 10 1 secret (block_text <$> guesses) = Some (lines, texts, won, rest) →
  (length guesses < fuel)%nat → (length texts + 5 ≤ fuel')%nat →
  ∃ messages unused,
    length messages = length (prompts texts) ∧
    wp (pthread_routine rands fuel (secret ++ NUL :: tail))
      (λ _ s', s_conn s' = Conn [] [] (sent (s_conn s0) ++ blocks (session_texts texts won)) ∧
         s_log s' = s_log s0 ++ session_log secret lines won)
      (set_s_conn (Conn (Chunk <$> messages) [] (sent (s_conn s0))) s0) ∧
    wp (client_loop fuel')
      (λ _ c', c_conn c' = Conn [] [] (sent (c_conn c0) ++ concat messages) ∧
         c_stdout c' = c_stdout c0 ++ concat (printed <$> session_texts texts won) ∧
         c_stdin c' = unlines unused ++ c_stdin c0)
      (set_stdin (unlines guesses ++ c_stdin c0)
        (set_c_conn (Conn (Chunk ∘ block_text <$> session_texts texts won) [] (sent (c_conn c0))) c0)).
Proof.
  intros Hok Hh Hsec Hty Hgame Hf Hf'.
  destruct (game_speaks _ _ _ _ _ _ _ _ Hgame) as [Hfit Hgo].
  destruct (game_replies _ _ _ _ _ _ Hty Hgame) as (used & unused & -> & Hlen & Hg).
  apply Forall_app in Hty as [Hty _].
  set (messages := zip_with reply (prompts texts) used). exists messages, unused.
  assert (length messages = length used) as Hml by (unfold messages; rewrite length_zip_with; lia).
  split; [lia|]. split.
  - eapply wp_mono; [eapply (wp_routine_ok (set_s_conn (Conn (Chunk <$> messages) [] (sent (s_conn s0))) s0)
      rands fuel secret tail messages); try done|].
    + apply Forall_forall. intros m (i & p & u & -> & Hp%list_elem_of_lookup_2 & Hu%list_elem_of_lookup_2)%elem_of_lookup_zip_with_1.
      rewrite Forall_forall in Hty. apply reply_length; [|by apply Hty].
      apply list_elem_of_filter in Hp as [_ Hp]. rewrite Forall_forall in Hfit. by apply Hfit.
    + rewrite Hml. rewrite length_app in Hf. lia.
    + intros _ s' ->. done.
  - eapply wp_mono; [apply (wp_session (set_c_conn (Conn (Chunk ∘ block_text <$> session_texts texts won) []
      (sent (c_conn c0))) c0) texts won used unused); done || lia|].
    intros _ c' ->. done.
Qed.

(** A game with an invalid guess, a wrong one and the right one. *)
Definition fit_guesses : list (list ascii) := [chars "ABC"; chars "ABBA"; chars "ABCD"].
Definition fit_texts : list (list ascii) :=
  [GP_GUESS_REQ; GP_GUESS_INV; GP_GUESS_FBK ++ feedback_message 1 2 0;
   GP_GUESS_REQ; GP_GUESS_FBK ++ feedback_message 2 4 0].
Definition srv_new : srv := Srv (Conn [] [] []) 0 [] 0 0 0 [].
Definition cli_new : cli := Cli (Conn [] [] []) [] [] [] 0.

Lemma client_server_fit_witness :
  ∃ messages unused,
    length messages = 3%nat ∧
    wp (pthread_routine (λ _, 0) 4 (chars "ABCD" ++ NUL :: []))
      (λ _ s', s_conn s' = Conn [] [] (blocks (session_texts fit_texts true)) ∧
         s_log s' = session_log (chars "ABCD") [ClientGuess (chars "ABBA"); ServerHint 2 0;
           ClientGuess (chars "ABCD"); ServerHint 4 0] true)
      (set_s_conn (Conn (Chunk <$> messages) [] []) srv_new) ∧
    wp (client_loop 10)
      (λ _ c', c_conn c' = Conn [] [] (concat messages) ∧
         c_stdout c' = concat (printed <$> session_texts fit_texts true) ∧
         c_stdin c' = unlines unused ++ [])
      (set_stdin (unlines fit_guesses ++ [])
        (set_c_conn (Conn (Chunk ∘ block_text <$> session_texts fit_texts true) [] []) cli_new)).
Proof.
  apply (client_server_fit srv_new cli_new (λ _, 0) 4 10 (chars "ABCD") [] fit_guesses
    [ClientGuess (chars "ABBA"); ServerHint 2 0; ClientGuess (chars "ABCD"); ServerHint 4 0]
    fit_texts true []); try reflexivity.
  - unfold counters_ok. simpl. lia.
  - by apply (bool_decide_unpack _).
  - by apply (bool_decide_unpack _).
  - simpl. lia.
Defined.

(** The client ignores the result of [receive_message]: once the server
    is gone and nothing more can be read, the loop never ends, whatever the
    bound on its rounds. *)
Theorem client_lost_connection fuel (s : cli) : reads (c_conn s) = [] → client_loop fuel s = NoFuel.
Proof. apply client_spins. Qed.

Lemma client_lost_connection_witness : client_loop 500 cli_new = NoFuel.
Proof. apply (client_lost_connection 500 cli_new). reflexivity. Defined.

(** A block that is displayed and holds no NUL is printed past its end. *)
Theorem client_display_overread fuel (s : cli) m rs :
  reads (c_conn s) = Chunk (GP_DISP_MSG ++ m) :: rs → length m = 185%nat → NUL ∉ m →
  client_loop (S fuel) s = UB.
Proof. apply client_overread. Qed.

(** At the end of the input the prompt of the server is sent back as the guess. *)
Theorem client_echoes_prompt prompt text (s : cli) :
  fits text → CR ∉ text → NEWLINE ∉ text → c_stdin s = [] → writes (c_conn s) = [] →
  wp (submit_guess prompt (block_text text))
    (λ _ s', s' = set_c_conn (Conn (reads (c_conn s)) [] (sent (c_conn s) ++ block_text text))
       (add_stdout prompt s)) s.
Proof. apply wp_submit_eof. Qed.

(** ** The main thread of the server *)

Lemma safe_attempts works calls (k : C srv_main ()) Q (E : srv_main → Prop) (I : srv_main → Prop) s :
  (∀ s name, I s → E (add_m_stderr name s)) → (∀ m s, I s → I (add_inited m s)) →
  (∀ b s, I s → I (set_listening b s)) → (∀ s, I s → safe k Q E s) → I s →
  safe (foldr (λ c m, attempt works c;; m) k calls) Q E s.
Proof.
  intros HE Hi Hl Hk. revert s. induction calls as [|c calls IH]; intros s HI; cbn [foldr]; [by apply Hk|].
  apply safe_bind. unfold attempt. destruct (works c).
  - apply safe_wp. destruct c; first [apply wp_ret | apply wp_modify]; apply IH; auto.
  - apply safe_bind, safe_wp, wp_modify, safe_exit. by apply HE.
Qed.

(** The array [secret_code] of the main thread: a code, or zeros when each client
    is given one of its own. *)
Definition secret_array (a : list ascii) : Prop :=
  a = replicate 5 NUL ∨ ∃ code, valid_code code ∧ a = code ++ [NUL].

Lemma wp_any_arguments prog port rest (s : srv_main) :
  in_int (atoi_Z port) = true → Forall (λ a, NUL ∉ a) rest →
  wp (server_arguments (prog :: port :: rest)) (λ r s', s' = s ∧ secret_array r.2) s.
Proof.
  intros Hp Hr. destruct rest as [|code rest].
  - unfold server_arguments, atoi, chk. rewrite Hp. apply wp_bind, wp_ret, wp_ret. split; [done|by left].
  - apply Forall_cons in Hr as [Hc _]. apply wp_arguments; [done..|]. split; [done|].
    case_bool_decide; [right; eauto|by left].
Qed.

(** Where the process, or its main thread, may end: before the server listens, or
    in the loop, where every thread was given the secret code. *)
Definition server_ended (s : srv_main) : Prop :=
  s_held (m_srv s) = [] ∧ (m_threads s = [] ∧ m_args s = 0 ∨
    ∃ secret, secret_array secret ∧ main_ended secret s).

(** The error paths: when the status file gives its two values and a signal comes
    only while the main thread holds no mutex, then for every outcome of the calls
    that set the server up and every sequence of events of the accept loop, with any
    work of the threads in between, the main thread does nothing undefined in as many
    rounds as the fuel allows.  When it ends it holds no mutex; the argument blocks of
    all earlier rounds were freed or given to a thread, and each of these has the
    same secret code, a valid one or none. *)
Theorem server_loop_safe works os fuel prog port rest peak current (s : srv_main) :
  in_int (atoi_Z port) = true → Forall (λ a, NUL ∉ a) rest →
  readable os (chars "VmPeak") peak → readable os (chars "VmSize") current →
  idle (m_srv s) → Forall event_ok (m_events s) → m_args s = 0 → m_threads s = [] →
  safe (server_main works os fuel (prog :: port :: rest)) (λ _ _, False) server_ended s.
Proof.
  intros Hp Hr Hpeak Hcur Hi He Ha Ht. apply safe_bind, safe_wp.
  eapply wp_mono; [by apply wp_any_arguments|]. intros [n secret] s' [-> Hsec]. cbn [snd] in Hsec.
  apply safe_bind.
  set (I := λ s' : srv_main, idle (m_srv s') ∧ Forall event_ok (m_events s') ∧ m_args s' = 0 ∧ m_threads s' = []).
  change (server_setup works n) with
    (foldr (λ c m, attempt works c;; m) (shared_call (log ServerStarted)) (setup_calls n)).
  apply (safe_attempts works _ _ _ _ I); [| | |  |done].
  - intros s' name ([Hh _] & _ & Ha' & Ht'). split; [done|]. by left.
  - by intros m s' H.
  - by intros b s' H.
  - intros s' ([Hh Hn] & He' & Ha' & Ht'). apply safe_wp, wp_shared, wp_log.
    eapply safe_conseq; [eapply (safe_main_loop os secret fuel peak current); [done..|]|by intros|].
    + constructor; [done|done|done|]. cbn. by rewrite Ht'.
    + intros s2 Hs2. split; [apply Hs2|]. right. eauto.
Qed.

(** A server with one slow client in its way: three clients come, the last one is
    not served for want of a thread, then the user ends the server. *)
Definition status_text : list ascii :=
  unlines [chars "Name: server"; chars "VmPeak:     4536 kB"; chars "VmSize:     4412 kB"].
Definition os_example : shutdown_os :=
  ShutdownOs (0, 4000) (0, 8000) (Some status_text) (replicate 128 NUL) true (λ _, true).
Definition srv_main_new (events : list round_event) : srv_main := SrvMain srv_new events [] [] 0 [] false false.
Definition ex_events : list round_event :=
  [Arrives (Conn [] [] []) true (set_now 1); MallocFails; Arrives (Conn [] [WriteErr true] []) true id;
   AcceptFails; Arrives (Conn [] [] []) false id; Interrupted SIGINT id].

Lemma readable_peak : readable os_example (chars "VmPeak") 4536.
Proof.
  split; [done|]. exists status_text. split; [done|]. left.
  exists [chars "Name: server"], (chars ":     "), (chars " kB"), (unlines [chars "VmSize:     4412 kB"]).
  split_and!; first [by apply (bool_decide_unpack _) | done | vm_compute; lia].
Qed.

Lemma readable_size : readable os_example (chars "VmSize") 4412.
Proof.
  split; [done|]. exists status_text. split; [done|]. left.
  exists [chars "Name: server"; chars "VmPeak:     4536 kB"], (chars ":     "), (chars " kB"), [].
  split_and!; first [by apply (bool_decide_unpack _) | done | vm_compute; lia].
Qed.

Lemma server_loop_safe_witness :
  safe (server_main (λ _, true) os_example 7 [chars "server"; chars "6543"; chars "ABCD"]) (λ _ _, False)
    server_ended (srv_main_new ex_events).
Proof.
  apply (server_loop_safe (λ _, true) os_example 7 (chars "server") (chars "6543") [chars "ABCD"] 4536 4412);
    try reflexivity.
  - by apply (bool_decide_unpack _).
  - apply readable_peak.
  - apply readable_size.
  - split; [done|]. cbn. lia.
  - repeat apply Forall_cons_2; [..|apply Forall_nil_2]; cbn; try done; [|by split; [left|]].
    intros x [Hh _]. split; [done|]. cbn. lia.
Defined.






(** When the server is full and the refusal cannot be sent to the
    client, [send_gp_message] ends the main thread: no client is accepted any
    more, the number of current clients is one less than the threads it counts,
    and the argument block is lost. *)
Theorem refusal_lost os secret c created others es o c' (s : srv_main) :
  m_events s = Arrives c created others :: es → let x := arrived s c others in
  s_held x = [] → 40 ≤ clients_now_count x ≤ INT_MAX →
  scatter 5 (block_text GP_SERV_FULL) c = (o, c') → o ≠ Sent →
  exits (accept_round os secret)
    (λ _ s', m_main_left s' = true ∧ m_args s' = m_args s + 1 ∧ m_threads s' = m_threads s ∧
       clients_now_count (m_srv s') = clients_now_count x - 1) s.
Proof. apply exits_round_full. Qed.

Definition ex_refusal : round_event := Arrives (Conn [] [WriteErr true] []) true (set_now 40).

Lemma refusal_lost_witness :
  exits (accept_round os_example (chars "ABCD"))
    (λ _ s', m_main_left s' = true ∧ m_args s' = 1 ∧ m_threads s' = [] ∧ clients_now_count (m_srv s') = 39)
    (srv_main_new [ex_refusal]).
Proof.
  apply (refusal_lost os_example (chars "ABCD") (Conn [] [WriteErr true] []) true (set_now 40) [] Lost
    (Conn [] [] []) (srv_main_new [ex_refusal])); try reflexivity.
  - cbn. lia.
  - discriminate.
Defined.

(** C37: a SIGINT or SIGTERM that comes while the thread it interrupts holds no
    mutex, with a status file whose text gives the peak and the current size of the
    memory: the handler stops listening, ends the log with the statistics (the
    clients connected and the wins as the threads counted them, the processor times,
    and the memory as the file gives it, -1 for a field it does not have), leaves
    everything else as it was and ends the process with status 0.  [shutdown_deadlock]
    is the case of a thread that holds the mutex of the log. *)
Theorem shutdown_report os sig peak current (s : srv_main) :
  sig = SIGINT ∨ sig = SIGTERM → s_held (m_srv s) = [] →
  readable os (chars "VmPeak") peak → readable os (chars "VmSize") current →
  exits (sig_handler os sig)
    (λ z s', z = 0 ∧ s' = SrvMain
       (set_log (s_log (m_srv s) ++ shutdown_log os (m_srv s) peak current) (m_srv s)) (m_events s) (m_inited s)
       (m_threads s) (m_args s) (m_stderr s ++ shutdown_errors os) false (m_main_left s)) s.
Proof. apply exits_sig_handler. Qed.

Lemma shutdown_report_witness :
  exits (sig_handler os_example SIGTERM)
    (λ z s', z = 0 ∧ s' = SrvMain (set_log [ServerShutdown; ClientsConnected 0; ClientsWon 0; CpuUser 0 4000;
       CpuKernel 0 8000; PeakMemory 4536; CurrentMemory 4412] srv_new) [] [] [] 0 [] false false)
    (srv_main_new []).
Proof.
  apply (shutdown_report os_example SIGTERM 4536 4412 (srv_main_new [])).
  - by right.
  - reflexivity.
  - exact readable_peak.
  - exact readable_size.
Defined.

(** The handler waits for ever when the thread it interrupts holds that mutex. *)
Theorem shutdown_deadlock os sig (s : srv_main) :
  sig = SIGINT ∨ sig = SIGTERM → log_file_mutex ∈ s_held (m_srv s) → sig_handler os sig s = UB.
Proof. apply sig_handler_deadlock. Qed.

(** When a call of the set-up fails, its name is printed and the process ends
    with status 1, with no thread started. *)
Theorem setup_stops works port (s : srv_main) :
  (∃ c, c ∈ setup_calls port ∧ works c = false) →
  exits (server_setup works port)
    (λ z s', z = 1 ∧ m_srv s' = m_srv s ∧ m_threads s' = m_threads s ∧
       ∃ c, c ∈ setup_calls port ∧ works c = false ∧ m_stderr s' = m_stderr s ++ [call_name c]) s.
Proof. apply (exits_attempts works (setup_calls port)). Qed.

(** ** Print helpers and resource usage *)

(** What [fprint_current_time_and_ip_address] writes can
    be read back: for a calendar time with a year of four digits and a 32-bit
    address, the first 21 characters give every field of the time and the rest
    gives the address. *)
Theorem log_prefix_roundtrip now lt t addr out :
  now ≠ -1 → lt now = Some t → tm_ok t → 0 ≤ addr < 2 ^ 32 →
  wp (fprint_current_time_and_ip_address now lt addr)
    (λ _ out', ∃ text, out' = out ++ text ∧ read_time (take 21 text) = t ∧ read_ip (drop 21 text) = addr) out.
Proof.
  intros Hnow Hlt Ht Ha. apply wp_bind. eapply wp_print_time; [done..|]. intros stamp Hlen Hstamp.
  apply wp_print_ip; [done|]. intros ip Hip. exists (stamp ++ ip). rewrite <- app_assoc. split; [done|].
  rewrite take_app_length', drop_app_length' by done. done.
Qed.

Lemma log_prefix_roundtrip_witness :
  wp (fprint_current_time_and_ip_address 1464000000 (λ _, Some (Tm 0 40 20 23 4 116)) 2130706433)
    (λ _ out', ∃ text, out' = [] ++ text ∧ read_time (take 21 text) = Tm 0 40 20 23 4 116 ∧
       read_ip (drop 21 text) = 2130706433) [].
Proof.
  apply (log_prefix_roundtrip 1464000000 (λ _, Some (Tm 0 40 20 23 4 116)) (Tm 0 40 20 23 4 116) 2130706433 []);
    first [reflexivity | lia | unfold tm_ok; cbn; lia].
Defined.

(** A field of /proc/self/status is found behind any number of
    other lines, and its value is the number in its line: the NUL that the parser
    writes falls behind the number and inside the buffer as long as the text in
    front of the number and the line together have at most 129 characters. *)
Theorem status_field {S} before field sep n unit after line (s : S) :
  Forall plain_line before → Forall (λ l, ¬ field `prefix_of` l) before →
  let pre := field ++ sep in let l := pre ++ print_d n ++ unit in
  plain_line l → Forall (λ x, is_digit x = false) pre →
  match unit with [] => True | c :: _ => is_digit c = false end →
  0 ≤ n ≤ INT_MAX → (3 ≤ length pre)%nat → (length pre + length l ≤ 129)%nat →
  length line = 128%nat →
  wp (get_proc_self_status_info (Some (unlines before ++ l ++ NEWLINE :: after)) line field)
    (λ r s', r = n ∧ s' = s) s.
Proof. intros. by apply wp_status_found. Qed.

Lemma status_field_witness :
  wp (get_proc_self_status_info (Some (unlines [chars "Name: server"] ++
    ((chars "VmPeak" ++ chars ":    ") ++ print_d 4536 ++ chars " kB") ++ NEWLINE :: chars "VmSize: 1 kB"))
    (replicate 128 NUL) (chars "VmPeak"))
    (λ r s', r = 4536 ∧ s' = tt) tt.
Proof.
  apply (status_field [chars "Name: server"] (chars "VmPeak") (chars ":    ") 4536 (chars " kB")
    (chars "VmSize: 1 kB") (replicate 128 NUL) tt);
    first [by apply (bool_decide_unpack _) | reflexivity | vm_compute; lia].
Defined.

(** A field that is not in the file gives [-1]. *)
Theorem status_field_missing {S} before field line (s : S) :
  Forall plain_line before → Forall (λ l, ¬ field `prefix_of` l) before →
  NEWLINE ∉ field → NUL ∉ field → length line = 128%nat →
  wp (get_proc_self_status_info (Some (unlines before)) line field) (λ r s', r = -1 ∧ s' = s) s.
Proof. intros. by apply wp_status_missing. Qed.

(** The parser moves the pointer to the first digit but
    counts from the start of the line: when the number starts so late that this
    place is past the buffer, the NUL is written outside of it. *)
Theorem proc_line_overflow {S} pre c post (s : S) :
  Forall (λ x, is_digit x = false) pre → NUL ∉ pre → is_digit c = true → NUL ∈ post →
  (length pre + length (cstr (pre ++ c :: post)) - 3 ≥ length (pre ++ c :: post))%nat →
  parse_proc_self_status_line (pre ++ c :: post) s = UB.
Proof. apply parse_line_overflow. Qed.

Lemma proc_line_overflow_witness :
  parse_proc_self_status_line (replicate 100 (chr 32) ++ chr 52 :: chars "536 kB" ++ NEWLINE :: NUL :: replicate 19 NUL) tt
    = UB.
Proof.
  apply (proc_line_overflow (replicate 100 (chr 32)) (chr 52)
    (chars "536 kB" ++ NEWLINE :: NUL :: replicate 19 NUL) tt);
    first [by apply (bool_decide_unpack _) | reflexivity | vm_compute; lia].
Defined.
