(* ===== verification/ConcurrencyProps.v ===== *)
(** * ConcurrencyProps: the correctness of the programs with threads

    The theorems about the two versions of the producer-consumer program. *)
From Stdlib Require Import Ascii String.
From stdpp Require Import prelude functions list strings.
From S2P Require Import Prelude CMonad CString.
From S2P Require Import BoundedBuffer ProducerConsumer ProducerConsumerRefine.
From S2P Require Import ProducerConsumerSem ProducerConsumerSemRefine.

(** ** The producer-consumer program with a mutex *)
Section polling.
Import Polling.

(** [main] creates the state in which the threads start. *)
Theorem polling_main_starts os prog duration np nc rest b :
  in_int (atoi_Z duration) = true → in_int np = true → in_int nc = true →
  length (buffer b) = 5%nat → buffer_space b = BUFFER_SIZE →
  (∀ x, x ∈ inits os → x = true) → (∀ n, malloc_ok os n = true) → (∀ k, created os k = true) →
  ∀ p c, atoi_Z p = np → atoi_Z c = nc →
  wp (main os (prog :: duration :: p :: c :: rest)) (λ r _, r = inr (start (Z.to_nat np) (Z.to_nat nc))) b.
Proof.
  intros Hd Hnp Hnc Hb Hs Hi Hm Hcr p c Hp Hc. apply wp_bind. unfold create_all, atoi, chk.
  rewrite Hp, Hc, Hd, Hnp, Hnc. do 3 apply wp_bind, wp_ret. apply wp_bind.
  eapply wp_mono; [by apply wp_clear|]. intros [] b' ->.
  assert (forallb id (inits os) = true) as ->.
  { apply forallb_forall. intros x Hx. by apply Hi, list_elem_of_In. }
  assert (∀ f n, create_threads os f n = true) as Hcreate.
  { intros f n. apply forallb_forall. intros x _. apply Hcr. }
  rewrite !Hm, !Hcreate. cbn [negb]. apply wp_ret, wp_bind, wp_get, wp_ret. unfold start. by rewrite Hs.
Qed.

(** C28: in every state the threads can reach, whatever the
    order in which they run: no access to the buffer is out of bounds, at most
    one thread is between [pthread_mutex_lock] and [pthread_mutex_unlock], and the
    items taken so far followed by those in the buffer are exactly the items put
    in so far, in this order: none is lost, doubled or overtaken. *)
Theorem polling_invariant np nc s :
  reachable np nc s →
  (∀ rnd i, thread_step rnd i s ≠ Undefined) ∧
  (∀ i j ri rj pi pj, places s !! i = Some (ri, pi) → places s !! j = Some (rj, pj) →
     inside pi = true → inside pj = true → i = j) ∧
  inserted s = removed s ++ contents (sbuf s) ∧ (length (contents (sbuf s)) ≤ 5)%nat.
Proof.
  intros Hs%reachable_pinv. split; [|split; [|split]].
  - intros rnd i Hu. pose proof (thread_inv rnd i s Hs) as H. by rewrite Hu in H.
  - intros i j ri rj pi pj Hi Hj Hpi Hpj. pose proof (inside_lock _ _ _ _ Hs Hi Hpi).
    pose proof (inside_lock _ _ _ _ Hs Hj Hpj). congruence.
  - apply (pi_fifo s Hs).
  - pose proof (contents_length _ (pi_buf s Hs)). destruct (pi_buf s Hs). lia.
Qed.

(** The threads of a schedule, one step each; every producer draws a 7. *)
Fixpoint drive (sched : list nat) (s : state) : state :=
  match sched with
  | [] => s
  | i :: sched => match thread_step 7 i s with Next s' => drive sched s' | _ => drive sched s end
  end.

Lemma drive_reachable np nc sched s : reachable np nc s → reachable np nc (drive sched s).
Proof.
  revert s. induction sched as [|i sched IH]; intros s Hs; [done|]. cbn. destruct (thread_step 7 i s) eqn:E; [|by apply IH..].
  apply IH. eapply reach_step; [done|]. by eapply step_thread.
Defined.

Lemma polling_invariant_witness :
  let s := drive [0; 0; 0; 0; 2; 2; 0; 0; 1; 1; 2; 2]%nat (start 2 1) in
  inserted s = [7] ∧ inserted s = removed s ++ contents (sbuf s) ∧ (length (contents (sbuf s)) ≤ 5)%nat.
Proof.
  intros s. split; [reflexivity|]. apply (polling_invariant 2 1 s). apply drive_reachable, reach_start.
Defined.

Lemma step_length s s' : step s s' → length (places s') = length (places s).
Proof.
  intros [rnd i s'' Ht|s'' Hm].
  - unfold thread_step, loop_step, item_step in Ht. destruct (places s !! i) as [[r p]|]; [|done].
    repeat case_match; simplify_eq/=; try apply length_insert; done.
  - unfold main_step in Hm. repeat case_match; by simplify_eq/=.
Qed.

Lemma reachable_length np nc s : reachable np nc s → length (places s) = (np + nc)%nat.
Proof.
  induction 1 as [|s s' _ IH Hst]; [cbn; by rewrite length_app, !length_replicate|].
  by rewrite (step_length _ _ Hst).
Qed.

Lemma weight_bound s : (weight s ≤ 9 * length (places s) + 1)%nat.
Proof.
  unfold weight. assert (main_weight s ≤ length (places s) + 1)%nat as Hm.
  { unfold main_weight. destruct (main_at s); lia. }
  assert (sum_list_with (λ rp : role * place, place_weight rp.2) (places s) ≤ 8 * length (places s))%nat; [|lia].
  clear Hm. induction (places s) as [|[r p] l IH]; [done|]. cbn [sum_list_with length snd].
  assert (place_weight p ≤ 8)%nat; [|lia]. destruct p as [|? []| | |? []|? x|]; cbn; try lia. destruct (x =? -1); lia.
Qed.

(** C9: once [main] has set the flag, the program comes to
    its end under every schedule: no run has more than [9 (np + nc) + 1] steps,
    and a run that cannot be continued has ended with every thread joined. *)
Theorem polling_exit_terminates np nc s :
  reachable np nc s → is_exiting s = true →
  (∀ n s', nsteps step n s s' → (n ≤ 9 * (np + nc) + 1)%nat) ∧
  (∀ s', rtc step s s' → (∀ s'', ¬ step s' s'') →
     main_at s' = Finished ∧ ∀ i r p, places s' !! i = Some (r, p) → p = Exited).
Proof.
  intros Hr Hex. pose proof (reachable_pinv _ _ _ Hr) as Hs. split.
  - intros n s' Hn. destruct (exit_bounded _ _ _ Hs Hex Hn) as (_ & _ & Hw).
    pose proof (weight_bound s) as Hb. rewrite (reachable_length _ _ _ Hr) in Hb. lia.
  - intros s' [n Hn]%rtc_nsteps Hstop. destruct (exit_bounded _ _ _ Hs Hex Hn) as (Hs' & Hex' & _).
    destruct (decide (main_at s' = Finished)) as [Hf|Hf].
    + split; [done|]. intros i r p Hi. pose proof (pi_joined s' Hs') as Hj. rewrite Hf in Hj. by apply (Hj _ _ Hi).
    + destruct (exit_progress _ Hs' Hex' Hf) as [s'' Hst]. by destruct (Hstop s'').
Qed.

(** The flag is set while the first producer holds the lock. *)
Lemma polling_exit_terminates_witness :
  ∃ s, main_step (drive [0; 0; 0; 1; 1]%nat (start 1 1)) = Next s ∧ lock s = Some 0%nat ∧
    (∀ n s', nsteps step n s s' → (n ≤ 19)%nat) ∧
    (∀ s', rtc step s s' → (∀ s'', ¬ step s' s'') →
       main_at s' = Finished ∧ ∀ i r p, places s' !! i = Some (r, p) → p = Exited).
Proof.
  eexists. split; [reflexivity|]. split; [reflexivity|]. apply (polling_exit_terminates 1 1); [|reflexivity].
  eapply reach_step; [apply (drive_reachable 1 1 [0; 0; 0; 1; 1]%nat), reach_start|]. apply step_main. reflexivity.
Defined.
End polling.

(** ** The producer-consumer program with semaphores *)
Section semaphores.
Import Semaphores.

Lemma tally_two f i j ri rj pi pj s :
  places s !! i = Some (ri, pi) → places s !! j = Some (rj, pj) → f (ri, Top) = 0%nat →
  f (ri, pi) = 1%nat → f (rj, pj) = 1%nat → tally f s ≤ 1 → i = j.
Proof.
  intros Hi Hj H0 Hfi Hfj Ht. destruct (decide (i = j)) as [|Hne]; [done|].
  pose proof (tally_goto f i ri pi Top s Hi) as Hg.
  pose proof (tally_ge f j (rj, pj) (goto i ri Top s)) as Hge. unfold tally in Hge at 1. cbn [goto places] in Hge.
  rewrite list_lookup_insert_ne in Hge by done. specialize (Hge Hj). lia.
Qed.

(** C10: in every state the threads can reach, whatever the order
    in which they run: although the critical sections do not look at the number
    of free places, no access to the buffer is out of bounds; at most one thread
    is in its critical section; and the items taken so far followed by those in
    the buffer are exactly the items put in so far, in this order. *)
Theorem semaphores_safe np nc s :
  reachable np nc s →
  (∀ rnd i, thread_step rnd i s ≠ Undefined) ∧
  (∀ i j ri rj pi pj, places s !! i = Some (ri, pi) → places s !! j = Some (rj, pj) →
     at_buffer (ri, pi) = 1%nat → at_buffer (rj, pj) = 1%nat → i = j) ∧
  inserted s = removed s ++ contents (sbuf s) ∧ (length (contents (sbuf s)) ≤ 5)%nat.
Proof.
  intros Hs%sem_reachable_inv. split; [|split; [|split]].
  - intros rnd i Hu. pose proof (sem_thread_inv rnd i s Hs) as H. by rewrite Hu in H.
  - intros i j ri rj pi pj Hi Hj Hpi Hpj. pose proof (si_buffer s Hs). pose proof (si_sems s Hs).
    eapply (tally_two at_buffer); [done..|lia].
  - apply (si_fifo s Hs).
  - pose proof (contents_length _ (si_buf s Hs)). destruct (si_buf s Hs). lia.
Qed.

(** The threads of a schedule, one step each; every producer draws a 7. *)
Fixpoint sem_drive (sched : list nat) (s : state) : state :=
  match sched with
  | [] => s
  | i :: sched => match thread_step 7 i s with Next s' => sem_drive sched s' | _ => sem_drive sched s end
  end.

Lemma sem_drive_reachable np nc sched s : reachable np nc s → reachable np nc (sem_drive sched s).
Proof.
  revert s. induction sched as [|i sched IH]; intros s Hs; [done|]. cbn.
  destruct (thread_step 7 i s) eqn:E; [|by apply IH..].
  apply IH. eapply reach_step; [done|]. by eapply step_thread.
Defined.

Definition sem_example : state := sem_drive [0; 0; 0; 0; 1; 1; 1; 1; 0; 0; 2; 2; 2]%nat (start 2 1).

Lemma semaphores_safe_witness :
  inserted sem_example = [7] ∧
  inserted sem_example = removed sem_example ++ contents (sbuf sem_example) ∧
  (length (contents (sbuf sem_example)) ≤ 5)%nat.
Proof.
  split; [reflexivity|]. apply (semaphores_safe 2 1 sem_example). apply sem_drive_reachable, reach_start.
Defined.

(** Before the flag is set no thread has ended; the roles never change. *)
Lemma sem_step_roles s s' : step s s' → (places s').*1 = (places s).*1.
Proof.
  intros [rnd i s'' Ht|s'' Hm].
  - unfold thread_step, loop_step, item_step in Ht. destruct (places s !! i) as [[r p]|] eqn:Hi; [|done].
    assert (∀ p', (<[i := (r, p')]> (places s)).*1 = (places s).*1) as Hg.
    { intros p'. rewrite list_fmap_insert. apply list_insert_id. by rewrite list_lookup_fmap, Hi. }
    repeat case_match; simplify_eq/=; apply Hg || done.
  - unfold main_step in Hm. repeat case_match; by simplify_eq/=.
Qed.

Lemma sem_step_busy s s' :
  (is_exiting s = false → ∀ i rp, places s !! i = Some rp → rp.2 ≠ Exited) → step s s' →
  is_exiting s' = false → ∀ i rp, places s' !! i = Some rp → rp.2 ≠ Exited.
Proof.
  intros Hb [rnd i s'' Ht|s'' Hm].
  - unfold thread_step, loop_step, item_step in Ht. destruct (places s !! i) as [[r p]|] eqn:Hi; [|done].
    assert (∀ p', p' ≠ Exited → is_exiting s = false →
      ∀ j rp, <[i := (r, p')]> (places s) !! j = Some rp → rp.2 ≠ Exited) as Hg.
    { intros p' Hp' Hex j rp Hj. destruct (decide (j = i)) as [->|Hne].
      - rewrite list_lookup_insert_eq in Hj by (by eapply lookup_lt_Some). by injection Hj as <-.
      - rewrite list_lookup_insert_ne in Hj by done. by eapply Hb. }
    repeat case_match; simplify_eq/=; intros Hex; first [apply Hg; done | congruence].
  - unfold main_step in Hm. repeat case_match; simplify_eq/=; done.
Qed.

(** With at least one producer and one consumer there is no
    deadlock while the program is not exiting: in every state the threads can
    reach some thread can go on. *)
Theorem semaphores_progress np nc s :
  (1 ≤ np)%nat → (1 ≤ nc)%nat → reachable np nc s → is_exiting s = false →
  ∃ k s', thread_step 0 k s = Next s'.
Proof.
  intros Hnp Hnc Hr Hex. pose proof (sem_reachable_inv _ _ _ Hr) as Hs.
  assert ((places s).*1 = replicate np Producer ++ replicate nc Consumer) as Hroles.
  { clear Hex Hs. induction Hr as [|s s' _ IH Hst]; [by cbn; rewrite fmap_app, !fmap_replicate|].
    by rewrite (sem_step_roles _ _ Hst). }
  assert (is_exiting s = false → ∀ i rp, places s !! i = Some rp → rp.2 ≠ Exited) as Hbusy.
  { clear Hex Hs Hroles. induction Hr as [|s s' _ IH Hst]; [|by eapply sem_step_busy].
    intros _ i rp Hi. cbn in Hi. apply list_elem_of_lookup_2, elem_of_app in Hi as [Hi|Hi];
      apply elem_of_replicate_inv in Hi as ->; done. }
  assert (∀ i r, (places s).*1 !! i = Some r → ∃ p, places s !! i = Some (r, p)) as Hat.
  { intros i r Hi. rewrite list_lookup_fmap in Hi. destruct (places s !! i) as [[r' p]|]; [|done].
    injection Hi as ->. eauto. }
  destruct (Hat 0%nat Producer) as [p Hp].
  { rewrite Hroles, lookup_app_l by (rewrite length_replicate; lia). by apply lookup_replicate_2. }
  destruct (Hat np Consumer) as [q Hq].
  { rewrite Hroles, lookup_app_r by (by rewrite length_replicate). rewrite length_replicate, Nat.sub_diag.
    by apply lookup_replicate_2. }
  eapply sem_progress; [done|by apply Hbusy|done|done].
Qed.

(** The consumer waits for the only item, the producer is in its critical section. *)
Lemma semaphores_progress_witness :
  ∃ k s', thread_step 0 k (sem_drive [1; 1; 0; 0; 0; 0]%nat (start 1 1)) = Next s'.
Proof.
  apply (semaphores_progress 1 1); [lia|lia| |reflexivity]. apply sem_drive_reachable, reach_start.
Defined.

(** C36: the flag does not wake a thread that waits at a
    semaphore: for any number of producers and at least one consumer the program
    can reach a state, with the flag set, from which it never ends, whatever the
    threads do: a consumer waits for an item that nobody will produce, and [main]
    waits for the consumer. *)
Theorem semaphore_exit_deadlock np nc :
  (1 ≤ nc)%nat →
  ∃ s, reachable np nc s ∧ is_exiting s = true ∧ ∀ s', rtc step s s' → main_at s' ≠ Finished.
Proof.
  intros Hnc. destruct (abandon_possible np nc Hnc) as (s & Hr & Hex & Ha). exists s. split; [done|]. split; [done|].
  intros s' Hs'. destruct (abandoned_forever _ _ _ Ha Hs') as [_ _ _ Hm]. by destruct (main_at s').
Qed.

Lemma semaphore_exit_deadlock_witness :
  ∃ s, reachable 2 2 s ∧ is_exiting s = true ∧ ∀ s', rtc step s s' → main_at s' ≠ Finished.
Proof. apply (semaphore_exit_deadlock 2 2). lia. Defined.
End semaphores.
