(* ===== verification/WorkshopProps.v ===== *)
(** * WorkshopProps: the correctness of the shell and of the prime numbers

    The theorems about workshop/my-shell.c and workshop/signal-prime-number.c. *)
From Stdlib Require Import Ascii String Znumtheory.
From stdpp Require Import prelude gmap strings.
From S2P Require Import Prelude CMonad CString Shell ShellRefine Primes.

(** A shell that has not yet allocated anything. *)
Definition sh_new (inp : list input) (fs : list (Z * bool)) (wt : list waiting) : sh :=
  Sh ∅ ∅ 1 [] inp [] true fs wt 0 [].

Lemma sh_new_ok inp fs wt : heap_ok (sh_new inp fs wt).
Proof. split; intros p b Hp; cbn in Hp; by rewrite lookup_empty in Hp. Defined.

(** ** Splitting a line *)

(** C18: [strsplit] gives a new array that ends with NULL, whose
    pointers lead to new, distinct, terminated strings: the words of the line, in
    order, each a maximal part without the delimiter, none of them empty.  All
    other blocks of memory are unchanged, the line included. *)
Theorem shell_split_words s o l r d fuel :
  heap_ok s → faults s = [] → strings s !! o = Some (string_block l r) → NUL ∉ l →
  Z.of_nat (length l) < 2 ^ 29 → (length l < fuel)%nat →
  wp (strsplit fuel o d) (λ a s', ∃ ps free,
    arrays s' = <[a := array_block ps free]> (arrays s) ∧ arrays s !! a = None ∧
    length ps = length (words d l) ∧ NoDup ps ∧
    (∀ i p w, ps !! i = Some p → words d l !! i = Some w →
       strings s !! p = None ∧ strings s' !! p = Some (string_block w [])) ∧
    (∀ q, q ∉ ps → strings s' !! q = strings s !! q) ∧
    Forall (λ w, w ≠ [] ∧ d ∉ w) (words d l)) s.
Proof.
  intros Hok Hf Ho Hn Hl Hfu. eapply wp_strsplit; [done..|]. intros a ps m nx [Hlen Hd Hps] Ha.
  exists ps, (replicate m None). split; [done|]. split; [apply fresh_array; [done|lia]|]. split_and!; [done|done| | |].
  - intros i p w Hp Hw. split; [|by eapply put_words_at].
    apply fresh_string; [done|]. rewrite Forall_forall in Hps. eapply Hps, list_elem_of_lookup_2, Hp.
  - intros q Hq. cbn. by apply put_words_other.
  - eapply Forall_impl; [apply words_ok|]. by intros w (? & ? & _).
Qed.

Definition ls_line : list ascii := chars "  ls -l  /tmp ".

Lemma ls_words : words SPACE ls_line = [chars "ls"; chars "-l"; chars "/tmp"].
Proof. reflexivity. Defined.

Definition sh_line : sh :=
  Sh {[1 := string_block ls_line []]} ∅ 2 [] [] [] true [] [] 0 [].

Lemma shell_split_words_witness :
  wp (strsplit 15 1 SPACE) (λ a s', ∃ ps free,
    arrays s' = <[a := array_block ps free]> ∅ ∧ arrays sh_line !! a = None ∧ length ps = 3%nat ∧ NoDup ps ∧
    (∀ i p w, ps !! i = Some p → words SPACE ls_line !! i = Some w →
       strings sh_line !! p = None ∧ strings s' !! p = Some (string_block w [])) ∧
    (∀ q, q ∉ ps → strings s' !! q = strings sh_line !! q) ∧
    Forall (λ w, w ≠ [] ∧ SPACE ∉ w) (words SPACE ls_line)) sh_line.
Proof.
  apply (shell_split_words sh_line 1 ls_line [] SPACE 15).
  - split; intros p b Hp; cbn in Hp.
    + apply lookup_singleton_Some in Hp as [<- _]. cbn. lia.
    + by rewrite lookup_empty in Hp.
  - reflexivity.
  - reflexivity.
  - by apply (bool_decide_unpack _).
  - cbn. lia.
  - cbn. lia.
Defined.

(** ** Rounds of the shell *)

(** C19: a line that names a program runs it and gives back all
    memory: the shell forks, sets the alarm, waits, resets the alarm and frees
    the line, every word and the array, each once, so that its memory is what it
    was before the line was read. *)
Theorem shell_command_round s line rest fuel timeout w ws pid ok fs wt :
  typed_line s line rest fuel → words SPACE line = w :: ws → w ≠ chars "exit" →
  forks s = (pid, ok) :: fs → 0 < pid → waits s = ChildEnds :: wt →
  wp (shell_round fuel timeout) (λ r s', r = inl () ∧ strings s' = strings s ∧ arrays s' = arrays s ∧
    stdin s' = rest ∧ childpid s' = pid ∧ calls s' = calls s ++ command_calls timeout pid) s.
Proof. intros Ht Hw He Hf Hp Hwt. by eapply wp_round_command. Qed.

Definition sh_ls (pid : Z) : sh := sh_new (typed [ls_line]) [(pid, true)] [ChildEnds].

Lemma sh_ls_typed pid : typed_line (sh_ls pid) ls_line [] 15.
Proof.
  split; [apply sh_new_ok|reflexivity|reflexivity|reflexivity| |cbn; lia|cbn; lia].
  by split; apply (bool_decide_unpack _).
Defined.

Lemma shell_command_round_witness :
  wp (shell_round 15 10) (λ r s', r = inl () ∧ strings s' = ∅ ∧ arrays s' = ∅ ∧ stdin s' = [] ∧ childpid s' = 77 ∧
    calls s' = [CFork 77; CAlarm 10; CWait; CAlarm 0]) (sh_ls 77).
Proof.
  apply (shell_command_round (sh_ls 77) ls_line [] 15 10 (chars "ls") [chars "-l"; chars "/tmp"] 77 true [] []);
    first [exact (sh_ls_typed 77) | reflexivity | discriminate | lia].
Defined.

(** In the child that is forked, [execve] is called with
    exactly the words of the line as its arguments. *)
Theorem shell_child_executes s line rest fuel timeout w ws fs :
  typed_line s line rest fuel → words SPACE line = w :: ws → w ≠ chars "exit" → forks s = (0, true) :: fs →
  exits (shell_round fuel timeout) (λ _ s', calls s' = calls s ++ [CFork 0; CExec (words SPACE line)]) s.
Proof. apply exits_round_child. Qed.

Lemma shell_child_executes_witness :
  exits (shell_round 15 0)
    (λ _ s', calls s' = [CFork 0; CExec [chars "ls"; chars "-l"; chars "/tmp"]]) (sh_ls 0).
Proof.
  apply (shell_child_executes (sh_ls 0) ls_line [] 15 0 (chars "ls") [chars "-l"; chars "/tmp"] []);
    first [exact (sh_ls_typed 0) | reflexivity | discriminate].
Defined.

(** C17: a whole session: any number of command lines, then a line whose first
    word is [exit].  In the shell, [main] forks once for every command, in order,
    and waits for it under the time limit of the command line; a command that runs
    into the limit is killed, by the number that [fork] gave for it, and the user is
    told; at [exit] it returns 0 with the rest of the input unread.  And in the
    child that is forked for the [k]-th line, the program executed is the one that
    this line names, with exactly the words of the line as its arguments, after the
    [k] commands before it. *)
Theorem shell_session s prog limit cmds runs rest fuel rounds ws last fs wt :
  ready s (typed cmds ++ (Key <$> last) ++ Key NEWLINE :: rest) (parents runs ++ fs) (runs.*2 ++ wt) →
  in_int (atoi_Z limit) = true →
  NUL ∉ last ∧ NEWLINE ∉ last → Z.of_nat (length last) < 2 ^ 29 → (length last < fuel)%nat →
  words SPACE last = chars "exit" :: ws →
  Forall (command_line fuel) cmds → length runs = length cmds →
  Forall (λ r, 0 < r.1 ∧ wait_ends r.2) runs → (length cmds < rounds)%nat →
  wp (shell_main true fuel rounds [prog; limit])
    (λ r s', r = 0 ∧ stdin s' = rest ∧ calls s' = calls s ++ runs_calls (atoi_Z limit) runs ∧
       stdout s' = stdout s ++ runs_output (atoi_Z limit) runs ++ CMD_PROMPT) s ∧
  ∀ k cmd, cmds !! k = Some cmd →
    exits (shell_main true fuel rounds [prog; limit])
      (λ _ s', calls s' = calls s ++ runs_calls (atoi_Z limit) (take k runs) ++ [CFork 0; CExec (words SPACE cmd)])
      (set_forks (parents (take k runs) ++ [(0, true)]) s).
Proof.
  intros Hs Hlim Hl1 Hl2 Hl3 Hw Hc Hlen Hr Hrounds. split.
  - apply wp_limit; [done|]. by eapply (wp_session_end s cmds runs rest fuel rounds (atoi_Z limit) ws last fs wt).
  - intros k cmd Hk. apply exits_limit; [done|]. by eapply exits_session_child.
Qed.

(** The second command runs into the limit. *)
Definition sh_session : sh :=
  sh_new (typed [ls_line; chars "pwd"] ++ (Key <$> chars " exit now") ++ Key NEWLINE :: []) [(77, true); (78, true)]
    [ChildEnds; AlarmRings true].

Lemma shell_session_witness :
  wp (shell_main true 15 3 [chars "my-shell"; chars "5"])
    (λ r s', r = 0 ∧ stdin s' = [] ∧
       calls s' = [CFork 77; CAlarm 5; CWait; CAlarm 0; CFork 78; CAlarm 5; CWait; CKill 78; CAlarm 0] ∧
       stdout s' = chars "> > Process timed out" ++ NEWLINE :: chars "> ") sh_session ∧
  exits (shell_main true 15 3 [chars "my-shell"; chars "5"])
    (λ _ s', calls s' = [CFork 77; CAlarm 5; CWait; CAlarm 0; CFork 0; CExec [chars "pwd"]])
    (set_forks [(77, true); (0, true)] sh_session).
Proof.
  destruct (shell_session sh_session (chars "my-shell") (chars "5") [ls_line; chars "pwd"]
    [(77, ChildEnds); (78, AlarmRings true)] [] 15 3 [chars "now"] (chars " exit now") [] []) as [H1 H2].
  - constructor; first [apply sh_new_ok | reflexivity].
  - reflexivity.
  - by split; apply (bool_decide_unpack _).
  - cbn. lia.
  - cbn. lia.
  - reflexivity.
  - repeat apply Forall_cons_2; [| |apply Forall_nil_2];
      (split_and!; [by apply (bool_decide_unpack _)|by apply (bool_decide_unpack _)|cbn; lia|cbn; lia|]);
      by do 2 eexists.
  - reflexivity.
  - repeat apply Forall_cons_2; [| |apply Forall_nil_2]; (split; [cbn; lia|discriminate]).
  - cbn. lia.
  - split; [exact H1|exact (H2 1%nat (chars "pwd") eq_refl)].
Defined.

(** A command that runs into the time limit is killed, by the number that [fork]
    gave, and the user is told. *)
Theorem shell_timeout_kills timeout wt (s : sh) :
  0 < timeout → waits s = AlarmRings true :: wt → stdout_ok s = true →
  wp (wait_child timeout)
    (λ _ s', calls s' = calls s ++ [CWait; CKill (childpid s)] ∧
       stdout s' = stdout s ++ chars "Process timed out" ++ [NEWLINE]) s.
Proof.
  intros Ht Hw Ho. eapply wp_wait_child; [done|done|done|]. cbn [calls stdout].
  unfold told, killed. by rewrite (proj2 (Z.ltb_lt _ _) Ht).
Qed.

(** A blank line leaves the line and an empty array allocated: the early
    [continue] skips the calls of [free]. *)
Theorem shell_blank_leaks s line rest fuel timeout :
  typed_line s line rest fuel → words SPACE line = [] →
  wp (shell_round fuel timeout)
    (λ r s', r = inl () ∧ calls s' = calls s ∧ ∃ p a b arr, strings s !! p = None ∧ arrays s !! a = None ∧
       strings s' = <[p := b]> (strings s) ∧ arrays s' = <[a := arr]> (arrays s)) s.
Proof.
  intros Ht Hw. eapply wp_round_blank; [done..|]. intros p a b r nx Hp Ha. cbn.
  split; [done|]. split; [by rewrite app_nil_r|]. by exists p, a, b, r.
Qed.

(** The 0 that [read] returns at the end of the input is
    taken for a character: [strscan] looks at a character that was never
    written. *)
Theorem shell_eof_undefined s fuel : heap_ok s → faults s = [] → stdin s = [] → strscan (S fuel) s = UB.
Proof. apply strscan_eof. Qed.

Lemma shell_eof_undefined_witness : strscan 1 (sh_new [] [] []) = UB.
Proof. apply (shell_eof_undefined (sh_new [] [] []) 0); [apply sh_new_ok|reflexivity|reflexivity]. Defined.

(** ** Prime numbers *)

(** C20: for every [int], [isprimeno] ends without an overflow or
    a division by zero, and says whether the number is prime in the sense of
    number theory. *)
Theorem isprimeno_correct {S} n (s : S) :
  INT_MIN ≤ n ≤ INT_MAX → wp (isprimeno n) (λ r s', s' = s ∧ r = bool_decide (prime n)) s.
Proof.
  intros Hn. apply wp_isprimeno; [done|]. intros b Hb. split; [done|].
  destruct b; symmetry; [apply bool_decide_true|apply bool_decide_false]; naive_solver.
Qed.

Lemma isprimeno_correct_witness :
  wp (isprimeno 91) (λ r s', s' = tt ∧ r = bool_decide (prime 91)) tt.
Proof. apply (isprimeno_correct 91 tt). lia. Defined.

(** When the user enters the numbers [ns] and then
    something else, the parent sends one signal for every prime among them and
    the final one, and returns 0; and a child to which these signals are
    delivered prints a line for each of the primes, says that it must go, and
    ends with status 0. *)
Theorem prime_conversation ns rest fuel (s : parent) (c : child) :
  scans s = (Number <$> ns) ++ NoNumber :: rest → kills s = [] → signals s = [] →
  Forall (λ n, INT_MIN ≤ n ≤ INT_MAX) ns → (length ns < fuel)%nat →
  wp (prime_main true 1 fuel)
    (λ r s', r = 0 ∧
       exits (child_run (signals s')) (λ z c', z = 0 ∧ child_lines c' = child_lines c ++
         replicate (length (filter (λ n, prime n) ns)) (chars "A prime number was found by the parent process") ++
         [chars "Parent process is ending, I must go now. :("]) c) s.
Proof.
  intros Hs Hk Hsig Hns Hf. apply wp_bind, wp_modify. eapply (wp_parent_loop ns rest); [done..|].
  split; [done|]. cbn [signals add_line]. rewrite Hsig, announced_replicate. apply child_told.
Qed.

Lemma prime_conversation_witness :
  wp (prime_main true 1 5)
    (λ r s', r = 0 ∧
       exits (child_run (signals s')) (λ z c', z = 0 ∧ child_lines c' = [] ++
         replicate (length (filter (λ n, prime n) [7; 8; 9; 11])) (chars "A prime number was found by the parent process") ++
         [chars "Parent process is ending, I must go now. :("]) (Child []))
    (Parent ((Number <$> [7; 8; 9; 11]) ++ [NoNumber]) None [] [] []).
Proof.
  apply (prime_conversation [7; 8; 9; 11] [] 5 (Parent ((Number <$> [7; 8; 9; 11]) ++ [NoNumber]) None [] [] []) (Child []));
    try reflexivity.
  - repeat constructor; lia.
  - cbn. lia.
Defined.

(** At the end of the input [scanf] returns -1, which the loop takes for a number:
    it never ends; when no number was read before, it uses a variable without a
    value. *)
Theorem prime_eof_spins fuel (s : parent) n :
  scans s = [] → var_n s = Some n → INT_MIN ≤ n ≤ INT_MAX → kills s = [] → parent_loop fuel s = NoFuel.
Proof. apply parent_spins. Qed.

Theorem prime_eof_undefined fuel (s : parent) : scans s = [] → var_n s = None → parent_loop (S fuel) s = UB.
Proof. apply parent_eof. Qed.
