(* ===== verification/LinkedList.v ===== *)
(** * LinkedList: workshop/linked-list.c

    A singly linked list of integers with a header that holds the first node,
    the last node and the size.  A failed [assert] aborts the program. *)
From stdpp Require Import prelude gmap.
From S2P Require Import Prelude CMonad Chain.

Notation linkedlistnode_t := (node Z).
Record linkedlist_t := LL { ll_head : ptr; ll_foot : ptr; ll_size : Z }.

Record llst := LLst {
  nodes : gmap loc linkedlistnode_t;
  lls : gmap loc linkedlist_t;
  arrays : gmap loc (list (option Z));
  ll_faults : list bool
}.
Definition set_nodes x s := LLst x (lls s) (arrays s) (ll_faults s).
Definition set_lls x s := LLst (nodes s) x (arrays s) (ll_faults s).
Definition set_arrays x s := LLst (nodes s) (lls s) x (ll_faults s).
Definition set_ll_faults x s := LLst (nodes s) (lls s) (arrays s) x.

#[export] Program Instance nodes_heap : HeapOf llst linkedlistnode_t :=
  {| heap := nodes; set_heap := set_nodes |}.
Solve All Obligations with record_cases.
#[export] Program Instance lls_heap : HeapOf llst linkedlist_t :=
  {| heap := lls; set_heap := set_lls |}.
Solve All Obligations with record_cases.
#[export] Program Instance arrays_heap : HeapOf llst (list (option Z)) :=
  {| heap := arrays; set_heap := set_arrays |}.
Solve All Obligations with record_cases.
#[export] Program Instance ll_malloc_faults : MallocFaults llst :=
  {| faults := ll_faults; set_faults := set_ll_faults |}.
Solve All Obligations with record_cases.

(** [assert]: SIGABRT when it fails. *)
Definition assert (b : bool) : C llst () := if b then mret () else exit 134.
Definition malloc_assert {T} `{HeapOf llst T} (v : T) : C llst loc :=
  p ← malloc v; match p with Some l => mret l | None => exit 134 end.

(** [size_t] arithmetic wraps around. *)
Definition size_wrap (z : Z) : Z := z mod 2 ^ 64.

Definition set_ll_head p l := LL p (ll_foot l) (ll_size l).
Definition set_ll_foot p l := LL (ll_head l) p (ll_size l).
Definition set_ll_size n l := LL (ll_head l) (ll_foot l) n.
Definition size_incr (list : loc) : C llst () :=
  update (Some list) (λ l, set_ll_size (size_wrap (ll_size l + 1)) l).
Definition size_decr (list : loc) : C llst () :=
  update (Some list) (λ l, set_ll_size (size_wrap (ll_size l - 1)) l).

(** The argument [list] is never NULL here, so the first conjunct of the
    assertions holds. *)
Definition consistent (l : linkedlist_t) : bool :=
  let isheadnull := bool_decide (ll_head l = NULL) in
  let isfootnull := bool_decide (ll_foot l = NULL) in
  let isempty := ll_size l =? 0 in
  Bool.eqb isheadnull isfootnull && Bool.eqb isfootnull isempty.

Definition isconsistentlinkedlist (list : loc) : C llst bool :=
  l ← load (T:=linkedlist_t) (Some list); mret (consistent l).

Definition newlinkedlist : C llst loc := malloc_assert (LL NULL NULL 0).

Definition freelinkedlist (list : ptr) : C llst () :=
  match list with
  | Some _ =>
      l ← load (T:=linkedlist_t) list;
      walk (V:=Z) (λ _ c _, free (T:=linkedlistnode_t) (Some c)) () (ll_head l);;
      free (T:=linkedlist_t) list
  | None => mret ()
  end.

(** [for (i = 0; i < k; i++) { assert(node != NULL); node = node->next; }] *)
Definition nodeat (k : Z) (p : ptr) : C llst ptr :=
  iter (S (Z.to_nat k)) (λ '(i, node),
    if i <? k then
      assert (bool_decide (node ≠ NULL));;
      nd ← load (T:=linkedlistnode_t) node;
      i ← int_add i 1;
      mret (inl (i, next nd))
    else mret (inr node)) (0, p).

Definition getatlinkedlist (list : loc) (index : Z) : C llst Z :=
  l ← load (T:=linkedlist_t) (Some list);
  assert (bool_decide (ll_head l ≠ NULL) && (index <? ll_size l));;
  node ← nodeat index (ll_head l);
  nd ← load (T:=linkedlistnode_t) node;
  mret (data nd).

Definition appendlinkedlist (list : loc) (x : Z) : C llst () :=
  c ← isconsistentlinkedlist list;
  assert c;;
  node ← malloc_assert (T:=linkedlistnode_t) (Node NULL x);
  l ← load (T:=linkedlist_t) (Some list);
  if ll_size l =? 0 then
    store (Some list) (LL (Some node) (Some node) 1)
  else
    set_next (V:=Z) (ll_foot l) (Some node);;
    update (Some list) (set_ll_foot (Some node));;
    size_incr list.

Definition addlinkedlist (list : loc) (index x : Z) : C llst () :=
  l ← load (T:=linkedlist_t) (Some list);
  c ← isconsistentlinkedlist list;
  assert ((index <=? ll_size l) && c);;
  node ← malloc_assert (T:=linkedlistnode_t) (Node NULL x);
  if ll_size l =? 0 then
    store (Some list) (LL (Some node) (Some node) 1)
  else if index =? 0 then
    set_next (V:=Z) (Some node) (ll_head l);;
    update (Some list) (set_ll_head (Some node));;
    size_incr list
  else if index =? ll_size l then
    set_next (V:=Z) (ll_foot l) (Some node);;
    update (Some list) (set_ll_foot (Some node));;
    size_incr list
  else
    nodei ← nodeat (index - 1) (ll_head l);
    ni ← load (T:=linkedlistnode_t) nodei;
    set_next (V:=Z) (Some node) (next ni);;
    set_next (V:=Z) nodei (Some node);;
    size_incr list.

Definition poplinkedlist (list : loc) : C llst Z :=
  l ← load (T:=linkedlist_t) (Some list);
  c ← isconsistentlinkedlist list;
  assert (bool_decide (ll_head l ≠ NULL) && c);;
  foot ← load (T:=linkedlistnode_t) (ll_foot l);
  n ← list_fuel (V:=Z);
  iter n (λ node,
    match node with
    | None => mret (inr ())
    | Some _ =>
        nd ← load (T:=linkedlistnode_t) node;
        l ← load (T:=linkedlist_t) (Some list);
        (if bool_decide (next nd = ll_foot l) then
           free (T:=linkedlistnode_t) (ll_foot l);;
           update (Some list) (set_ll_foot node);;
           set_next (V:=Z) node NULL;;
           size_decr list
         else mret ());;
        nd ← load (T:=linkedlistnode_t) node;
        mret (inl (next nd))
    end) (ll_head l);;
  mret (data foot).

Definition removeatlinkedlist (list : loc) (index : Z) : C llst Z :=
  l ← load (T:=linkedlist_t) (Some list);
  c ← isconsistentlinkedlist list;
  assert ((index <? ll_size l) && c);;
  if ll_size l =? 1 then
    hd ← load (T:=linkedlistnode_t) (ll_head l);
    free (T:=linkedlistnode_t) (ll_head l);;
    store (Some list) (LL NULL NULL 0);;
    mret (data hd)
  else if index =? 0 then
    nd ← load (T:=linkedlistnode_t) (ll_head l);
    update (Some list) (set_ll_head (next nd));;
    free (T:=linkedlistnode_t) (ll_head l);;
    size_decr list;;
    mret (data nd)
  else
    nodei ← nodeat (index - 1) (ll_head l);
    ni ← load (T:=linkedlistnode_t) nodei;
    let node := next ni in
    (if index =? size_wrap (ll_size l - 1) then assert (bool_decide (node = ll_foot l)) else mret ());;
    nd ← load (T:=linkedlistnode_t) node;
    set_next (V:=Z) nodei (next nd);;
    free (T:=linkedlistnode_t) node;;
    (if index =? size_wrap (ll_size l - 1) then update (Some list) (set_ll_foot nodei) else mret ());;
    size_decr list;;
    mret (data nd).

Definition removefromlinkedlist (list : loc) (x : Z) : C llst Z :=
  c ← isconsistentlinkedlist list;
  assert c;;
  l ← load (T:=linkedlist_t) (Some list);
  '(prevnode, node) ← scan (V:=Z) (λ y, y =? x) (ll_head l);
  match node with
  | None => mret 0
  | Some _ =>
      (if ll_size l =? 1 then
         free (T:=linkedlistnode_t) (ll_head l);;
         store (Some list) (LL NULL NULL 0)
       else
         nd ← load (T:=linkedlistnode_t) node;
         if bool_decide (node = ll_head l) then
           update (Some list) (set_ll_head (next nd));;
           free (T:=linkedlistnode_t) node;;
           size_decr list
         else
           set_next (V:=Z) prevnode (next nd);;
           (if bool_decide (node = ll_foot l) then update (Some list) (set_ll_foot prevnode)
            else mret ());;
           free (T:=linkedlistnode_t) node;;
           size_decr list);;
      mret 1
  end.

(** The function returns a [size_t]: -1 becomes the largest one. *)
Definition indexoflinkedlist (list : loc) (x : Z) : C llst Z :=
  l ← load (T:=linkedlist_t) (Some list);
  n ← list_fuel (V:=Z);
  i ← iter n (λ '(i, node),
    match node with
    | None => mret (inr (-1))
    | Some _ =>
        nd ← load (T:=linkedlistnode_t) node;
        if data nd =? x then mret (inr i)
        else i ← int_add i 1; mret (inl (i, next nd))
    end) (0, ll_head l);
  mret (size_wrap i).

Definition toarraylinkedlist (list : loc) : C llst loc :=
  l ← load (T:=linkedlist_t) (Some list);
  array ← malloc_assert (T:=Datatypes.list (option Z)) (replicate (Z.to_nat (ll_size l)) None);
  walk (V:=Z) (λ i _ y,
    cells ← load (T:=Datatypes.list (option Z)) (Some array);
    (if bool_decide (0 ≤ i < Z.of_nat (length cells))
     then store (Some array) (<[Z.to_nat i := Some y]> cells) else ub);;
    int_add i 1) 0 (ll_head l);;
  mret array.

(** The test program at the end of the file: the numbers it prints. *)
Definition linked_list_main : C llst (list Z) :=
  list ← newlinkedlist;
  appendlinkedlist list 11;;
  appendlinkedlist list 22;;
  appendlinkedlist list 33;;
  appendlinkedlist list 44;;
  addlinkedlist list 4 55;;
  addlinkedlist list 5 66;;
  addlinkedlist list 6 77;;
  addlinkedlist list 7 88;;
  addlinkedlist list 0 0;;
  appendlinkedlist list 99;;
  p1 ← poplinkedlist list;
  p2 ← poplinkedlist list;
  p3 ← poplinkedlist list;
  r1 ← removeatlinkedlist list 0;
  r2 ← removeatlinkedlist list 4;
  l ← load (T:=linkedlist_t) (Some list);
  iter (S (Z.to_nat (ll_size l))) (λ '(i, out),
    l ← load (T:=linkedlist_t) (Some list);
    if i <? ll_size l then
      v ← getatlinkedlist list i;
      i ← int_add i 1;
      mret (inl (i, out ++ [v]))
    else mret (inr out)) (0, [p1; p2; p3; r1; r2]).
