(* ===== verification/LinkedListRefine.v ===== *)
(** * LinkedListRefine: the linked list as a sequence

    [ll_rep list l s]: the header [list] and the nodes on the heap represent the
    sequence [l], and there are no other nodes.  Each operation is related to
    the operation on the sequence. *)
From stdpp Require Import prelude gmap.
From S2P Require Import Prelude CMonad Chain LinkedList.

Definition ll_rep (list : loc) (l : Datatypes.list (loc * Z)) (s : llst) : Prop :=
  lls s !! list = Some (LL (head_ptr l) (last_ptr l) (Z.of_nat (length l))) ∧ owns (nodes s) l.

(** The lists that an [int] can count. *)
Notation short l := (Z.of_nat (length l) < INT_MAX).

Lemma consistent_rep (l : list (loc * Z)) :
  consistent (LL (head_ptr l) (last_ptr l) (Z.of_nat (length l))) = true.
Proof.
  unfold consistent. simpl. destruct l as [|[a v] l _] using rev_ind; [done|].
  rewrite last_ptr_snoc, length_app. simpl.
  destruct (head_ptr (l ++ [(a, v)])) eqn:E; [|by destruct l].
  rewrite !bool_decide_false by done. destruct (Z.eqb_spec (Z.of_nat (length l + 1)) 0); [lia|done].
Qed.

Lemma size_wrap_id z : 0 ≤ z < 2 ^ 64 → size_wrap z = z.
Proof. apply Z.mod_small. Qed.

Section rules.
Implicit Types s : llst.

Lemma wp_assert b (Q : () → llst → Prop) s : b = true → Q () s → wp (assert b) Q s.
Proof. by intros ->. Qed.

Lemma wp_malloc_assert {T} `{HeapOf llst T} (v : T) Q s :
  ll_faults s = [] →
  (∀ l, heap s !! l = None → Q l (set_heap (<[l:=v]> (heap s)) s)) →
  wp (malloc_assert v) Q s.
Proof.
  intros Hf HQ. pose proof (wp_malloc v Q s Hf HQ) as Hw.
  unfold malloc_or_exit, malloc_assert, wp, mbind, C_bind in *.
  destruct (malloc v s) as [[l|] s'| | |]; done.
Qed.

Lemma wp_nodeat l1 l2 k p Q s :
  chain (nodes s) p (l1 ++ l2) NULL → k = Z.of_nat (length l1) → short l1 →
  Q (head_ptr l2) s → wp (nodeat k p) Q s.
Proof.
  intros Hc -> Hs HQ.
  apply (wp_iter_idx (λ j '(i, q) s', s' = s ∧ ∃ m1 m2, l1 = m1 ++ m2 ∧ j = length m2 ∧
    i = Z.of_nat (length m1) ∧ chain (nodes s) q (m2 ++ l2) NULL)) with (k := length l1).
  - intros j [i q] s' (-> & m1 & m2 & -> & -> & -> & Hq). rewrite length_app in Hs |- *.
    destruct m2 as [|[a v] m2].
    + rewrite Nat.add_0_r, Z.ltb_irrefl. apply wp_ret. by rewrite (chain_head _ _ _ Hq).
    + destruct Hq as (-> & r & Ha & Hq). simpl length in *.
      rewrite (proj2 (Z.ltb_lt _ _)) by lia. apply wp_bind, wp_assert; [done|].
      apply wp_bind. eapply wp_load; [exact Ha|]. apply wp_bind. wp_step. apply wp_ret.
      exists (length m2). split; [lia|]. split; [done|]. exists (m1 ++ [(a, v)]), m2.
      rewrite <- app_assoc, length_app. simpl. split; [done|]. split; [done|]. split; [lia|done].
  - split; [done|]. by exists [], l1.
  - lia.
Qed.
End rules.

Lemma last_ptr_mid {V} (l1 : list (loc * V)) a v w l2 :
  last_ptr (l1 ++ (a, v) :: l2) = last_ptr (l1 ++ (a, w) :: l2).
Proof.
  unfold last_ptr. destruct l2 as [|x l2 _] using rev_ind; [by rewrite !last_snoc|].
  by rewrite !app_comm_cons, !app_assoc, !last_snoc.
Qed.

Section ops.
Context {list : loc} {l : Datatypes.list (loc * Z)} {s : llst}.
Context (Hrep : ll_rep list l s) (Hshort : short l).

Lemma wp_consistent (Q : bool → llst → Prop) : Q true s → wp (isconsistentlinkedlist list) Q s.
Proof.
  intros HQ. apply wp_bind. eapply wp_load; [apply Hrep|]. apply wp_ret. by rewrite consistent_rep.
Qed.

Lemma wp_getat l1 a v l2 (Q : Z → llst → Prop) :
  l = l1 ++ (a, v) :: l2 → Q v s → wp (getatlinkedlist list (Z.of_nat (length l1))) Q s.
Proof.
  intros Hl HQ. destruct Hrep as [Hh Ho]. apply wp_bind. eapply wp_load; [exact Hh|].
  apply wp_bind, wp_assert.
  { apply andb_true_intro. split; [apply bool_decide_eq_true; by rewrite Hl; destruct l1|].
    apply Z.ltb_lt. simpl. rewrite Hl, length_app. simpl. lia. }
  apply wp_bind. rewrite Hl in Ho. eapply (wp_nodeat l1 ((a, v) :: l2)).
  - simpl. rewrite Hl. apply Ho.
  - done.
  - rewrite Hl, length_app in Hshort. lia.
  - apply wp_bind. eapply wp_load; [simpl; by eapply owns_lookup|]. by apply wp_ret.
Qed.

(** The new node [a] becomes the last one. *)
Lemma wp_link_foot a x (Q : () → llst → Prop) :
  nodes s !! a = None → l ≠ [] →
  (∀ s', ll_rep list (l ++ [(a, x)]) s' → ll_faults s' = ll_faults s → Q () s') →
  wp (set_next (V:=Z) (last_ptr l) (Some a);;
      update (Some list) (set_ll_foot (Some a));;
      size_incr list) Q (set_nodes (<[a:=Node NULL x]> (nodes s)) s).
Proof.
  intros Ha Hne HQ. destruct Hrep as [Hh Ho].
  destruct (snoc_cases l) as [?|(l' & [b y] & Hl)]; [done|].
  assert (Hlast : last_ptr l = Some b) by (rewrite Hl; apply last_ptr_snoc).
  rewrite Hlast in *. rewrite Hl in Ho. pose proof (owns_lookup _ _ _ _ _ Ho) as Hb.
  assert (Hab : a ≠ b) by congruence.
  apply wp_bind. eapply wp_set_next; [simpl; rewrite lookup_insert_ne by done; exact Hb|].
  apply wp_bind. eapply wp_update; [exact Hh|].
  eapply wp_update; [simpl; apply lookup_insert_eq|]. simpl. rewrite insert_insert_eq.
  apply HQ; [|done]. split; simpl.
  - rewrite lookup_insert_eq. unfold set_ll_size, set_ll_foot. simpl.
    rewrite size_wrap_id by lia. rewrite last_ptr_snoc, length_app, Hl.
    rewrite <- app_assoc. simpl. rewrite (head_ptr_mid l' b y y [] [(a, x)]). do 2 f_equal. simpl. lia.
  - rewrite Hl, <- app_assoc. by apply (owns_insert_after _ _ _ _ _ _ []).
Qed.

Lemma wp_appendll x (Q : () → llst → Prop) :
  ll_faults s = [] →
  (∀ a s', ll_rep list (l ++ [(a, x)]) s' → ll_faults s' = [] → Q () s') →
  wp (appendlinkedlist list x) Q s.
Proof.
  intros Hf HQ. pose proof Hrep as [Hh Ho].
  apply wp_bind, wp_consistent, wp_bind, wp_assert; [done|].
  apply wp_bind, wp_malloc_assert; [done|]. intros a Ha. simpl in Ha.
  apply wp_bind. eapply wp_load; [exact Hh|]. cbn [ll_size ll_foot].
  destruct (decide (l = [])) as [El|Hne].
  - rewrite El in *. simpl. eapply wp_store; [exact Hh|]. apply (HQ a); [|done].
    split; simpl; [apply lookup_insert_eq|]. by apply (owns_push _ _ _ []).
  - destruct (Z.eqb_spec (Z.of_nat (length l)) 0) as [E|_]; [destruct l; [done|simpl in E; lia]|].
    apply wp_link_foot; [done|done|]. intros s' Hr Hf'. apply (HQ a); [done|congruence].
Qed.

Lemma wp_addll l1 l2 x (Q : () → llst → Prop) :
  ll_faults s = [] → l = l1 ++ l2 →
  (∀ a s', ll_rep list (l1 ++ (a, x) :: l2) s' → ll_faults s' = [] → Q () s') →
  wp (addlinkedlist list (Z.of_nat (length l1)) x) Q s.
Proof.
  intros Hf Hl HQ. pose proof Hrep as [Hh Ho].
  assert (Hlen : length l = (length l1 + length l2)%nat) by by rewrite Hl, length_app.
  apply wp_bind. eapply wp_load; [exact Hh|]. apply wp_bind, wp_consistent, wp_bind, wp_assert.
  { simpl. rewrite andb_true_r. apply Z.leb_le. lia. }
  apply wp_bind, wp_malloc_assert; [done|]. intros a Ha. simpl in Ha. cbn [ll_size ll_foot ll_head].
  destruct (Z.eqb_spec (Z.of_nat (length l)) 0) as [E0|E0].
  { assert (l1 = [] ∧ l2 = []) as [-> ->] by (split; apply nil_length_inv; lia).
    rewrite Hl in *. eapply wp_store; [exact Hh|]. apply (HQ a); [|done].
    split; simpl; [apply lookup_insert_eq|]. by apply (owns_push _ _ _ []). }
  destruct (Z.eqb_spec (Z.of_nat (length l1)) 0) as [E1|E1].
  { assert (l1 = []) as -> by (apply nil_length_inv; lia). simpl in Hl. rewrite <- Hl in *.
    apply wp_bind. eapply wp_set_next; [apply lookup_insert_eq|].
    apply wp_bind. eapply wp_update; [exact Hh|]. eapply wp_update; [apply lookup_insert_eq|].
    apply (HQ a); [|done]. simpl. rewrite !insert_insert_eq. split; simpl.
    - rewrite lookup_insert_eq. unfold set_ll_size, set_ll_head. simpl.
      rewrite size_wrap_id by lia. destruct (snoc_cases l) as [->|(l' & [b y] & ->)]; [done|].
      rewrite app_comm_cons, !last_ptr_snoc. do 2 f_equal. simpl. lia.
    - by apply owns_push. }
  destruct (Z.eqb_spec (Z.of_nat (length l1)) (Z.of_nat (length l))) as [E2|E2].
  { assert (l2 = []) as -> by (apply nil_length_inv; lia). rewrite app_nil_r in Hl. subst l1.
    apply wp_link_foot; [done|by intros ->|]. intros s' Hr Hf'. apply (HQ a); [done|congruence]. }
  destruct (snoc_cases l1) as [->|(l1' & [b y] & ->)]; [done|]. rewrite <- app_assoc in Hl.
  simpl in Hl. rewrite length_app in *. simpl in *. rewrite Hl in Ho.
  pose proof (owns_lookup _ _ _ _ _ Ho) as Hb. assert (Hab : a ≠ b) by congruence.
  apply wp_bind. eapply (wp_nodeat l1' ((b, y) :: l2)); [|lia|lia|].
  { simpl. apply chain_frame_insert; [by eapply owns_fresh|]. rewrite Hl. apply Ho. }
  apply wp_bind. eapply wp_load; [simpl; rewrite lookup_insert_ne by done; exact Hb|].
  apply wp_bind. eapply wp_set_next; [apply lookup_insert_eq|].
  apply wp_bind. eapply wp_set_next; [simpl; rewrite !lookup_insert_ne by done; exact Hb|].
  eapply wp_update; [exact Hh|]. apply (HQ a); [|done]. simpl. rewrite insert_insert_eq.
  split; simpl.
  - rewrite lookup_insert_eq. unfold set_ll_size. simpl. rewrite size_wrap_id by lia.
    rewrite <- app_assoc. simpl. rewrite Hl, (head_ptr_mid l1' b y y l2 ((a, x) :: l2)).
    destruct (snoc_cases l2) as [->|(l2' & [c z] & ->)]; [simpl in *; lia|].
    rewrite !app_comm_cons, !app_assoc, !last_ptr_snoc, !length_app. do 2 f_equal.
    simpl. lia.
  - rewrite <- app_assoc. by apply owns_insert_after.
Qed.

(** Taking the last node off a list of at least two. *)
Lemma wp_popll l' b y c z (Q : Z → llst → Prop) :
  l = l' ++ [(b, y); (c, z)] →
  (∀ s', ll_rep list (l' ++ [(b, y)]) s' → ll_faults s' = ll_faults s → Q z s') →
  wp (poplinkedlist list) Q s.
Proof.
  intros Hl HQ. pose proof Hrep as [Hh Ho].
  assert (Hlast : last_ptr l = Some c).
  { rewrite Hl. change [(b, y); (c, z)] with ([(b, y)] ++ [(c, z)]). rewrite app_assoc. apply last_ptr_snoc. }
  assert (Hlen : length l = (length l' + 2)%nat) by by rewrite Hl, length_app.
  rewrite Hlast in *. rewrite Hl in Ho. pose proof Ho as [Hch Hdom].
  destruct (chain_NoDup_mid _ _ l' b y [(c, z)] Hch) as [Hb1 Hb2].
  assert (c ∉ l'.*1 ∧ b ≠ c ∧ nodes s !! c = Some (Node NULL z)) as (Hc1 & Hbc & Hc).
  { change [(b, y); (c, z)] with ([(b, y)] ++ [(c, z)]) in *. rewrite app_assoc in *.
    destruct (chain_NoDup_mid _ _ _ _ _ _ Hch) as [Hn _]. rewrite fmap_app in Hn. simpl in Hn.
    split; [set_solver|]. split; [set_solver|]. by eapply (owns_lookup _ _ _ _ []). }
  apply wp_bind. eapply wp_load; [exact Hh|]. apply wp_bind, wp_consistent, wp_bind, wp_assert.
  { simpl. rewrite andb_true_r. apply bool_decide_eq_true. rewrite Hl. by destruct l'. }
  cbn [ll_foot ll_head]. apply wp_bind. eapply wp_load; [exact Hc|].
  apply wp_bind, wp_get, wp_bind.
  eapply wp_mono with (P := λ _ s', ll_rep list (l' ++ [(b, y)]) s' ∧ ll_faults s' = ll_faults s).
  2: { intros _ s' [Hr Hf']. apply wp_ret. by apply HQ. }
  apply (wp_iter_idx (λ k q s', (∃ m1 m2, l' = m1 ++ m2 ∧ k = (2 + length m2)%nat ∧ s' = s ∧
      chain (nodes s) q (m2 ++ [(b, y); (c, z)]) NULL) ∨
    (k = 0%nat ∧ q = NULL ∧ ll_rep list (l' ++ [(b, y)]) s' ∧ ll_faults s' = ll_faults s)))
    with (k := (2 + length l')%nat).
  - intros k q s' [(m1 & m2 & Hm & -> & -> & Hq)|(-> & -> & Hr & Hf)]; [|by apply wp_ret].
    destruct m2 as [|[a v] m2]; simpl in Hq.
    + destruct Hq as (-> & r & Hb & -> & _). rewrite app_nil_r in Hm.
      apply wp_bind. eapply wp_load; [exact Hb|]. apply wp_bind. eapply wp_load; [exact Hh|].
      simpl. rewrite bool_decide_true by done. apply wp_bind, wp_bind.
      eapply wp_free; [exact Hc|]. apply wp_bind. eapply wp_update; [exact Hh|].
      apply wp_bind. eapply wp_set_next; [simpl; rewrite lookup_delete_ne by done; exact Hb|].
      eapply wp_update; [apply lookup_insert_eq|].
      apply wp_bind. eapply wp_load; [apply lookup_insert_eq|]. apply wp_ret.
      exists 0%nat. split; [simpl; lia|]. right. simpl. split; [done|]. split; [done|]. split; [|done].
      rewrite insert_insert_eq. split; simpl.
      * rewrite lookup_insert_eq. unfold set_ll_size, set_ll_foot. simpl.
        rewrite Hl, last_ptr_snoc, (head_ptr_mid l' b y y [(c, z)] []).
        rewrite !length_app. simpl. rewrite size_wrap_id by lia. do 2 f_equal. lia.
      * rewrite <- delete_insert_ne by done. by apply (owns_remove_after _ _ _ _ _ z []).
    + destruct Hq as (-> & r & Ha & Hq). apply wp_bind. eapply wp_load; [exact Ha|].
      apply wp_bind. eapply wp_load; [exact Hh|]. simpl.
      rewrite bool_decide_false; last first.
      { intros ->. destruct m2 as [|[d u] m2]; simpl in Hq; [naive_solver|].
        destruct Hq as ([= ->] & _). subst l'. rewrite fmap_app in Hc1. simpl in Hc1. set_solver. }
      apply wp_bind, wp_ret, wp_bind. eapply wp_load; [exact Ha|]. apply wp_ret.
      exists (2 + length m2)%nat. split; [simpl; lia|]. left. exists (m1 ++ [(a, v)]), m2.
      rewrite <- app_assoc. done.
  - left. exists [], l'. rewrite Hl. done.
  - pose proof (chain_subset_size _ _ _ Hch). rewrite length_app in *. simpl in *. lia.
Qed.

(** The list's only node stays where it is. *)
Lemma wp_popll_single a v (Q : Z → llst → Prop) :
  l = [(a, v)] → Q v s → wp (poplinkedlist list) Q s.
Proof.
  intros Hl HQ. pose proof Hrep as [Hh Ho]. rewrite Hl in *.
  pose proof (owns_lookup _ [] _ _ _ Ho) as Ha.
  apply wp_bind. eapply wp_load; [exact Hh|]. apply wp_bind.
  apply wp_bind. eapply wp_load; [exact Hh|]. apply wp_ret, wp_bind, wp_assert; [done|].
  apply wp_bind. eapply wp_load; [exact Ha|]. apply wp_bind, wp_get, wp_bind.
  apply (wp_iter_idx (λ k q s', s' = s ∧ (k = 1%nat ∧ q = Some a ∨ k = 0%nat ∧ q = NULL)))
    with (k := 1%nat).
  - intros k q s' [-> [[-> ->]|[-> ->]]]; [|by apply wp_ret, wp_ret].
    apply wp_bind. eapply wp_load; [exact Ha|]. apply wp_bind. eapply wp_load; [exact Hh|].
    simpl. apply wp_bind, wp_ret, wp_bind. eapply wp_load; [exact Ha|]. apply wp_ret.
    exists 0%nat. split; [lia|]. auto.
  - auto.
  - pose proof (chain_subset_size _ _ _ (proj1 Ho)). simpl in *. lia.
Qed.

(** Unlinking the node after [b], wherever it is. *)
Lemma ll_rep_unlink l1 b w a v l2 f :
  l = l1 ++ (b, w) :: (a, v) :: l2 →
  f = last_ptr (l1 ++ (b, w) :: l2) →
  ll_rep list (l1 ++ (b, w) :: l2)
    (LLst (delete a (<[b:=Node (head_ptr l2) w]> (nodes s)))
       (<[list := LL (head_ptr l) f (size_wrap (Z.of_nat (length l) - 1))]> (lls s))
       (arrays s) (ll_faults s)).
Proof.
  intros Hl ->. destruct Hrep as [Hh Ho]. rewrite Hl in Ho. split; simpl.
  - rewrite lookup_insert_eq, size_wrap_id.
    + rewrite Hl, (head_ptr_mid l1 b w w l2 ((a, v) :: l2)), !length_app. simpl. do 2 f_equal. lia.
    + rewrite Hl, length_app in *. simpl in *. lia.
  - by apply owns_remove_after with (v := v).
Qed.

Lemma ll_rep_clear a v :
  l = [(a, v)] →
  ll_rep list [] (LLst (delete a (nodes s)) (<[list := LL NULL NULL 0]> (lls s))
                       (arrays s) (ll_faults s)).
Proof.
  intros Hl. destruct Hrep as [Hh Ho]. rewrite Hl in Ho.
  split; simpl; [apply lookup_insert_eq|]. by apply owns_pop in Ho.
Qed.

Lemma ll_rep_behead a v l2 :
  l = (a, v) :: l2 → l2 ≠ [] →
  ll_rep list l2
    (LLst (delete a (nodes s))
       (<[list := LL (head_ptr l2) (last_ptr l) (size_wrap (Z.of_nat (length l) - 1))]> (lls s))
       (arrays s) (ll_faults s)).
Proof.
  intros Hl Hne. destruct Hrep as [Hh Ho]. rewrite Hl in *. split; simpl in *.
  - rewrite lookup_insert_eq, size_wrap_id by lia. do 2 f_equal; [|lia].
    destruct (snoc_cases l2) as [->|(l2' & [c z] & ->)]; [done|].
    by rewrite app_comm_cons, !last_ptr_snoc.
  - by apply owns_pop in Ho.
Qed.

Lemma last_ptr_unlink (l1 : Datatypes.list (loc * Z)) b w a v l2 :
  l2 ≠ [] → last_ptr (l1 ++ (b, w) :: (a, v) :: l2) = last_ptr (l1 ++ (b, w) :: l2).
Proof.
  intros Hne. destruct (snoc_cases l2) as [->|(l2' & [c z] & ->)]; [done|].
  by rewrite !app_comm_cons, !app_assoc, !last_ptr_snoc.
Qed.

Lemma last_ptr_two (l1 : Datatypes.list (loc * Z)) b w a v l2 :
  NoDup ((l1 ++ (b, w) :: (a, v) :: l2).*1) →
  Some a = last_ptr (l1 ++ (b, w) :: (a, v) :: l2) ↔ l2 = [].
Proof.
  assert (∀ k, l1 ++ (b, w) :: (a, v) :: k = (l1 ++ [(b, w)]) ++ (a, v) :: k) as ->
    by (intros; by rewrite <- app_assoc).
  intros Hnd. split; [|intros ->; by rewrite last_ptr_snoc].
  destruct (snoc_cases l2) as [|(l2' & [c z] & ->)]; [done|].
  rewrite app_comm_cons, app_assoc, last_ptr_snoc in *. intros [= ->].
  rewrite !fmap_app in Hnd. apply NoDup_app in Hnd as (_ & Hnd & _).
  exfalso. apply (Hnd c); set_solver.
Qed.

(** A node with a predecessor [b]. *)
Lemma owns_two l1 b w a v l2 :
  l = l1 ++ (b, w) :: (a, v) :: l2 →
  nodes s !! b = Some (Node (Some a) w) ∧ nodes s !! a = Some (Node (head_ptr l2) v) ∧ a ≠ b ∧
  NoDup ((l1 ++ (b, w) :: (a, v) :: l2).*1).
Proof.
  intros Hl. destruct Hrep as [_ Ho]. rewrite Hl in Ho.
  pose proof (owns_NoDup _ _ Ho) as Hnd. split; [by apply owns_lookup in Ho|].
  split; [|split; [|done]].
  - apply (owns_lookup _ (l1 ++ [(b, w)])). by rewrite <- app_assoc.
  - intros ->. rewrite fmap_app in Hnd. apply NoDup_app in Hnd as (_ & _ & Hnd).
    simpl in Hnd. apply NoDup_cons in Hnd. set_solver.
Qed.

Lemma wp_removeatll l1 a v l2 (Q : Z → llst → Prop) :
  l = l1 ++ (a, v) :: l2 →
  (∀ s', ll_rep list (l1 ++ l2) s' → ll_faults s' = ll_faults s → Q v s') →
  wp (removeatlinkedlist list (Z.of_nat (length l1))) Q s.
Proof.
  intros Hl HQ. pose proof Hrep as [Hh Ho].
  assert (Hlen : length l = (length l1 + S (length l2))%nat) by by rewrite Hl, length_app.
  pose proof Ho as Ho'. rewrite Hl in Ho'. pose proof (owns_lookup _ _ _ _ _ Ho') as Ha.
  apply wp_bind. eapply wp_load; [exact Hh|]. apply wp_bind, wp_consistent, wp_bind, wp_assert.
  { simpl. rewrite andb_true_r. apply Z.ltb_lt. lia. }
  cbn [ll_size ll_foot ll_head].
  destruct (Z.eqb_spec (Z.of_nat (length l)) 1) as [E1|E1].
  { assert (l1 = [] ∧ l2 = []) as [-> ->] by (split; apply nil_length_inv; lia).
    rewrite Hl. apply wp_bind. eapply wp_load; [exact Ha|].
    apply wp_bind. eapply wp_free; [exact Ha|]. apply wp_bind.
    eapply wp_store; [exact Hh|]. apply wp_ret, HQ; [by eapply ll_rep_clear|done]. }
  destruct (Z.eqb_spec (Z.of_nat (length l1)) 0) as [E0|E0].
  { assert (l1 = []) as -> by (apply nil_length_inv; lia).
    assert (l2 ≠ []) by (intros ->; simpl in *; lia).
    replace (head_ptr l) with (Some a) in * by by rewrite Hl.
    apply wp_bind. eapply wp_load; [exact Ha|]. apply wp_bind. eapply wp_update; [exact Hh|].
    apply wp_bind. eapply wp_free; [exact Ha|]. apply wp_bind.
    eapply wp_update; [apply lookup_insert_eq|]. apply wp_ret, HQ; [|done].
    simpl. rewrite insert_insert_eq. by eapply ll_rep_behead. }
  destruct (snoc_cases l1) as [->|(l1' & [b w] & ->)]; [done|].
  rewrite <- app_assoc in *. simpl in *. rewrite length_app in *. simpl in *.
  destruct (owns_two _ _ _ _ _ _ Hl) as (Hb & _ & Hab & Hnd).
  apply wp_bind. eapply (wp_nodeat l1' ((b, w) :: (a, v) :: l2)); [|lia|lia|].
  { rewrite Hl. apply Ho'. }
  apply wp_bind. eapply wp_load; [exact Hb|]. simpl. apply wp_bind.
  rewrite size_wrap_id by lia.
  assert (Hfoot : (Z.of_nat (length l1' + 1) = Z.of_nat (length l) - 1) ↔ l2 = []).
  { rewrite Hlen. split; [intros; apply nil_length_inv; lia|intros ->; simpl; lia]. }
  destruct (Z.eqb_spec (Z.of_nat (length l1' + 1)) (Z.of_nat (length l) - 1)) as [E|E].
  - apply Hfoot in E as ->. rewrite bool_decide_true
      by (rewrite Hl; by apply last_ptr_two).
    apply wp_ret, wp_bind. eapply wp_load; [exact Ha|].
    apply wp_bind. eapply wp_set_next; [exact Hb|].
    apply wp_bind. eapply wp_free; [simpl; rewrite lookup_insert_ne by done; exact Ha|].
    apply wp_bind. eapply wp_update; [exact Hh|]. apply wp_bind.
    eapply wp_update; [apply lookup_insert_eq|]. apply wp_ret, HQ; [|done].
    simpl. rewrite insert_insert_eq. eapply ll_rep_unlink; [exact Hl|].
    simpl. by rewrite last_ptr_snoc.
  - apply wp_ret, wp_bind. eapply wp_load; [exact Ha|].
    apply wp_bind. eapply wp_set_next; [exact Hb|].
    apply wp_bind. eapply wp_free; [simpl; rewrite lookup_insert_ne by done; exact Ha|].
    apply wp_bind, wp_ret, wp_bind.
    eapply wp_update; [exact Hh|]. apply wp_ret, HQ; [|done].
    simpl. eapply ll_rep_unlink; [exact Hl|]. rewrite Hl. apply last_ptr_unlink. tauto.
Qed.

(** Removing the first node that holds [x]. *)
Lemma wp_removefromll x (Q : Z → llst → Prop) :
  (∀ l1 a l2 s', l = l1 ++ (a, x) :: l2 → x ∉ l1.*2 → ll_rep list (l1 ++ l2) s' →
     ll_faults s' = ll_faults s → Q 1 s') →
  (x ∉ l.*2 → Q 0 s) →
  wp (removefromlinkedlist list x) Q s.
Proof.
  intros Hhit Hmiss. pose proof Hrep as [Hh Ho].
  assert (Hne : ∀ k : Datatypes.list (loc * Z), Forall (λ y, (y.2 =? x) = false) k → x ∉ k.*2).
  { intros k Hk. rewrite list_elem_of_fmap. intros ([a y] & -> & Hin).
    rewrite Forall_forall in Hk. specialize (Hk _ Hin). simpl in Hk. by rewrite Z.eqb_refl in Hk. }
  apply wp_bind, wp_consistent, wp_bind, wp_assert; [done|].
  apply wp_bind. eapply wp_load; [exact Hh|]. apply wp_bind. cbn [ll_head ll_size ll_foot].
  eapply wp_scan; [apply Ho| |]; [|intros Hf; by apply wp_ret, Hmiss, Hne].
  intros l1 a v l2 Hl Hf Hv. apply Z.eqb_eq in Hv as ->. apply Hne in Hf. simpl.
  assert (Hlen : length l = (length l1 + S (length l2))%nat) by by rewrite Hl, length_app.
  pose proof Ho as Ho'. rewrite Hl in Ho'. pose proof (owns_lookup _ _ _ _ _ Ho') as Ha.
  apply wp_bind.
  destruct (Z.eqb_spec (Z.of_nat (length l)) 1) as [E1|E1].
  { assert (l1 = [] ∧ l2 = []) as [-> ->] by (split; apply nil_length_inv; lia).
    rewrite Hl. apply wp_bind. eapply wp_free; [exact Ha|].
    eapply wp_store; [exact Hh|]. apply wp_ret. by eapply (Hhit []); [done|done|eapply ll_rep_clear|done]. }
  apply wp_bind. eapply wp_load; [exact Ha|]. simpl.
  destruct (snoc_cases l1) as [->|(l1' & [b w] & ->)].
  { rewrite bool_decide_true by by rewrite Hl. simpl in Hlen.
    assert (l2 ≠ []) by (intros ->; simpl in *; lia).
    apply wp_bind. eapply wp_update; [exact Hh|]. apply wp_bind. eapply wp_free; [exact Ha|].
    eapply wp_update; [apply lookup_insert_eq|]. simpl. rewrite insert_insert_eq.
    apply wp_ret. by eapply (Hhit []); [done|done|eapply ll_rep_behead|done]. }
  rewrite bool_decide_false; last first.
  { destruct Ho as [Hc _]. rewrite Hl in Hc |- *. eapply chain_not_head; [exact Hc|by destruct l1']. }
  pose proof Hl as Hl2. rewrite <- app_assoc in Hl2. simpl in Hl2.
  destruct (owns_two _ _ _ _ _ _ Hl2) as (Hb & _ & Hab & Hnd).
  rewrite last_ptr_snoc. apply wp_bind. eapply wp_set_next; [exact Hb|]. apply wp_bind.
  assert (Hrest : ∀ f, f = last_ptr (l1' ++ (b, w) :: l2) → Q 1 (LLst
      (delete a (<[b:=Node (head_ptr l2) w]> (nodes s)))
      (<[list := LL (head_ptr l) f (size_wrap (Z.of_nat (length l) - 1))]> (lls s))
      (arrays s) (ll_faults s))).
  { intros f Hfl. eapply Hhit; [exact Hl|done| |done]. rewrite <- app_assoc.
    by eapply ll_rep_unlink. }
  destruct (decide (l2 = [])) as [->|Hl2'].
  - rewrite bool_decide_true by (rewrite Hl2; by apply last_ptr_two).
    eapply wp_update; [exact Hh|]. apply wp_bind.
    eapply wp_free; [simpl; rewrite lookup_insert_ne by done; exact Ha|].
    eapply wp_update; [apply lookup_insert_eq|]. apply wp_ret. simpl. rewrite insert_insert_eq.
    apply Hrest. by rewrite last_ptr_snoc.
  - rewrite bool_decide_false by (rewrite Hl2; by rewrite last_ptr_two).
    apply wp_ret, wp_bind.
    eapply wp_free; [simpl; rewrite lookup_insert_ne by done; exact Ha|].
    eapply wp_update; [exact Hh|]. apply wp_ret, Hrest. rewrite Hl2. by apply last_ptr_unlink.
Qed.

Lemma wp_indexofll x (Q : Z → llst → Prop) :
  (∀ l1 a l2, l = l1 ++ (a, x) :: l2 → x ∉ l1.*2 → Q (Z.of_nat (length l1)) s) →
  (x ∉ l.*2 → Q (2 ^ 64 - 1) s) →
  wp (indexoflinkedlist list x) Q s.
Proof.
  intros Hhit Hmiss. pose proof Hrep as [Hh Ho].
  apply wp_bind. eapply wp_load; [exact Hh|]. apply wp_bind, wp_get, wp_bind.
  apply (wp_iter_idx (λ k '(i, q) s', s' = s ∧ ∃ l1 l2, l = l1 ++ l2 ∧ k = length l2 ∧
    i = Z.of_nat (length l1) ∧ x ∉ l1.*2 ∧ chain (nodes s) q l2 NULL)) with (k := length l).
  - intros k [i q] s' (-> & l1 & l2 & Hl & -> & -> & Hx & Hq).
    assert (Hlen : length l = (length l1 + length l2)%nat) by by rewrite Hl, length_app.
    destruct l2 as [|[a v] l2].
    + rewrite Hq. apply wp_ret. cbn beta iota. apply wp_ret. rewrite app_nil_r in Hl. subst l1. auto.
    + destruct Hq as (-> & r & Ha & Hq). simpl in Hlen. apply wp_bind. eapply wp_load; [exact Ha|].
      simpl. destruct (Z.eqb_spec v x) as [->|Hv].
      * apply wp_ret. cbn beta iota. apply wp_ret. rewrite size_wrap_id by lia. by eapply Hhit.
      * apply wp_bind. wp_step. apply wp_ret. exists (length l2). split; [lia|]. split; [done|].
        exists (l1 ++ [(a, v)]), l2. rewrite <- app_assoc, fmap_app, length_app. simpl.
        split; [done|]. split; [done|]. split; [lia|]. split; [set_solver|done].
  - split; [done|]. exists [], l. split; [done|]. split; [done|]. split; [done|].
    split; [set_solver|]. apply Ho.
  - pose proof (chain_subset_size _ _ _ (proj1 Ho)). simpl in *. lia.
Qed.

Lemma wp_toarrayll (Q : loc → llst → Prop) :
  ll_faults s = [] →
  (∀ array, arrays s !! array = None →
     Q array (set_arrays (<[array := Some <$> l.*2]> (arrays s)) s)) →
  wp (toarraylinkedlist list) Q s.
Proof.
  intros Hf HQ. pose proof Hrep as [Hh Ho]. apply wp_bind. eapply wp_load; [exact Hh|].
  apply wp_bind, wp_malloc_assert; [done|]. intros array Harr. simpl in *. apply wp_bind.
  rewrite Nat2Z.id. eapply (wp_walk _ (λ l1 i s', i = Z.of_nat (length l1) ∧
    s' = set_arrays (<[array := (Some <$> l1.*2) ++ replicate (length l - length l1) None]>
                       (arrays s)) s)); [apply Ho| | |].
  - intros l1 a v l2 i s' Hl [-> ->] (_ & r & Ha & Hc).
    assert (Hlen : length l = (length l1 + S (length l2))%nat) by by rewrite Hl, length_app.
    apply wp_bind. eapply wp_load; [apply lookup_insert_eq|]. apply wp_bind.
    rewrite bool_decide_true by (rewrite length_app, !length_fmap, length_replicate; lia).
    eapply wp_store; [apply lookup_insert_eq|]. wp_step. split.
    + rewrite length_app. split; [simpl; lia|]. unfold set_arrays. simpl. rewrite insert_insert_eq.
      do 2 f_equal. rewrite Nat2Z.id, !fmap_app, <- app_assoc. simpl.
      replace (length l - length l1)%nat with (S (length l2)) by lia.
      replace (length l - (length l1 + 1))%nat with (length l2) by lia. simpl.
      rewrite insert_app_r_alt by (rewrite !length_fmap; lia).
      by rewrite !length_fmap, Nat.sub_diag.
    + by rewrite <- (chain_head _ _ _ Hc).
  - split; [done|]. simpl. by rewrite Nat.sub_0_r.
  - intros i s' [-> ->]. apply wp_ret. rewrite Nat.sub_diag. simpl. rewrite app_nil_r. by apply HQ.
Qed.

Lemma wp_freell (Q : () → llst → Prop) :
  Q () (LLst ∅ (delete list (lls s)) (arrays s) (ll_faults s)) →
  wp (freelinkedlist (Some list)) Q s.
Proof.
  intros HQ. pose proof Hrep as [Hh Ho]. apply wp_bind. eapply wp_load; [exact Hh|].
  apply wp_bind. simpl. eapply wp_mono; [by apply wp_free_all|]. intros [] s' ->.
  by eapply wp_free.
Qed.
End ops.

Lemma wp_newll (s : llst) (Q : loc → llst → Prop) :
  ll_faults s = [] → nodes s = ∅ →
  (∀ list s', ll_rep list [] s' → ll_faults s' = [] → Q list s') →
  wp newlinkedlist Q s.
Proof.
  intros Hf Hn HQ. apply wp_malloc_assert; [done|]. intros list Hl. apply HQ; [|done].
  split; simpl; [apply lookup_insert_eq|]. rewrite Hn. apply owns_empty.
Qed.
