(* ===== verification/MemoryProps.v ===== *)
(** * MemoryProps: the correctness of the memory manager

    The theorems about memory-management.c.  The states of the examples hold a
    memory of 100 units: one process in RAM, one on disk, one hole. *)
From stdpp Require Import prelude gmap.
From S2P Require Import Prelude CMonad Chain State MemoryManagement MemorySpec MemoryRefine.

(** ** A memory with one hole *)
Definition ex_free : list (loc * segment) := [(1%positive, Seg 40 40)].
Definition ex_resident : process_memory := PM 100 60 0 7.
Definition ex_disk (n : Z) : process_memory := PM IN_DISK n 0 8.
Definition ex_pms (n : Z) : list (loc * process_memory) :=
  [(1%positive, ex_resident); (2%positive, ex_disk n)].
Definition ex_state (n : Z) : sim :=
  Sim {[1%positive := Node NULL (Seg 40 40)]} {[1%positive := FreeList (Some 1%positive)]}
    (<[1%positive := Node (Some 2%positive) ex_resident]> {[2%positive := Node NULL (ex_disk n)]})
    {[1%positive := PMList (Some 1%positive)]} ∅ ∅ ∅ ∅ [] [].

Lemma ex_rep n : mm_rep 1 1 ex_free (ex_pms n) (ex_state n).
Proof.
  split; [split|split|done]; try reflexivity; split; try reflexivity.
  - split; [done|]. by exists NULL.
  - split; [done|]. exists (Some 2%positive). split; [done|]. split; [done|]. by exists NULL.
Defined.

Lemma ex_wf n : 0 < n → wf_mem 100 ex_free.*2 (ex_pms n).*2.
Proof.
  intros Hn. constructor; simpl; [lia|repeat constructor|done|repeat constructor; done| |done].
  intros a. unfold cov, covers, seg_end. simpl. repeat case_match; lia.
Defined.

(** ** Swapping in *)

(** C3: swapping a process into RAM refines the list specification: the
    processes chosen by [victim] are swapped out one after the other until first
    fit finds room, the process is put at the top of that hole, and the
    invariant holds again: free segments and resident processes tile the
    memory, and no two free segments touch.  The loop terminates and nothing
    else in the state changes. *)
Theorem swap_in_refines memsize fl pl F P a v t s :
  mm_rep fl pl F P s → wf_mem memsize F.*2 P.*2 →
  (a, v) ∈ P → in_disk v = true → pm_size v ≤ memsize →
  wp (swap_in_process_memory (Some a) t pl fl)
    (λ _ s', mm_frame s s' ∧ ∃ b F' P1 P2,
       make_room (pm_size v) F.*2 P b F'.*2 (P1 ++ (a, v) :: P2) ∧
       mm_rep fl pl F' (P1 ++ (a, to_ram b t v) :: P2) s' ∧
       wf_mem memsize F'.*2 (P1 ++ (a, to_ram b t v) :: P2).*2 ∧
       in_disk (to_ram b t v) = false) s.
Proof. apply wp_swap_in. Qed.

(** A process of 50 units, which the hole of 40 does not hold. *)
Lemma swap_in_refines_witness :
  wp (swap_in_process_memory (Some 2%positive) 5 1 1)
    (λ _ s', mm_frame (ex_state 50) s' ∧ ∃ b F' P1 P2,
       make_room (pm_size (ex_disk 50)) ex_free.*2 (ex_pms 50) b F'.*2
         (P1 ++ (2%positive, ex_disk 50) :: P2) ∧
       mm_rep 1 1 F' (P1 ++ (2%positive, to_ram b 5 (ex_disk 50)) :: P2) s' ∧
       wf_mem 100 F'.*2 (P1 ++ (2%positive, to_ram b 5 (ex_disk 50)) :: P2).*2 ∧
       in_disk (to_ram b 5 (ex_disk 50)) = false) (ex_state 50).
Proof.
  apply (swap_in_refines 100); [apply ex_rep|by apply ex_wf|right; left|reflexivity|simpl; lia].
Defined.

(** C22: a process for which there is a hole takes the first one that is large
    enough, at its top, and nobody is swapped out. *)
Theorem swap_in_first_fit memsize fl pl F P a v t b F0 s :
  mm_rep fl pl F P s → wf_mem memsize F.*2 P.*2 →
  (a, v) ∈ P → in_disk v = true → take_fit (pm_size v) F.*2 = Some (b, F0) →
  wp (swap_in_process_memory (Some a) t pl fl)
    (λ _ s', ∃ F' P1 P2, P = P1 ++ (a, v) :: P2 ∧ F'.*2 = F0 ∧
       mm_rep fl pl F' (P1 ++ (a, to_ram b t v) :: P2) s') s.
Proof.
  intros Hr Hwf Hin Hd Hfit.
  assert (pm_size v ≤ memsize).
  { apply take_fit_elem in Hfit as (c & Hc & _ & Hle). apply (wf_seg_in _ _ _ _ Hwf) in Hc.
    unfold seg_end in Hc. lia. }
  eapply wp_mono; [by eapply wp_swap_in|].
  intros _ s' (_ & b' & F' & P1 & P2 & Hroom & Hr' & _ & _).
  destruct (make_room_fit _ _ _ _ _ _ _ _ Hroom Hfit) as (-> & HF & HP).
  by exists F', P1, P2.
Qed.

Lemma swap_in_first_fit_witness :
  wp (swap_in_process_memory (Some 2%positive) 5 1 1)
    (λ _ s', ∃ F' P1 P2, ex_pms 30 = P1 ++ (2%positive, ex_disk 30) :: P2 ∧ F'.*2 = [Seg 10 10] ∧
       mm_rep 1 1 F' (P1 ++ (2%positive, to_ram 40 5 (ex_disk 30)) :: P2) s') (ex_state 30).
Proof.
  apply (swap_in_first_fit 100 1 1 ex_free);
    [apply ex_rep|by apply ex_wf|right; left|reflexivity|reflexivity].
Defined.

(** A process that is larger than the whole memory makes
    [swap_in_process_memory] swap out everybody and then read the uninitialised
    pointer of [swap_out_process_memory]. *)
Theorem swap_in_too_large_undefined memsize fl pl F P a v t s :
  mm_rep fl pl F P s → wf_mem memsize F.*2 P.*2 →
  (a, v) ∈ P → in_disk v = true → memsize < pm_size v →
  swap_in_process_memory (Some a) t pl fl s = UB.
Proof. apply swap_in_too_large. Qed.

Lemma swap_in_too_large_witness :
  swap_in_process_memory (Some 2%positive) 5 1 1 (ex_state 101) = UB.
Proof.
  apply (swap_in_too_large_undefined 100 1 1 ex_free (ex_pms 101) 2 (ex_disk 101));
    [apply ex_rep|by apply ex_wf|right; left|reflexivity|reflexivity].
Defined.

(** ** Swapping out *)

(** C21: [swap_out_process_memory] swaps out a resident process that is at least
    as large as every other one and, among those of its size, was swapped in no
    later; its block joins the free list, and the invariant is kept. *)
Theorem swap_out_largest_oldest memsize fl pl F P a v s :
  mm_rep fl pl F P s → wf_mem memsize F.*2 P.*2 → (a, v) ∈ P → in_disk v = false →
  wp (swap_out_process_memory pl fl)
    (λ _ s', mm_frame s s' ∧ ∃ P1 c w P2 F', P = P1 ++ (c, w) :: P2 ∧ in_disk w = false ∧
       (∀ d x, (d, x) ∈ P → in_disk x = false → dominates w x) ∧
       mm_rep fl pl F' (P1 ++ (c, to_disk w) :: P2) s' ∧
       F'.*2 = add_free (block_of w) F.*2 ∧
       wf_mem memsize F'.*2 (P1 ++ (c, to_disk w) :: P2).*2) s.
Proof.
  intros Hr Hwf Hin Hram.
  destruct (victim P) as [[c w]|] eqn:Hv; last first.
  { apply victim_None in Hv. rewrite Forall_forall in Hv. specialize (Hv _ Hin). simpl in Hv. congruence. }
  destruct (victim_Some _ _ Hv) as (Hc & Hd & Hdom).
  apply list_elem_of_split in Hc as (P1 & P2 & ->).
  eapply wp_mono; [by eapply wp_swap_out|]. intros _ s' (Hf & F' & Hr' & HF').
  split; [done|]. exists P1, c, w, P2, F'. split; [done|]. split; [done|].
  split; [intros d x; by apply (Hdom (d, x))|]. split; [done|]. split; [done|].
  rewrite HF', fmap_app, fmap_cons in *. by apply wf_swap_out.
Qed.

Lemma swap_out_largest_oldest_witness :
  wp (swap_out_process_memory 1 1)
    (λ _ s', mm_frame (ex_state 50) s' ∧ ∃ P1 c w P2 F', ex_pms 50 = P1 ++ (c, w) :: P2 ∧
       in_disk w = false ∧ (∀ d x, (d, x) ∈ ex_pms 50 → in_disk x = false → dominates w x) ∧
       mm_rep 1 1 F' (P1 ++ (c, to_disk w) :: P2) s' ∧
       F'.*2 = add_free (block_of w) ex_free.*2 ∧
       wf_mem 100 F'.*2 (P1 ++ (c, to_disk w) :: P2).*2) (ex_state 50).
Proof.
  apply (swap_out_largest_oldest 100 _ _ _ _ 1 ex_resident);
    [apply ex_rep|by apply ex_wf|left|reflexivity].
Defined.

(** [swap_out_process_memory] is undefined when no process is in RAM. *)
Theorem swap_out_nobody_undefined fl pl F P s :
  mm_rep fl pl F P s → Forall (λ x, in_disk x.2 = true) P →
  swap_out_process_memory pl fl s = UB.
Proof. intros Hr HP. eapply swap_out_nobody; [exact Hr|by apply victim_None]. Qed.

Definition ex_empty : sim :=
  Sim ∅ {[1%positive := FreeList NULL]} ∅ {[1%positive := PMList NULL]} ∅ ∅ ∅ ∅ [] [].

Lemma swap_out_nobody_witness : swap_out_process_memory 1 1 ex_empty = UB.
Proof.
  apply (swap_out_nobody_undefined 1 1 [] []); [|constructor].
  split; [split|split|]; reflexivity || apply owns_empty.
Defined.

(** [swap_out_process_memory_by_process_memory] moves the given process to
    disk and its block to the free list, does nothing when it is there already,
    and keeps the invariant. *)
Theorem swap_out_by_process memsize fl pl F P1 a v P2 s :
  mm_rep fl pl F (P1 ++ (a, v) :: P2) s → wf_mem memsize F.*2 (P1 ++ (a, v) :: P2).*2 →
  wp (swap_out_process_memory_by_process_memory (Some a) fl)
    (λ _ s', mm_frame s s' ∧ ∃ F' v',
       mm_rep fl pl F' (P1 ++ (a, v') :: P2) s' ∧ wf_mem memsize F'.*2 (P1 ++ (a, v') :: P2).*2 ∧
       (if in_disk v then v' = v ∧ F'.*2 = F.*2
        else v' = to_disk v ∧ F'.*2 = add_free (block_of v) F.*2)) s.
Proof.
  intros Hr Hwf. eapply wp_mono; [by eapply wp_swap_out_by|].
  intros _ s' (Hf & F' & Hr' & HF'). split; [done|].
  exists F', (if in_disk v then v else to_disk v). split; [done|]. rewrite HF'.
  rewrite fmap_app, fmap_cons in *. destruct (in_disk v) eqn:Hd; [done|].
  split; [by apply wf_swap_out|done].
Qed.

Lemma swap_out_by_process_witness :
  wp (swap_out_process_memory_by_process_memory (Some 1%positive) 1)
    (λ _ s', mm_frame (ex_state 50) s' ∧ ∃ F' v',
       mm_rep 1 1 F' ([] ++ (1%positive, v') :: [(2%positive, ex_disk 50)]) s' ∧
       wf_mem 100 F'.*2 ([] ++ (1%positive, v') :: [(2%positive, ex_disk 50)]).*2 ∧
       v' = to_disk ex_resident ∧ F'.*2 = add_free (block_of ex_resident) ex_free.*2) (ex_state 50).
Proof.
  apply (swap_out_by_process 100 1 1 ex_free [] 1 ex_resident [(2%positive, ex_disk 50)]);
    [apply ex_rep|by apply ex_wf].
Defined.

(** ** The free list *)

(** C11: adding a free segment that overlaps no other keeps the list sorted with
    gaps between the segments: the new segment is merged with the neighbours it
    touches, every address is covered as often as before plus once by the new
    segment, and no size is lost. *)
Theorem add_free_segment_tiles fl l a n s :
  free_rep fl l s → sim_faults s = [] → segs_fit (Seg a n :: l.*2) →
  0 < n → positive_sizes l.*2 → gapped l.*2 → disjoint_from (Seg a n) l.*2 →
  wp (add_new_free_memory_segment_to_free_memory_segments_list a n fl)
    (λ _ s', seg_frame s s' ∧ ∃ l', free_rep fl l' s' ∧
       positive_sizes l'.*2 ∧ gapped l'.*2 ∧ total l'.*2 = n + total l.*2 ∧
       ∀ x, cov x l'.*2 = covers x (Seg a n) + cov x l.*2) s.
Proof.
  intros Hr Hf Hfit Hn Hpos Hgap Hdis. eapply wp_mono; [by apply wp_add_free|].
  intros _ s' (Hfr & l' & Hr' & HF). split; [done|]. exists l'. split; [done|]. rewrite HF.
  split; [by apply add_free_positive|]. split; [by apply add_free_gapped|].
  split; [apply add_free_total|]. intros x. by apply add_free_cov.
Qed.

Definition ex_holes : list (loc * segment) := [(1%positive, Seg 90 10); (2%positive, Seg 50 20)].
Definition ex_holes_state : sim :=
  Sim (<[1%positive := Node (Some 2%positive) (Seg 90 10)]> {[2%positive := Node NULL (Seg 50 20)]})
    {[1%positive := FreeList (Some 1%positive)]} ∅ ∅ ∅ ∅ ∅ ∅ [] [].

Lemma ex_holes_rep : free_rep 1 ex_holes ex_holes_state.
Proof.
  split; [reflexivity|]. split; [|reflexivity]. split; [done|]. exists (Some 2%positive).
  split; [done|]. split; [done|]. by exists NULL.
Defined.

Lemma add_free_segment_tiles_witness :
  wp (add_new_free_memory_segment_to_free_memory_segments_list 80 30 1)
    (λ _ s', seg_frame ex_holes_state s' ∧ ∃ l', free_rep 1 l' s' ∧
       positive_sizes l'.*2 ∧ gapped l'.*2 ∧ total l'.*2 = 30 + total ex_holes.*2 ∧
       ∀ x, cov x l'.*2 = covers x (Seg 80 30) + cov x ex_holes.*2) ex_holes_state.
Proof.
  apply (add_free_segment_tiles 1 ex_holes 80 30 ex_holes_state); try reflexivity.
  - apply ex_holes_rep.
  - split; [repeat constructor; simpl; lia|]. unfold total. simpl. lia.
  - repeat constructor.
  - split; [reflexivity|done].
  - repeat constructor; unfold seg_end; simpl; lia.
Defined.

(** [consolidate_free_memory_segments_list] merges every run of adjacent
    segments of a sorted list, and afterwards no two segments touch. *)
Theorem consolidate_merges fl l s :
  free_rep fl l s → segs_fit l.*2 → descending l.*2 →
  wp (consolidate_free_memory_segments_list fl)
    (λ _ s', seg_frame s s' ∧ ∃ l', free_rep fl l' s' ∧ l'.*2 = merge_segs l.*2 ∧
       gapped l'.*2 ∧ total l'.*2 = total l.*2) s.
Proof.
  intros Hr Hfit Hd. eapply wp_mono; [by apply wp_consolidate|].
  intros _ s' (Hf & l' & Hr' & HF). split; [done|]. exists l'. split; [done|]. split; [done|].
  rewrite HF. destruct l.*2 as [|c k]; [done|].
  split; [by apply merge_from_gapped|apply merge_from_total].
Qed.

Lemma consolidate_merges_witness :
  wp (consolidate_free_memory_segments_list 1)
    (λ _ s', seg_frame ex_holes_state s' ∧ ∃ l', free_rep 1 l' s' ∧
       l'.*2 = merge_segs ex_holes.*2 ∧ gapped l'.*2 ∧ total l'.*2 = total ex_holes.*2)
    ex_holes_state.
Proof.
  apply (consolidate_merges 1 ex_holes ex_holes_state).
  - apply ex_holes_rep.
  - split; [repeat constructor; simpl; lia|]. unfold total. simpl. lia.
  - split; [unfold seg_end; simpl; lia|done].
Defined.

(** ** Removing a process *)

(** C23: [remove_process_memory_by_process_id] deletes the first process memory
    with the given id, gives its block back when it was in RAM, keeps the
    invariant and returns 1; it returns 0 and changes nothing when there is
    none. *)
Theorem remove_process memsize fl pl F P pid s :
  mm_rep fl pl F P s → wf_mem memsize F.*2 P.*2 →
  wp (remove_process_memory_by_process_id pid pl fl)
    (λ r s', mm_frame s s' ∧
       match find_pid pid P with
       | None => r = 0 ∧ s' = s
       | Some (a, v) => r = 1 ∧ ∃ P1 P2 F', P = P1 ++ (a, v) :: P2 ∧
           mm_rep fl pl F' (P1 ++ P2) s' ∧ wf_mem memsize F'.*2 (P1 ++ P2).*2 ∧
           F'.*2 = (if in_disk v then F.*2 else add_free (block_of v) F.*2)
       end) s.
Proof. apply wp_remove_by_process_id. Qed.

Lemma remove_process_witness :
  wp (remove_process_memory_by_process_id 7 1 1)
    (λ r s', mm_frame (ex_state 50) s' ∧ r = 1 ∧ ∃ P1 P2 F',
       ex_pms 50 = P1 ++ (1%positive, ex_resident) :: P2 ∧
       mm_rep 1 1 F' (P1 ++ P2) s' ∧ wf_mem 100 F'.*2 (P1 ++ P2).*2 ∧
       F'.*2 = add_free (block_of ex_resident) ex_free.*2) (ex_state 50).
Proof.
  apply (remove_process 100 1 1 ex_free (ex_pms 50) 7); [apply ex_rep|by apply ex_wf].
Defined.
