(* ===== verification/SchedulerProps.v ===== *)
(** * SchedulerProps: the correctness of the scheduling simulator

    The theorems about simulation.c, process-scheduler.c and
    process-data-file-parser.c. *)
From Stdlib Require Import Ascii String Sorted.
From stdpp Require Import prelude gmap sorting.
From S2P Require Import Prelude CMonad Chain State MemoryManagement MemorySpec.
From S2P Require Import MemoryRefine CString Parser ParserRefine ParserPrint Scheduler.
From S2P Require Import Frame QueueRefine QueueOrder ProcessRefine FcfsRefine MlfqSpec.
From S2P Require Import MlfqFacts MlfqRefine Simulation.

(** ** The example of the assignment: four processes, 100 units of memory *)
Definition ex_procs : list scheduled_process_t :=
  [SP 0 4 98 15; SP 3 2 33 20; SP 5 1 100 10; SP 20 3 5 15].
Definition ex_file : list ascii := chars "processes.txt".
Definition ex_fs (f : list ascii) : option (list ascii) :=
  if decide (f = ex_file) then Some (print_procs ex_procs) else None.

Lemma run_of_wp {S A} (m : C S A) x y s : wp m (λ a s', a = x ∧ s' = y) s → m s = Ok x y.
Proof. unfold wp. destruct (m s); by try intros [-> ->]. Qed.

(** ** Whole simulations *)
Section simulations.
Context (fs : list ascii → option (list ascii)) (fuel : nat) (file fp : list ascii).
Context (ps : list scheduled_process_t) (m : Z) (opts : list (ascii * list ascii)).
Hypothesis Hfile : fs file = Some fp.
Hypothesis Hps : file_procs fp = Some ps.
Hypothesis Hm : 0 < m ∧ 100 * m ≤ INT_MAX.
Hypothesis Hvalid : Forall (valid_proc m) ps.
Hypothesis Hlen : 2 * Z.of_nat (length ps) ≤ INT_MAX + 1.

Lemma run_main a r s' :
  opts ≡ₚ command_line file a m → a = FCFS_ALGORITHM ∨ a = MULTI_ALGORITHM →
  (if a =? FCFS_ALGORITHM then fcfs_scheduler_runner fs fuel file m
   else multi_scheduler_runner fs fuel file m) (init_sim []) = Ok r s' →
  simulation_main fs fuel opts (init_sim []) = Ok 0 s'.
Proof.
  intros Ho Ha Hr. eapply run_bind_eq; [apply (handle_command_line file a m); [done|lia|done]|].
  by destruct Ha as [->| ->]; (eapply run_bind_eq; [reflexivity|]);
    (eapply run_bind_eq; [exact Hr|]).
Qed.

(** C1: the program, run with first come first served scheduling on a file that
  holds the processes [ps], its options in any order, prints exactly the
  schedule [fcfs_lines]: each process starts when it has arrived and the
  processor is free, runs for its job time, has the memory for itself, and the
  percentage is rounded up.  It returns 0 and has freed everything it
  allocated. *)
Theorem simulation_fcfs :
  opts ≡ₚ command_line file FCFS_ALGORITHM m →
  fcfs_end 0 ps ≤ INT_MAX → (Z.to_nat (fcfs_end 0 ps) < fuel)%nat →
  simulation_main fs fuel opts (init_sim []) =
    Ok 0 (set_out (fcfs_lines m 0 ps) (init_sim [])).
Proof.
  intros Ho HT Hfuel. eapply (run_main _ () _ Ho); [by left|].
  apply run_of_wp. eapply wp_mono; [by eapply wp_fcfs_runner; try tauto|]. by intros [] s' ->.
Qed.

Lemma run_multi :
  opts ≡ₚ command_line file MULTI_ALGORITHM m →
  horizon ps ≤ INT_MAX → (Z.to_nat (horizon ps) < fuel)%nat →
  ∃ lines T, simulation_main fs fuel opts (init_sim []) =
      Ok 0 (set_out (lines ++ [Finished T]) (init_sim [])) ∧
    mlfq_run 0 [[]; []; []] ps (dispatches lines) T ∧ Forall (status_ok m) lines.
Proof.
  intros Ho HT Hfuel.
  pose proof (wp_multi_runner fs fuel file fp ps m Hfile Hps (proj1 Hm) (proj2 Hm) Hvalid Hlen HT
    Hfuel) as Hw. unfold wp in Hw.
  destruct (multi_scheduler_runner fs fuel file m (init_sim [])) as [r s'| | |] eqn:E; try done.
  destruct Hw as (lines & T & -> & Hrun & Hok). exists lines, T. split; [|done].
  eapply (run_main _ r _ Ho); [by right|exact E].
Qed.

(** C2: the program, run with the multi-level feedback queue, returns 0, has
  freed everything it allocated, and prints a schedule that the slice-by-slice
  specification [mlfq_run] allows, which is the only one: the same processes
  dispatched at the same times and the same end time.  Every status line
  reports a memory in which the blocks in use and the holes fill the memory
  without overlap. *)
Theorem simulation_multi :
  opts ≡ₚ command_line file MULTI_ALGORITHM m →
  horizon ps ≤ INT_MAX → (Z.to_nat (horizon ps) < fuel)%nat →
  ∃ lines T, simulation_main fs fuel opts (init_sim []) =
      Ok 0 (set_out (lines ++ [Finished T]) (init_sim [])) ∧
    mlfq_run 0 [[]; []; []] ps (dispatches lines) T ∧
    (∀ evs T', mlfq_run 0 [[]; []; []] ps evs T' → evs = dispatches lines ∧ T' = T) ∧
    Forall (status_ok m) lines.
Proof.
  intros Ho HT Hfuel. destruct (run_multi Ho HT Hfuel) as (lines & T & Hr & Hrun & Hok).
  exists lines, T. split; [done|]. split; [done|]. split; [|done].
  intros evs T' Hrun'. by eapply mlfq_run_det.
Qed.

(** C13: no process starves: under the multi-level feedback queue every process
  of the file is dispatched, before the simulation ends. *)
Theorem multi_serves_all p :
  opts ≡ₚ command_line file MULTI_ALGORITHM m →
  horizon ps ≤ INT_MAX → (Z.to_nat (horizon ps) < fuel)%nat → p ∈ ps →
  ∃ lines T t, simulation_main fs fuel opts (init_sim []) =
      Ok 0 (set_out (lines ++ [Finished T]) (init_sim [])) ∧
    (t, sp_process_id p) ∈ dispatches lines ∧ 0 ≤ t < T.
Proof.
  intros Ho HT Hfuel Hp. destruct (run_multi Ho HT Hfuel) as (lines & T & Hr & Hrun & _).
  destruct (mlfq_run_serves _ _ _ _ _ Hrun) as [_ Hall]; [done|].
  pose proof (Hall _ Hp) as Hd. apply list_elem_of_fmap in Hd as ([t pid] & -> & Hin). simpl.
  exists lines, T, t. split; [done|]. split; [done|].
  destruct (mlfq_run_times _ _ _ _ _ Hrun) as [_ HF]; [repeat constructor|].
  rewrite Forall_forall in HF. by apply (HF _ Hin).
Qed.
End simulations.

Lemma simulation_fcfs_witness :
  simulation_main ex_fs 61 (command_line ex_file FCFS_ALGORITHM 100) (init_sim []) =
    Ok 0 (set_out [Status 0 4 1 1 98; Status 15 2 1 1 33; Status 35 1 1 0 100; Status 45 3 1 1 5;
                   Finished 60] (init_sim [])).
Proof.
  apply (simulation_fcfs ex_fs 61 ex_file (print_procs ex_procs) ex_procs 100);
    [vm_compute; reflexivity|vm_compute; reflexivity|lia| |simpl; lia|reflexivity|vm_compute; congruence|].
  - unfold ex_procs. repeat constructor; simpl; lia.
  - vm_compute. lia.
Defined.

Lemma simulation_multi_witness :
  ∃ lines T, simulation_main ex_fs 81 (command_line ex_file MULTI_ALGORITHM 100) (init_sim []) =
      Ok 0 (set_out (lines ++ [Finished T]) (init_sim [])) ∧
    mlfq_run 0 [[]; []; []] ex_procs (dispatches lines) T ∧
    (∀ evs T', mlfq_run 0 [[]; []; []] ex_procs evs T' → evs = dispatches lines ∧ T' = T) ∧
    Forall (status_ok 100) lines.
Proof.
  apply (simulation_multi ex_fs 81 ex_file (print_procs ex_procs) ex_procs 100);
    [vm_compute; reflexivity|vm_compute; reflexivity|lia| |simpl; lia|reflexivity|vm_compute; congruence|].
  - unfold ex_procs. repeat constructor; simpl; lia.
  - vm_compute. lia.
Defined.

Lemma multi_serves_all_witness :
  ∃ lines T t, simulation_main ex_fs 81 (command_line ex_file MULTI_ALGORITHM 100) (init_sim []) =
      Ok 0 (set_out (lines ++ [Finished T]) (init_sim [])) ∧
    (t, 4) ∈ dispatches lines ∧ 0 ≤ t < T.
Proof.
  apply (multi_serves_all ex_fs 81 ex_file (print_procs ex_procs) ex_procs 100
    (command_line ex_file MULTI_ALGORITHM 100)) with (p := SP 0 4 98 15);
    [vm_compute; reflexivity|vm_compute; reflexivity|lia| |simpl; lia|reflexivity|vm_compute; congruence| |].
  - unfold ex_procs. repeat constructor; simpl; lia.
  - vm_compute. lia.
  - left.
Defined.
