(* ===== verification/ParserProps.v ===== *)
(** * ParserProps: the correctness of the process data file parser and of the
    command line

    The theorems about process-data-file-parser.c, and about the error paths of
    simulation.c. *)
From Stdlib Require Import Ascii String.
From stdpp Require Import prelude gmap.
From S2P Require Import Prelude CMonad Chain State CString Parser ParserRefine.
From S2P Require Import ParserPrint Scheduler Simulation.

Definition two_procs : list scheduled_process_t := [SP 0 4 98 15; SP 3 (-2) 33 20].

(** C14: what [print_procs] writes, the parser reads back: the array it builds
    holds exactly the processes that were written, in order, for all values that
    fit in an [int]. *)
Theorem parse_print_roundtrip ps s :
  Forall int_proc ps → 2 * Z.of_nat (length ps) ≤ INT_MAX + 1 →
  sim_faults s = [] → sps s = ∅ → sp_arrays s = ∅ →
  wp (parse_process_data_file (print_procs ps)) (λ arr s', sp_frame s s' ∧ sp_rep arr ps s') s.
Proof. intros Hps. apply wp_parse. by apply file_procs_print. Qed.

Lemma parse_print_roundtrip_witness :
  wp (parse_process_data_file (print_procs two_procs))
    (λ arr s', sp_frame (init_sim []) s' ∧ sp_rep arr two_procs s') (init_sim []).
Proof.
  apply (parse_print_roundtrip two_procs (init_sim []));
    [repeat constructor; simpl; lia|simpl; lia|reflexivity..].
Defined.

(** C15: on every file without malformed lines, whatever its blank lines, its
    spacing and its number of lines, the parser builds the NULL-terminated array
    of the processes of the file: it stays within the bounds of the array it
    grows, leaves no block behind and changes nothing else. *)
Theorem parse_file_correct fp ps s :
  file_procs fp = Some ps → 2 * Z.of_nat (length ps) ≤ INT_MAX + 1 →
  sim_faults s = [] → sps s = ∅ → sp_arrays s = ∅ →
  wp (parse_process_data_file fp) (λ arr s', sp_frame s s' ∧ sp_rep arr ps s') s.
Proof. apply wp_parse. Qed.

Lemma parse_file_correct_witness :
  wp (parse_process_data_file (chars "  0 4  98 15" ++ [NEWLINE; NEWLINE] ++ chars "3 -2 33 20 7"))
    (λ arr s', sp_frame (init_sim []) s' ∧ sp_rep arr two_procs s') (init_sim []).
Proof.
  apply (parse_file_correct _ two_procs (init_sim []));
    [vm_compute; reflexivity|simpl; lia|reflexivity..].
Defined.

(** [atoi] of a token either gives a value or is undefined. *)
Lemma atoi_token_cases t s : atoi_token t s = UB ∨ ∃ n, atoi_token t s = Ok n s.
Proof.
  destruct t as [t|]; [|by left]. simpl. unfold atoi, chk. case_match; [right; eauto|by left].
Qed.

Lemma parse_line_three line t0 t1 t2 arr n m s :
  get_tokens TOKENS_LEN (cstr line) = [t0; t1; t2; None] → parse_line line arr n m s = UB.
Proof.
  intros Ht. unfold parse_line. rewrite Ht.
  destruct (atoi_token_cases t0 s) as [E|[a E]]; [by apply run_bind_ub|].
  eapply run_bind_eq; [exact E|]. clear E.
  destruct (atoi_token_cases t1 s) as [E|[b E]]; [by apply run_bind_ub|].
  eapply run_bind_eq; [exact E|]. clear E.
  destruct (atoi_token_cases t2 s) as [E|[c E]]; [by apply run_bind_ub|].
  by eapply run_bind_eq; [exact E|].
Qed.

(** A first line of exactly three tokens is not skipped: the parser passes
    the missing fourth token, NULL, to [atoi], which is undefined. *)
Theorem three_tokens_undefined fp line fp' t0 t1 t2 s :
  fgets LINE_MAX_LEN fp = Some (line, fp') →
  get_tokens TOKENS_LEN (cstr line) = [Some t0; Some t1; Some t2; None] →
  sim_faults s = [] → parse_process_data_file fp s = UB.
Proof.
  intros Hl Ht Hf. unfold parse_process_data_file.
  pose proof (wp_malloc (S:=sim) (T:=sp_array)
    (replicate (Z.to_nat (INITIAL_SCHEDULED_PROCS_MAX_LEN + 1)) None) (λ _ _, True) s Hf
    (λ _ _, I)) as Hw.
  unfold malloc_array. unfold wp in Hw. destruct (malloc_or_exit _ s) as [a s'| | |] eqn:E; try done.
  eapply run_bind_eq; [exact E|]. apply run_bind_ub, run_iter_ub. rewrite Hl.
  apply run_bind_ub. by eapply parse_line_three.
Qed.

Lemma three_tokens_undefined_witness :
  parse_process_data_file (chars "0 4 98") (init_sim []) = UB.
Proof.
  apply (three_tokens_undefined _ (chars "0 4 98") [] (chars "0") (chars "4") (chars "98"));
    vm_compute; reflexivity.
Defined.

(** ** Errors of the command line *)

(** An option that does not occur leaves its variable uninitialised. *)
Lemma handle_option_frame c arg o o' s s' :
  handle_option c arg o s = Ok o' s' →
  (c ≠ "f"%char → filename o' = filename o) ∧ (c ≠ "a"%char → algorithm o' = algorithm o) ∧
  (c ≠ "m"%char → memsize o' = memsize o) ∧
  (algorithm o' = algorithm o ∨ algorithm o' = Some FCFS_ALGORITHM ∨
   algorithm o' = Some MULTI_ALGORITHM).
Proof.
  unfold handle_option. destruct (Ascii.eqb_spec c "f") as [->|Hf].
  { intros [= <- <-]. simpl. tauto. }
  destruct (Ascii.eqb_spec c "a") as [->|Ha].
  { repeat case_bool_decide; intros Hr; inversion Hr; simpl; tauto. }
  destruct (Ascii.eqb_spec c "m") as [->|Hm]; [|done].
  unfold mbind, C_bind, atoi, chk. destruct (in_int (atoi_Z arg)); [|done].
  intros Hr; inversion Hr; simpl; tauto.
Qed.

Lemma handle_options_frame opts o o' s s' :
  handle_options opts o s = Ok o' s' →
  ("f"%char ∉ opts.*1 → filename o' = filename o) ∧
  ("a"%char ∉ opts.*1 → algorithm o' = algorithm o) ∧
  ("m"%char ∉ opts.*1 → memsize o' = memsize o) ∧
  (algorithm o' = algorithm o ∨ algorithm o' = Some FCFS_ALGORITHM ∨
   algorithm o' = Some MULTI_ALGORITHM).
Proof.
  revert o s. induction opts as [|[c arg] opts IH]; intros o s; cbn [handle_options].
  { intros [= -> ->]. tauto. }
  unfold mbind, C_bind. destruct (handle_option c arg o s) as [o1 s1| | |] eqn:E; try done.
  intros Hr. apply IH in Hr as (If & Ia & Im & Ial).
  apply handle_option_frame in E as (Ef & Ea & Em & Eal). rewrite fmap_cons, !not_elem_of_cons. simpl.
  split; [intros [? ?]; by rewrite If, Ef|]. split; [intros [? ?]; by rewrite Ia, Ea|].
  split; [intros [? ?]; by rewrite Im, Em|]. destruct Ial as [->|Hal]; [exact Eal|right; exact Hal].
Qed.

(** A command line that the option loop accepts but on which one of the
    three options is missing makes the program read an uninitialised
    variable. *)
Theorem missing_option_undefined fs fuel opts o s :
  handle_options opts no_options s = Ok o s →
  "f"%char ∉ opts.*1 ∨ "a"%char ∉ opts.*1 ∨ "m"%char ∉ opts.*1 →
  simulation_main fs fuel opts s = UB.
Proof.
  intros Hr Hmiss. eapply run_bind_eq; [exact Hr|].
  apply handle_options_frame in Hr as (Hf & Ha & Hm & Hal). destruct o as [f a m]. simpl in *.
  destruct Hal as [->|Hal]; [reflexivity|].
  assert (f = None ∨ m = None) as Hfm.
  { destruct Hmiss as [Hmiss|[Hmiss|Hmiss]]; [left; auto| |right; auto].
    rewrite Ha in Hal by done. destruct Hal; done. }
  assert (Hub : ∀ k : list ascii → Z → C sim (), (f ← read_var f; m ← read_var m; k f m) s = UB).
  { intros k. destruct f as [f|]; [|reflexivity]. by destruct Hfm as [| ->]. }
  destruct Hal as [-> | ->]; (eapply run_bind_eq; [reflexivity|]); apply run_bind_ub, Hub.
Qed.

Lemma missing_option_undefined_witness :
  simulation_main (λ _, None) 0 [("a"%char, chars "fcfs"); ("m"%char, chars "100")] (init_sim []) = UB.
Proof.
  apply (missing_option_undefined _ _ _ (Options None (Some 0) (Some 100)) (init_sim []));
    [vm_compute; reflexivity|left].
  rewrite !fmap_cons, !not_elem_of_cons. repeat split; [done..|apply not_elem_of_nil].
Defined.

(** When the data file cannot be opened, the program exits with status 1
    and has printed nothing, whichever algorithm was asked for. *)
Theorem missing_file_exits fs fuel file a m opts :
  fs file = None → a = FCFS_ALGORITHM ∨ a = MULTI_ALGORITHM → INT_MIN ≤ m ≤ INT_MAX →
  opts ≡ₚ command_line file a m →
  ∃ s', simulation_main fs fuel opts (init_sim []) = Exit 1 s' ∧ out s' = [].
Proof.
  intros Hfs Ha Hm Ho.
  unfold simulation_main. rewrite (run_bind _ _ _ _ _ (handle_command_line file a m opts _ Ha Hm Ho)).
  destruct Ha as [-> | ->]; simpl;
    unfold fcfs_scheduler_runner, multi_scheduler_runner, fopen, mbind, C_bind; simpl;
    unfold malloc_or_exit, malloc, mbind, C_bind; simpl; rewrite Hfs; simpl; eauto.
Qed.

Lemma missing_file_exits_witness :
  ∃ s', simulation_main (λ _, None) 5 (command_line (chars "none") MULTI_ALGORITHM 100) (init_sim []) =
    Exit 1 s' ∧ out s' = [].
Proof.
  apply (missing_file_exits _ _ (chars "none") MULTI_ALGORITHM 100);
    [reflexivity|right; reflexivity|lia|reflexivity].
Defined.
