(* ===== verification/ProcessProps.v ===== *)
(** * ProcessProps: the correctness of the queues and of the operations on
    processes

    The theorems about the functions of process-scheduler.c below the scheduling
    loops.  The state of the examples holds the memory of [MemoryProps], one
    block in a queue, one in no queue, and one process to come. *)
From Stdlib Require Import Sorted.
From stdpp Require Import prelude gmap sorting.
From S2P Require Import Prelude CMonad Chain State MemoryManagement MemorySpec.
From S2P Require Import MemoryRefine CString Parser ParserRefine Scheduler QueueRefine.
From S2P Require Import QueueOrder ProcessRefine MemoryProps.

Definition ex_a : pcb := Pcb 7 ready (Some 1%positive) 2 10 0 3.
Definition ex_b : pcb := Pcb 8 ready (Some 2%positive) 1 10 0 0.
Definition ex_queues : list queue := [(1%positive, [(1%positive, ex_a)])].
Definition ex_held : list block := [(2%positive, Node NULL ex_b)].
Definition ex_coming : list scheduled_process_t := [SP 4 9 50 5; SP 6 10 20 5].
Definition ex_world_state : sim :=
  let s := ex_state 50 in
  Sim (segs s) (seg_lists s) (pms s) (pm_lists s)
    (<[1%positive := Node NULL ex_a]> {[2%positive := Node NULL ex_b]})
    {[1%positive := Queue (Some 1%positive)]}
    (<[1%positive := SP 4 9 50 5]> {[2%positive := SP 6 10 20 5]})
    {[1%positive := [Some (Some 1%positive); Some (Some 2%positive); Some NULL; None; None]]} [] [].

Lemma ex_sched : sched_rep ex_queues ex_held ex_world_state.
Proof.
  constructor; try reflexivity; [repeat constructor| |repeat constructor|].
  - by exists NULL.
  - by apply (bool_decide_unpack _).
  - by apply (bool_decide_unpack _).
Defined.

Lemma ex_world : world 100 1 1 ex_free (ex_pms 50) ex_queues ex_held ex_world_state.
Proof.
  split; [|by apply ex_wf|apply ex_sched]. destruct (ex_rep 50) as [[Hf1 Hf2] [Hp1 Hp2] Hft].
  by split; [split|split|].
Defined.

Lemma ex_sps : sp_rep 1 ([] ++ ex_coming) ex_world_state.
Proof.
  exists [1%positive; 2%positive], [None; None]. split; [reflexivity|].
  split; [repeat constructor|]. split; [|reflexivity].
  by apply (bool_decide_unpack _).
Defined.

(** ** Queues *)

(** C24: [add_pcb_to_pcbs_queue] keeps a queue sorted by priority, then by
    process id: the block is inserted, none is lost or duplicated, and the other
    queues are not touched. *)
Theorem sorted_insertion qs1 q l qs2 a v held s :
  sched_rep (qs1 ++ (q, l) :: qs2) ((a, Node NULL v) :: held) s → StronglySorted pcb_le l →
  wp (add_pcb_to_pcbs_queue a q)
    (λ _ s', pcb_frame s s' ∧ ∃ l', sched_rep (qs1 ++ (q, l') :: qs2) held s' ∧
       l' ≡ₚ (a, v) :: l ∧ StronglySorted pcb_le l') s.
Proof.
  intros Hr Hs. eapply wp_add_pcb; [exact Hr|]. intros s' Hf Hr'. split; [done|].
  exists (insert_pcb (a, v) l). split; [done|]. split; [apply insert_pcb_perm|].
  by apply insert_pcb_sorted.
Qed.

Lemma sorted_insertion_witness :
  wp (add_pcb_to_pcbs_queue 2 1)
    (λ _ s', pcb_frame ex_world_state s' ∧ ∃ l', sched_rep ([] ++ (1%positive, l') :: []) [] s' ∧
       l' ≡ₚ (2%positive, ex_b) :: [(1%positive, ex_a)] ∧ StronglySorted pcb_le l') ex_world_state.
Proof.
  apply (sorted_insertion [] 1 [(1%positive, ex_a)] [] 2 ex_b []); [apply ex_sched|].
  repeat constructor.
Defined.

(** The queues are first in first out: after a block has been appended,
    popping gives the block that has waited longest, and leaves the others in
    order. *)
Theorem queue_fifo qs1 q l qs2 a v held s :
  sched_rep (qs1 ++ (q, l) :: qs2) ((a, Node NULL v) :: held) s →
  wp (append_pcb_to_pcbs_list a q;; pop_front_pcb_from_pcbs_queue q)
    (λ r s', pcb_frame s s' ∧ ∃ b n w l', l ++ [(a, v)] = (b, w) :: l' ∧ r = Some b ∧
       sched_rep (qs1 ++ (q, l') :: qs2) ((b, Node n w) :: held) s') s.
Proof.
  intros Hr. apply wp_bind. eapply wp_append; [exact Hr|]. intros s1 Hf1 Hr1.
  destruct (l ++ [(a, v)]) as [|[b w] l'] eqn:E; [by destruct l|].
  eapply wp_pop_cons; [exact Hr1|]. intros s2 n Hf2 Hr2. split; [by etrans|].
  by exists b, n, w, l'.
Qed.

Lemma queue_fifo_witness :
  wp (append_pcb_to_pcbs_list 2 1;; pop_front_pcb_from_pcbs_queue 1)
    (λ r s', pcb_frame ex_world_state s' ∧ ∃ b n w l',
       [(1%positive, ex_a)] ++ [(2%positive, ex_b)] = (b, w) :: l' ∧ r = Some b ∧
       sched_rep ([] ++ (1%positive, l') :: []) ((b, Node n w) :: []) s') ex_world_state.
Proof. apply (queue_fifo [] 1 [(1%positive, ex_a)] [] 2 ex_b []). apply ex_sched. Defined.

(** In a list sorted by start time the arrivals are all those that have arrived. *)
Lemma arrivals_sorted t ps :
  StronglySorted (λ p q, sp_start_time p ≤ sp_start_time q) ps →
  arrivals t ps = filter (λ p, sp_start_time p ≤ t) ps.
Proof.
  induction 1 as [|p ps Hs IH Hp]; [done|]. cbn [arrivals]. rewrite filter_cons.
  destruct (Z.leb_spec (sp_start_time p) t) as [Ht|Ht].
  - by rewrite decide_True, IH.
  - rewrite decide_False by lia. symmetry. clear -Hp Ht. induction Hp as [|q ps Hq _ IH]; [done|].
    rewrite filter_cons, decide_False by lia. exact IH.
Qed.

(** C25: at time [t], [check_scheduled_processes] goes on from the first process
    that it has not created yet and creates those of the longest run of processes
    whose start times are not after [t], in the order of the file: each with
    priority 1 and no time used, and with one memory of its own, of its size and on
    disk.  It appends them to the ready queue and returns the index of the first
    process still to come.  When the file is sorted by start time these are exactly
    the processes that have arrived by [t]. *)
Theorem arrivals_enqueued memsize fl pl F P qs1 q l qs2 held arr ps1 ps2 t s :
  world memsize fl pl F P (qs1 ++ (q, l) :: qs2) held s →
  sp_rep arr (ps1 ++ ps2) s → Forall (valid_proc memsize) ps2 →
  Z.of_nat (length (ps1 ++ ps2)) ≤ INT_MAX →
  wp (check_scheduled_processes arr (Z.of_nat (length ps1)) t q pl)
    (λ r s', sim_frame s s' ∧ ∃ P' l', P'.*2 = new_pm_of <$> arrivals t ps2 ∧
       Forall (λ x, in_disk x.2 = true) P' ∧
       Forall2 (fresh_proc P') (arrivals t ps2) l' ∧
       world memsize fl pl F (P ++ P') (qs1 ++ (q, l ++ l') :: qs2) held s' ∧
       ps1 ++ ps2 = (ps1 ++ arrivals t ps2) ++ pending t ps2 ∧
       r = Z.of_nat (length (ps1 ++ arrivals t ps2))) s ∧
  (StronglySorted (λ p q, sp_start_time p ≤ sp_start_time q) ps2 →
     arrivals t ps2 = filter (λ p, sp_start_time p ≤ t) ps2).
Proof.
  intros Hw Hsp Hv Hlen. split; [|apply arrivals_sorted].
  eapply wp_check_scheduled_exact; [exact Hw|exact Hsp|exact Hv|done|exact Hlen|].
  intros s' P' l' Hf HP' Hfresh Hw'. split; [done|]. exists P', l'. split; [done|].
  split; [by eapply new_pms_in_disk|]. split; [done|]. split; [done|].
  rewrite <- app_assoc, arrivals_pending, length_app. split; [done|lia].
Qed.

Lemma arrivals_enqueued_witness :
  wp (check_scheduled_processes 1 0 5 1 1)
    (λ r s', sim_frame ex_world_state s' ∧ ∃ P' l', P'.*2 = [PM IN_DISK 50 0 9] ∧
       Forall (λ x, in_disk x.2 = true) P' ∧ Forall2 (fresh_proc P') [SP 4 9 50 5] l' ∧
       world 100 1 1 ex_free (ex_pms 50 ++ P')
         ([] ++ (1%positive, [(1%positive, ex_a)] ++ l') :: []) ex_held s' ∧
       [] ++ ex_coming = ([] ++ [SP 4 9 50 5]) ++ [SP 6 10 20 5] ∧ r = 1) ex_world_state ∧
  arrivals 5 ex_coming = filter (λ p, sp_start_time p ≤ 5) ex_coming.
Proof.
  destruct (arrivals_enqueued 100 1 1 ex_free (ex_pms 50) [] 1 [(1%positive, ex_a)] [] ex_held 1 []
    ex_coming 5 ex_world_state) as [H1 H2]; [apply ex_world|apply ex_sps|repeat constructor; simpl; lia|simpl; lia|].
  split; [exact H1|]. apply H2. repeat constructor; simpl; lia.
Defined.

(** ** The status line *)

(** C39: the status line shows the process, the number of processes in RAM, the
    number of holes, and the share of the memory in use in per cent, rounded up:
    the least [u] with [100 * used <= memsize * u]. *)
Theorem status_line memsize fl pl F P qs held a r v t s :
  world memsize fl pl F P qs ((a, Node r v) :: held) s → 100 * memsize ≤ INT_MAX →
  wp (print_simulation_status t a pl fl memsize)
    (λ _ s', ∃ u, memsize * (u - 1) < 100 * total (ram P.*2) ≤ memsize * u ∧ 0 ≤ u ≤ 100 ∧
       s' = set_out (out s ++ [Status t (pcb_process_id v) (Z.of_nat (length (ram P.*2)))
                                (Z.of_nat (length F)) u]) s) s.
Proof.
  intros Hw Hm. eapply wp_print_status; [exact Hw|done|].
  pose proof (w_wf _ _ _ _ _ _ _ _ Hw) as Hwf. pose proof (wf_memsize _ _ _ Hwf) as Hpos.
  assert (0 ≤ total (ram P.*2) ≤ memsize) as Hused.
  { pose proof (wf_total _ _ _ Hwf) as Ht. rewrite total_app in Ht.
    pose proof (total_nonneg _ (wf_positive _ _ _ Hwf)).
    pose proof (total_nonneg _ (ram_positive _ (wf_sizes _ _ _ Hwf))). lia. }
  eexists. split; [apply percent_ceiling; lia|]. split; [|reflexivity].
  destruct (decide (total (ram P.*2) = 0)) as [->|].
  { unfold percent. rewrite Z.mul_0_r, Z.quot_0_l, Z.rem_0_l by lia. simpl. lia. }
  assert (1 ≤ percent memsize (total (ram P.*2)) ≤ 100) by (apply percent_bounds; lia). lia.
Qed.

Lemma status_line_witness :
  wp (print_simulation_status 5 2 1 1 100)
    (λ _ s', ∃ u, 100 * (u - 1) < 100 * total (ram (ex_pms 50).*2) ≤ 100 * u ∧ 0 ≤ u ≤ 100 ∧
       s' = set_out (out ex_world_state ++ [Status 5 8 (Z.of_nat (length (ram (ex_pms 50).*2)))
                                              (Z.of_nat (length ex_free)) u]) ex_world_state)
    ex_world_state.
Proof. apply (status_line 100 1 1 ex_free (ex_pms 50) ex_queues [] 2 NULL ex_b 5); [apply ex_world|lia]. Defined.

(** The percentage is computed from [100 * used] in an [int]: with more than
    21474836 units of memory in use, printing the status is undefined. *)
Theorem status_line_overflow memsize fl pl F P qs held a r v t s :
  world memsize fl pl F P qs ((a, Node r v) :: held) s → 21474836 < total (ram P.*2) →
  print_simulation_status t a pl fl memsize s = UB.
Proof.
  intros Hw Hbig. unfold print_simulation_status.
  pose proof (wp_get_ram_size (w_mm _ _ _ _ _ _ _ _ Hw) (w_wf _ _ _ _ _ _ _ _ Hw)
    (λ n s', n = total (ram P.*2) ∧ s' = s) (conj eq_refl eq_refl)) as Hsz.
  unfold wp in Hsz. destruct (get_process_memories_list_not_in_disk_size pl s) as [n s'| | |] eqn:E; try done.
  destruct Hsz as [-> ->]. eapply run_bind_eq; [exact E|]. apply run_bind_ub.
  unfold int_mul, chk. destruct (in_int (100 * total (ram P.*2))) eqn:Ein; [|done].
  apply in_int_spec in Ein. lia.
Qed.

(** One process that fills a memory of 21474837 units. *)
Definition ex_big : process_memory := PM 21474837 21474837 0 8.
Definition ex_big_state : sim :=
  Sim ∅ {[1%positive := FreeList NULL]} {[1%positive := Node NULL ex_big]}
    {[1%positive := PMList (Some 1%positive)]}
    {[1%positive := Node NULL (Pcb 8 running (Some 1%positive) 1 10 0 0)]} ∅ ∅ ∅ [] [].

Lemma ex_big_world :
  world 21474837 1 1 [] [(1%positive, ex_big)] []
    [(1%positive, Node NULL (Pcb 8 running (Some 1%positive) 1 10 0 0))] ex_big_state.
Proof.
  split.
  - split; [split; [reflexivity|apply owns_empty]|split; [reflexivity|]|reflexivity].
    split; [|reflexivity]. split; [done|]. by exists NULL.
  - split; [lia|constructor|done|repeat constructor| |reflexivity].
    intros a. unfold cov, covers, seg_end. simpl. repeat case_match; lia.
  - split; [constructor|constructor|reflexivity|repeat constructor|apply NoDup_singleton|reflexivity].
Defined.

Lemma status_line_overflow_witness :
  print_simulation_status 0 1 1 1 21474837 ex_big_state = UB.
Proof.
  apply (status_line_overflow 21474837 1 1 [] [(1%positive, ex_big)] [] [] 1 NULL
    (Pcb 8 running (Some 1%positive) 1 10 0 0)); [apply ex_big_world|reflexivity].
Defined.
