(* ===== verification/GameProps.v ===== *)
(** * GameProps: the correctness of the Mastermind server

    The theorems about secret-code.c, message-helpers.c and the thread of
    server.c that serves a client. *)
From Stdlib Require Import Ascii String.
From stdpp Require Import prelude gmultiset strings.
From S2P Require Import Prelude CMonad CString SecretCode SecretCodeRefine Messages.
From S2P Require Import Server ServerRefine.

Definition code_ABCD : list ascii := chars "ABCD".
Definition code_ABBA : list ascii := chars "ABBA".

(** The server before its first client; [c] is the client's connection. *)
Definition srv_start (c : conn) : srv := Srv c 0 [] 0 0 0 [].

Lemma ABCD_valid : valid_code code_ABCD.
Proof. by apply (bool_decide_unpack _). Defined.

(** ** Sessions *)

(** C4: with a client whose messages [ms] contain enough guesses and a network
    that delivers, the thread plays the game of Mastermind: the messages sent
    are the welcome, a request for each of at most ten guesses, a complaint for
    each invalid one, the feedback by the rules of the game, and the verdict;
    the log records the same; the counters say one client served, one more win
    if the code was guessed; the socket is closed once and every lock is
    released. *)
Theorem session_transcript s0 rands fuel secret tail ms lines texts won rest :
  counters_ok s0 → s_held s0 = [] → reads (s_conn s0) = Chunk <$> ms → writes (s_conn s0) = [] →
  Forall (λ m, length m = 192%nat) ms → (length ms < fuel)%nat → valid_code secret →
  game 10 1 secret ms = Some (lines, texts, won, rest) →
  wp (pthread_routine rands fuel (secret ++ NUL :: tail))
    (λ _ s', s' = Srv (Conn (Chunk <$> rest) [] (sent (s_conn s0) ++ blocks (session_texts texts won)))
       (s_closed s0 + 1) (s_log s0 ++ session_log secret lines won)
       (clients_now_count s0) (clients_count s0 + 1)
       (clients_win_count s0 + (if won then 1 else 0)) []) s0.
Proof. apply wp_routine_ok. Qed.

(** A client that sends one invalid guess, one wrong guess and the right one. *)
Definition ex_messages : list (list ascii) :=
  block_text <$> [chars "ABC"; code_ABBA; code_ABCD].

Lemma session_transcript_witness :
  wp (pthread_routine (λ _, 0) 4 (code_ABCD ++ [NUL]))
    (λ _ s', s' = Srv (Conn [] [] (blocks (session_texts
         [GP_GUESS_REQ; GP_GUESS_INV; GP_GUESS_FBK ++ feedback_message 1 2 0;
          GP_GUESS_REQ; GP_GUESS_FBK ++ feedback_message 2 4 0] true))) 1
       (session_log code_ABCD [ClientGuess code_ABBA; ServerHint 2 0; ClientGuess code_ABCD;
                               ServerHint 4 0] true) 0 1 1 [])
    (srv_start (Conn (Chunk <$> ex_messages) [] [])).
Proof.
  apply (session_transcript (srv_start (Conn (Chunk <$> ex_messages) [] [])) (λ _, 0) 4 code_ABCD []
    ex_messages
    [ClientGuess code_ABBA; ServerHint 2 0; ClientGuess code_ABCD; ServerHint 4 0]
    [GP_GUESS_REQ; GP_GUESS_INV; GP_GUESS_FBK ++ feedback_message 1 2 0;
     GP_GUESS_REQ; GP_GUESS_FBK ++ feedback_message 2 4 0] true []);
    try reflexivity.
  - unfold counters_ok. simpl. lia.
  - repeat constructor.
  - simpl. lia.
  - apply ABCD_valid.
Defined.

(** Whatever the network does (messages in pieces, end of file, read errors,
    partial writes, a lost connection), a serving thread has no undefined
    behaviour: it never takes a lock twice, nor releases one it does not hold,
    nor writes outside a buffer.  However it ends, it holds no lock, has closed
    the socket exactly once, has given back its place in the number of current
    clients and has been counted as served once. *)
Theorem session_safe s rands fuel secret :
  counters_ok s → s_held s = [] → (∀ i, 0 ≤ rands i ≤ INT_MAX) → (4 < length secret)%nat →
  safe (pthread_routine rands fuel secret) (λ _ s', served s s') (served s) s.
Proof. apply safe_routine. Qed.

(** A connection that is lost in the first message. *)
Lemma session_safe_witness :
  safe (pthread_routine (λ i, i `mod` 7) 3 (replicate 5 NUL))
    (λ _ s', served (srv_start (Conn [ReadErr] [Accept 7; WriteErr true] [])) s')
    (served (srv_start (Conn [ReadErr] [Accept 7; WriteErr true] [])))
    (srv_start (Conn [ReadErr] [Accept 7; WriteErr true] [])).
Proof.
  apply (session_safe _ (λ i, i `mod` 7)); [unfold counters_ok; simpl; lia|reflexivity| |simpl; lia].
  intros i. pose proof (Z.mod_pos_bound i 7). lia.
Defined.

(** The result of [receive_message] is not checked while a guess is awaited:
    when the client has stopped sending but still receives, the thread takes
    every end of file for an invalid guess and never ends, whatever the bound on
    its attempts. *)
Theorem session_spins s0 rands fuel secret tail :
  counters_ok s0 → s_held s0 = [] → reads (s_conn s0) = [] → writes (s_conn s0) = [] →
  valid_code secret → pthread_routine rands fuel (secret ++ NUL :: tail) s0 = NoFuel.
Proof. apply routine_spins. Qed.

Lemma session_spins_witness :
  pthread_routine (λ _, 0) 1000 (code_ABCD ++ [NUL]) (srv_start (Conn [] [] [])) = NoFuel.
Proof.
  apply (session_spins (srv_start (Conn [] [] [])) (λ _, 0) 1000 code_ABCD []); try reflexivity.
  - unfold counters_ok. simpl. lia.
  - apply ABCD_valid.
Defined.

(** ** Secret codes *)

(** C12: the feedback on a guess follows the rules of Mastermind: the first number
    counts the positions that agree; the second the further colours the two
    codes have in common, with multiplicity; and the guess is reported right
    exactly when it is the secret code. *)
Theorem feedback_rules {S} (a g ra rg : list ascii) (s : S) :
  length a = 4%nat → length g = 4%nat →
  wp (get_secret_code_guess_feedback (a ++ ra) (g ++ rg))
    (λ r s', s' = s ∧ r = (bool_decide (g = a), positions a g, shared a g - positions a g)) s.
Proof.
  intros Ha Hg. eapply wp_mono; [by apply wp_feedback|]. intros r s' [-> ->]. split; [done|].
  do 2 f_equal. apply bool_decide_ext. rewrite <- (positions_all a g), Ha by congruence. done.
Qed.

Lemma feedback_rules_witness :
  wp (get_secret_code_guess_feedback (code_ABCD ++ [NUL]) (code_ABBA ++ [NUL]))
    (λ r s', s' = tt ∧ r = (false, 2, 0)) tt.
Proof. apply (feedback_rules code_ABCD code_ABBA [NUL] [NUL] tt); reflexivity. Defined.

(** [is_valid_secret_code] on a terminated string decides whether the string
    consists of exactly four of the letters A to F. *)
Theorem validation_decides {S} (buf : list ascii) (s : S) :
  NUL ∈ buf →
  wp (is_valid_secret_code buf) (λ r s', s' = s ∧ r = bool_decide (valid_code (cstr buf))) s.
Proof.
  intros Hn. apply wp_is_valid; [by right|]. split; [done|].
  by apply bool_decide_ext, valid_buffer_string.
Qed.

Lemma validation_decides_witness :
  wp (is_valid_secret_code (chars "ABCDE" ++ [NUL])) (λ r s', s' = tt ∧ r = false) tt.
Proof. apply (validation_decides (chars "ABCDE" ++ [NUL]) tt). by apply elem_of_app; right; left. Defined.

(** [get_random_secret_code] fills the buffer with a valid code and ends it
    with NUL, whatever [rand] returns; the rest of the buffer is unchanged. *)
Theorem random_code_valid {S} rands (buf : list ascii) (s : S) :
  (∀ i, 0 ≤ rands i ≤ INT_MAX) → (4 < length buf)%nat →
  wp (get_random_secret_code rands buf)
    (λ r s', s' = s ∧ ∃ code, valid_code code ∧ r = code ++ NUL :: drop 5 buf) s.
Proof. intros Hr Hb. apply wp_random; [done..|]. eauto. Qed.

Lemma random_code_valid_witness :
  wp (get_random_secret_code (λ i, 2 * (i `mod` 7)) (replicate 5 NUL))
    (λ r s', s' = tt ∧ ∃ code, valid_code code ∧ r = code ++ NUL :: drop 5 (replicate 5 NUL)) tt.
Proof.
  apply (random_code_valid (λ i, 2 * (i `mod` 7)) (replicate 5 NUL) tt); [|simpl; lia].
  intros i. pose proof (Z.mod_pos_bound i 7). lia.
Defined.

(** ** Messages over a stream *)

(** C26: [receive_message] puts the next bytes of the stream, in order, at the
    front of the buffer and leaves all the others to be read; it returns the
    size of the message when it is complete, and [READ_ERROR] otherwise. *)
Theorem receive_stream {S} `{!HasConn S} (buf : list ascii) (msg_size : Z) (s : S) :
  0 < msg_size ≤ INT_MAX → msg_size ≤ Z.of_nat (length buf) →
  wp (receive_message buf msg_size) (λ r s', ∃ c b, s' = set_conn c s ∧
    r.2 = b ++ drop (length b) buf ∧ b ++ incoming c = incoming (get_conn s) ∧
    writes c = writes (get_conn s) ∧ sent c = sent (get_conn s) ∧
    (r.1 = msg_size ∧ Z.of_nat (length b) = msg_size ∨
     r.1 = READ_ERROR ∧ Z.of_nat (length b) < msg_size)) s.
Proof.
  intros Hn Hb. apply wp_receive; [done..|].
  destruct (gather 5 (Z.to_nat msg_size) (get_conn s)) as [b c] eqn:E.
  apply gather_stream in E as (Hs & Hlen & Hw & Hsent). exists c, b. simpl.
  repeat (split; [done|]). case_bool_decide; [by left|right]. split; [done|lia].
Qed.

Definition ex_conn : conn :=
  Conn [Chunk (chars "ab"); ReadErr; Chunk (chars "cdef")] [Accept 1; WriteErr false; Accept 1] [].

Lemma receive_stream_witness :
  wp (receive_message (replicate 4 NUL) 4) (λ r s', ∃ c b, s' = set_conn c ex_conn ∧
    r.2 = b ++ drop (length b) (replicate 4 NUL) ∧ b ++ incoming c = incoming (get_conn ex_conn) ∧
    writes c = writes (get_conn ex_conn) ∧ sent c = sent (get_conn ex_conn) ∧
    (r.1 = 4 ∧ Z.of_nat (length b) = 4 ∨ r.1 = READ_ERROR ∧ Z.of_nat (length b) < 4)) ex_conn.
Proof. apply (receive_stream (replicate 4 NUL) 4 ex_conn); simpl; lia. Defined.

(** C27: [send_message] puts a prefix of the message on the wire, and returns its
    size exactly when that is the whole message; otherwise, when some of the message
    was not sent, it returns one of the two error codes. *)
Theorem send_stream {S} `{!HasConn S} (msg : list ascii) (s : S) :
  (0 < length msg)%nat → Z.of_nat (length msg) ≤ INT_MAX →
  wp (send_message msg (Z.of_nat (length msg))) (λ r s', ∃ c m, s' = set_conn c s ∧
    m `prefix_of` msg ∧ sent c = sent (get_conn s) ++ m ∧ reads c = reads (get_conn s) ∧
    (r = Z.of_nat (length msg) ∧ m = msg ∨
     (r = WRITE_CONN_LOST_ERROR ∨ r = WRITE_OTHER_ERROR) ∧ m ≠ msg)) s.
Proof.
  intros Hn Hb. apply wp_send; [done..|].
  destruct (scatter 5 msg (get_conn s)) as [r c] eqn:E.
  apply scatter_sent in E as (Hr & m & Hm & Hs & Hall); [|done]. exists c, m.
  repeat (split; [done|]). destruct r; simpl; [left; by rewrite <- Hall|right..]; rewrite <- Hall; auto.
Qed.

Lemma send_stream_witness :
  wp (send_message (chars "abcd") 4) (λ r s', ∃ c m, s' = set_conn c ex_conn ∧
    m `prefix_of` chars "abcd" ∧ sent c = sent (get_conn ex_conn) ++ m ∧
    reads c = reads (get_conn ex_conn) ∧
    (r = 4 ∧ m = chars "abcd" ∨ (r = WRITE_CONN_LOST_ERROR ∨ r = WRITE_OTHER_ERROR) ∧ m ≠ chars "abcd")) ex_conn.
Proof. apply (send_stream (chars "abcd") ex_conn); simpl; lia. Defined.
