(* ===== verification/ServerProps.v ===== *)
(** * ServerProps: the correctness of the server that serves its clients at the same time

    The theorems about the code of server.c, run by any number of threads in any
    order. *)
From Stdlib Require Import Ascii String.
From stdpp Require Import prelude functions list strings.
From S2P Require Import Prelude CMonad CString SecretCode SecretCodeRefine Messages Server ServerRefine.
From S2P Require Import ServerMain Threads ServerThreads ServerCode ServerRun ServerFate ServerSim ServerEnds.
From S2P Require Import ServerAdmission GameProps.

(** *** An example: two clients whose threads take turns *)

(** Let the threads of the list run one step each; one that cannot is passed over. *)
Fixpoint drive (sched : list nat) (w : world) : world :=
  match sched with
  | [] => w
  | i :: sched => drive sched (match wstep i w with Goes w' => w' | _ => w end)
  end.

Definition player : client := Client (Conn (Chunk <$> ex_messages) [] []) (λ _, 0).
Definition join (k : client) (w : world) : world := default w (accept 4 code_ABCD k true w).
Definition two_players : world := drive (concat (replicate 90 [1; 2]%nat)) (join player (join player world_start)).

Lemma drive_reach sched w : wreach 4 code_ABCD w → wreach 4 code_ABCD (drive sched w).
Proof.
  revert w. induction sched as [|i sched IH]; intros w Hw; [done|]. cbn [drive]. apply IH.
  destruct (wstep i w) eqn:Hi; [by eapply wreach_thread|done..].
Qed.

Lemma join_reach w : wreach 4 code_ABCD w → wreach 4 code_ABCD (join player w).
Proof.
  intros Hw. unfold join. destruct (accept 4 code_ABCD player true w) eqn:Ha; [|done].
  apply (wreach_accept _ _ w player true); [done|cbn; lia|done].
Qed.

Lemma two_players_reach : wreach 4 code_ABCD two_players.
Proof. apply drive_reach, join_reach, join_reach, wreach_start. Qed.

Lemma two_players_third :
  ∃ x, w_threads two_players !! 2%nat = Some x ∧ t_arg x = player ∧ over x = true.
Proof.
  assert (t_arg <$> (w_threads two_players !! 2%nat) = Some player) as Ha by (vm_compute; reflexivity).
  assert (over <$> (w_threads two_players !! 2%nat) = Some true) as Ho by (vm_compute; reflexivity).
  destruct (w_threads two_players !! 2%nat) as [x|]; [|done]. exists x.
  split; [done|]. split; [by injection Ha|by injection Ho].
Qed.

Lemma two_players_few : Z.of_nat (length (w_threads two_players)) + 2 ≤ INT_MAX.
Proof. assert (length (w_threads two_players) = 3%nat) as -> by (vm_compute; reflexivity). lia. Qed.

(** C6: take any state the server can reach, with any number of clients at any
    point of their sessions, whatever the network does to them.  No step of any
    thread is undefined: none touches a counter or the log without its mutex,
    releases a mutex it does not hold, takes one twice, leaves a buffer, or makes a
    counter overflow.  And there is no deadlock: from this state the threads can be
    run until each of them is through.  A client that plays its game to the end has
    then been served to the end of [pthread_routine]; a thread that spends its fuel
    in the loop that waits for a valid guess, when the fuel exceeds what its network
    has to offer, has read all that its client will ever send. *)
Theorem server_runs fuel secret w :
  wreach fuel secret w → Z.of_nat (length (w_threads w)) + 2 ≤ INT_MAX → valid_code secret →
  (∀ i, wstep i w ≠ Undefined) ∧
  ∃ sched w', wrun sched w = Goes w' ∧ length (w_threads w') = length (w_threads w) ∧
    (∀ i x, w_threads w' !! i = Some x → over x = true) ∧
    (∀ i x, w_threads w' !! S i = Some x → plays fuel secret (t_arg x) → t_code x = Ret ()) ∧
    (∀ i x, w_threads w' !! S i = Some x → spinning x = true →
      (demand (k_conn (t_arg x)) < fuel)%nat → drained (l_conn (t_loc x))).
Proof.
  intros Hr Hl Hv. destruct (reach_sim _ _ w Hr Hl) as [c Hs]. split.
  { intros i Hu. pose proof (sim_step _ _ w c i Hs Hl) as Hgo. by rewrite Hu in Hgo. }
  destruct (sim_finishes _ _ w c Hs Hl) as (sched & w' & c' & Hrun & Hs' & Hlen & Ho).
  assert (∀ i x, w_threads w' !! i = Some x → over x = true) as Hover
    by (intros i x Hx; by eapply (Forall_lookup_1 _ _ _ _ Ho)).
  exists sched, w'. split_and!; [done..| |].
  - intros i x Hx. apply (sim_plays fuel secret w' c' i x); eauto.
  - intros i x Hx. apply (sim_closed fuel secret w' c' i x); eauto.
Qed.

(** A client that has said nothing, beside two that play. *)
Definition silent : client := Client (Conn [] [] []) (λ _, 0).
Definition three_clients : world :=
  drive [1; 2; 1; 3; 3]%nat (default world_start (accept 4 code_ABCD silent true (join player (join player world_start)))).

Lemma three_clients_reach : wreach 4 code_ABCD three_clients.
Proof.
  apply drive_reach. destruct (accept 4 code_ABCD silent true (join player (join player world_start))) eqn:Ha.
  - apply (wreach_accept _ _ (join player (join player world_start)) silent true); [apply join_reach, join_reach, wreach_start|intros i; cbn; lia|exact Ha].
  - apply wreach_start.
Qed.

Lemma three_clients_args : t_arg <$> tail (w_threads three_clients) = [player; player; silent].
Proof. vm_compute. reflexivity. Qed.

Lemma three_clients_few : Z.of_nat (length (w_threads three_clients)) + 2 ≤ INT_MAX.
Proof. assert (length (w_threads three_clients) = 4%nat) as -> by (vm_compute; reflexivity). lia. Qed.

Lemma player_plays : plays 4 code_ABCD player.
Proof. exists ex_messages. do 4 eexists. split_and!; [done|done|repeat constructor|simpl; lia|reflexivity]. Qed.

Lemma server_runs_witness :
  wstep 1 three_clients ≠ Undefined ∧
  ∃ sched w', wrun sched three_clients = Goes w' ∧
    ∀ i x, w_threads w' !! S i = Some x → over x = true ∧
      (t_arg x = player → t_code x = Ret ()) ∧
      (t_arg x = silent → spinning x = true → drained (l_conn (t_loc x))).
Proof.
  destruct (server_runs 4 code_ABCD three_clients three_clients_reach three_clients_few ABCD_valid)
    as (H1 & sched & w' & Hrun & _ & Ho & Hp & Hd).
  split; [apply H1|]. exists sched, w'. split; [exact Hrun|]. intros i x Hx.
  split; [exact (Ho _ _ Hx)|]. split.
  - intros Ha. apply (Hp i x Hx). rewrite Ha. exact player_plays.
  - intros Ha Hs. apply (Hd i x Hx Hs). rewrite Ha. vm_compute. lia.
Defined.

(** C7: the threads do not disturb each other.  However the threads were interleaved, when the
    thread of a client has ended its client has been sent, and the log contains from
    this thread, exactly what one run of [pthread_routine] on the same connection
    sends and logs; a thread whose loop spends its fuel is one that does so alone. *)
Theorem served_as_alone fuel secret w i x :
  wreach fuel secret w → Z.of_nat (length (w_threads w)) + 2 ≤ INT_MAX →
  w_threads w !! S i = Some x → over x = true →
  match pthread_routine (k_rands (t_arg x)) fuel (strncpy 5 secret) (srv_start (k_conn (t_arg x))) with
  | Ok _ s' | Exit _ s' => t_loc x = loc_of s' ∧ own (S i) (w_log w) = s_log s'
  | NoFuel => t_code x = Spins
  | UB => False
  end.
Proof. intros Hr Hl Hx Ho. destruct (reach_sim _ _ w Hr Hl) as [c Hs]. by apply (sim_alone fuel secret w c). Qed.

Lemma served_as_alone_witness :
  ∃ x, w_threads two_players !! 2%nat = Some x ∧
    match pthread_routine (λ _, 0) 4 (strncpy 5 code_ABCD) (srv_start (k_conn player)) with
    | Ok _ s' | Exit _ s' => t_loc x = loc_of s' ∧ own 2 (w_log two_players) = s_log s'
    | NoFuel => t_code x = Spins
    | UB => False
    end.
Proof.
  destruct two_players_third as (x & Hx & Ha & Ho). exists x. split; [exact Hx|].
  pose proof (served_as_alone 4 code_ABCD two_players 1 x two_players_reach two_players_few Hx Ho) as H.
  rewrite Ha in H. exact H.
Defined.

(** C8: every client that plays gets its game of Mastermind, whoever else is served at the
    same time: when its thread has ended, the messages sent to it are the welcome,
    the requests, the complaints about invalid guesses, the feedback by the rules and
    the verdict; its socket has been closed once; and the lines that its thread wrote
    to the shared log tell this game. *)
Theorem concurrent_games fuel secret w i x ms lines texts won rest :
  wreach fuel secret w → Z.of_nat (length (w_threads w)) + 2 ≤ INT_MAX → valid_code secret →
  w_threads w !! S i = Some x → over x = true →
  reads (k_conn (t_arg x)) = Chunk <$> ms → writes (k_conn (t_arg x)) = [] →
  Forall (λ m, length m = 192%nat) ms → (length ms < fuel)%nat →
  game 10 1 secret ms = Some (lines, texts, won, rest) →
  sent (l_conn (t_loc x)) = sent (k_conn (t_arg x)) ++ blocks (session_texts texts won) ∧
  l_closed (t_loc x) = 1 ∧ own (S i) (w_log w) = session_log secret lines won.
Proof.
  intros Hr Hl Hv Hx Ho Hreads Hwrites Hms Hfuel Hg. destruct (reach_sim _ _ w Hr Hl) as [c Hs].
  by apply (sim_game fuel secret w c i x ms lines texts won rest).
Qed.

Lemma concurrent_games_witness :
  ∃ x, w_threads two_players !! 2%nat = Some x ∧ l_closed (t_loc x) = 1 ∧
    sent (l_conn (t_loc x)) = blocks (session_texts
      [GP_GUESS_REQ; GP_GUESS_INV; GP_GUESS_FBK ++ feedback_message 1 2 0;
       GP_GUESS_REQ; GP_GUESS_FBK ++ feedback_message 2 4 0] true) ∧
    own 2 (w_log two_players) = session_log code_ABCD
      [ClientGuess code_ABBA; ServerHint 2 0; ClientGuess code_ABCD; ServerHint 4 0] true.
Proof.
  destruct two_players_third as (x & Hx & Ha & Ho). exists x. split; [exact Hx|].
  destruct (concurrent_games 4 code_ABCD two_players 1 x ex_messages
    [ClientGuess code_ABBA; ServerHint 2 0; ClientGuess code_ABCD; ServerHint 4 0]
    [GP_GUESS_REQ; GP_GUESS_INV; GP_GUESS_FBK ++ feedback_message 1 2 0;
     GP_GUESS_REQ; GP_GUESS_FBK ++ feedback_message 2 4 0] true []
    two_players_reach two_players_few ABCD_valid Hx Ho) as (H1 & H2 & H3);
    try (rewrite Ha; reflexivity); try reflexivity.
  - repeat constructor.
  - simpl. lia.
  - rewrite Ha in H1. split; [exact H2|]. split; [exact H1|exact H3].
Defined.

(** C29: no update is lost.  When all threads are through, the number of clients
    is that of the threads that were started, the number of wins the sum of those
    that the sessions count alone, and the number of current clients that of the
    threads that still wait for a valid guess, less one when the main thread has left
    because a refusal could not be sent; so it is zero when no thread waits and the
    main thread is there.  No mutex is left held, and every client's socket has been
    closed exactly once, but for those of the threads that still wait, which are
    open. *)
Theorem final_counts fuel secret w x xs :
  wreach fuel secret w → Z.of_nat (length (w_threads w)) + 2 ≤ INT_MAX →
  w_threads w = x :: xs → Forall (λ x, over x = true) (x :: xs) →
  w_count w Count = Z.of_nat (length xs) ∧
  w_count w WinCount = foldr (λ x z, wins fuel secret (t_arg x) + z) 0 xs ∧
  w_count w NowCount = Z.of_nat (length (filter (λ x, spinning x = true) xs)) - (if has_left x then 1 else 0) ∧
  (∀ m, w_owner w m = None) ∧
  Forall (λ x, l_closed (t_loc x) = if spinning x then 0 else 1) xs.
Proof.
  intros Hr Hl Hx Ho. destruct (reach_sim _ _ w Hr Hl) as [c Hs].
  rewrite !(sim_counts fuel secret w c x xs _ Hs Hx Ho), leaves_count, leaves_now. cbn [bool_decide].
  split_and!; [|rewrite bool_decide_false by done; unfold leaves; lia|by rewrite bool_decide_true| |].
  - rewrite bool_decide_false by done. lia.
  - intros m. apply (sim_free fuel secret w c); [done|by rewrite Hx].
  - apply Forall_lookup_2. intros i y Hy. apply (sim_closed fuel secret w c i y); [done|by rewrite Hx|].
    by apply (Forall_lookup_1 _ _ (S i) y Ho).
Qed.

Lemma two_players_ended :
  ∃ x y z, w_threads two_players = [x; y; z] ∧ Forall (λ x, over x = true) [x; y; z] ∧
    has_left x = false ∧ filter (λ x, spinning x = true) [y; z] = [] ∧ t_arg y = player ∧ t_arg z = player.
Proof.
  assert (over <$> w_threads two_players = [true; true; true]) as Ho by (vm_compute; reflexivity).
  assert (spinning <$> w_threads two_players = [false; false; false]) as Hs by (vm_compute; reflexivity).
  assert (has_left <$> w_threads two_players = [false; false; false]) as Hh by (vm_compute; reflexivity).
  assert (t_arg <$> tail (w_threads two_players) = [player; player]) as Hp by (vm_compute; reflexivity).
  destruct (w_threads two_players) as [|x [|y [|z [|]]]]; [discriminate Ho..| |discriminate Ho].
  exists x, y, z. injection Ho as ? ? ?. injection Hs as _ Hy Hz. injection Hh as ? _ _.
  split; [done|]. split; [by repeat constructor|]. split; [done|]. split.
  - rewrite !filter_cons, Hy, Hz. done.
  - cbn [tail fmap list_fmap] in Hp. clear -Hp. generalize dependent player. intros k Hp. by injection Hp as -> ->.
Qed.

Lemma players_win y z : t_arg y = player → t_arg z = player →
  foldr (λ x n, wins 4 code_ABCD (t_arg x) + n) 0 [y; z] = 2.
Proof.
  intros Hy Hz. assert (wins 4 code_ABCD player = 1) as Hw by (vm_compute; reflexivity).
  cbn [foldr]. by rewrite Hy, Hz, Hw.
Qed.

Lemma final_counts_witness :
  w_count two_players Count = 2 ∧ w_count two_players WinCount = 2 ∧ w_count two_players NowCount = 0 ∧
  (∀ m, w_owner two_players m = None) ∧
  ∃ x y z, w_threads two_players = [x; y; z] ∧
    Forall (λ x, l_closed (t_loc x) = if spinning x then 0 else 1) [y; z].
Proof.
  destruct two_players_ended as (x & y & z & Hw & Ho & Hx & Hf & Hy & Hz).
  destruct (final_counts 4 code_ABCD two_players x [y; z] two_players_reach two_players_few Hw Ho)
    as (H1 & H2 & H3 & H4 & H5).
  split; [exact (eq_trans H1 eq_refl)|]. split; [exact (eq_trans H2 (players_win y z Hy Hz))|].
  split; [rewrite Hx, Hf in H3; exact (eq_trans H3 eq_refl)|]. split; [exact H4|].
  exists x, y, z. split; [exact Hw|exact H5].
Defined.

(** C31: the main thread looks at [clients_now_count] without the mutex and before
    the thread it starts has counted itself: for every number [n] of clients, 41 as
    well as a million, the server can be in a state in which [n] clients are
    counted and no session has ended, so that the limit of 40 does not hold. *)
Theorem over_admission fuel secret k n :
  (∀ i, 0 ≤ k_rands k i ≤ INT_MAX) → Z.of_nat n + 3 ≤ INT_MAX →
  ∃ w, wreach fuel secret w ∧ length (w_threads w) = S n ∧ w_count w NowCount = Z.of_nat n ∧
    ∀ i x, w_threads w !! S i = Some x → over x = false.
Proof. apply over_the_places. Qed.

Lemma over_admission_witness :
  ∃ w, wreach 4 code_ABCD w ∧ length (w_threads w) = 1001%nat ∧ w_count w NowCount = 1000 ∧
    ∀ i x, w_threads w !! S i = Some x → over x = false.
Proof. apply (over_admission 4 code_ABCD player 1000); [intros i; cbn; lia|lia]. Defined.

(** C30: the limit does hold when a client is accepted only after every
    thread has counted its client: then there are never more than 40 current
    clients. *)
Theorem admission_limit fuel secret w :
  settled fuel secret w → Z.of_nat (length (w_threads w)) + 2 ≤ INT_MAX →
  w_count w NowCount ≤ CLIENTS_NOW_MAX_COUNT.
Proof.
  intros Hs Hl. destruct (settled_limit fuel secret w Hs Hl) as (c & Hc & Ho).
  pose proof (count_occupied fuel secret w c Hc). lia.
Qed.

(** The second client is accepted when the first one has been served. *)
Definition one_after_the_other : world :=
  drive (replicate 30 2%nat) (join player (drive (replicate 66 1%nat) (join player world_start))).

Lemma settled_drive sched w : settled 4 code_ABCD w → settled 4 code_ABCD (drive sched w).
Proof.
  revert w. induction sched as [|i sched IH]; intros w Hw; [done|]. cbn [drive]. apply IH.
  destruct (wstep i w) eqn:Hi; [by eapply settled_thread|done..].
Qed.

Lemma settled_join w : settled 4 code_ABCD w →
  w_count w Count = Z.of_nat (length (w_threads w)) - 1 → settled 4 code_ABCD (join player w).
Proof.
  intros Hw Hn. unfold join. destruct (accept 4 code_ABCD player true w) eqn:Ha; [|done].
  apply (settled_accept _ _ w player true); [done|done|cbn; lia|done].
Qed.

Lemma admission_limit_witness :
  w_count one_after_the_other NowCount = 1 ∧ w_count one_after_the_other NowCount ≤ CLIENTS_NOW_MAX_COUNT.
Proof.
  split; [vm_compute; reflexivity|].
  apply (admission_limit 4 code_ABCD one_after_the_other).
  - apply settled_drive, settled_join; [|vm_compute; reflexivity].
    apply settled_drive, settled_join; [apply settled_start|reflexivity].
  - assert (length (w_threads one_after_the_other) = 3%nat) as -> by (vm_compute; reflexivity). lia.
Defined.
