(* ===== verification/ListProps.v ===== *)
(** * ListProps: the correctness of the workshop's linked list

    The theorems about workshop/linked-list.c.  The list of the examples holds
    11, 22 and 33. *)
From stdpp Require Import prelude gmap.
From S2P Require Import Prelude CMonad Chain LinkedList LinkedListRefine.

Definition ex_list : list (loc * Z) := [(1%positive, 11); (2%positive, 22); (3%positive, 33)].
Definition ex_lls : llst :=
  LLst (<[1%positive := Node (Some 2%positive) 11]> (<[2%positive := Node (Some 3%positive) 22]>
          {[3%positive := Node NULL 33]}))
    {[1%positive := LL (Some 1%positive) (Some 3%positive) 3]} ∅ [].

Lemma ex_ll_rep : ll_rep 1 ex_list ex_lls.
Proof.
  split; [reflexivity|]. split; [|reflexivity].
  split; [done|]. exists (Some 2%positive). split; [done|].
  split; [done|]. exists (Some 3%positive). split; [done|].
  split; [done|]. by exists NULL.
Defined.

(** [appendlinkedlist] adds one node with the given number at the end. *)
Theorem append_at_end list l s x :
  ll_rep list l s → short l → ll_faults s = [] →
  wp (appendlinkedlist list x)
    (λ _ s', ∃ a, ll_rep list (l ++ [(a, x)]) s' ∧ ll_faults s' = []) s.
Proof. intros Hr Hs Hf. eapply wp_appendll; eauto. Qed.

Lemma append_at_end_witness :
  wp (appendlinkedlist 1 44)
    (λ _ s', ∃ a, ll_rep 1 (ex_list ++ [(a, 44)]) s' ∧ ll_faults s' = []) ex_lls.
Proof. apply append_at_end; [apply ex_ll_rep|simpl; lia|reflexivity]. Defined.

(** [addlinkedlist] inserts at any index from 0 to the size, at the head, in
    the middle or at the foot. *)
Theorem add_at_index list l1 l2 s x :
  ll_rep list (l1 ++ l2) s → short (l1 ++ l2) → ll_faults s = [] →
  wp (addlinkedlist list (Z.of_nat (length l1)) x)
    (λ _ s', ∃ a, ll_rep list (l1 ++ (a, x) :: l2) s' ∧ ll_faults s' = []) s.
Proof. intros Hr Hs Hf. eapply wp_addll; eauto. Qed.

Lemma add_at_index_witness :
  wp (addlinkedlist 1 1 44)
    (λ _ s', ∃ a, ll_rep 1 ([(1%positive, 11)] ++ (a, 44) :: [(2%positive, 22); (3%positive, 33)]) s' ∧
       ll_faults s' = []) ex_lls.
Proof.
  apply (add_at_index 1 [(1%positive, 11)] [(2%positive, 22); (3%positive, 33)]);
    [apply ex_ll_rep|simpl; lia|reflexivity].
Defined.

(** C38: what was added at an index is found there. *)
Theorem add_then_get list l1 l2 s x :
  ll_rep list (l1 ++ l2) s → Z.of_nat (length (l1 ++ l2)) + 1 < INT_MAX → ll_faults s = [] →
  wp (addlinkedlist list (Z.of_nat (length l1)) x;; getatlinkedlist list (Z.of_nat (length l1)))
    (λ r _, r = x) s.
Proof.
  intros Hr Hs Hf. apply wp_bind. eapply wp_addll; [exact Hr|lia|done|done|].
  intros a s' Hr' _. eapply wp_getat; [exact Hr'| |done|done].
  rewrite length_app in *. simpl. lia.
Qed.

Lemma add_then_get_witness :
  wp (addlinkedlist 1 2 44;; getatlinkedlist 1 2) (λ r _, r = 44) ex_lls.
Proof.
  apply (add_then_get 1 [(1%positive, 11); (2%positive, 22)] [(3%positive, 33)]);
    [apply ex_ll_rep|simpl; lia|reflexivity].
Defined.

(** [poplinkedlist] returns and removes the last number of a list of at
    least two. *)
Theorem pop_last list l b y c z s :
  ll_rep list (l ++ [(b, y); (c, z)]) s → short (l ++ [(b, y); (c, z)]) →
  wp (poplinkedlist list)
    (λ r s', r = z ∧ ll_rep list (l ++ [(b, y)]) s' ∧ ll_faults s' = ll_faults s) s.
Proof. intros Hr Hs. eapply wp_popll; eauto. Qed.

Lemma pop_last_witness :
  wp (poplinkedlist 1)
    (λ r s', r = 33 ∧ ll_rep 1 ([(1%positive, 11)] ++ [(2%positive, 22)]) s' ∧
       ll_faults s' = ll_faults ex_lls) ex_lls.
Proof. apply (pop_last 1 [(1%positive, 11)] 2 22 3 33); [apply ex_ll_rep|simpl; lia]. Defined.

(** On a list of one number, [poplinkedlist] returns the number but does not
    remove it: the state does not change. *)
Theorem pop_keeps_single list a v s :
  ll_rep list [(a, v)] s → wp (poplinkedlist list) (λ r s', r = v ∧ s' = s) s.
Proof. intros Hr. eapply wp_popll_single; [exact Hr|simpl; lia|done|done]. Qed.

Lemma pop_keeps_single_witness :
  wp (poplinkedlist 1) (λ r s', r = 5 ∧
      s' = LLst {[1%positive := Node NULL 5]} {[1%positive := LL (Some 1%positive) (Some 1%positive) 1]} ∅ [])
    (LLst {[1%positive := Node NULL 5]} {[1%positive := LL (Some 1%positive) (Some 1%positive) 1]} ∅ []).
Proof.
  apply (pop_keeps_single 1 1). split; [reflexivity|]. split; [|reflexivity].
  split; [done|]. by exists NULL.
Defined.

(** [removeatlinkedlist] returns and removes the number at any index of the
    list, the only one included. *)
Theorem remove_at_index list l1 a v l2 s :
  ll_rep list (l1 ++ (a, v) :: l2) s → short (l1 ++ (a, v) :: l2) →
  wp (removeatlinkedlist list (Z.of_nat (length l1)))
    (λ r s', r = v ∧ ll_rep list (l1 ++ l2) s' ∧ ll_faults s' = ll_faults s) s.
Proof. intros Hr Hs. eapply wp_removeatll; eauto. Qed.

Lemma remove_at_index_witness :
  wp (removeatlinkedlist 1 2)
    (λ r s', r = 33 ∧ ll_rep 1 ([(1%positive, 11); (2%positive, 22)] ++ []) s' ∧
       ll_faults s' = ll_faults ex_lls) ex_lls.
Proof.
  apply (remove_at_index 1 [(1%positive, 11); (2%positive, 22)] 3 33 []); [apply ex_ll_rep|simpl; lia].
Defined.

(** [removefromlinkedlist] removes the first node with the given number and
    returns 1; when there is none it returns 0 and changes nothing. *)
Theorem remove_first list l s x :
  ll_rep list l s → short l →
  wp (removefromlinkedlist list x)
    (λ r s', (r = 1 ∧ ∃ l1 a l2, l = l1 ++ (a, x) :: l2 ∧ x ∉ l1.*2 ∧ ll_rep list (l1 ++ l2) s') ∨
             (r = 0 ∧ x ∉ l.*2 ∧ s' = s)) s.
Proof. intros Hr Hs. eapply wp_removefromll; [exact Hr|done|naive_solver|auto]. Qed.

Lemma remove_first_witness :
  wp (removefromlinkedlist 1 22)
    (λ r s', (r = 1 ∧ ∃ l1 a l2, ex_list = l1 ++ (a, 22) :: l2 ∧ 22 ∉ l1.*2 ∧ ll_rep 1 (l1 ++ l2) s') ∨
             (r = 0 ∧ 22 ∉ ex_list.*2 ∧ s' = ex_lls)) ex_lls.
Proof. apply remove_first; [apply ex_ll_rep|simpl; lia]. Defined.

(** [indexoflinkedlist] returns the index of the first occurrence of the
    number, or -1 as a [size_t], the largest one. *)
Theorem index_of_first list l s x :
  ll_rep list l s → short l →
  wp (indexoflinkedlist list x)
    (λ r s', s' = s ∧ ((∃ l1 a l2, l = l1 ++ (a, x) :: l2 ∧ x ∉ l1.*2 ∧ r = Z.of_nat (length l1)) ∨
                       (x ∉ l.*2 ∧ r = 2 ^ 64 - 1))) s.
Proof. intros Hr Hs. eapply wp_indexofll; [exact Hr|done|naive_solver|auto]. Qed.

Lemma index_of_first_witness :
  wp (indexoflinkedlist 1 33)
    (λ r s', s' = ex_lls ∧
       ((∃ l1 a l2, ex_list = l1 ++ (a, 33) :: l2 ∧ 33 ∉ l1.*2 ∧ r = Z.of_nat (length l1)) ∨
        (33 ∉ ex_list.*2 ∧ r = 2 ^ 64 - 1))) ex_lls.
Proof. apply index_of_first; [apply ex_ll_rep|simpl; lia]. Defined.

(** [toarraylinkedlist] allocates an array that holds the numbers of the
    list in order, every cell initialised, and changes nothing else. *)
Theorem to_array list l s :
  ll_rep list l s → short l → ll_faults s = [] →
  wp (toarraylinkedlist list)
    (λ array s', arrays s !! array = None ∧
       s' = set_arrays (<[array := Some <$> l.*2]> (arrays s)) s) s.
Proof. intros Hr Hs Hf. eapply wp_toarrayll; eauto. Qed.

Lemma to_array_witness :
  wp (toarraylinkedlist 1)
    (λ array s', arrays ex_lls !! array = None ∧
       s' = set_arrays (<[array := Some <$> ex_list.*2]> (arrays ex_lls)) ex_lls) ex_lls.
Proof. apply to_array; [apply ex_ll_rep|simpl; lia|reflexivity]. Defined.

(** The test program at the end of linked-list.c pops 99, 88 and 77, removes
    0 and 55, and prints 11 22 33 44 66. *)
Theorem test_program_output :
  wp linked_list_main (λ r _, r = [99; 88; 77; 0; 55; 11; 22; 33; 44; 66]) (LLst ∅ ∅ ∅ []).
Proof. vm_compute. reflexivity. Qed.
