(* ===== verification/StringHelpers.v ===== *)
(** * StringHelpers: string-helper-functions.c of the third lab

    The string functions that were handed out for the shell, among them a
    [tokenizer] that splits a command at its blanks.  Blocks of characters and
    blocks of pointers are lists of cells; a cell that was never written may not be
    read.  A [char *] is a block and an offset. *)
From Stdlib Require Import Ascii.
From stdpp Require Import prelude gmap.
From S2P Require Import Prelude CMonad CString.

Record mem := Mem {
  texts : gmap Z (list (option ascii));
  tables : gmap Z (list (option (option Z)));   (* [char **]: NULL or a token *)
  fresh_block : Z;
  mallocs : list bool                           (* the calls of malloc that fail *)
}.

Definition set_texts x s := Mem x (tables s) (fresh_block s) (mallocs s).
Definition set_tables x s := Mem (texts s) x (fresh_block s) (mallocs s).

Notation cptr := (Z * Z)%type.
Definition next_char (p : cptr) : cptr := (p.1, p.2 + 1).

(** [malloc] of [n] cells. *)
Definition take_block : C mem (option Z) := λ s,
  match mallocs s with
  | true :: ms => Ok None (Mem (texts s) (tables s) (fresh_block s) ms)
  | ms => Ok (Some (fresh_block s)) (Mem (texts s) (tables s) (fresh_block s + 1) (tail ms))
  end.
Definition malloc_text (n : Z) : C mem (option Z) :=
  p ← take_block;
  match p with
  | Some b => modify (λ s, set_texts (<[b := replicate (Z.to_nat n) None]> (texts s)) s);; mret (Some b)
  | None => mret None
  end.
Definition malloc_table (n : Z) : C mem (option Z) :=
  p ← take_block;
  match p with
  | Some b => modify (λ s, set_tables (<[b := replicate (Z.to_nat n) None]> (tables s)) s);; mret (Some b)
  | None => mret None
  end.

Definition free_text (p : option Z) : C mem () := λ s,
  match p with
  | None => Ok () s
  | Some b => match texts s !! b with
              | Some _ => Ok () (set_texts (delete b (texts s)) s)
              | None => UB
              end
  end.
Definition free_table (p : option Z) : C mem () := λ s,
  match p with
  | None => Ok () s
  | Some b => match tables s !! b with
              | Some _ => Ok () (set_tables (delete b (tables s)) s)
              | None => UB
              end
  end.

(** The cell at an index: undefined outside the block. *)
Definition cell_at {A} (cells : list A) (i : Z) : option A :=
  if bool_decide (0 ≤ i) then cells !! Z.to_nat i else None.

(** [*p] and [*p = c]. *)
Definition rd (p : cptr) : C mem ascii := λ s,
  match texts s !! p.1 with
  | Some cells => match cell_at cells p.2 with Some (Some c) => Ok c s | _ => UB end
  | None => UB
  end.
Definition wr (p : cptr) (c : ascii) : C mem () := λ s,
  match texts s !! p.1 with
  | Some cells =>
      match cell_at cells p.2 with
      | Some _ => Ok () (set_texts (<[p.1 := <[Z.to_nat p.2 := Some c]> cells]> (texts s)) s)
      | None => UB
      end
  | None => UB
  end.

(** [t[i]] and [t[i] = q] in a table; [t] may be NULL. *)
Definition table_get (t : option Z) (i : Z) : C mem (option Z) := λ s,
  match t with
  | Some b =>
      match tables s !! b with
      | Some cells => match cell_at cells i with Some (Some q) => Ok q s | _ => UB end
      | None => UB
      end
  | None => UB
  end.
Definition table_set (t : option Z) (i : Z) (q : option Z) : C mem () := λ s,
  match t with
  | Some b =>
      match tables s !! b with
      | Some cells =>
          match cell_at cells i with
          | Some _ => Ok () (set_tables (<[b := <[Z.to_nat i := Some q]> cells]> (tables s)) s)
          | None => UB
          end
      | None => UB
      end
  | None => UB
  end.

(** ** The functions of the file; [fuel] bounds their loops *)
Definition str_char_count (fuel : nat) (str : cptr) (cmp : ascii) : C mem Z :=
  iter fuel (λ '(str, count),
    c ← rd str;
    if bool_decide (c = NUL) then mret (inr count)
    else
      count ← (if bool_decide (c = cmp) then int_add count 1 else mret count);
      mret (inl (next_char str, count))) (str, 0).

Definition m_strcpy_slice (dst src : cptr) (n : Z) : C mem Z :=
  iter (S (Z.to_nat n)) (λ '(i, dst, src),
    if i <? n then
      c ← rd src;
      wr dst c;;
      if bool_decide (c = NUL) then mret (inr (-1))
      else mret (inl (i + 1, next_char dst, next_char src))
    else
      wr dst NUL;;
      mret (inr 0)) (0, dst, src).

Definition m_strcpy (fuel : nat) (dst src : cptr) : C mem () :=
  iter fuel (λ '(dst, src),
    c ← rd src;
    wr dst c;;
    if bool_decide (c = NUL) then mret (inr ()) else mret (inl (next_char dst, next_char src))) (dst, src).

(** The value of a [char] in an expression: signed on this machine. *)
Definition schar (c : ascii) : Z := if code c <? 128 then code c else code c - 256.

Definition m_strcmp (fuel : nat) (a b : cptr) : C mem Z :=
  iter fuel (λ '(q1, q2),
    x ← rd q1;
    y ← rd q2;
    if bool_decide (x = y) && negb (bool_decide (x = NUL)) then mret (inl (next_char q1, next_char q2))
    else mret (inr (schar x - schar y))) (a, b).

Definition m_strlen (fuel : nat) (str : cptr) : C mem Z :=
  iter fuel (λ '(str, i),
    c ← rd str;
    if bool_decide (c = NUL) then mret (inr i)
    else
      i ← int_add i 1;
      mret (inl (next_char str, i))) (str, 0).

(** The body of the loop of [tokenizer]; its variables are [cur], [prev] and
    [cur_num]. *)
Definition tokenizer_step (str_array : option Z) (l : cptr * cptr * Z) : C mem (cptr * cptr * Z + ()) :=
  let '(cur, prev, cur_num) := l in
  c ← rd cur;
  if bool_decide (c = NUL) then mret (inr ())
  else
    d ← rd (next_char cur);
    cur ← (if bool_decide (d = NUL) then wr (next_char cur) SPACE;; mret (next_char cur) else mret cur);
    c ← rd cur;
    if bool_decide (c = SPACE) then
      let len := cur.2 - prev.2 in
      token ← malloc_text (len + 1);
      match token with
      | None => ub                      (* the copy writes through NULL *)
      | Some t =>
          m_strcpy_slice (t, 0) prev len;;
          table_set str_array cur_num (Some t);;
          cur_num ← int_add cur_num 1;
          mret (inl (next_char cur, next_char cur, cur_num))
      end
    else mret (inl (next_char cur, prev, cur_num)).

Definition tokenizer (fuel : nat) (str : cptr) : C mem (option Z) :=
  num_tokens ← str_char_count fuel str SPACE;
  n ← int_add num_tokens 2;
  str_array ← malloc_table n;
  iter fuel (tokenizer_step str_array) (str, str, 0);;
  last ← int_add num_tokens 1;
  table_set str_array last None;;
  mret str_array.

Definition str_array_free (fuel : nat) (str_array : option Z) : C mem () :=
  iter fuel (λ cur,
    p ← table_get str_array cur;
    match p with
    | None => mret (inr ())
    | Some _ => free_text p;; mret (inl (cur + 1))
    end) 0;;
  free_table str_array.

(** ** Reading and writing *)

(** The block [b] holds the characters [l]. *)
Definition holds (s : mem) (b : Z) (l : list ascii) : Prop := texts s !! b = Some (Some <$> l).

Lemma cell_at_lookup {A} (cells : list A) i : cell_at cells (Z.of_nat i) = cells !! i.
Proof. unfold cell_at. by rewrite bool_decide_true, Nat2Z.id by lia. Qed.

Lemma wp_rd b l i c (Q : ascii → mem → Prop) s :
  holds s b l → l !! i = Some c → Q c s → wp (rd (b, Z.of_nat i)) Q s.
Proof.
  intros Hb Hi HQ. unfold wp, rd. cbn [fst snd]. rewrite Hb, cell_at_lookup, list_lookup_fmap, Hi. done.
Qed.

Lemma wp_wr b cells i c (Q : () → mem → Prop) s :
  texts s !! b = Some cells → (i < length cells)%nat →
  Q () (set_texts (<[b := <[i := Some c]> cells]> (texts s)) s) → wp (wr (b, Z.of_nat i) c) Q s.
Proof.
  intros Hb Hi HQ. unfold wp, wr. cbn [fst snd]. rewrite Hb, cell_at_lookup.
  destruct (lookup_lt_is_Some_2 cells i Hi) as [x ->]. by rewrite Nat2Z.id.
Qed.

Lemma next_char_at b i : next_char (b, Z.of_nat i) = (b, Z.of_nat (S i)).
Proof. unfold next_char. cbn [fst snd]. f_equal. lia. Qed.

(** The character of a terminated string at an index. *)
Lemma text_lookup (str tail : list ascii) i :
  NUL ∉ str → (i ≤ length str)%nat →
  ∃ c, (str ++ NUL :: tail) !! i = Some c ∧ (c = NUL ↔ i = length str) ∧
    (i < length str → str !! i = Some c)%nat.
Proof.
  intros Hn Hi. destruct (decide (i = length str)) as [->|Hne].
  - exists NUL. rewrite lookup_app_r, Nat.sub_diag by lia. split_and!; [done|done|lia].
  - destruct (lookup_lt_is_Some_2 str i) as [c Hc]; [lia|]. exists c.
    rewrite lookup_app_l by lia. split_and!; [done| |done].
    split; [|done]. intros ->. exfalso. apply Hn. by eapply list_elem_of_lookup_2.
Qed.
