(* ===== verification/StringHelpersRefine.v ===== *)
(** * StringHelpersRefine: what the string functions of the lab compute

    Lengths, copies and comparisons of terminated strings, and the tokens of a
    command. *)
From Stdlib Require Import Ascii.
From stdpp Require Import prelude gmap.
From S2P Require Import Prelude CMonad CString StringHelpers.

(** ** Specification *)

(** The characters of two strings are compared up to the first that differ; the
    end of a string counts as NUL. *)
Fixpoint compare_text (s1 s2 : list ascii) : Z :=
  match s1, s2 with
  | [], [] => 0
  | [], y :: _ => - schar y
  | x :: _, [] => schar x
  | x :: s1, y :: s2 => if bool_decide (x = y) then compare_text s1 s2 else schar x - schar y
  end.

(** The fields between the blanks of a line; they may be empty. *)
Fixpoint fields (s : list ascii) : list (list ascii) :=
  match s with
  | [] => [[]]
  | c :: s' =>
      if bool_decide (c = SPACE) then [] :: fields s'
      else match fields s' with f :: fs => (c :: f) :: fs | [] => [[c]] end
  end.

Definition blanks (s : list ascii) : nat := length (filter (.= SPACE) s).

Lemma code_inj x y : code x = code y → x = y.
Proof.
  intros H. unfold code in H. apply N2Z.inj in H.
  rewrite <- (ascii_N_embedding x), <- (ascii_N_embedding y). by rewrite H.
Qed.

Lemma code_bound x : 0 ≤ code x < 256.
Proof. unfold code. pose proof (N_ascii_bounded x). lia. Qed.

Lemma schar_inj x y : schar x = schar y → x = y.
Proof.
  unfold schar. pose proof (code_bound x). pose proof (code_bound y). intros H1. apply code_inj.
  destruct (Z.ltb_spec (code x) 128), (Z.ltb_spec (code y) 128); lia.
Qed.

Lemma schar_NUL : schar NUL = 0.
Proof. done. Qed.

Lemma compare_text_eq s1 s2 : NUL ∉ s1 → NUL ∉ s2 → compare_text s1 s2 = 0 ↔ s1 = s2.
Proof.
  revert s2. induction s1 as [|x s1 IH]; intros [|y s2] H1 H2; cbn [compare_text]; [done| | |].
  - apply not_elem_of_cons in H2 as [H2 _]. split; [|done]. intros Hy. exfalso. apply H2.
    symmetry. apply schar_inj. rewrite schar_NUL. lia.
  - apply not_elem_of_cons in H1 as [H1 _]. split; [|done]. intros Hx. exfalso. apply H1.
    symmetry. apply schar_inj. by rewrite schar_NUL.
  - apply not_elem_of_cons in H1 as [_ H1]. apply not_elem_of_cons in H2 as [_ H2].
    case_bool_decide as Hxy.
    + rewrite IH by done. subst. naive_solver.
    + split; [|naive_solver]. intros Hs. exfalso. apply Hxy, schar_inj. lia.
Qed.

Lemma fields_cons f s : SPACE ∉ f → fields (f ++ SPACE :: s) = f :: fields s.
Proof.
  induction f as [|c f IH]; intros Hf; cbn [fields app].
  - by rewrite bool_decide_true.
  - apply not_elem_of_cons in Hf as [Hc Hf]. rewrite bool_decide_false by done. by rewrite IH.
Qed.

Lemma fields_one f : SPACE ∉ f → fields f = [f].
Proof.
  induction f as [|c f IH]; intros Hf; cbn [fields]; [done|].
  apply not_elem_of_cons in Hf as [Hc Hf]. rewrite bool_decide_false by done. by rewrite IH.
Qed.

Lemma fields_length s : length (fields s) = S (blanks s).
Proof.
  unfold blanks. induction s as [|c s IH]; [done|]. cbn [fields]. rewrite filter_cons.
  case_bool_decide as Hc; [rewrite decide_True by done|rewrite decide_False by done]; cbn [length].
  - by rewrite IH.
  - destruct (fields s); [done|]. cbn [length] in *. done.
Qed.

(** Complete fields, each with its blank, and the beginning of another one. *)
Definition joined (fs : list (list ascii)) : list ascii := concat ((λ f, f ++ [SPACE]) <$> fs).

Lemma joined_cons f fs : joined (f :: fs) = f ++ SPACE :: joined fs.
Proof. unfold joined. cbn. by rewrite <- app_assoc. Qed.

Lemma fields_joined fs f : Forall (λ f, SPACE ∉ f) fs → SPACE ∉ f → fields (joined fs ++ f) = fs ++ [f].
Proof.
  intros Hfs Hf. induction Hfs as [|g fs Hg _ IH]; [by apply fields_one|].
  rewrite joined_cons, <- app_assoc. cbn [app]. rewrite fields_cons by done. by rewrite IH.
Qed.

Lemma joined_snoc fs f : joined (fs ++ [f]) = joined fs ++ f ++ [SPACE].
Proof. unfold joined. rewrite fmap_app, concat_app. cbn. by rewrite app_nil_r. Qed.

(** ** The functions that only read *)
Section reads.
Context (s : mem).

Lemma wp_m_strlen fuel b str tail :
  holds s b (str ++ NUL :: tail) → NUL ∉ str → (length str < fuel)%nat → Z.of_nat (length str) ≤ INT_MAX →
  wp (m_strlen fuel (b, 0)) (λ n s', n = Z.of_nat (length str) ∧ s' = s) s.
Proof.
  intros Hb Hn Hf Hl.
  apply (wp_iter_idx (λ k '(p, i) s', ∃ j, (j ≤ length str)%nat ∧ p = (b, Z.of_nat j) ∧ i = Z.of_nat j ∧
    s' = s ∧ k = (length str - j)%nat)) with (k := length str); [| |done].
  - intros k [p i] s' (j & Hj & -> & -> & -> & ->).
    destruct (text_lookup str tail j Hn Hj) as (c & Hc & Hend & _).
    apply wp_bind. eapply wp_rd; [done..|]. case_bool_decide as Hcn.
    + apply wp_ret. rewrite (proj1 Hend Hcn). done.
    + assert (j ≠ length str) by naive_solver. apply wp_bind. wp_step. apply wp_ret.
      exists (length str - S j)%nat. split; [lia|]. exists (S j). rewrite next_char_at.
      split_and!; try done || lia.
  - exists 0%nat. split_and!; try done || lia.
Qed.

Lemma wp_char_count fuel b str tail c :
  holds s b (str ++ NUL :: tail) → NUL ∉ str → (length str < fuel)%nat → Z.of_nat (length str) ≤ INT_MAX →
  wp (str_char_count fuel (b, 0) c)
    (λ n s', n = Z.of_nat (length (filter (.= c) str)) ∧ s' = s) s.
Proof.
  intros Hb Hn Hf Hl.
  apply (wp_iter_idx (λ k '(p, i) s', ∃ j, (j ≤ length str)%nat ∧ p = (b, Z.of_nat j) ∧
    i = Z.of_nat (length (filter (.= c) (take j str))) ∧ s' = s ∧ k = (length str - j)%nat))
    with (k := length str); [| |done].
  - intros k [p i] s' (j & Hj & -> & -> & -> & ->).
    destruct (text_lookup str tail j Hn Hj) as (x & Hx & Hend & Hstr).
    apply wp_bind. eapply wp_rd; [done..|]. case_bool_decide as Hcn.
    + apply wp_ret. rewrite (proj1 Hend Hcn). by rewrite firstn_all.
    + assert (j < length str)%nat as Hlt by (destruct (decide (j = length str)); naive_solver lia).
      apply wp_bind.
      eapply wp_mono with (P := λ r s', s' = s ∧ r = Z.of_nat (length (filter (.= c) (take (S j) str)))).
      { rewrite (take_S_r _ _ _ (Hstr Hlt)), filter_app, filter_cons, filter_nil, length_app.
        pose proof (length_filter (.= c) (take j str)). rewrite length_take in *.
        case_bool_decide; [rewrite decide_True by done|rewrite decide_False by done]; cbn [length].
        - wp_step. split; [done|lia].
        - apply wp_ret. split; [done|lia]. }
      intros r s2 [-> ->]. apply wp_ret. exists (length str - S j)%nat. split; [lia|]. exists (S j).
      rewrite next_char_at. split_and!; try done || lia.
  - exists 0%nat. split_and!; try done || lia.
Qed.

Lemma wp_m_strcmp fuel a b s1 s2 t1 t2 :
  holds s a (s1 ++ NUL :: t1) → holds s b (s2 ++ NUL :: t2) → NUL ∉ s1 → NUL ∉ s2 →
  (length s1 < fuel)%nat →
  wp (m_strcmp fuel (a, 0) (b, 0)) (λ r s', r = compare_text s1 s2 ∧ s' = s) s.
Proof.
  intros Ha Hb H1 H2 Hf.
  apply (wp_iter_idx (λ k '(p, q) s', ∃ j, (j ≤ length s1)%nat ∧ (j ≤ length s2)%nat ∧
    p = (a, Z.of_nat j) ∧ q = (b, Z.of_nat j) ∧ s' = s ∧ k = (length s1 - j)%nat ∧
    compare_text s1 s2 = compare_text (drop j s1) (drop j s2))) with (k := length s1); [| |done].
  - intros k [p q] s' (j & Hj1 & Hj2 & -> & -> & -> & -> & Hc).
    destruct (text_lookup s1 t1 j H1 Hj1) as (x & Hx & Hend1 & Hs1).
    destruct (text_lookup s2 t2 j H2 Hj2) as (y & Hy & Hend2 & Hs2).
    apply wp_bind. eapply wp_rd; [exact Ha|done|]. apply wp_bind. eapply wp_rd; [exact Hb|done|].
    destruct (decide (j = length s1)) as [E1|E1], (decide (j = length s2)) as [E2|E2].
    + rewrite (proj2 Hend1 E1), (proj2 Hend2 E2). apply wp_ret. rewrite Hc, E1, drop_all, <- E1, E2, drop_all. done.
    + pose proof (Hs2 ltac:(lia)) as Hl2. rewrite (proj2 Hend1 E1) in *.
      rewrite bool_decide_false by naive_solver. apply wp_ret.
      rewrite Hc, E1, drop_all, <- E1, (drop_S _ _ _ Hl2). split; [cbn [compare_text]; rewrite schar_NUL; lia|done].
    + pose proof (Hs1 ltac:(lia)) as Hl1. rewrite (proj2 Hend2 E2) in *.
      rewrite bool_decide_false by naive_solver. apply wp_ret.
      rewrite Hc, E2, drop_all, <- E2, (drop_S _ _ _ Hl1). split; [cbn [compare_text]; rewrite schar_NUL; lia|done].
    + pose proof (Hs1 ltac:(lia)) as Hl1. pose proof (Hs2 ltac:(lia)) as Hl2.
      rewrite (drop_S _ _ _ Hl1), (drop_S _ _ _ Hl2) in Hc. cbn [compare_text] in Hc.
      case_bool_decide as Hxy; cbn [andb].
      * rewrite (bool_decide_false (x = NUL)) by naive_solver. apply wp_ret.
        exists (length s1 - S j)%nat. split; [lia|]. exists (S j). rewrite !next_char_at.
        split_and!; try done || lia.
      * apply wp_ret. done.
  - exists 0%nat. split_and!; try done || lia.
Qed.
End reads.

(** ** Copies *)

(** The cells after [j] characters of [w] have been written to their front. *)
Definition copied (j : nat) (w : list ascii) (cells : list (option ascii)) : list (option ascii) :=
  (Some <$> take j w) ++ drop j cells.

Lemma copied_step j w c cells :
  w !! j = Some c → (j < length cells)%nat →
  <[j := Some c]> (copied j w cells) = copied (S j) w cells.
Proof.
  intros Hc Hj. unfold copied. destruct (lookup_lt_is_Some_2 cells j Hj) as [y Hy].
  rewrite (drop_S _ _ _ Hy), (take_S_r _ _ _ Hc), fmap_app, <- app_assoc. cbn.
  assert (j = length (Some <$> take j w)) as Hlen.
  { rewrite length_fmap, length_take. apply lookup_lt_Some in Hc. lia. }
  rewrite Hlen at 1. apply insert_mid.
Qed.

Lemma copied_length j w cells : (j ≤ length w)%nat → (j ≤ length cells)%nat → length (copied j w cells) = length cells.
Proof. intros Hw Hc. unfold copied. rewrite length_app, length_fmap, length_take, length_drop. lia. Qed.

Definition put_text (d : Z) (cells : list (option ascii)) (s : mem) : mem := set_texts (<[d := cells]> (texts s)) s.

Lemma put_text_id d cells s : texts s !! d = Some cells → put_text d cells s = s.
Proof. intros Hd. unfold put_text, set_texts. rewrite insert_id by done. by destruct s. Qed.
Lemma put_text_twice d c1 c2 s : put_text d c1 (put_text d c2 s) = put_text d c1 s.
Proof. unfold put_text, set_texts. cbn. by rewrite insert_insert_eq. Qed.
Lemma put_text_eq d cells s : texts (put_text d cells s) !! d = Some cells.
Proof. unfold put_text. cbn. apply lookup_insert_eq. Qed.
Lemma put_text_ne d e cells s : d ≠ e → texts (put_text d cells s) !! e = texts s !! e.
Proof. intros Hd. unfold put_text. cbn. by apply lookup_insert_ne. Qed.

Lemma wp_copy_char d j w c cells s (Q : () → mem → Prop) :
  w !! j = Some c → (j < length cells)%nat →
  Q () (put_text d (copied (S j) w cells) s) →
  wp (wr (d, Z.of_nat j) c) Q (put_text d (copied j w cells) s).
Proof.
  intros Hc Hj HQ. pose proof (lookup_lt_Some _ _ _ Hc).
  eapply wp_wr; [apply put_text_eq|rewrite copied_length; lia|].
  rewrite copied_step by done. change (wp (mret ()) Q (put_text d (copied (S j) w cells) (put_text d (copied j w cells) s))).
  by rewrite put_text_twice.
Qed.

Section copies.
Context (s : mem) (b d : Z) (Hbd : d ≠ b).

(** [m_strcpy_slice] of characters that are there. *)
Lemma wp_slice pre w post cells :
  holds s b (pre ++ w ++ post) → NUL ∉ w → texts s !! d = Some cells → length cells = S (length w) →
  wp (m_strcpy_slice (d, 0) (b, Z.of_nat (length pre)) (Z.of_nat (length w)))
    (λ r s', r = 0 ∧ s' = put_text d (Some <$> w ++ [NUL]) s) s.
Proof.
  intros Hb Hn Hd Hl. rewrite <- (put_text_id d cells s Hd) at 1.
  change cells with (copied 0 (w ++ [NUL]) cells) at 1. unfold m_strcpy_slice. rewrite Nat2Z.id.
  apply (wp_iter_idx (λ k '(i, p, q) s', ∃ j, (j ≤ length w)%nat ∧ i = Z.of_nat j ∧ p = (d, Z.of_nat j) ∧
    q = (b, Z.of_nat (length pre + j)) ∧ s' = put_text d (copied j (w ++ [NUL]) cells) s ∧
    k = (length w - j)%nat)) with (k := length w); [| |lia].
  - intros k [[i p] q] s' (j & Hj & -> & -> & -> & -> & ->). destruct (Z.ltb_spec (Z.of_nat j) (Z.of_nat (length w))).
    + destruct (lookup_lt_is_Some_2 w j) as [c Hc]; [lia|]. apply wp_bind.
      eapply (wp_rd b (pre ++ w ++ post) _ c).
      { unfold holds. by rewrite put_text_ne. }
      { rewrite lookup_app_r by lia. replace (length pre + j - length pre)%nat with j by lia. by apply lookup_app_l_Some. }
      apply wp_bind. apply wp_copy_char; [by apply lookup_app_l_Some|lia|].
      rewrite bool_decide_false by (intros ->; apply Hn; by eapply list_elem_of_lookup_2).
      apply wp_ret. exists (length w - S j)%nat. split; [lia|]. exists (S j). rewrite !next_char_at.
      split_and!; try done || lia. do 2 f_equal. lia.
    + assert (j = length w) as -> by lia. apply wp_bind.
      apply wp_copy_char; [by rewrite lookup_app_r, Nat.sub_diag by lia|lia|]. apply wp_ret. split; [done|].
      unfold copied. rewrite take_ge by (rewrite length_app; simpl; lia). rewrite drop_ge by lia. by rewrite app_nil_r.
  - exists 0%nat. split_and!; try done || lia. by rewrite Nat.add_0_r.
Qed.

(** [m_strcpy] of a string that fits. *)
Lemma wp_strcpy fuel str tail cells :
  holds s b (str ++ NUL :: tail) → NUL ∉ str → texts s !! d = Some cells → (length str < length cells)%nat →
  (length str < fuel)%nat →
  wp (m_strcpy fuel (d, 0) (b, 0))
    (λ _ s', s' = put_text d ((Some <$> str ++ [NUL]) ++ drop (S (length str)) cells) s) s.
Proof.
  intros Hb Hn Hd Hl Hf. rewrite <- (put_text_id d cells s Hd) at 1.
  change cells with (copied 0 (str ++ [NUL]) cells) at 1.
  apply (wp_iter_idx (λ k '(p, q) s', ∃ j, (j ≤ length str)%nat ∧ p = (d, Z.of_nat j) ∧ q = (b, Z.of_nat j) ∧
    s' = put_text d (copied j (str ++ [NUL]) cells) s ∧ k = (length str - j)%nat)) with (k := length str); [| |done].
  - intros k [p q] s' (j & Hj & -> & -> & -> & ->).
    destruct (text_lookup str tail j Hn Hj) as (c & Hc & Hend & Hstr). apply wp_bind. eapply wp_rd; [|done|].
    { unfold holds. by rewrite put_text_ne. }
    assert ((str ++ [NUL]) !! j = Some c) as Hc'.
    { destruct (decide (j = length str)) as [E|E].
      - rewrite E, lookup_app_r, Nat.sub_diag by lia. by rewrite (proj2 Hend E).
      - apply lookup_app_l_Some, Hstr. lia. }
    apply wp_bind. apply wp_copy_char; [done|lia|]. case_bool_decide as Hcn; apply wp_ret.
    + rewrite (proj1 Hend Hcn). unfold copied. by rewrite take_ge by (rewrite length_app; simpl; lia).
    + assert (j ≠ length str) by naive_solver.
      exists (length str - S j)%nat. split; [lia|]. exists (S j). rewrite !next_char_at. split_and!; try done || lia.
  - exists 0%nat. split_and!; try done || lia.
Qed.
End copies.
