(* ===== verification/TokenizerRefine.v ===== *)
(** * TokenizerRefine: the tokens of a command line

    [tokenizer] puts the fields of a line into blocks of their own.  It overwrites
    the terminator of the line and looks at the character behind it; with a second
    NUL there it works, and [str_array_free] gives everything back. *)
From Stdlib Require Import Ascii.
From stdpp Require Import prelude gmap list_numbers.
From S2P Require Import Prelude CMonad CString StringHelpers StringHelpersRefine.

Lemma run_iter_done {S L R} n (body : L → C S (L + R)) l s r s' :
  body l s = Ok (inr r) s' → iter (Datatypes.S n) body l s = Ok r s'.
Proof. intros Hb. exact (run_bind _ _ _ _ _ Hb). Qed.

(** ** Specification *)

(** The tokens of [w ++ rest], cut at the blanks of [rest] except for its last
    character, which belongs to the last token whatever it is. *)
Fixpoint cut (w rest : list ascii) : list (list ascii) :=
  match rest with
  | [] => []
  | [c] => [w ++ [c]]
  | c :: rest' => if bool_decide (c = SPACE) then w :: cut [] rest' else cut (w ++ [c]) rest'
  end.

Lemma cut_cons w c d rest :
  cut w (c :: d :: rest) = if bool_decide (c = SPACE) then w :: cut [] (d :: rest) else cut (w ++ [c]) (d :: rest).
Proof. done. Qed.

Lemma cut_pos w rest : rest ≠ [] → (0 < length (cut w rest))%nat.
Proof.
  revert w. induction rest as [|c [|d rest] IH]; intros w Hr; [done|simpl; lia|]. rewrite cut_cons.
  case_bool_decide; [simpl; lia|by apply IH].
Qed.

(** Without a blank at the end these are the fields. *)
Lemma cut_fields w rest :
  rest ≠ [] → SPACE ∉ w → last rest ≠ Some SPACE → cut w rest = fields (w ++ rest).
Proof.
  revert w. induction rest as [|c [|d rest] IH]; intros w Hr Hw Hl; [done| |].
  - cbn [cut]. rewrite fields_one; [done|]. rewrite elem_of_app, list_elem_of_singleton. intros [?|Hc]; [done|].
    apply Hl. by rewrite <- Hc.
  - rewrite cut_cons. change (last (c :: d :: rest)) with (last (d :: rest)) in Hl. case_bool_decide as Hc.
    + subst c. rewrite fields_cons by done. f_equal. apply IH; [done|apply not_elem_of_nil|done].
    + rewrite IH; [by rewrite <- app_assoc|done| |done].
      rewrite elem_of_app, list_elem_of_singleton. intros [?|?]; congruence.
Qed.

Lemma blanks_cons c s : blanks (c :: s) = ((if bool_decide (c = SPACE) then 1 else 0) + blanks s)%nat.
Proof.
  unfold blanks. rewrite filter_cons. case_bool_decide; [rewrite decide_True by done|rewrite decide_False by done]; done.
Qed.

Lemma blanks_le l : (blanks l ≤ length l)%nat.
Proof. apply length_filter. Qed.

(** The number of tokens: one is missing when the line ends in a blank. *)
Lemma cut_length w rest :
  rest ≠ [] → (length (cut w rest) + (if bool_decide (last rest = Some SPACE) then 1 else 0) = S (blanks rest))%nat.
Proof.
  revert w. induction rest as [|c [|d rest] IH]; intros w Hr; [done| |].
  - cbn [cut last length]. rewrite blanks_cons. change (blanks []) with 0%nat.
    destruct (decide (c = SPACE)) as [->|Hc].
    + by rewrite !bool_decide_true.
    + rewrite (bool_decide_false (c = SPACE)) by done. by rewrite bool_decide_false by congruence.
  - rewrite cut_cons. change (last (c :: d :: rest)) with (last (d :: rest)). rewrite blanks_cons.
    destruct (bool_decide (c = SPACE)); cbn [length].
    + pose proof (IH [] ltac:(done)). lia.
    + pose proof (IH (w ++ [c]) ltac:(done)). lia.
Qed.

Definition token_cells (t : list ascii) : list (option ascii) := Some <$> t ++ [NUL].

(** The blocks of the tokens, from the block [f] on. *)
Fixpoint add_tokens (f : Z) (ts : list (list ascii)) (m : gmap Z (list (option ascii))) :
    gmap Z (list (option ascii)) :=
  match ts with
  | [] => m
  | t :: ts => add_tokens (f + 1) ts (<[f := token_cells t]> m)
  end.

Lemma add_tokens_snoc f ts t m :
  add_tokens f (ts ++ [t]) m = <[f + Z.of_nat (length ts) := token_cells t]> (add_tokens f ts m).
Proof.
  revert f m. induction ts as [|u ts IH]; intros f m; cbn [add_tokens app length].
  - by rewrite Z.add_0_r.
  - rewrite IH. f_equal. lia.
Qed.

Lemma add_tokens_old f ts m k : k < f → add_tokens f ts m !! k = m !! k.
Proof.
  revert f m. induction ts as [|t ts IH]; intros f m Hk; cbn [add_tokens]; [done|].
  rewrite IH by lia. apply lookup_insert_ne. lia.
Qed.

Lemma add_tokens_insert f ts m k x : k < f → add_tokens f ts (<[k := x]> m) = <[k := x]> (add_tokens f ts m).
Proof.
  revert f m. induction ts as [|t ts IH]; intros f m Hk; cbn [add_tokens]; [done|].
  rewrite <- IH by lia. f_equal. apply insert_insert_ne. lia.
Qed.

(** The table with the first [k] of its [n] cells written. *)
Definition table_cells (f : Z) (k n : nat) : list (option (option Z)) :=
  ((λ p, Some (Some p)) <$> seqZ f (Z.of_nat k)) ++ replicate (n - k) None.

Lemma table_cells_step f k n :
  (k < n)%nat → <[k := Some (Some (f + Z.of_nat k))]> (table_cells f k n) = table_cells f (S k) n.
Proof.
  intros Hk. unfold table_cells. replace (n - k)%nat with (S (n - S k)) by lia. cbn [replicate].
  assert (k = length ((λ p, Some (Some p)) <$> seqZ f (Z.of_nat k))) as Hl.
  { rewrite length_fmap, length_seqZ. lia. }
  rewrite Hl at 1. rewrite insert_mid, seqZ_S, fmap_app, <- app_assoc. done.
Qed.

Lemma table_cells_length f k n : (k ≤ n)%nat → length (table_cells f k n) = n.
Proof. intros Hk. unfold table_cells. rewrite length_app, length_fmap, length_seqZ, length_replicate. lia. Qed.

(** ** The loop *)
Section loop.
Context (s : mem) (a b f : Z) (n : nat) (str after : list ascii).
Context (Hb : b < f).

(** The state of the program when the tokens [ts] have been found, and the line is
    [l]. *)
Definition found (ts : list (list ascii)) (l : list ascii) : mem :=
  Mem (add_tokens f ts (<[b := Some <$> l]> (texts s))) (<[a := table_cells f (length ts) n]> (tables s))
    (f + Z.of_nat (length ts)) [].

Lemma found_holds ts l : holds (found ts l) b l.
Proof. unfold holds, found. cbn [texts]. rewrite add_tokens_old by done. apply lookup_insert_eq. Qed.

(** A token is copied and entered. *)
Lemma wp_token ts l pre w post (Q : cptr * cptr * Z + () → mem → Prop) cur :
  l = pre ++ w ++ post → NUL ∉ w → (length ts < n)%nat → Z.of_nat n ≤ INT_MAX →
  Q (inl (cur, cur, Z.of_nat (length ts) + 1)) (found (ts ++ [w]) l) →
  wp (token ← malloc_text (Z.of_nat (length w) + 1);
      match token with
      | None => ub
      | Some t =>
          m_strcpy_slice (t, 0) (b, Z.of_nat (length pre)) (Z.of_nat (length w));;
          table_set (Some a) (Z.of_nat (length ts)) (Some t);;
          cur_num ← int_add (Z.of_nat (length ts)) 1;
          mret (inl (cur, cur, cur_num))
      end) Q (found ts l).
Proof.
  intros Hl Hw Hn Hmax HQ. set (t := f + Z.of_nat (length ts)).
  set (s1 := Mem (<[t := replicate (S (length w)) None]> (texts (found ts l))) (tables (found ts l)) (t + 1) []).
  apply wp_bind. apply wp_run. exists (Some t), s1. split.
  { unfold malloc_text, take_block, mbind, C_bind, modify, found. cbn. do 2 f_equal. unfold set_texts. cbn.
    do 3 f_equal. lia. }
  apply wp_bind.
  eapply wp_mono; [eapply (wp_slice s1 b t ltac:(lia) pre w post (replicate (S (length w)) None))|].
  - unfold holds, s1. cbn [texts]. rewrite lookup_insert_ne by lia. rewrite <- Hl. apply found_holds.
  - done.
  - apply lookup_insert_eq.
  - apply length_replicate.
  - intros r s2 [_ ->]. apply wp_bind, wp_run. exists (), (found (ts ++ [w]) l). split.
    + unfold table_set, put_text, s1, found, set_texts, set_tables. cbn [tables texts fresh_block mallocs].
      rewrite lookup_insert_eq, cell_at_lookup.
      destruct (lookup_lt_is_Some_2 (table_cells f (length ts) n) (length ts)) as [x ->].
      { by rewrite table_cells_length by lia. }
      unfold t. rewrite Nat2Z.id, table_cells_step, !insert_insert_eq, add_tokens_snoc, length_app by done.
      cbn [length]. rewrite Nat.add_1_r. unfold token_cells. do 2 f_equal. lia.
    + apply wp_bind. wp_step. apply wp_ret. exact HQ.
Qed.

Context (Hstr : NUL ∉ str) (Hmax : Z.of_nat n ≤ INT_MAX).
Notation line := (str ++ NUL :: after).

Lemma line_lookup pre c rest : str = pre ++ c :: rest → line !! length pre = Some c ∧ c ≠ NUL.
Proof.
  intros ->. split.
  - rewrite <- app_assoc. rewrite lookup_app_r, Nat.sub_diag by lia. done.
  - intros ->. apply Hstr. rewrite elem_of_app, elem_of_cons. auto.
Qed.

(** A character before the last one. *)
Lemma wp_step_mid ts pre w c d rest :
  str = pre ++ w ++ c :: d :: rest → (length ts < n)%nat →
  wp (tokenizer_step (Some a) ((b, Z.of_nat (length (pre ++ w))), (b, Z.of_nat (length pre)), Z.of_nat (length ts)))
    (λ r s', if bool_decide (c = SPACE)
       then r = inl ((b, Z.of_nat (length (pre ++ w ++ [c]))), (b, Z.of_nat (length (pre ++ w ++ [c]))),
                     Z.of_nat (length (ts ++ [w]))) ∧ s' = found (ts ++ [w]) line
       else r = inl ((b, Z.of_nat (length (pre ++ w ++ [c]))), (b, Z.of_nat (length pre)), Z.of_nat (length ts)) ∧
            s' = found ts line) (found ts line).
Proof.
  intros Hs Hts. destruct (line_lookup (pre ++ w) c (d :: rest)) as [Hc Hc0]; [by rewrite Hs, <- app_assoc|].
  destruct (line_lookup (pre ++ w ++ [c]) d rest) as [Hd Hd0]; [by rewrite Hs, <- !app_assoc|].
  assert (S (length (pre ++ w)) = length (pre ++ w ++ [c])) as Hlen by (rewrite !length_app; simpl; lia).
  unfold tokenizer_step. apply wp_bind. eapply wp_rd; [apply found_holds|exact Hc|].
  rewrite bool_decide_false by done. apply wp_bind. rewrite !next_char_at, Hlen.
  eapply wp_rd; [apply found_holds|exact Hd|]. rewrite bool_decide_false by done.
  apply wp_bind, wp_ret, wp_bind. eapply wp_rd; [apply found_holds|exact Hc|].
  rewrite !next_char_at, Hlen. case_bool_decide as Hsp; [|by apply wp_ret].
  cbn [snd]. replace (Z.of_nat (length (pre ++ w)) - Z.of_nat (length pre)) with (Z.of_nat (length w)) by (rewrite length_app; lia).
  eapply (wp_token ts line pre w (c :: d :: rest ++ NUL :: after)); [by rewrite Hs, <- !app_assoc| |done|done|].
  - intros Hin. apply Hstr. rewrite Hs, !elem_of_app. auto.
  - by rewrite (length_app ts), Nat2Z.inj_add.
Qed.

(** The last character: the terminator becomes a blank. *)
Lemma wp_step_last ts pre w c :
  str = pre ++ w ++ [c] → (length ts < n)%nat →
  wp (tokenizer_step (Some a) ((b, Z.of_nat (length (pre ++ w))), (b, Z.of_nat (length pre)), Z.of_nat (length ts)))
    (λ r s', r = inl ((b, Z.of_nat (S (length str))), (b, Z.of_nat (S (length str))), Z.of_nat (length (ts ++ [w ++ [c]]))) ∧
       s' = found (ts ++ [w ++ [c]]) (str ++ SPACE :: after)) (found ts line).
Proof.
  intros Hs Hts. destruct (line_lookup (pre ++ w) c []) as [Hc Hc0]; [by rewrite Hs, <- app_assoc|].
  assert (S (length (pre ++ w)) = length str) as Hlen by (rewrite Hs, !length_app; simpl; lia).
  unfold tokenizer_step. apply wp_bind. eapply wp_rd; [apply found_holds|exact Hc|].
  rewrite bool_decide_false by done. apply wp_bind. rewrite !next_char_at, Hlen.
  eapply wp_rd; [apply found_holds|by rewrite lookup_app_r, Nat.sub_diag by lia|].
  rewrite bool_decide_true by done. apply wp_bind, wp_bind.
  eapply wp_wr; [apply found_holds|rewrite length_fmap, length_app; simpl; lia|].
  assert (set_texts (<[b := <[length str := Some SPACE]> (Some <$> line)]> (texts (found ts line))) (found ts line)
    = found ts (str ++ SPACE :: after)) as ->.
  { unfold found, set_texts. cbn [texts tables fresh_block mallocs]. rewrite <- add_tokens_insert by done.
    rewrite insert_insert_eq. do 4 f_equal. rewrite !fmap_app. cbn [fmap list_fmap].
    by rewrite <- (length_fmap Some str), insert_mid. }
  apply wp_ret, wp_bind.
  eapply wp_rd; [apply found_holds|by rewrite lookup_app_r, Nat.sub_diag by lia|].
  rewrite bool_decide_true by done. rewrite next_char_at. cbn [snd].
  replace (Z.of_nat (length str) - Z.of_nat (length pre)) with (Z.of_nat (length (w ++ [c])))
    by (rewrite Hs, !length_app; simpl; lia).
  eapply (wp_token ts _ pre (w ++ [c]) (SPACE :: after)); [by rewrite Hs, <- !app_assoc| |done|done|].
  - intros Hin. apply Hstr. rewrite Hs. apply elem_of_app. by right.
  - by rewrite (length_app ts), Nat2Z.inj_add.
Qed.

(** The whole line: the loop comes to the character behind the terminator. *)
Lemma loop_run rest ts pre w k :
  rest ≠ [] → str = pre ++ w ++ rest → (length ts + length (cut w rest) ≤ n)%nat →
  iter (length rest + k) (tokenizer_step (Some a))
    ((b, Z.of_nat (length (pre ++ w))), (b, Z.of_nat (length pre)), Z.of_nat (length ts)) (found ts line) =
  iter k (tokenizer_step (Some a))
    ((b, Z.of_nat (S (length str))), (b, Z.of_nat (S (length str))), Z.of_nat (length (ts ++ cut w rest)))
    (found (ts ++ cut w rest) (str ++ SPACE :: after)).
Proof.
  revert ts pre w. induction rest as [|c [|d rest] IH]; intros ts pre w Hr Hs Hn; [done| |].
  - cbn [cut length] in Hn. destruct (proj1 (wp_run _ _ _) (wp_step_last ts pre w c Hs ltac:(lia)))
      as (r & s' & Hrun & -> & ->).
    exact (run_iter _ _ _ _ _ _ Hrun).
  - pose proof (cut_pos w (c :: d :: rest) ltac:(done)) as Hpos. rewrite cut_cons in Hn |- *.
    destruct (proj1 (wp_run _ _ _) (wp_step_mid ts pre w c d rest Hs ltac:(rewrite cut_cons in Hpos; lia)))
      as (r & s' & Hrun & Hpost).
    case_bool_decide as Hc; destruct Hpost as [-> ->].
    + change (length (c :: d :: rest) + k)%nat with (S (length (d :: rest) + k)).
      rewrite (run_iter _ _ _ _ _ _ Hrun). cbn [length] in Hn.
      pose proof (IH (ts ++ [w]) (pre ++ w ++ [c]) []) as IH'. rewrite app_nil_r, <- !app_assoc in IH'.
      cbn [app] in IH'. apply IH'; [done|done|rewrite length_app; simpl in *; lia].
    + change (length (c :: d :: rest) + k)%nat with (S (length (d :: rest) + k)).
      rewrite (run_iter _ _ _ _ _ _ Hrun). apply (IH ts pre (w ++ [c])); [done|by rewrite Hs, <- app_assoc|done].
Qed.
End loop.

(** ** The function *)

(** A block that exists is not the next one. *)
Lemma block_old s b l :
  holds s b l → (∀ k, fresh_block s ≤ k → texts s !! k = None ∧ tables s !! k = None) → b < fresh_block s + 1.
Proof.
  intros Hb Hfresh. destruct (decide (b < fresh_block s)); [lia|].
  destruct (Hfresh b ltac:(lia)) as [Hn _]. unfold holds in Hb. congruence.
Qed.

Section tokenizer.
Context (s : mem) (b : Z) (str after : list ascii) (fuel : nat).
Context (Hb : holds s b (str ++ NUL :: after)) (Hstr : NUL ∉ str) (Hne : str ≠ []).
Context (Hm : mallocs s = []) (Hfresh : ∀ k, fresh_block s ≤ k → texts s !! k = None ∧ tables s !! k = None).
Context (Hmax : Z.of_nat (length str) + 3 ≤ INT_MAX) (Hfuel : (length str + 2 ≤ fuel)%nat).

Notation a := (fresh_block s).
Notation f := (fresh_block s + 1).
Notation n := (S (S (blanks str))).

Lemma tokens_fit : (length (cut [] str) ≤ S (blanks str))%nat.
Proof. pose proof (cut_length [] str Hne). lia. Qed.

(** Up to the character behind the terminator. *)
Lemma tokenizer_run :
  tokenizer fuel (b, 0) s =
  (iter (fuel - length str) (tokenizer_step (Some a))
     ((b, Z.of_nat (S (length str))), (b, Z.of_nat (S (length str))), Z.of_nat (length (cut [] str)));;
   last ← int_add (Z.of_nat (blanks str)) 1;
   table_set (Some a) last None;;
   mret (Some a)) (found s a b f n (cut [] str) (str ++ SPACE :: after)).
Proof.
  pose proof (blanks_le str) as Hle. pose proof tokens_fit as Hfit. pose proof (block_old s b _ Hb Hfresh) as Hold.
  destruct (proj1 (wp_run _ _ _) (wp_char_count s fuel b str after SPACE Hb Hstr ltac:(lia) ltac:(lia)))
    as (c & s1 & Hcount & -> & ->).
  unfold tokenizer. rewrite (run_bind _ _ _ _ _ Hcount). fold (blanks str).
  assert (int_add (Z.of_nat (blanks str)) 2 s = Ok (Z.of_nat (blanks str) + 2) s) as Hadd.
  { unfold int_add, chk. by rewrite (proj2 (in_int_spec _)) by lia. }
  rewrite (run_bind _ _ _ _ _ Hadd).
  assert (malloc_table (Z.of_nat (blanks str) + 2) s = Ok (Some a) (found s a b f n [] (str ++ NUL :: after))) as Hmt.
  { unfold malloc_table, take_block, mbind, C_bind, modify, found, set_tables. rewrite Hm. cbn.
    unfold holds in Hb. rewrite (insert_id (texts s)) by done. rewrite Z.add_0_r. unfold table_cells. cbn.
    replace (Z.to_nat (Z.of_nat (blanks str) + 2)) with n by lia. done. }
  rewrite (run_bind _ _ _ _ _ Hmt).
  pose proof (loop_run s a b f n str after Hold Hstr ltac:(lia) str [] [] [] (fuel - length str) Hne eq_refl)
    as Hloop. cbn [app length] in Hloop. change (Z.of_nat 0) with 0 in Hloop. specialize (Hloop ltac:(lia)).
  replace (length str + (fuel - length str))%nat with fuel in Hloop by lia.
  unfold mbind at 1, C_bind at 1. rewrite Hloop. done.
Qed.

(** The line is terminated twice: the loop ends, and the table is closed. *)
Definition tokenized : mem :=
  Mem (add_tokens f (cut [] str) (<[b := Some <$> str ++ SPACE :: after]> (texts s)))
    (<[a := <[S (blanks str) := Some None]> (table_cells f (length (cut [] str)) n)]> (tables s))
    (f + Z.of_nat (length (cut [] str))) [].

Lemma tokenizer_done tail : after = NUL :: tail → tokenizer fuel (b, 0) s = Ok (Some a) tokenized.
Proof.
  intros Hafter. pose proof (blanks_le str) as Hle. pose proof tokens_fit as Hfit. rewrite tokenizer_run.
  destruct (fuel - length str)%nat as [|k] eqn:Hk; [lia|].
  set (s1 := found s a b f n (cut [] str) (str ++ SPACE :: after)).
  assert (iter (S k) (tokenizer_step (Some a))
    ((b, Z.of_nat (S (length str))), (b, Z.of_nat (S (length str))), Z.of_nat (length (cut [] str))) s1 = Ok () s1) as Hit.
  { assert (tokenizer_step (Some a) ((b, Z.of_nat (S (length str))), (b, Z.of_nat (S (length str))),
      Z.of_nat (length (cut [] str))) s1 = Ok (inr ()) s1) as Hst; [|exact (run_iter_done _ _ _ _ _ _ Hst)].
    unfold tokenizer_step. rewrite (run_bind _ _ s1 NUL s1); [done|].
    unfold rd, s1. cbn [fst snd]. rewrite (found_holds s a b f n (block_old s b _ Hb Hfresh)), cell_at_lookup, Hafter, list_lookup_fmap.
    by rewrite lookup_app_r, Nat.sub_succ_l, Nat.sub_diag by lia. }
  rewrite (run_bind _ _ _ _ _ Hit).
  assert (int_add (Z.of_nat (blanks str)) 1 s1 = Ok (Z.of_nat (S (blanks str))) s1) as Hadd.
  { unfold int_add, chk. rewrite (proj2 (in_int_spec _)) by lia. by rewrite Nat2Z.inj_succ. }
  rewrite (run_bind _ _ _ _ _ Hadd). apply run_bind_eq with () tokenized; [|done].
  unfold table_set, s1, found, tokenized, set_tables. cbn [tables texts fresh_block mallocs].
  rewrite lookup_insert_eq, cell_at_lookup.
  destruct (lookup_lt_is_Some_2 (table_cells f (length (cut [] str)) n) (S (blanks str))) as [x ->].
  { rewrite table_cells_length; lia. }
  by rewrite Nat2Z.id, insert_insert_eq.
Qed.

(** Nothing behind the terminator: it is gone, and the loop reads on. *)
Lemma tokenizer_overread : after = [] → tokenizer fuel (b, 0) s = UB.
Proof.
  intros Hafter. rewrite tokenizer_run. apply run_bind_ub.
  destruct (fuel - length str)%nat as [|k] eqn:Hk; [lia|]. apply run_iter_ub.
  unfold tokenizer_step. apply run_bind_ub. unfold rd. cbn [fst snd].
  rewrite (found_holds s a b f n (block_old s b _ Hb Hfresh)), cell_at_lookup, Hafter, list_lookup_fmap.
  by rewrite lookup_app_r, Nat.sub_succ_l, Nat.sub_diag by lia.
Qed.
End tokenizer.

(** ** Giving the tokens back *)
Lemma add_tokens_delete f ts m k : k < f → delete k (add_tokens f ts m) = add_tokens f ts (delete k m).
Proof.
  revert f m. induction ts as [|t ts IH]; intros f m Hk; cbn [add_tokens]; [done|].
  rewrite IH by lia. f_equal. rewrite delete_insert_ne by lia. done.
Qed.

Definition free_step (t : option Z) (cur : Z) : C mem (Z + ()) :=
  p ← table_get t cur;
  match p with
  | None => mret (inr ())
  | Some _ => free_text p;; mret (inl (cur + 1))
  end.

(** One token is freed. *)
Lemma free_one s a f cells k t ts m :
  tables s !! a = Some cells → cells !! k = Some (Some (Some (f + Z.of_nat k))) →
  m !! (f + Z.of_nat k) = None → texts s = add_tokens (f + Z.of_nat k) (t :: ts) m →
  free_step (Some a) (Z.of_nat k) s = Ok (inl (Z.of_nat (S k))) (set_texts (add_tokens (f + Z.of_nat (S k)) ts m) s).
Proof.
  intros Ha Hk Hm Ht. unfold free_step.
  assert (table_get (Some a) (Z.of_nat k) s = Ok (Some (f + Z.of_nat k)) s) as Hg.
  { unfold table_get. by rewrite Ha, cell_at_lookup, Hk. }
  rewrite (run_bind _ _ _ _ _ Hg). replace (f + Z.of_nat (S k)) with (f + Z.of_nat k + 1) by lia.
  apply run_bind_eq with () (set_texts (add_tokens (f + Z.of_nat k + 1) ts m) s).
  - unfold free_text. rewrite Ht. cbn [add_tokens]. rewrite add_tokens_old, lookup_insert_eq by lia.
    rewrite add_tokens_delete by lia. by rewrite delete_insert_id.
  - by rewrite Nat2Z.inj_succ.
Qed.

(** The loop comes to the cell behind the tokens. *)
Lemma free_loop s a f cells ts k m fuel :
  tables s !! a = Some cells →
  (∀ i, (k ≤ i < k + length ts)%nat → cells !! i = Some (Some (Some (f + Z.of_nat i)))) →
  (∀ i, f + Z.of_nat k ≤ i → m !! i = None) → texts s = add_tokens (f + Z.of_nat k) ts m →
  iter (length ts + fuel) (free_step (Some a)) (Z.of_nat k) s =
  iter fuel (free_step (Some a)) (Z.of_nat (k + length ts)) (set_texts m s).
Proof.
  revert s k. induction ts as [|t ts IH]; intros s k Ha Hc Hm Ht.
  - cbn [length add_tokens] in *. rewrite Nat.add_0_r. f_equal. destruct s. cbn in Ht. by subst.
  - pose proof (free_one s a f cells k t ts m Ha (Hc k ltac:(simpl; lia)) (Hm (f + Z.of_nat k) ltac:(lia)) Ht) as Hone.
    cbn [length Nat.add]. rewrite (run_iter _ _ _ _ _ _ Hone).
    rewrite (IH _ (S k)); [|done|intros i Hi; apply Hc; simpl; lia|intros i Hi; apply Hm; lia|done].
    rewrite Nat.add_succ_r. done.
Qed.

Section free.
Context (s : mem) (b : Z) (str after : list ascii) (fuel : nat).
Context (Hb : holds s b (str ++ NUL :: after)) (Hne : str ≠ []).
Context (Hfresh : ∀ k, fresh_block s ≤ k → texts s !! k = None ∧ tables s !! k = None).
Context (Hfuel : (length str + 2 ≤ fuel)%nat).
Notation a := (fresh_block s).
Notation f := (fresh_block s + 1).

Lemma tokens_free :
  iter fuel (free_step (Some a)) 0 (tokenized s b str after) =
  iter (fuel - length (cut [] str)) (free_step (Some a)) (Z.of_nat (length (cut [] str)))
    (set_texts (<[b := Some <$> str ++ SPACE :: after]> (texts s)) (tokenized s b str after)).
Proof.
  pose proof (cut_length [] str Hne) as Hcl. pose proof (blanks_le str) as Hle.
  assert (b < f) as Hold by (by eapply block_old).
  rewrite <- (Nat.sub_add (length (cut [] str)) fuel) at 1 by lia. rewrite Nat.add_comm.
  rewrite (free_loop _ a f (<[S (blanks str) := Some None]> (table_cells f (length (cut [] str)) (S (S (blanks str)))))
    (cut [] str) 0 (<[b := Some <$> str ++ SPACE :: after]> (texts s))); [done|apply lookup_insert_eq| | |].
  - intros i Hi. rewrite list_lookup_insert_ne by lia. unfold table_cells. apply lookup_app_l_Some.
    rewrite list_lookup_fmap, lookup_seqZ_lt by lia. done.
  - intros i Hi. rewrite lookup_insert_ne by lia. apply Hfresh. lia.
  - by rewrite Z.add_0_r.
Qed.

(** The cell of the table behind the tokens. *)
Lemma table_end i :
  i = length (cut [] str) →
  <[S (blanks str) := Some None]> (table_cells f i (S (S (blanks str)))) !! i =
  Some (if bool_decide (last str = Some SPACE) then None else Some None).
Proof.
  intros ->. pose proof (cut_length [] str Hne) as Hcl. case_bool_decide.
  - rewrite list_lookup_insert_ne by lia. unfold table_cells.
    rewrite lookup_app_r; rewrite length_fmap, length_seqZ, ?Nat2Z.id; [|lia].
    apply lookup_replicate_2. lia.
  - rewrite Nat.add_0_r in Hcl. rewrite Hcl. rewrite list_lookup_insert_eq; [done|]. rewrite table_cells_length; lia.
Qed.

Lemma free_tokenized :
  str_array_free fuel (Some a) (tokenized s b str after) =
  if bool_decide (last str = Some SPACE) then UB
  else Ok () (Mem (<[b := Some <$> str ++ SPACE :: after]> (texts s)) (tables s)
                (f + Z.of_nat (length (cut [] str))) []).
Proof.
  pose proof (cut_length [] str Hne) as Hcl. pose proof (blanks_le str) as Hle.
  change (str_array_free fuel (Some a)) with (iter fuel (free_step (Some a)) 0;; free_table (Some a)).
  unfold mbind, C_bind. rewrite tokens_free.
  destruct (fuel - length (cut [] str))%nat as [|k] eqn:Hk; [lia|].
  set (s1 := set_texts _ (tokenized s b str after)). pose proof (table_end _ eq_refl) as Hend.
  set (cells := <[S (blanks str) := Some None]> (table_cells f (length (cut [] str)) (S (S (blanks str))))) in Hend.
  assert (tables s1 !! a = Some cells) as Ha by apply lookup_insert_eq.
  case_bool_decide as Hlast.
  - rewrite run_iter_ub; [done|]. unfold free_step. apply run_bind_ub. unfold table_get.
    by rewrite Ha, cell_at_lookup, Hend.
  - assert (free_step (Some a) (Z.of_nat (length (cut [] str))) s1 = Ok (inr ()) s1) as Hst.
    { unfold free_step. rewrite (run_bind _ _ s1 None s1); [done|]. unfold table_get.
      by rewrite Ha, cell_at_lookup, Hend. }
    rewrite (run_iter_done _ _ _ _ _ _ Hst). unfold free_table. rewrite Ha.
    unfold s1, set_tables, set_texts, tokenized. cbn. f_equal. f_equal.
    rewrite delete_insert_id; [done|]. apply (Hfresh a). lia.
Qed.
End free.
