(* ===== verification/LabThreads.v ===== *)
(** * LabThreads: the examples with threads of the course

    [no-race-mutex.c] and [thread2.c] count with two threads, with a mutex and
    without; they are programs of [Threads].  [producer-consumer.c],
    [semaphores.c] and [thread1.c] use semaphores, output and [pthread_join]; their
    threads are sequences of such calls. *)
From Stdlib Require Import Ascii String.
From stdpp Require Import prelude functions list strings.
From S2P Require Import Prelude CMonad CString Threads.

(** ** no-race-mutex.c and thread2.c *)
Inductive lab_mutex := lock.
#[export] Instance lab_mutex_eq_dec : EqDecision lab_mutex.
Proof. solve_decision. Defined.
Inductive lab_counter := count.
#[export] Instance lab_counter_eq_dec : EqDecision lab_counter.
Proof. solve_decision. Defined.

#[export] Program Instance lab_locking : Locking lab_mutex lab_counter :=
  {| rank := λ _, 0%nat; max_rank := 0%nat; guard := λ _, lock |}.
Next Obligation. done. Qed.

Notation lprog := (list (instr lab_mutex lab_counter)).
Notation lconfig := (config lab_mutex lab_counter).

Definition ITERATIONS : nat := Z.to_nat 1000000.

(** [temp = count; temp = temp + 1; count = temp] *)
Definition bump : lprog := [Load count; Store count 1].
Definition bumps (n : nat) : lprog := concat (replicate n bump).

(** The loop inside the mutex, and the loop of [thread2.c], which then prints.  The
    latter is a data race in C; its reads and writes are taken to be sequentially
    consistent, and [count] does not overflow as long as [2 * max_iter] is an [int]. *)
Definition runner (n : nat) : lprog := Lock lock :: bumps n ++ [Unlock lock].
Definition work_function (max_iter : Z) : lprog := bumps (Z.to_nat max_iter) ++ [Local].

(** What [main] prints after both threads have been joined. *)
Inductive report := CountOk (n : Z) | CountError (n should : Z).
Definition norace_report (n : nat) (final : Z) : report :=
  if final <? 2 * Z.of_nat n then CountError final (2 * Z.of_nat n) else CountOk final.
Definition thread2_report (iterations : Z) (final : Z) : report :=
  if negb (final =? iterations * 2) then CountError final (iterations * 2) else CountOk final.

(** [main] of [no-race-mutex.c]: what it prints and its exit code; [final] is the
    count when both threads have been joined. *)
Inductive lab_call := InitMutex | Create1 | Create2 | Join1 | Join2.
Inductive lab_line := InitFailed | CreateFailed (k : Z) | JoinFailed | Reported (r : report).

Definition norace_main (works : lab_call → bool) (final : Z) : list lab_line * Z :=
  if negb (works InitMutex) then ([InitFailed], 1)
  else if negb (works Create1) then ([CreateFailed 1], 1)
  else if negb (works Create2) then ([CreateFailed 2], 1)
  else if negb (works Join1) then ([JoinFailed], 1)
  else if negb (works Join2) then ([JoinFailed], 1)
  else ([Reported (norace_report ITERATIONS final)], 0).

(** [main] of [thread2.c]; [final] is the count when the threads that were given
    [iterations] have been joined.  [atoi(NULL)] is undefined. *)
Definition thread2_main (argv : list (list ascii)) (final : Z → Z) : C () report :=
  match argv with
  | _ :: arg :: _ =>
      iterations ← atoi arg;
      mret (thread2_report iterations (final iterations))
  | _ => ub
  end.

(** ** Semaphores *)
Inductive sinstr (Sem : Type) :=
  | SWait (s : Sem)
  | SPost (s : Sem)
  | SBump                              (* n++ *)
  | SShow                              (* printf("%d\n", n) *)
  | SSay (line : list ascii)
  | SCreate (j : nat)                  (* pthread_create *)
  | SJoin (j : nat).                   (* pthread_join *)
Arguments SWait {Sem} s.
Arguments SPost {Sem} s.
Arguments SBump {Sem}.
Arguments SShow {Sem}.
Arguments SSay {Sem} line.
Arguments SCreate {Sem} j.
Arguments SJoin {Sem} j.

Section sems.
Context {Sem : Type} `{!EqDecision Sem}.

Record sstate := SState {
  sems : Sem → Z;
  shared_n : Z;
  shown : list (list ascii);
  started : list bool;
  codes : list (list (sinstr Sem))
}.

(** Thread [i] makes its next call; [None] when it has not been created, has ended
    or waits. *)
Definition sem_step (i : nat) (c : sstate) : option sstate :=
  match started c !! i, codes c !! i with
  | Some true, Some (x :: p) =>
      let ps := <[i := p]> (codes c) in
      match x with
      | SWait s =>
          if 0 <? sems c s
          then Some (SState (<[s := sems c s - 1]> (sems c)) (shared_n c) (shown c) (started c) ps)
          else None
      | SPost s => Some (SState (<[s := sems c s + 1]> (sems c)) (shared_n c) (shown c) (started c) ps)
      | SBump => Some (SState (sems c) (shared_n c + 1) (shown c) (started c) ps)
      | SShow => Some (SState (sems c) (shared_n c) (shown c ++ [print_d (shared_n c)]) (started c) ps)
      | SSay l => Some (SState (sems c) (shared_n c) (shown c ++ [l]) (started c) ps)
      | SCreate j => Some (SState (sems c) (shared_n c) (shown c) (<[j := true]> (started c)) ps)
      | SJoin j =>
          match codes c !! j with
          | Some [] => Some (SState (sems c) (shared_n c) (shown c) (started c) ps)
          | _ => None
          end
      end
  | _, _ => None
  end.

Fixpoint sem_run (sched : list nat) (c : sstate) : option sstate :=
  match sched with
  | [] => Some c
  | i :: sched => c' ← sem_step i c; sem_run sched c'
  end.

(** [main] is thread 0. *)
Definition sem_start (init : Sem → Z) (main : list (sinstr Sem)) (ps : list (list (sinstr Sem))) : sstate :=
  SState init 0 [] (true :: replicate (length ps) false) (main :: ps).

Definition sem_ended (c : sstate) : bool := forallb (λ p : list (sinstr Sem), bool_decide (length p = 0%nat)) (codes c).

(** All schedules of at most [n] steps: the state satisfies [P], and some thread can
    make a step unless all have ended. *)
Fixpoint explore (n : nat) (P : sstate → bool) (c : sstate) : bool :=
  P c && (sem_ended c || existsb (λ i, bool_decide (is_Some (sem_step i c))) (seq 0 (length (codes c)))) &&
  match n with
  | O => true
  | S n => forallb (λ i, match sem_step i c with Some c' => explore n P c' | None => true end)
             (seq 0 (length (codes c)))
  end.
End sems.
Arguments sstate : clear implicits.

(** ** producer-consumer.c *)
Inductive pc_sem := produced | consumed.
#[export] Instance pc_sem_eq_dec : EqDecision pc_sem.
Proof. solve_decision. Defined.

Definition pc_init (s : pc_sem) : Z := match s with produced => 1 | consumed => 0 end.
Definition produce (loopcnt : nat) : list (sinstr pc_sem) :=
  concat (replicate loopcnt [SWait consumed; SBump; SPost produced]).
Definition consume (loopcnt : nat) : list (sinstr pc_sem) :=
  concat (replicate loopcnt [SWait produced; SShow; SPost consumed]).
Definition pc_main : list (sinstr pc_sem) := [SCreate 1; SCreate 2; SJoin 1; SJoin 2].

Definition pc_begin (loopcnt : nat) : sstate pc_sem := sem_start pc_init pc_main [produce loopcnt; consume loopcnt].

(** Both threads have been created; [main] waits for them. *)
Definition pc_start (loopcnt : nat) : sstate pc_sem :=
  SState pc_init 0 [] [true; true; true] [[SJoin 1; SJoin 2]; produce loopcnt; consume loopcnt].

(** ** semaphores.c *)
Inductive ab_sem := semA | semB.
#[export] Instance ab_sem_eq_dec : EqDecision ab_sem.
Proof. solve_decision. Defined.

Definition before1 : list ascii := chars "Thread 1 here, before the barrier.".
Definition after1 : list ascii := chars "Thread 1 after the barrier.".
Definition before2 : list ascii := chars "Thread 2 here, before the barrier.".
Definition after2 : list ascii := chars "Thread 2 after the barrier.".
Definition all_done : list ascii := NEWLINE :: chars "main() reporting that all 2 threads have terminated".

Definition simple1 : list (sinstr ab_sem) := [SSay before1; SPost semB; SWait semA; SSay after1].
Definition simple2 : list (sinstr ab_sem) := [SSay before2; SPost semA; SWait semB; SSay after2].
Definition barrier_main : list (sinstr ab_sem) := [SCreate 1; SCreate 2; SJoin 1; SJoin 2; SSay all_done].
Definition barrier_start : sstate ab_sem := sem_start (λ _, 0) barrier_main [simple1; simple2].

(** ** thread1.c *)
Definition entry_point : list (sinstr ab_sem) := [SSay (chars "Hello from second thread")].
Definition thread1_main : list (sinstr ab_sem) := [SCreate 1; SJoin 1; SSay (chars "Hello from first thread")].
Definition thread1_start : sstate ab_sem := sem_start (λ _, 0) thread1_main [entry_point].
