(* ===== verification/LabThreadsRefine.v ===== *)
(** * LabThreadsRefine: the examples with threads, in every schedule

    The counter under the mutex keeps to the rules of [Threads]; the one without
    loses updates.  The semaphores of the producer and the consumer leave one
    thread at a time something to do.  The two programs with a barrier and with a
    join are small enough to run every schedule. *)
From Stdlib Require Import Ascii String.
From stdpp Require Import prelude functions list strings.
From S2P Require Import Prelude CMonad CString Threads LabThreads.

(** ** The counters *)
Lemma bumps_S n : bumps (S n) = Load count :: Store count 1 :: bumps n.
Proof. done. Qed.

Lemma bumps_add n m : bumps (n + m) = bumps n ++ bumps m.
Proof. unfold bumps. by rewrite replicate_add, concat_app. Qed.

Lemma delta_bumps n : delta count (bumps n) = Z.of_nat n.
Proof.
  induction n as [|n IH]; [done|]. rewrite bumps_S.
  change (delta count (Load count :: Store count 1 :: bumps n)) with (0 + (1 + delta count (bumps n))). lia.
Qed.

Lemma disciplined_bumps n q : disciplined [lock] (bumps n ++ q) = disciplined [lock] q.
Proof.
  induction n as [|n IH]; [done|]. rewrite bumps_S. cbn [app disciplined].
  rewrite IH, !bool_decide_true by (done || by left). done.
Qed.

Lemma runner_disciplined n : disciplined [] (runner n) = true.
Proof. unfold runner. cbn [disciplined below forallb andb]. by rewrite disciplined_bumps. Qed.

Lemma delta_runner n : delta count (runner n) = Z.of_nat n.
Proof.
  unfold runner. change (delta count (Lock lock :: bumps n ++ [Unlock lock])) with (0 + delta count (bumps n ++ [Unlock lock])).
  rewrite delta_app, delta_bumps. cbn. lia.
Qed.

(** What a thread has done so far is a part of its program. *)
Lemma delta_nonneg (p : lprog) : Forall (λ x, 0 ≤ change count x) p → 0 ≤ delta count p.
Proof.
  induction 1 as [|x p Hx _ IH]; [done|]. change (0 ≤ change count x + delta count p). lia.
Qed.

Lemma runner_ups n : Forall (λ x, 0 ≤ change count x) (runner n).
Proof.
  unfold runner. constructor; [done|]. apply Forall_app. split; [|by constructor].
  induction n as [|n IH]; [constructor|]. rewrite bumps_S. repeat constructor; done.
Qed.

Lemma part_bounds n (p q : lprog) : p ++ q = runner n → 0 ≤ delta count p ≤ Z.of_nat n.
Proof.
  intros Hpq. pose proof (runner_ups n) as Hup. pose proof (delta_runner n) as Hd.
  rewrite <- Hpq in Hup, Hd. apply Forall_app in Hup as [Hp Hq]. rewrite delta_app in Hd.
  pose proof (delta_nonneg _ Hp). pose proof (delta_nonneg _ Hq). lia.
Qed.

(** ** Without the mutex *)

(** Thread [i] has [p] to do, and [r] in its register. *)
Definition has (c : lconfig) (i : nat) (p : lprog) (r : Z) : Prop :=
  ∃ ex h, threads c !! i = Some (Thread ex p h r).

(** The others keep what they have. *)
Definition moves (i : nat) (c c' : lconfig) : Prop := ∀ j, j ≠ i → threads c' !! j = threads c !! j.

Lemma has_moves i j c c' p r : moves i c c' → j ≠ i → has c j p r → has c' j p r.
Proof. intros Hm Hj (ex & h & Ht). exists ex, h. by rewrite Hm. Qed.

Lemma moves_trans i c1 c2 c3 : moves i c1 c2 → moves i c2 c3 → moves i c1 c3.
Proof. intros H1 H2 j Hj. by rewrite H2, H1. Qed.

(** The three instructions of these programs. *)
Lemma step_instr c i x p r :
  has c i (x :: p) r → (∀ m, x ≠ Lock m ∧ x ≠ Unlock m) →
  ∃ c', run_step i c = Some c' ∧ moves i c c' ∧
    match x with
    | Load _ => value c' count = value c count ∧ has c' i p (value c count)
    | Store _ d => value c' count = r + d ∧ has c' i p r
    | _ => value c' count = value c count ∧ has c' i p r
    end.
Proof.
  intros (ex & h & Ht) Hx. assert (i < length (threads c))%nat as Hi by (by eapply lookup_lt_Some).
  unfold run_step. rewrite Ht. cbn. destruct x as [m|m|[]|[] d|]; [by destruct (Hx m)|by destruct (Hx m)|..];
    eexists; (split; [done|]); (split; [intros j Hj; cbn [threads]; by apply list_lookup_insert_ne|]);
    (split; [try done; cbn [value]; by rewrite fn_lookup_insert|]);
    eexists _, h; cbn [threads]; by apply list_lookup_insert_eq.
Qed.

Lemma run_one i (c c' : lconfig) : run_step i c = Some c' → run [i] c = Some c'.
Proof. intros Hs. cbn. by rewrite Hs. Qed.

Lemma run_app (c : lconfig) s1 s2 c1 : run s1 c = Some c1 → run (s1 ++ s2) c = run s2 c1.
Proof.
  revert c. induction s1 as [|i s1 IH]; intros c Hr; cbn [run app] in *; [by simplify_eq|].
  apply bind_Some in Hr as (c' & Hi & Hr). rewrite Hi. cbn. by apply IH.
Qed.

(** [n] increments in one go. *)
Lemma run_bumps n i c q r :
  has c i (bumps n ++ q) r →
  ∃ sched c' r', run sched c = Some c' ∧ moves i c c' ∧ value c' count = value c count + Z.of_nat n ∧ has c' i q r'.
Proof.
  revert c r. induction n as [|n IH]; intros c r Hc.
  { exists [], c, r. split_and!; [done|done|lia|done]. }
  rewrite bumps_S in Hc. cbn [app] in Hc.
  destruct (step_instr c i _ _ _ Hc ltac:(done)) as (c1 & Hs1 & Hm1 & Hv1 & Hc1).
  destruct (step_instr c1 i _ _ _ Hc1 ltac:(done)) as (c2 & Hs2 & Hm2 & Hv2 & Hc2).
  destruct (IH c2 _ Hc2) as (sched & c' & r' & Hr & Hm & Hv & Hh).
  exists (i :: i :: sched), c', r'. split_and!; [|by do 2 (eapply moves_trans; [done|])|lia|done].
  cbn [run]. rewrite Hs1. cbn [mbind option_bind]. by rewrite Hs2.
Qed.

(** Two threads that count without a mutex. *)
Definition two_workers (n : Z) : lconfig := start [work_function n; work_function n].

Lemma two_workers_has n i : (i < 2)%nat → has (two_workers n) i (bumps (Z.to_nat n) ++ [Local]) 0.
Proof. intros Hi. exists [], []. destruct i as [|[|]]; [done|done|lia]. Qed.

Lemma two_workers_ended c' r0 r1 n sched :
  run sched (two_workers n) = Some c' → has c' 0 [] r0 → has c' 1 [] r1 → all_ended c'.
Proof.
  intros Hr (ex0 & h0 & H0) (ex1 & h1 & H1) i t Hi.
  assert (length (threads c') = 2%nat) as Hl.
  { pose proof (f_equal length (run_programs _ _ _ Hr)) as Hp. by rewrite !length_fmap in Hp. }
  destruct i as [|[|i]]; [by simplify_eq|by simplify_eq|]. apply lookup_lt_Some in Hi. lia.
Qed.

(** One thread after the other: nothing is lost. *)
Lemma workers_in_turn n :
  0 ≤ n → ∃ sched c', run sched (two_workers n) = Some c' ∧ all_ended c' ∧ value c' count = 2 * n.
Proof.
  intros Hn. destruct (run_bumps _ 0 _ _ _ (two_workers_has n 0 ltac:(lia))) as (s1 & c1 & r1 & Hr1 & Hm1 & Hv1 & Hh1).
  destruct (step_instr c1 0 _ _ _ Hh1 ltac:(done)) as (c2 & Hs2 & Hm2 & Hv2 & Hh2).
  pose proof (has_moves _ 1 _ _ _ _ (moves_trans _ _ _ _ Hm1 Hm2) ltac:(done) (two_workers_has n 1 ltac:(lia))) as H1.
  destruct (run_bumps _ 1 _ _ _ H1) as (s3 & c3 & r3 & Hr3 & Hm3 & Hv3 & Hh3).
  destruct (step_instr c3 1 _ _ _ Hh3 ltac:(done)) as (c4 & Hs4 & Hm4 & Hv4 & Hh4).
  assert (run (s1 ++ [0%nat] ++ s3 ++ [1%nat]) (two_workers n) = Some c4) as Hrun.
  { rewrite (run_app _ _ _ _ Hr1), (run_app _ _ _ _ (run_one _ _ _ Hs2)), (run_app _ _ _ _ Hr3). by apply run_one. }
  exists (s1 ++ [0%nat] ++ s3 ++ [1%nat]), c4. split; [done|]. split.
  - eapply two_workers_ended; [done| |exact Hh4].
    exact (has_moves _ 0 _ _ _ _ (moves_trans _ _ _ _ Hm3 Hm4) ltac:(done) Hh2).
  - rewrite Hv4, Hv3, Hv2, Hv1. change (value (two_workers n) count) with 0. lia.
Qed.

(** The worst schedule: of all increments two are left. *)
Lemma workers_lose n :
  2 ≤ n → ∃ sched c', run sched (two_workers n) = Some c' ∧ all_ended c' ∧ value c' count = 2.
Proof.
  intros Hn. set (k := Nat.pred (Z.to_nat n)). pose proof (two_workers_has n) as H. unfold two_workers in H.
  assert (Z.to_nat n = S k) as Hk by lia. rewrite Hk in H.
  assert (bumps (S k) = bumps k ++ bump) as Hb by (rewrite <- Nat.add_1_r, bumps_add; done).
  fold (two_workers n) in H.
  (* thread 0 loads 0 *)
  pose proof (H 0%nat ltac:(lia)) as H0. rewrite bumps_S in H0.
  destruct (step_instr _ 0 _ _ _ H0 ltac:(done)) as (c1 & Hs1 & Hm1 & Hv1 & Hh1).
  (* thread 1 counts up to its last increment *)
  pose proof (has_moves _ 1 _ _ _ _ Hm1 ltac:(done) (H 1%nat ltac:(lia))) as H1. rewrite Hb, <- app_assoc in H1.
  destruct (run_bumps _ 1 _ _ _ H1) as (s2 & c2 & r2 & Hr2 & Hm2 & Hv2 & Hh2).
  (* thread 0 stores 1, thread 1 loads it *)
  destruct (step_instr c2 0 _ _ _ (has_moves _ 0 _ _ _ _ Hm2 ltac:(done) Hh1) ltac:(done)) as (c3 & Hs3 & Hm3 & Hv3 & Hh3).
  destruct (step_instr c3 1 _ _ _ (has_moves _ 1 _ _ _ _ Hm3 ltac:(done) Hh2) ltac:(done)) as (c4 & Hs4 & Hm4 & Hv4 & Hh4).
  (* thread 0 goes on to its end, thread 1 stores 2 *)
  destruct (run_bumps _ 0 _ _ _ (has_moves _ 0 _ _ _ _ Hm4 ltac:(done) Hh3)) as (s5 & c5 & r5 & Hr5 & Hm5 & Hv5 & Hh5).
  destruct (step_instr c5 0 _ _ _ Hh5 ltac:(done)) as (c6 & Hs6 & Hm6 & Hv6 & Hh6).
  pose proof (has_moves _ 1 _ _ _ _ (moves_trans _ _ _ _ Hm5 Hm6) ltac:(done) Hh4) as H6.
  destruct (step_instr c6 1 _ _ _ H6 ltac:(done)) as (c7 & Hs7 & Hm7 & Hv7 & Hh7).
  destruct (step_instr c7 1 _ _ _ Hh7 ltac:(done)) as (c8 & Hs8 & Hm8 & Hv8 & Hh8).
  set (sched := [0%nat] ++ s2 ++ [0%nat] ++ [1%nat] ++ s5 ++ [0%nat] ++ [1%nat] ++ [1%nat]).
  assert (run sched (two_workers n) = Some c8) as Hrun.
  { unfold sched. rewrite (run_app _ _ _ _ (run_one _ _ _ Hs1)), (run_app _ _ _ _ Hr2),
      (run_app _ _ _ _ (run_one _ _ _ Hs3)), (run_app _ _ _ _ (run_one _ _ _ Hs4)), (run_app _ _ _ _ Hr5),
      (run_app _ _ _ _ (run_one _ _ _ Hs6)), (run_app _ _ _ _ (run_one _ _ _ Hs7)). by apply run_one. }
  exists sched, c8. split; [done|]. split.
  - eapply two_workers_ended; [exact Hrun| |exact Hh8].
    exact (has_moves _ 0 _ _ _ _ (moves_trans _ _ _ _ Hm7 Hm8) ltac:(done) Hh6).
  - rewrite Hv8, Hv7, Hv3. done.
Qed.

(** The count never exceeds the number of stores. *)
Definition counted (c : lconfig) : Prop :=
  value c count ≤ total count (threads c) ∧
  ∀ i t, threads c !! i = Some t → reg t ≤ total count (threads c) ∧ Forall (λ x, 0 ≤ change count x ≤ 1) (todo t).

Lemma counted_update c i t x p h r f :
  counted c → threads c !! i = Some t → todo t = x :: p →
  f count ≤ total count (threads c) + change count x → r ≤ total count (threads c) →
  ∀ o, counted (Config f o (<[i := Thread (executed t ++ [x]) p h r]> (threads c))).
Proof.
  intros [Hv Hc] Hi Hp Hf Hr o. destruct (Hc i t Hi) as [_ Hall]. rewrite Hp in Hall.
  apply Forall_cons in Hall as [Hx Hall].
  assert (total count (<[i := Thread (executed t ++ [x]) p h r]> (threads c)) = total count (threads c) + change count x) as Ht.
  { rewrite (total_insert _ _ _ _ _ Hi). cbn [executed]. rewrite delta_snoc. lia. }
  split; cbn [value threads]; rewrite Ht; [done|]. intros j u Hj. destruct (decide (j = i)) as [->|Hne].
  - rewrite list_lookup_insert_eq in Hj by (by eapply lookup_lt_Some). injection Hj as <-. split; [cbn; lia|done].
  - rewrite list_lookup_insert_ne in Hj by done. destruct (Hc j u Hj). split; [lia|done].
Qed.

Lemma counted_step c i c' : counted c → run_step i c = Some c' → counted c'.
Proof.
  intros Hc Hs. pose proof Hc as [Hv Hall]. unfold run_step in Hs.
  destruct (threads c !! i) as [t|] eqn:Hi; [|done]. cbn in Hs. unfold advance in Hs.
  destruct (Hall i t Hi) as [Hr Hch]. destruct (todo t) as [|x p] eqn:Hp; [done|].
  assert (0 ≤ change count x ≤ 1) as Hx by (by apply Forall_cons in Hch as [? _]).
  destruct x as [m|m|[]|[] d|]; repeat case_match; simplify_eq; eapply counted_update; try done || lia.
  rewrite fn_lookup_insert. cbn [change] in *. rewrite bool_decide_true in * by done. lia.
Qed.

Lemma counted_run c sched c' : counted c → run sched c = Some c' → counted c'.
Proof.
  revert c. induction sched as [|i sched IH]; intros c Hc Hr; [by simplify_eq/=|].
  cbn in Hr. apply bind_Some in Hr as (c1 & H1 & H2). eapply IH; [|done]. by eapply counted_step.
Qed.

Lemma work_ups n : Forall (λ x, 0 ≤ change count x ≤ 1) (work_function n).
Proof.
  unfold work_function. apply Forall_app. split; [|by repeat constructor].
  induction (Z.to_nat n) as [|k IH]; [constructor|]. rewrite bumps_S. by repeat constructor.
Qed.

Lemma two_workers_bound n sched c' :
  0 ≤ n → run sched (two_workers n) = Some c' → value c' count ≤ 2 * n.
Proof.
  intros Hn Hr. assert (counted (two_workers n)) as Hc.
  { split; [done|]. intros [|[|i]] t Ht; simplify_eq/=; (split; [done|apply work_ups]). }
  apply (counted_run _ _ _ Hc) in Hr as Hc'. destruct Hc' as [Hv Hall].
  pose proof (run_programs _ _ _ Hr) as Hp. cbn in Hp.
  assert (∀ p q, p ++ q = work_function n → Forall (λ x, 0 ≤ change count x ≤ 1) q → delta count p ≤ n) as Hpart.
  { intros p q Hpq Hq. assert (delta count (work_function n) = n) as Hd.
    { unfold work_function. rewrite delta_app, delta_bumps. cbn. lia. }
    rewrite <- Hpq, delta_app in Hd. pose proof (delta_nonneg q) as Hnn.
    specialize (Hnn ltac:(eapply Forall_impl; [exact Hq|simpl; lia])). lia. }
  destruct (threads c') as [|t0 [|t1 [|]]] eqn:Hts; try done. injection Hp as H0 H1.
  change (total count [t0; t1]) with (delta count (executed t0) + (delta count (executed t1) + 0)) in Hv.
  pose proof (Hpart _ _ H0 ltac:(by apply (Hall 0%nat t0))). pose proof (Hpart _ _ H1 ltac:(by apply (Hall 1%nat t1))). lia.
Qed.

(** ** Every schedule of a small program *)
Section explore.
Context {Sem : Type} `{!EqDecision Sem}.
Implicit Types c : sstate Sem.

Lemma sem_step_index i c c' : sem_step i c = Some c' → (i < length (codes c))%nat ∧ length (codes c') = length (codes c).
Proof.
  unfold sem_step. intros Hs. destruct (started c !! i) as [[]|]; try done.
  destruct (codes c !! i) as [[|x p]|] eqn:Hi; try done. apply lookup_lt_Some in Hi as Hlt. split; [done|].
  destruct x; repeat case_match; simplify_eq; cbn [codes]; by rewrite length_insert.
Qed.

Lemma explore_sound n P c sched c' :
  explore n P c = true → sem_run sched c = Some c' → (length sched ≤ n)%nat →
  P c' = true ∧ (sem_ended c' = true ∨ ∃ i c'', sem_step i c' = Some c'').
Proof.
  revert c sched. induction n as [|n IH]; intros c sched He Hr Hl; cbn [explore] in He;
    apply andb_true_iff in He as [[HP Hp]%andb_true_iff Hall];
    (destruct sched as [|i sched]; [injection Hr as <-; split; [done|];
      apply orb_true_iff in Hp as [Hp|Hp]; [by left|right];
      apply existsb_exists in Hp as (i & _ & [c2 Hi]%bool_decide_eq_true); eauto|]); [simpl in Hl; lia|].
  cbn [sem_run] in Hr. apply bind_Some in Hr as (c1 & Hi & Hr).
  rewrite forallb_forall in Hall. specialize (Hall i).
  destruct (sem_step_index _ _ _ Hi) as [Hlt _]. rewrite Hi in Hall.
  apply (IH c1 sched); [apply Hall, in_seq; lia|done|simpl in Hl; lia].
Qed.

(** Every step takes one call from a thread. *)
Definition calls_left (c : sstate Sem) : nat := sum_list_with length (codes c).

Lemma sem_step_left i c c' : sem_step i c = Some c' → calls_left c = S (calls_left c').
Proof.
  unfold sem_step, calls_left. intros Hs. destruct (started c !! i) as [[]|]; try done.
  destruct (codes c !! i) as [[|x p]|] eqn:Hi; try done.
  pose proof (sum_list_with_insert length _ _ _ p Hi) as Hsum. cbn [length] in Hsum.
  destruct x; repeat case_match; simplify_eq; cbn [codes]; lia.
Qed.

Lemma sem_run_left sched c c' : sem_run sched c = Some c' → calls_left c = (length sched + calls_left c')%nat.
Proof.
  revert c. induction sched as [|i sched IH]; intros c Hr; [by simplify_eq/=|].
  cbn [sem_run] in Hr. apply bind_Some in Hr as (c1 & Hi & Hr). apply sem_step_left in Hi. apply IH in Hr. simpl. lia.
Qed.
End explore.

(** ** The producer and the consumer *)
Definition numbers (m : nat) : list (list ascii) := (λ i, print_d (Z.of_nat i)) <$> seq 0 m.

Lemma numbers_S m : numbers (S m) = numbers m ++ [print_d (Z.of_nat m)].
Proof. unfold numbers. by rewrite seq_S, fmap_app. Qed.

Lemma produce_S n : produce (S n) = SWait consumed :: SBump :: SPost produced :: produce n.
Proof. done. Qed.
Lemma consume_S n : consume (S n) = SWait produced :: SShow :: SPost consumed :: consume n.
Proof. done. Qed.

(** The semaphores, the number, the output and the calls that are left. *)
Record pc_is (c : sstate pc_sem) (vp vc : Z) (n m : nat) (p q : list (sinstr pc_sem)) : Prop := {
  pi_produced : sems c produced = vp;
  pi_consumed : sems c consumed = vc;
  pi_n : shared_n c = Z.of_nat n;
  pi_shown : shown c = numbers m;
  pi_started : started c = [true; true; true];
  pi_codes : ∃ mp, codes c = [mp; p; q] ∧ mp `suffix_of` [SJoin 1; SJoin 2]
}.

(** Where the two threads are when [m] numbers have been taken, and [j] are left. *)
Inductive pc_at (c : sstate pc_sem) : nat → nat → Prop :=
  | at_begin m j : pc_is c 1 0 m m (produce j) (consume j) → pc_at c m j
  | at_show m j : pc_is c 0 0 m m (produce (S j)) (SShow :: SPost consumed :: consume j) → pc_at c m (S j)
  | at_post m j : pc_is c 0 0 m (S m) (produce (S j)) (SPost consumed :: consume j) → pc_at c m (S j)
  | at_take m j : pc_is c 0 1 m (S m) (produce (S j)) (consume j) → pc_at c m (S j)
  | at_bump m j : pc_is c 0 0 m (S m) (SBump :: SPost produced :: produce j) (consume j) → pc_at c m (S j)
  | at_give m j : pc_is c 0 0 (S m) (S m) (SPost produced :: produce j) (consume j) → pc_at c m (S j).

Lemma suffix_cons_inv {A} (x : A) l k : x :: l `suffix_of` k → l `suffix_of` k.
Proof. intros [k' ->]. exists (k' ++ [x]). by rewrite <- app_assoc. Qed.

(** A step of a thread that is not blocked. *)
Lemma pc_step c vp vc n m p q i c' :
  pc_is c vp vc n m p q → sem_step i c = Some c' →
  match i with
  | O => pc_is c' vp vc n m p q
  | 1%nat =>
      match p with
      | SWait consumed :: p' => 0 < vc ∧ pc_is c' vp (vc - 1) n m p' q
      | SPost produced :: p' => pc_is c' (vp + 1) vc n m p' q
      | SBump :: p' => pc_is c' vp vc (S n) m p' q
      | [] => False
      | _ => True
      end
  | 2%nat =>
      match q with
      | SWait produced :: q' => 0 < vp ∧ pc_is c' (vp - 1) vc n m p q'
      | SPost consumed :: q' => pc_is c' vp (vc + 1) n m p q'
      | SShow :: q' => n = m → pc_is c' vp vc n (S m) p q'
      | [] => False
      | _ => True
      end
  | _ => False
  end.
Proof.
  intros [Hp Hc Hn Hsh Hst (mp & Hcodes & Hmp)] Hs. unfold sem_step in Hs. rewrite Hst, Hcodes in Hs.
  destruct i as [|[|[|i]]]; cbn in Hs; [..|done].
  - destruct mp as [|x mp]; [done|].
    assert (mp `suffix_of` [SJoin 1; SJoin 2]) as Hmp' by (by eapply suffix_cons_inv).
    assert (x = SJoin 1 ∨ x = SJoin 2) as [->| ->].
    { destruct Hmp as [[|y [|z [|? ?]]] Heq]; simplify_eq/=; auto. }
    all: repeat case_match; simplify_eq; split; try done; by exists mp.
  - destruct p as [|[[]|[]| | | | |] p]; [done|..]; try done; cbn in Hs.
    + destruct (Z.ltb_spec 0 (sems c consumed)); [|done]. simplify_eq. split; [done|].
      split; try done; by exists mp.
    + simplify_eq. split; try done; by exists mp.
    + simplify_eq. split; try done; [cbn; lia|by exists mp].
  - destruct q as [|[[]|[]| | | | |] q]; [done|..]; try done; cbn in Hs.
    + destruct (Z.ltb_spec 0 (sems c produced)); [|done]. simplify_eq. split; [done|].
      split; try done; by exists mp.
    + simplify_eq. split; try done; by exists mp.
    + simplify_eq. intros ->. split; try done; [cbn [shown]; by rewrite Hsh, Hn, numbers_S|by exists mp].
Qed.

(** One thread at a time has something to do. *)
Lemma pc_at_step c m j i c' :
  pc_at c m j → sem_step i c = Some c' →
  ∃ m' j', pc_at c' m' j' ∧ (m' + j' = m + j)%nat.
Proof.
  intros Hat Hs. destruct Hat as [m j H|m j H|m j H|m j H|m j H|m j H];
    pose proof (pc_step _ _ _ _ _ _ _ _ _ H Hs) as Hn;
    (destruct i as [|[|[|i]]]; [eexists _, _; split; [by econstructor|done]| | |done]);
    (* the thread that waits *)
    try (rewrite ?produce_S, ?consume_S in Hn; lia);
    try (destruct j as [|j]; [done|]; rewrite ?produce_S, ?consume_S in Hn; lia).
  - destruct j as [|j]; [done|]. destruct Hn as [_ Hn]. exists m, (S j). split; [by apply at_show|done].
  - exists m, (S j). split; [apply at_post; by apply Hn|done].
  - exists m, (S j). split; [by apply at_take|done].
  - destruct Hn as [_ Hn]. exists m, (S j). split; [by apply at_bump|done].
  - exists m, (S j). split; [by apply at_give|done].
  - exists (S m), j. split; [by apply at_begin|lia].
Qed.

Lemma pc_at_start k : pc_at (pc_start k) 0 k.
Proof. apply at_begin. split; try done. by exists [SJoin 1; SJoin 2]. Qed.

Lemma pc_at_run sched c c' m j :
  pc_at c m j → sem_run sched c = Some c' → ∃ m' j', pc_at c' m' j' ∧ (m' + j' = m + j)%nat.
Proof.
  revert c m j. induction sched as [|i sched IH]; intros c m j Hat Hr; [simplify_eq/=; eauto|].
  cbn [sem_run] in Hr. apply bind_Some in Hr as (c1 & Hi & Hr).
  destruct (pc_at_step _ _ _ _ _ Hat Hi) as (m1 & j1 & Hat1 & H1).
  destruct (IH _ _ _ Hat1 Hr) as (m2 & j2 & Hat2 & H2). exists m2, j2. split; [done|lia].
Qed.

(** A thread whose next call cannot block can make it. *)
Lemma pc_can c vp vc n m p q (i : nat) x r :
  pc_is c vp vc n m p q → (i = 1%nat ∧ p = x :: r ∨ i = 2%nat ∧ q = x :: r) →
  match x with SWait produced => 0 < vp | SWait consumed => 0 < vc | SBump | SShow | SPost _ => True | _ => False end →
  ∃ c', sem_step i c = Some c'.
Proof.
  intros [Hp Hc _ _ Hst (mp & Hcodes & _)] Hi Hx. unfold sem_step. rewrite Hst, Hcodes.
  destruct Hi as [[-> ->]|[-> ->]]; cbn; destruct x as [[]|[]| | | | |]; try done; eauto; subst;
    (rewrite (proj2 (Z.ltb_lt _ _) Hx); eauto).
Qed.

Lemma pc_progress c m j : pc_at c m j → sem_ended c = true ∨ ∃ i c', sem_step i c = Some c'.
Proof.
  intros Hat. destruct Hat as [m j H|m j H|m j H|m j H|m j H|m j H].
  - destruct j as [|j]; [|right; exists 2%nat; eapply pc_can; [done|right; by rewrite consume_S|done]].
    destruct H as [_ _ _ _ Hst (mp & Hcodes & Hmp)]. destruct mp as [|x mp].
    + left. unfold sem_ended. by rewrite Hcodes.
    + right. exists 0%nat. unfold sem_step. rewrite Hst, Hcodes. cbn.
      assert (x = SJoin 1 ∨ x = SJoin 2) as [->| ->] by (destruct Hmp as [[|y [|z [|? ?]]] Heq]; simplify_eq/=; auto); eauto.
  - right. exists 2%nat. by eapply pc_can; [done|right|].
  - right. exists 2%nat. by eapply pc_can; [done|right|].
  - right. exists 1%nat. by eapply pc_can; [done|left; by rewrite produce_S|].
  - right. exists 1%nat. by eapply pc_can; [done|left|].
  - right. exists 1%nat. by eapply pc_can; [done|left|].
Qed.

(** At the end. *)
Lemma pc_at_end c m j : pc_at c m j → sem_ended c = true → j = 0%nat ∧ shared_n c = Z.of_nat m ∧ shown c = numbers m.
Proof.
  intros Hat He. unfold sem_ended in He. rewrite forallb_forall in He.
  assert (∀ p, p ∈ codes c → p = []) as Hnil.
  { intros p Hp. apply list_elem_of_In in Hp. specialize (He p Hp). apply bool_decide_eq_true in He. by destruct p. }
  destruct Hat as [m j H|m j H|m j H|m j H|m j H|m j H]; destruct H as [_ _ Hn Hsh _ (mp & Hcodes & _)];
    rewrite Hcodes in Hnil; pose proof (Hnil _ ltac:(by right; left)) as H1;
    pose proof (Hnil _ ltac:(by right; right; left)) as H2; try done.
  destruct j; [done|]. by rewrite produce_S in H1.
Qed.

(** What has been printed so far. *)
Lemma pc_at_shown c m j : pc_at c m j → ∃ m', shown c = numbers m' ∧ (m ≤ m' ≤ m + j)%nat.
Proof.
  destruct 1 as [m j H|m j H|m j H|m j H|m j H|m j H]; destruct H as [_ _ _ Hsh _ _]; eexists; (split; [exact Hsh|lia]).
Qed.
