(* ===== verification/Sockets.v ===== *)
(** * Sockets: the client and server examples of the course

    Three pairs of programs: [TCP1] exchanges one message, [TCP2] sends the lines of
    the standard input, [UDP] exchanges datagrams.  The set-up calls are answered by
    [works]; a TCP connection is that of [Messages], a UDP socket a queue of
    datagrams. *)
From Stdlib Require Import Ascii String.
From stdpp Require Import prelude strings.
From S2P Require Import Prelude CMonad CString Messages.

Inductive sock_call := CallSocket | CallBind | CallListen | CallAccept | CallConnect | CallLookup.

(** What a datagram socket gives next. *)
Inductive datagram := Datagram (bytes : list ascii) | RecvErr.

Record peer := Peer {
  p_conn : conn;                    (* the TCP connection *)
  p_datagrams : list datagram;      (* what arrives by UDP, *)
  p_sent : list (list ascii);       (* what was sent by UDP, *)
  p_send_ok : bool;                 (* and whether sending works *)
  p_stdin : list ascii;
  p_stdout : list ascii;
  p_stderr : list (list ascii)
}.

#[export] Program Instance peer_has_conn : HasConn peer :=
  {| get_conn := p_conn;
     set_conn := λ c s, Peer c (p_datagrams s) (p_sent s) (p_send_ok s) (p_stdin s) (p_stdout s) (p_stderr s) |}.
Solve All Obligations with record_cases.

Definition say (text : list ascii) : C peer () :=
  modify (λ s, Peer (p_conn s) (p_datagrams s) (p_sent s) (p_send_ok s) (p_stdin s) (p_stdout s ++ text) (p_stderr s)).
Definition complain (text : list ascii) : C peer () :=
  modify (λ s, Peer (p_conn s) (p_datagrams s) (p_sent s) (p_send_ok s) (p_stdin s) (p_stdout s) (p_stderr s ++ [text])).

(** A call that ends the program with [code] when it fails. *)
Definition need (works : sock_call → bool) (c : sock_call) (text : list ascii) (code : Z) : C peer () :=
  if works c then mret () else complain text;; exit code.

(** [fgets] into a buffer of [size] zeros: the line and its NUL, or the zeros that
    were there when there is no input. *)
Definition read_line (n size : nat) : C peer (list ascii) := λ s,
  match fgets n (p_stdin s) with
  | None => Ok (replicate size NUL) s
  | Some (line, rest) =>
      Ok (line ++ replicate (size - length line) NUL)
        (Peer (p_conn s) (p_datagrams s) (p_sent s) (p_send_ok s) rest (p_stdout s) (p_stderr s))
  end.

(** A call that never returns. *)
Definition waits {A} : C peer A := λ _, NoFuel.

(** ** TCP1/server.c *)
Definition ACK : list ascii := chars "I got your message".

Definition tcp1_server (works : sock_call → bool) (argv : list (list ascii)) : C peer () :=
  match argv with
  | _ :: port :: _ =>
      need works CallSocket (chars "ERROR opening socket") 1;;
      atoi port;;
      need works CallBind (chars "ERROR on binding") 1;;
      need works CallAccept (chars "ERROR on accept") 1;;
      '(n, buffer) ← read_at (replicate 256 NUL) 0 255;
      if n <? 0 then complain (chars "ERROR reading from socket");; exit 1
      else
        say (chars "Here is the message: " ++ cstr buffer ++ [NEWLINE]);;
        '(n, _) ← write_at ACK 0 18;
        if n <? 0 then complain (chars "ERROR writing to socket");; exit 1
        else mret ()
  | _ => complain (chars "ERROR, no port provided");; exit 1
  end.

(** ** TCP1/client.c *)
Definition PROMPT : list ascii := chars "Please enter the message: ".

Definition tcp1_client (works : sock_call → bool) (argv : list (list ascii)) : C peer () :=
  match argv with
  | _ :: _ :: port :: _ =>
      atoi port;;
      need works CallLookup (chars "ERROR, no such host") 0;;
      need works CallSocket (chars "ERROR opening socket") 0;;
      need works CallConnect (chars "ERROR connecting") 0;;
      say PROMPT;;
      buffer ← read_line 255 256;
      '(n, _) ← write_at buffer 0 (Z.of_nat (length (cstr buffer)));
      if n <? 0 then complain (chars "ERROR writing to socket");; exit 0
      else
        '(n, buffer) ← read_at (replicate 256 NUL) 0 255;
        if n <? 0 then complain (chars "ERROR reading from socket");; exit 0
        else say (cstr buffer ++ [NEWLINE])
  | _ => complain (chars "usage " ++ default [] (head argv) ++ chars " hostname port");; exit 0
  end.

(** ** TCP2/client-2.c *)

(** The lines of the input, in pieces of at most 24 characters, each sent with its
    NUL; what [send] returns is ignored.  [fuel] bounds the pieces. *)
Definition tcp2_client (works : sock_call → bool) (fuel : nat) (argv : list (list ascii)) : C peer () :=
  match argv with
  | [_; host; port] =>
      atoi port;;
      need works CallLookup (chars "Unknown host " ++ host ++ chars "  ") 1;;
      need works CallSocket (chars "Error in creating a socket to the server") 1;;
      need works CallConnect (chars "Error in connecting to the host") 1;;
      iter fuel (λ _ : (),
        input ← get p_stdin;
        match fgets 25 input with
        | None => mret (inr ())
        | Some (line, rest) =>
            modify (λ s, Peer (p_conn s) (p_datagrams s) (p_sent s) (p_send_ok s) rest (p_stdout s) (p_stderr s));;
            let msgtobesent := <[24%nat := NUL]> (line ++ NUL :: replicate (24 - length line) NUL) in
            let len := Z.of_nat (length (cstr msgtobesent)) + 1 in
            write_at msgtobesent 0 len;;
            mret (inl ())
        end) ()
  | _ => complain (chars "Usage :client host server_port");; exit 1
  end.

(** ** TCP2/server-2.c *)

(** [printf("%s", msg)] of an array whose cells may be uninitialised; undefined when
    no NUL ends the string. *)
Fixpoint text_of (msg : list (option ascii)) : option (list ascii) :=
  match msg with
  | Some c :: msg' => if bool_decide (c = NUL) then Some [] else (c ::.) <$> text_of msg'
  | _ => None
  end.

(** [recv(new_s, &msg, sizeof(msg), 0)] *)
Definition recv (msg : list (option ascii)) : C peer (Z * list (option ascii)) :=
  '(n, b) ← read (length msg);
  mret (n, (Some <$> b) ++ drop (length b) msg).

(** [while (len = recv(...)) printf("%s", msg)] on one connection; the array lives
    on. *)
Definition tcp2_receive (fuel : nat) (msg : list (option ascii)) : C peer (list (option ascii)) :=
  iter fuel (λ msg,
    '(len, msg) ← recv msg;
    if len =? 0 then mret (inr msg)
    else
      match text_of msg with
      | Some text => say text;; mret (inl msg)
      | None => ub
      end) msg.

(** The connections that are accepted, with the client's address, or the [errno] of an
    [accept] that fails.  After the last one [accept] waits until the alarm ends the
    program. *)
Definition tcp2_server (works : sock_call → bool) (fuel : nat) (argv : list (list ascii))
    (s_descr : Z) (connections : list (list ascii * conn + Z)) : C peer () :=
  match argv with
  | [_; port] =>
      server_port ← atoi port;
      say (chars "Server port " ++ print_d server_port ++ [NEWLINE]);;
      need works CallSocket (chars "Error creating socket") 1;;
      say (chars "Socket descriptor:  " ++ print_d s_descr ++ [NEWLINE]);;
      need works CallBind (chars "Error in binding to the specified port") 1;;
      let port16 := server_port `mod` 65536 in
      say (chars "sock:  family = 2" ++ [NEWLINE] ++ chars "       saddr  = 0" ++ [NEWLINE] ++
           chars "       port   = " ++ print_d port16 ++ [NEWLINE]);;
      need works CallListen (chars "listen() failed with error") 1;;
      say (chars "Listening on port " ++ print_d port16 ++ chars "..." ++ [NEWLINE]);;
      iter (S (length connections)) (λ '(connections, count, msg),
        count ← int_add count 1;
        match connections with
        | [] => waits
        | inr errno :: _ =>
            say (chars "errno = " ++ print_d errno ++ chars ", count =" ++ print_d count ++
                 chars ", new_s = -1" ++ [NEWLINE]);;
            complain (chars "Accept failed");;
            exit 1
        | inl (ip, c) :: connections =>
            say (chars "connection accepted from client " ++ ip ++ [NEWLINE]);;
            modify (set_conn c);;
            msg ← tcp2_receive fuel msg;
            mret (inl (connections, count, msg))
        end) (connections, 0, replicate 25 None)
  | _ => complain (chars "Usage :server portnumber");; exit 1
  end.

(** ** UDP *)
Definition recvfrom (size : nat) : C peer (Z * list ascii) := λ s,
  match p_datagrams s with
  | [] => NoFuel                      (* nothing arrives: the call waits *)
  | d :: ds =>
      let s' := Peer (p_conn s) ds (p_sent s) (p_send_ok s) (p_stdin s) (p_stdout s) (p_stderr s) in
      match d with
      | Datagram b => Ok (Z.of_nat (length (take size b)), take size b) s'
      | RecvErr => Ok (-1, []) s'
      end
  end.
Definition sendto (msg : list ascii) : C peer Z := λ s,
  if p_send_ok s
  then Ok (Z.of_nat (length msg))
         (Peer (p_conn s) (p_datagrams s) (p_sent s ++ [msg]) (p_send_ok s) (p_stdin s) (p_stdout s) (p_stderr s))
  else Ok (-1) s.

Definition udp_client (works : sock_call → bool) (argv : list (list ascii)) : C peer () :=
  match argv with
  | [_; _; port] =>
      need works CallSocket (chars "sock error") 0;;
      need works CallLookup (chars "hp error") 0;;
      atoi port;;
      say PROMPT;;
      buffer ← read_line 255 256;
      n ← sendto (cstr buffer);
      if n <? 0 then complain (chars "sendto error");; exit 0
      else
        '(n, b) ← recvfrom 256;
        if n <? 0 then complain (chars "recvfrom error");; exit 0
        else say (chars "Got an ack: ");; say b
  | _ => say (chars "Usage: server port" ++ [NEWLINE]);; exit 1
  end.

Definition UDP_ACK : list ascii := chars "Got your message" ++ [NEWLINE].

Definition udp_server (works : sock_call → bool) (fuel : nat) (argv : list (list ascii)) : C peer () :=
  match argv with
  | _ :: port :: _ =>
      need works CallSocket (chars "sock error") 0;;
      atoi port;;
      need works CallBind (chars "bind error") 0;;
      iter fuel (λ _ : (),
        '(n, b) ← recvfrom 1024;
        if n <? 0 then complain (chars "recvfrom error");; exit 0
        else
          say (chars "Received a datagram: ");; say b;;
          n ← sendto UDP_ACK;
          if n <? 0 then complain (chars "sendto error");; exit 0
          else mret (inl ())) ()
  | _ => complain (chars "ERROR, no port provided");; exit 0
  end.
