(* ===== verification/SocketsRefine.v ===== *)
(** * SocketsRefine: what the socket examples exchange *)
From Stdlib Require Import Ascii String.
From stdpp Require Import prelude strings.
From S2P Require Import Prelude CMonad CString Messages Sockets.

Definition all_work : sock_call → bool := λ _, true.

Section rules.
Context (s : peer).

Lemma wp_need c text code (Q : () → peer → Prop) : Q () s → wp (need all_work c text code) Q s.
Proof. intros HQ. unfold need. by apply wp_ret. Qed.

Lemma wp_say text (Q : () → peer → Prop) :
  Q () (Peer (p_conn s) (p_datagrams s) (p_sent s) (p_send_ok s) (p_stdin s) (p_stdout s ++ text) (p_stderr s)) →
  wp (say text) Q s.
Proof. done. Qed.

Lemma wp_atoi text (Q : Z → peer → Prop) : INT_MIN ≤ atoi_Z text ≤ INT_MAX → Q (atoi_Z text) s → wp (atoi text) Q s.
Proof. intros Hr HQ. by apply wp_chk. Qed.

(** One [read] into 256 zeros: the next piece of the stream. *)
Lemma wp_read_255 m rs (Q : Z * list ascii → peer → Prop) :
  reads (p_conn s) = Chunk m :: rs → (length m ≤ 255)%nat →
  Q (Z.of_nat (length m), m ++ replicate (256 - length m) NUL) (set_conn (Conn rs (writes (p_conn s)) (sent (p_conn s))) s) →
  wp (read_at (replicate 256 NUL) 0 255) Q s.
Proof.
  intros Hr Hm HQ. eapply wp_read_at; [lia|lia|rewrite length_replicate; lia| |].
  - change (get_conn s) with (p_conn s). unfold conn_read. rewrite Hr.
    rewrite take_ge, drop_ge by (change (Z.to_nat 255) with 255%nat; lia). done.
  - cbn [take app Nat.add Z.to_nat]. rewrite drop_replicate. exact HQ.
Qed.

(** A [write] that the network takes. *)
Lemma wp_write_all msg n (Q : Z * bool → peer → Prop) :
  writes (p_conn s) = [] → (n ≤ length msg)%nat →
  Q (Z.of_nat n, false) (set_conn (Conn (reads (p_conn s)) [] (sent (p_conn s) ++ take n msg)) s) →
  wp (write_at msg 0 (Z.of_nat n)) Q s.
Proof.
  intros Hw Hn HQ. eapply (wp_write_at msg 0 (Z.of_nat n) Q s (Z.of_nat n) false); [lia|lia|lia| |exact HQ].
  change (get_conn s) with (p_conn s). rewrite Nat2Z.id. change (drop (Z.to_nat 0) msg) with msg.
  unfold conn_write. rewrite Hw, length_take, Nat.min_l by lia. done.
Qed.

Lemma wp_read_line n line rest (Q : list ascii → peer → Prop) :
  p_stdin s = line ++ NEWLINE :: rest → NEWLINE ∉ line → (length line < Nat.pred n)%nat →
  Q ((line ++ [NEWLINE]) ++ replicate (256 - length (line ++ [NEWLINE])) NUL)
    (Peer (p_conn s) (p_datagrams s) (p_sent s) (p_send_ok s) rest (p_stdout s) (p_stderr s)) →
  wp (read_line n 256) Q s.
Proof. intros Hi Hl Hn HQ. unfold wp, read_line. rewrite Hi, fgets_line by done. exact HQ. Qed.
End rules.

Lemma cstr_padded l k : NUL ∉ l → (0 < k)%nat → cstr (l ++ replicate k NUL) = l.
Proof. intros Hl Hk. destruct k as [|k]; [lia|]. cbn [replicate]. by apply cstr_app_NUL. Qed.

(** ** One message and its answer *)
Lemma tcp1_serves (s : peer) name port rest m rs :
  INT_MIN ≤ atoi_Z port ≤ INT_MAX → reads (p_conn s) = Chunk m :: rs → writes (p_conn s) = [] →
  NUL ∉ m → (length m ≤ 255)%nat →
  wp (tcp1_server all_work (name :: port :: rest))
    (λ _ s', p_stdout s' = p_stdout s ++ chars "Here is the message: " ++ m ++ [NEWLINE] ∧
       sent (p_conn s') = sent (p_conn s) ++ ACK) s.
Proof.
  intros Hp Hr Hw Hn Hm. apply wp_bind, wp_need, wp_bind, wp_atoi; [done|].
  apply wp_bind, wp_need, wp_bind, wp_need, wp_bind. eapply wp_read_255; [done|done|].
  rewrite (proj2 (Z.ltb_ge _ _)) by lia. rewrite cstr_padded by (done || lia).
  apply wp_bind, wp_say, wp_bind. apply (wp_write_all _ ACK 18); [done|simpl; lia|]. by apply wp_ret.
Qed.

Lemma tcp1_asks (s : peer) name host port rest line input m rs :
  INT_MIN ≤ atoi_Z port ≤ INT_MAX → p_stdin s = line ++ NEWLINE :: input →
  NEWLINE ∉ line → NUL ∉ line → (length line < 254)%nat →
  reads (p_conn s) = Chunk m :: rs → writes (p_conn s) = [] → NUL ∉ m → (length m ≤ 255)%nat →
  wp (tcp1_client all_work (name :: host :: port :: rest))
    (λ _ s', p_stdout s' = p_stdout s ++ PROMPT ++ m ++ [NEWLINE] ∧
       sent (p_conn s') = sent (p_conn s) ++ line ++ [NEWLINE]) s.
Proof.
  intros Hp Hi Hnl Hnu Hl Hr Hw Hn Hm. apply wp_bind, wp_atoi; [done|].
  apply wp_bind, wp_need, wp_bind, wp_need, wp_bind, wp_need, wp_bind, wp_say, wp_bind.
  eapply wp_read_line; [exact Hi|done|simpl; lia|].
  assert (NUL ∉ line ++ [NEWLINE]) as Hn'.
  { rewrite elem_of_app, list_elem_of_singleton. intros [?|?]; done. }
  rewrite cstr_padded; [|done|rewrite length_app; simpl; lia].
  apply wp_bind, wp_write_all; [done|rewrite (length_app (line ++ [NEWLINE])); lia|]. rewrite (proj2 (Z.ltb_ge _ _)) by lia.
  apply wp_bind. eapply wp_read_255; [exact Hr|done|]. rewrite (proj2 (Z.ltb_ge _ _)) by lia.
  rewrite cstr_padded by (done || lia). apply wp_say. cbn. rewrite take_app_length, <- !app_assoc. done.
Qed.

(** ** Lines over a stream *)

(** The pieces that [fgets] reads: at most 24 characters, up to a newline. *)
Fixpoint pieces (fuel : nat) (input : list ascii) : list (list ascii) :=
  match fuel, input with
  | S fuel, _ :: _ => let '(l, rest) := take_line 24 input in l :: pieces fuel rest
  | _, _ => []
  end.

Lemma take_line_split n input l rest :
  take_line n input = (l, rest) → input = l ++ rest ∧ (length l ≤ n)%nat ∧ (n ≠ 0%nat → input ≠ [] → l ≠ []).
Proof.
  revert input l rest. induction n as [|n IH]; intros input l rest Ht; cbn [take_line] in Ht.
  { simplify_eq. done. }
  destruct input as [|c input]; [simplify_eq; split_and!; [done|simpl; lia|done]|].
  case_bool_decide; [simplify_eq; split_and!; [done|simpl; lia|done]|].
  destruct (take_line n input) as [l' rest'] eqn:Hl. simplify_eq. destruct (IH _ _ _ Hl) as (-> & Hlen & _).
  split_and!; [done|simpl; lia|done].
Qed.

Lemma pieces_concat fuel input :
  (length input ≤ fuel)%nat → concat (pieces fuel input) = input ∧ Forall (λ l, (0 < length l ≤ 24)%nat) (pieces fuel input).
Proof.
  revert input. induction fuel as [|fuel IH]; intros input Hf; [destruct input; [done|simpl in Hf; lia]|].
  destruct input as [|c input]; [done|]. cbn [pieces].
  destruct (take_line 24 (c :: input)) as [l rest] eqn:Hl.
  destruct (take_line_split _ _ _ _ Hl) as (Hin & Hlen & Hne). specialize (Hne ltac:(done) ltac:(done)).
  assert (length rest < length (c :: input))%nat as Hlt by (rewrite Hin, length_app; destruct l; [done|simpl; lia]).
  destruct (IH rest ltac:(lia)) as [Hc Hall]. cbn [concat]. split; [by rewrite Hc, Hin|].
  constructor; [destruct l; [done|simpl in *; lia]|done].
Qed.

(** What is sent: every piece with its NUL. *)
Definition framed (ls : list (list ascii)) : list (list ascii) := (λ l, l ++ [NUL]) <$> ls.

Lemma tcp2_sends (s : peer) name host port fuel :
  INT_MIN ≤ atoi_Z port ≤ INT_MAX → writes (p_conn s) = [] → NUL ∉ p_stdin s → (length (p_stdin s) < fuel)%nat →
  wp (tcp2_client all_work fuel [name; host; port])
    (λ _ s', sent (p_conn s') = sent (p_conn s) ++ concat (framed (pieces fuel (p_stdin s)))) s.
Proof.
  intros Hp Hw Hn Hf. apply wp_bind, wp_atoi; [done|]. apply wp_bind, wp_need, wp_bind, wp_need, wp_bind, wp_need.
  revert s Hw Hn Hf. induction fuel as [|fuel IH]; intros s Hw Hn Hf; [lia|].
  cbn [iter]. apply wp_bind, wp_bind, wp_get. destruct (p_stdin s) as [|c input] eqn:Hi.
  { apply wp_ret, wp_ret. by rewrite app_nil_r. }
  change (fgets 25 (c :: input)) with (Some (take_line 24 (c :: input))). cbn [pieces].
  destruct (take_line 24 (c :: input)) as [l rest] eqn:Hl.
  destruct (take_line_split _ _ _ _ Hl) as (Hin & Hlen & Hne). specialize (Hne ltac:(done) ltac:(done)).
  rewrite Hin in Hn. apply not_elem_of_app in Hn as [Hnl Hnr].
  apply wp_bind, wp_modify.
  assert (<[24%nat := NUL]> (l ++ NUL :: replicate (24 - length l) NUL) = l ++ NUL :: replicate (24 - length l) NUL) as ->.
  { apply list_insert_id. rewrite lookup_app_r by lia. change (NUL :: replicate (24 - length l) NUL) with (replicate (S (24 - length l)) NUL).
    apply lookup_replicate_2. lia. }
  rewrite cstr_app_NUL by done. replace (Z.of_nat (length l) + 1) with (Z.of_nat (S (length l))) by lia.
  apply wp_bind, wp_write_all; [done|rewrite length_app; simpl; lia|]. apply wp_ret.
  assert (take (S (length l)) (l ++ NUL :: replicate (24 - length l) NUL) = l ++ [NUL]) as ->.
  { change (NUL :: replicate (24 - length l) NUL) with ([NUL] ++ replicate (24 - length l) NUL).
    rewrite app_assoc, take_app_length'; [done|rewrite length_app; simpl; lia]. }
  eapply wp_mono; [apply IH|].
  - done.
  - done.
  - cbn. apply (f_equal length) in Hin. rewrite length_app in Hin. destruct l; [done|]. simpl in *. lia.
  - intros [] s' Hs'. rewrite Hs'. cbn [p_conn sent set_conn peer_has_conn framed fmap list_fmap concat p_stdin].
    by rewrite <- (app_assoc (sent (p_conn s))).
Qed.

(** When every [recv] gets one message, the server prints what was typed. *)
Lemma text_of_message l rest : NUL ∉ l → text_of ((Some <$> l ++ [NUL]) ++ rest) = Some l.
Proof.
  induction l as [|c l IH]; intros Hn; [done|]. apply not_elem_of_cons in Hn as [Hc Hn].
  change (text_of ((Some <$> (c :: l) ++ [NUL]) ++ rest)) with
    (if bool_decide (c = NUL) then Some [] else (c ::.) <$> text_of ((Some <$> l ++ [NUL]) ++ rest)).
  rewrite bool_decide_false by done. by rewrite IH.
Qed.

Lemma wp_recv m rs msg (Q : Z * list (option ascii) → peer → Prop) (s : peer) :
  reads (p_conn s) = Chunk m :: rs → (length m ≤ length msg)%nat →
  Q (Z.of_nat (length m), (Some <$> m) ++ drop (length m) msg)
    (set_conn (Conn rs (writes (p_conn s)) (sent (p_conn s))) s) →
  wp (recv msg) Q s.
Proof.
  intros Hr Hm HQ. apply wp_bind. unfold wp, read, conn_read. change (get_conn s) with (p_conn s). rewrite Hr.
  rewrite (take_ge m), (drop_ge m) by done. exact HQ.
Qed.

Lemma wp_recv_end msg (Q : Z * list (option ascii) → peer → Prop) (s : peer) :
  reads (p_conn s) = [] → Q (0, msg) (set_conn (p_conn s) s) → wp (recv msg) Q s.
Proof.
  intros Hr HQ. apply wp_bind. unfold wp, read, conn_read. change (get_conn s) with (p_conn s). rewrite Hr. exact HQ.
Qed.

Lemma wp_recv_error msg rs (Q : Z * list (option ascii) → peer → Prop) (s : peer) :
  reads (p_conn s) = ReadErr :: rs → Q (-1, msg) (set_conn (Conn rs (writes (p_conn s)) (sent (p_conn s))) s) →
  wp (recv msg) Q s.
Proof.
  intros Hr HQ. apply wp_bind. unfold wp, read, conn_read. change (get_conn s) with (p_conn s). rewrite Hr. exact HQ.
Qed.

Lemma tcp2_prints ls fuel msg (s : peer) :
  reads (p_conn s) = Chunk <$> framed ls → Forall (λ l, NUL ∉ l ∧ (length l ≤ 24)%nat) ls →
  (length ls < fuel)%nat → length msg = 25%nat →
  wp (tcp2_receive fuel msg) (λ msg' s', p_stdout s' = p_stdout s ++ concat ls ∧ length msg' = 25%nat) s.
Proof.
  revert fuel msg s. induction ls as [|l ls IH]; intros [|fuel] msg s Hr Hall Hf Hm; try (simpl in Hf; lia);
    unfold tcp2_receive; cbn [iter]; apply wp_bind, wp_bind.
  - apply wp_recv_end; [done|]. apply wp_ret, wp_ret. by rewrite app_nil_r.
  - apply Forall_cons in Hall as [[Hn Hl] Hall]. eapply wp_recv; [exact Hr|rewrite length_app, Hm; simpl; lia|].
    rewrite (proj2 (Z.eqb_neq _ _)) by (rewrite length_app; simpl; lia).
    rewrite text_of_message by done. apply wp_bind, wp_say, wp_ret.
    eapply wp_mono; [apply (IH fuel); [done|done|simpl in Hf; lia|]|].
    + rewrite length_app, length_fmap, length_drop, length_app, Hm. simpl. lia.
    + intros msg' s' [Hs' Hm']. split; [|done]. rewrite Hs'. cbn [p_stdout set_conn peer_has_conn concat]. by rewrite <- app_assoc.
Qed.

(** Two messages that arrive together: the second one is not printed. *)
Lemma tcp2_swallows l1 l2 fuel msg (s : peer) :
  reads (p_conn s) = [Chunk (l1 ++ NUL :: l2 ++ [NUL])] → NUL ∉ l1 → (length l1 + length l2 + 2 ≤ 25)%nat →
  (1 < fuel)%nat → length msg = 25%nat →
  wp (tcp2_receive fuel msg) (λ _ s', p_stdout s' = p_stdout s ++ l1) s.
Proof.
  intros Hr Hn Hl Hf Hm. destruct fuel as [|[|fuel]]; [lia|lia|].
  unfold tcp2_receive; cbn [iter]; apply wp_bind, wp_bind. eapply wp_recv; [exact Hr| |].
  { rewrite length_app, Hm. simpl. rewrite length_app. simpl. lia. }
  rewrite (proj2 (Z.eqb_neq _ _)) by (rewrite length_app; simpl; lia).
  assert (text_of ((Some <$> l1 ++ NUL :: l2 ++ [NUL]) ++ drop (length (l1 ++ NUL :: l2 ++ [NUL])) msg) = Some l1) as ->.
  { change (l1 ++ NUL :: l2 ++ [NUL]) with (l1 ++ [NUL] ++ (l2 ++ [NUL])). rewrite app_assoc, fmap_app, <- app_assoc.
    by apply text_of_message. }
  apply wp_bind, wp_say, wp_ret, wp_bind, wp_bind, wp_recv_end; [done|]. by apply wp_ret, wp_ret.
Qed.

(** An error of [recv] is not told from a message: the old text is printed again. *)
Lemma tcp2_repeats l fuel rest (s : peer) :
  reads (p_conn s) = [ReadErr] → NUL ∉ l → (1 < fuel)%nat →
  wp (tcp2_receive fuel ((Some <$> l ++ [NUL]) ++ rest)) (λ _ s', p_stdout s' = p_stdout s ++ l) s.
Proof.
  intros Hr Hn Hf. destruct fuel as [|[|fuel]]; [lia|lia|].
  unfold tcp2_receive; cbn [iter]; apply wp_bind, wp_bind. eapply wp_recv_error; [exact Hr|].
  change (-1 =? 0) with false. cbv iota. rewrite text_of_message by done.
  apply wp_bind, wp_say, wp_ret, wp_bind, wp_bind, wp_recv_end; [done|]. by apply wp_ret, wp_ret.
Qed.

(** ** Datagrams *)
Lemma udp_asks (s : peer) name host port line input reply ds :
  INT_MIN ≤ atoi_Z port ≤ INT_MAX → p_stdin s = line ++ NEWLINE :: input →
  NEWLINE ∉ line → NUL ∉ line → (length line < 254)%nat → p_send_ok s = true →
  p_datagrams s = Datagram reply :: ds → (length reply ≤ 256)%nat →
  wp (udp_client all_work [name; host; port])
    (λ _ s', p_sent s' = p_sent s ++ [line ++ [NEWLINE]] ∧
       p_stdout s' = p_stdout s ++ PROMPT ++ chars "Got an ack: " ++ reply) s.
Proof.
  intros Hp Hi Hnl Hnu Hl Hok Hd Hr.
  apply wp_bind, wp_need, wp_bind, wp_need, wp_bind, wp_atoi; [done|]. apply wp_bind, wp_say, wp_bind.
  eapply wp_read_line; [exact Hi|done|simpl; lia|].
  assert (NUL ∉ line ++ [NEWLINE]) as Hn'.
  { rewrite elem_of_app, list_elem_of_singleton. intros [?|?]; done. }
  rewrite cstr_padded; [|done|rewrite length_app; simpl; lia].
  apply wp_bind. unfold wp at 1, sendto. cbn [p_send_ok]. rewrite Hok. rewrite (proj2 (Z.ltb_ge _ _)) by lia.
  apply wp_bind. unfold wp at 1, recvfrom. cbn [p_datagrams]. rewrite Hd. rewrite take_ge by done.
  rewrite (proj2 (Z.ltb_ge _ _)) by lia. apply wp_bind, wp_say, wp_say. cbn. by rewrite <- !app_assoc.
Qed.

(** The server acknowledges every datagram. *)
Lemma udp_serves ms name port rest (s : peer) :
  INT_MIN ≤ atoi_Z port ≤ INT_MAX → p_send_ok s = true → p_datagrams s = (Datagram <$> ms) ++ [RecvErr] →
  ∀ fuel, (length ms < fuel)%nat →
  exits (udp_server all_work fuel (name :: port :: rest))
    (λ code s', code = 0 ∧ p_sent s' = p_sent s ++ replicate (length ms) UDP_ACK ∧
       p_stdout s' = p_stdout s ++ concat ((λ m, chars "Received a datagram: " ++ take 1024 m) <$> ms)) s.
Proof.
  intros Hp Hok Hd fuel Hf. apply exits_after, wp_need, exits_after, wp_atoi; [done|]. apply exits_after, wp_need.
  revert fuel Hf s Hok Hd. induction ms as [|m ms IH]; intros [|fuel] Hf s Hok Hd; try (simpl in Hf; lia); cbn [iter].
  - apply exits_bind, exits_after. unfold wp, recvfrom. rewrite Hd. cbn. by rewrite !app_nil_r.
  - apply exits_after, wp_bind. unfold wp at 1, recvfrom. rewrite Hd. cbn [fmap list_fmap app].
    rewrite (proj2 (Z.ltb_ge _ _)) by lia. apply wp_bind, wp_say, wp_bind, wp_say, wp_bind.
    unfold wp at 1, sendto. cbn [p_send_ok]. rewrite Hok. rewrite (proj2 (Z.ltb_ge _ _)) by lia. apply wp_ret.
    eapply exits_mono; [apply (IH fuel); [simpl in Hf; lia|done|done]|].
    intros code s' (-> & Hs & Ho). rewrite Hs, Ho. cbn [p_sent p_stdout length replicate concat fmap list_fmap].
    by rewrite <- !app_assoc.
Qed.
