(* ===== verification/FileSystem.v ===== *)
(** * FileSystem: the examples with files and directories

    [example-file.c] makes a directory with a file and two links and takes
    everything away again; [basicio.c] writes a file.  The file system has a table
    of entries for every directory, and the files with their link counts; a call
    may also fail for a reason of its own ([broken]). *)
From Stdlib Require Import Ascii String.
From stdpp Require Import prelude gmap strings.
From S2P Require Import Prelude CMonad CString.

Inductive entry := EFile (ino : Z) | EDir | ESym (target : string).
#[export] Instance entry_eq_dec : EqDecision entry.
Proof. solve_decision. Defined.

Record inode := Inode { i_nlink : Z; i_mode : Z; i_text : list ascii }.

Record fsys := Fsys {
  dirs : gmap (list string) (gmap string entry);
  modes : gmap (list string) Z;
  umask : Z;
  inodes : gmap Z inode;
  next_ino : Z;
  cwd : list string;
  fds : gmap Z Z;                     (* open files *)
  broken : list bool;                 (* the next calls that fail *)
  typed : list ascii;
  printed : list (list ascii);
  errors : list (option string)       (* the arguments of perror *)
}.

Definition set_dirs x s := Fsys x (modes s) (umask s) (inodes s) (next_ino s) (cwd s) (fds s) (broken s) (typed s) (printed s) (errors s).
Definition set_modes x s := Fsys (dirs s) x (umask s) (inodes s) (next_ino s) (cwd s) (fds s) (broken s) (typed s) (printed s) (errors s).
Definition set_inodes x s := Fsys (dirs s) (modes s) (umask s) x (next_ino s) (cwd s) (fds s) (broken s) (typed s) (printed s) (errors s).
Definition set_next_ino x s := Fsys (dirs s) (modes s) (umask s) (inodes s) x (cwd s) (fds s) (broken s) (typed s) (printed s) (errors s).
Definition set_cwd x s := Fsys (dirs s) (modes s) (umask s) (inodes s) (next_ino s) x (fds s) (broken s) (typed s) (printed s) (errors s).
Definition set_fds x s := Fsys (dirs s) (modes s) (umask s) (inodes s) (next_ino s) (cwd s) x (broken s) (typed s) (printed s) (errors s).
Definition set_broken x s := Fsys (dirs s) (modes s) (umask s) (inodes s) (next_ino s) (cwd s) (fds s) x (typed s) (printed s) (errors s).
Definition set_typed x s := Fsys (dirs s) (modes s) (umask s) (inodes s) (next_ino s) (cwd s) (fds s) (broken s) x (printed s) (errors s).
Definition add_printed x s := Fsys (dirs s) (modes s) (umask s) (inodes s) (next_ino s) (cwd s) (fds s) (broken s) (typed s) (printed s ++ [x]) (errors s).
Definition add_error x s := Fsys (dirs s) (modes s) (umask s) (inodes s) (next_ino s) (cwd s) (fds s) (broken s) (typed s) (printed s) (errors s ++ [x]).

(** ** System calls *)

(** The permissions that the process does not mask. *)
Definition allowed (mode : Z) (s : fsys) : Z := Z.ldiff mode (umask s).

(** A call does [f], or fails without an effect: when it is broken, and when [f] is
    not possible. *)
Definition syscall (f : fsys → option (Z * fsys)) : C fsys Z := λ s,
  let s' := set_broken (tail (broken s)) s in
  match broken s with
  | true :: _ => Ok (-1) s'
  | _ => match f s' with Some (r, s'') => Ok r s'' | None => Ok (-1) s' end
  end.

Definition here (s : fsys) : gmap string entry := default ∅ (dirs s !! cwd s).
Definition in_cwd (s : fsys) (n : string) : list string := cwd s ++ [n].
Definition set_entry (n : string) (e : entry) (s : fsys) : fsys :=
  set_dirs (<[cwd s := <[n := e]> (here s)]> (dirs s)) s.
Definition del_entry (n : string) (s : fsys) : fsys :=
  set_dirs (<[cwd s := delete n (here s)]> (dirs s)) s.

Definition mkdir (n : string) (mode : Z) : C fsys Z := syscall (λ s,
  match here s !! n with
  | Some _ => None
  | None => Some (0, set_modes (<[in_cwd s n := allowed mode s]> (modes s))
                       (set_dirs (<[in_cwd s n := ∅]> (dirs (set_entry n EDir s))) s))
  end).

Definition chmod (n : string) (mode : Z) : C fsys Z := syscall (λ s,
  match here s !! n with
  | Some EDir => Some (0, set_modes (<[in_cwd s n := mode]> (modes s)) s)
  | Some (EFile i) =>
      match inodes s !! i with
      | Some f => Some (0, set_inodes (<[i := Inode (i_nlink f) mode (i_text f)]> (inodes s)) s)
      | None => None
      end
  | _ => None
  end).

Definition chdir (n : string) : C fsys Z := syscall (λ s,
  if String.eqb n ".." then Some (0, set_cwd (take (Nat.pred (length (cwd s))) (cwd s)) s)
  else match here s !! n with Some EDir => Some (0, set_cwd (in_cwd s n) s) | _ => None end).

(** [open(n, O_CREAT | O_TRUNC | O_WRONLY, mode)], of a file or of a name that does
    not exist yet; the file descriptor is the lowest that is free. *)
Definition lowest_fd (m : gmap Z Z) : Z :=
  default 0 (head (filter (λ fd, m !! fd = None) (seqZ 3 (Z.of_nat (S (size m)))))).

Definition open_file (n : string) (mode : Z) : C fsys Z := syscall (λ s,
  let fd := lowest_fd (fds s) in
  match here s !! n with
  | None =>
      let i := next_ino s in
      Some (fd, set_fds (<[fd := i]> (fds s)) (set_next_ino (i + 1)
                  (set_inodes (<[i := Inode 1 (allowed mode s) []]> (inodes s)) (set_entry n (EFile i) s))))
  | Some (EFile i) =>
      match inodes s !! i with
      | Some f => Some (fd, set_fds (<[fd := i]> (fds s))
                              (set_inodes (<[i := Inode (i_nlink f) (i_mode f) []]> (inodes s)) s))
      | None => None
      end
  | _ => None
  end).

Definition write_file (fd : Z) (bytes : list ascii) : C fsys Z := syscall (λ s,
  i ← fds s !! fd;
  f ← inodes s !! i;
  Some (Z.of_nat (length bytes), set_inodes (<[i := Inode (i_nlink f) (i_mode f) (i_text f ++ bytes)]> (inodes s)) s)).

Definition close_file (fd : Z) : C fsys Z := syscall (λ s,
  i ← fds s !! fd; Some (0, set_fds (delete fd (fds s)) s)).

Definition symlink (target n : string) : C fsys Z := syscall (λ s,
  match here s !! n with None => Some (0, set_entry n (ESym target) s) | Some _ => None end).

Definition link (old new : string) : C fsys Z := syscall (λ s,
  match here s !! old, here s !! new with
  | Some (EFile i), None =>
      f ← inodes s !! i;
      Some (0, set_inodes (<[i := Inode (i_nlink f + 1) (i_mode f) (i_text f)]> (inodes s)) (set_entry new (EFile i) s))
  | _, _ => None
  end).

(** The entry goes; the file goes with its last link. *)
Definition unlink_entry (n : string) (s : fsys) : option (Z * fsys) :=
  match here s !! n with
  | Some (EFile i) =>
      f ← inodes s !! i;
      Some (0, set_inodes (if i_nlink f =? 1 then delete i (inodes s)
                           else <[i := Inode (i_nlink f - 1) (i_mode f) (i_text f)]> (inodes s)) (del_entry n s))
  | Some (ESym _) => Some (0, del_entry n s)
  | _ => None
  end.
Definition rmdir_entry (n : string) (s : fsys) : option (Z * fsys) :=
  match here s !! n, dirs s !! in_cwd s n with
  | Some EDir, Some d =>
      if bool_decide (d = ∅)
      then Some (0, set_modes (delete (in_cwd s n) (modes s))
                      (set_dirs (delete (in_cwd s n) (dirs (del_entry n s))) s))
      else None
  | _, _ => None
  end.
Definition unlink (n : string) : C fsys Z := syscall (unlink_entry n).
Definition rmdir (n : string) : C fsys Z := syscall (rmdir_entry n).
Definition remove (n : string) : C fsys Z := syscall (λ s,
  match here s !! n with Some EDir => rmdir_entry n s | _ => unlink_entry n s end).

(** ** Input and output *)
Definition perror (name : option string) : C fsys () := modify (add_error name).
Definition print (text : list ascii) : C fsys () := modify (add_printed text).
Definition getchar : C fsys () := modify (λ s, set_typed (tail (typed s)) s).

(** A call whose failure ends the program. *)
Definition require (call : C fsys Z) (name : option string) (code : Z) : C fsys Z :=
  r ← call;
  if r <? 0 then perror name;; exit code else mret r.

(** ** example-file.c *)
Definition S_IRWXU : Z := 448.
Definition MODE_755 : Z := Z.lor S_IRWXU (Z.lor 32 (Z.lor 8 (Z.lor 4 1))).
Definition MODE_777 : Z := Z.lor S_IRWXU (Z.lor 56 7).
Definition LOVE : list ascii := chars "I love C".

(** The directory, the file and its links. *)
Definition example_make : C fsys () :=
  require (mkdir "foo" S_IRWXU) (Some "mkdir() failure"%string) 1;;
  require (chmod "foo" MODE_755) (Some "chmod() failure"%string) 2;;
  require (chdir "foo") (Some "chdir() failure"%string) 2;;
  fd ← require (open_file "bar" MODE_777) (Some "open() failure"%string) 2;
  write_file fd (LOVE ++ [NEWLINE; NEWLINE]);;
  require (close_file fd) None 2;;
  require (symlink "bar" "symbar") (Some "symlink() failure"%string) 2;;
  require (link "bar" "hardbar") (Some "link() failure"%string) 2;;
  mret ().

(** Everything is taken away again. *)
Definition example_unmake : C fsys () :=
  require (unlink "hardbar") (Some "unlink() failure"%string) 2;;
  require (unlink "symbar") (Some "unlink() failure"%string) 2;;
  require (remove "bar") (Some "remove() failure"%string) 2;;
  require (chdir "..") (Some "chdir() failure"%string) 2;;
  mret ().

Definition example_file : C fsys () :=
  example_make;;
  print (chars "Explore directory ... then [enter] to continue...");;
  getchar;;
  example_unmake;;
  require (symlink "foo" "symfoo") (Some "symlink() failure"%string) 2;;
  print (chars "Explore working directory ... then [enter] to continue...");;
  getchar;;
  require (unlink "symfoo") (Some "unlink() failure"%string) 2;;
  require (rmdir "foo") (Some "rmdir() failure"%string) 2;;
  mret ().

(** ** basicio.c: a failed [assert] aborts the program *)
Definition abort_code : Z := 134.
Definition basicio : C fsys () :=
  fd ← open_file "file.txt" S_IRWXU;
  if fd <? 0 then exit abort_code
  else
    let buffer := LOVE ++ [NEWLINE] in
    rc ← write_file fd buffer;
    if negb (rc =? Z.of_nat (length buffer)) then exit abort_code
    else
      print (chars "wrote " ++ print_d rc ++ chars " bytes");;
      close_file fd;;
      mret ().
