(* ===== verification/FileSystemRefine.v ===== *)
(** * FileSystemRefine: the examples leave the file system as they found it

    Every call of [example_file] succeeds when its names are free, and what it made
    is gone at the end; each failed call ends the program with what was made up to
    there left behind. *)
From Stdlib Require Import Ascii String.
From stdpp Require Import prelude gmap strings.
From S2P Require Import Prelude CMonad CString FileSystem.

(** ** Calls *)

Lemma lowest_fd_free m : m !! lowest_fd m = None ∧ 3 ≤ lowest_fd m.
Proof.
  unfold lowest_fd.
  destruct (filter _ _) as [|fd l] eqn:E; simpl.
  - exfalso. set (all := seqZ 3 (Z.of_nat (S (size m)))) in *.
    assert (list_to_set all ⊆ dom m) as Hsub.
    { intros x Hx%elem_of_list_to_set. apply elem_of_dom.
      destruct (m !! x) eqn:Hm; [by eexists|].
      assert (x ∈ filter (λ fd, m !! fd = None) all) as Hin by by apply list_elem_of_filter.
      rewrite E in Hin. by apply elem_of_nil in Hin. }
    apply subseteq_size in Hsub. rewrite size_dom, size_list_to_set in Hsub by apply NoDup_seqZ.
    unfold all in Hsub. rewrite length_seqZ in Hsub. lia.
  - assert (fd ∈ filter (λ fd, m !! fd = None) (seqZ 3 (Z.of_nat (S (size m))))) as Hin
      by (rewrite E; apply elem_of_cons; by left).
    apply list_elem_of_filter in Hin as [? Hin]. apply elem_of_seqZ in Hin. split; [done|lia].
Qed.

Lemma unbroken s : broken s = [] → set_broken (tail (broken s)) s = s.
Proof. intros Hb. destruct s. simpl in Hb. by subst. Qed.

Lemma syscall_ok f s r s' : broken s = [] → f s = Some (r, s') → syscall f s = Ok r s'.
Proof. intros Hb Hf. unfold syscall. by rewrite unbroken, Hb, Hf. Qed.

Lemma syscall_none f s : broken s = [] → f s = None → syscall f s = Ok (-1) s.
Proof. intros Hb Hf. unfold syscall. by rewrite unbroken, Hb, Hf. Qed.

Lemma require_ok call name code s r s' :
  call s = Ok r s' → 0 ≤ r → require call name code s = Ok r s'.
Proof.
  intros H Hr. apply (run_bind_eq _ _ _ _ _ _ H). by rewrite (proj2 (Z.ltb_ge _ _) Hr).
Qed.

Lemma require_fails call name code s s' :
  call s = Ok (-1) s' → require call name code s = Exit code (add_error name s').
Proof. intros H. apply (run_bind_eq _ _ _ _ _ _ H). done. Qed.

Lemma run_bind_exit {S A B} (m : C S A) (f : A → C S B) s c s' :
  m s = Exit c s' → (m ≫= f) s = Exit c s'.
Proof. intros Hm. unfold mbind, C_bind. by rewrite Hm. Qed.

Lemma require_then {B} call name code (k : Z → C fsys B) s r s' o :
  broken s = [] → call s = Some (r, s') → 0 ≤ r → k r s' = o →
  (require (syscall call) name code ≫= k) s = o.
Proof.
  intros. eapply run_bind_eq; [|done]. apply require_ok; [by apply syscall_ok|done].
Qed.

Lemma require_stops {B} call name code (k : Z → C fsys B) s :
  broken s = [] → call s = None →
  (require (syscall call) name code ≫= k) s = Exit code (add_error name s).
Proof. intros. apply run_bind_exit, require_fails. by apply syscall_none. Qed.

#[local] Arguments Z.ldiff : simpl never.
#[local] Arguments lowest_fd : simpl never.
#[local] Arguments MODE_755 : simpl never.
#[local] Arguments MODE_777 : simpl never.
#[local] Arguments LOVE : simpl never.

(** Computing what a call does to a state given by its parts. *)
Ltac parts := unfold in_cwd, set_entry, del_entry, here, allowed, set_dirs, set_modes, set_inodes, set_next_ino,
    set_cwd, set_fds, set_broken, set_typed, add_printed, add_error;
  cbn [dirs modes umask inodes next_ino cwd fds broken typed printed errors i_nlink i_mode i_text];
  rewrite ?insert_insert_eq.
Ltac looks := repeat first [rewrite lookup_insert_eq; simpl | rewrite lookup_insert_ne by done; simpl
  | rewrite lookup_empty; simpl | rewrite lookup_delete_eq; simpl].
Ltac runs := apply syscall_ok; [done|]; unfold unlink_entry, rmdir_entry; simpl; parts; looks; try done.
Ltac next := eapply run_bind_eq; [apply require_ok; [runs|try done]|]; parts.

(** ** A state by its parts *)
Section example.
Context (D : gmap (list string) (gmap string entry)) (M : gmap (list string) Z) (u : Z).
Context (I : gmap Z inode) (n : Z) (c : list string) (F : gmap Z Z).
Context (inp : list ascii) (out : list (list ascii)) (err : list (option string)).
Context (d : gmap string entry) (Hd : D !! c = Some d).

Notation foo := (c ++ ["foo"%string]).
Notation inside := (<["foo"%string := EDir]> d).

Lemma foo_here : c ≠ foo.
Proof. intros H%(f_equal length). rewrite length_app in H. simpl in H. lia. Qed.

Lemma foo_up : take (Nat.pred (length foo)) foo = c.
Proof. rewrite length_app. simpl. rewrite Nat.add_1_r. apply take_app_length'. done. Qed.

(** Where [foo] was made, with [e] in it. *)
Notation made e := (<[foo := e]> (<[c := inside]> D)).
Notation at_ dirs' modes' inodes' ino cwd' fds' text lines :=
  (Fsys dirs' modes' u inodes' ino cwd' fds' [] text lines err).

Section free_name.
Hypothesis Hfoo : d !! "foo"%string = None.

Lemma run_make :
  example_make (at_ D M I n c F inp out) =
  Ok () (at_ (made (<["hardbar"%string := EFile n]> (<["symbar"%string := ESym "bar"]>
                     (<["bar"%string := EFile n]> ∅))))
           (<[foo := MODE_755]> M)
           (<[n := Inode 2 (Z.ldiff MODE_777 u) (LOVE ++ [NEWLINE; NEWLINE])]> I)
           (n + 1) foo F inp out).
Proof.
  pose proof foo_here as Hne. destruct (lowest_fd_free F) as [Hfd ?].
  unfold example_make.
  next. { rewrite Hd. simpl. by rewrite Hfoo. }
  next. next. next. { lia. }
  eapply run_bind_eq; [runs|]. parts.
  next. next. next.
  by rewrite delete_insert_id.
Qed.

Lemma run_unmake i m text lines :
  I !! n = None → i_nlink i = 2 →
  example_unmake (at_ (made (<["hardbar"%string := EFile n]> (<["symbar"%string := ESym "bar"]>
                              (<["bar"%string := EFile n]> ∅))))
                    m (<[n := i]> I) (n + 1) foo F text lines) =
  Ok () (at_ (made ∅) m I (n + 1) c F text lines).
Proof.
  intros Hn Hi. pose proof foo_here as Hne. destruct i as [nl mode tx]. simpl in Hi. subst nl.
  unfold example_unmake.
  next. rewrite delete_insert_id by done.
  next. rewrite delete_insert_id by done.
  next. rewrite !delete_insert_id by done.
  next.
  by rewrite foo_up.
Qed.

Definition EXPLORE : list (list ascii) :=
  [chars "Explore directory ... then [enter] to continue...";
   chars "Explore working directory ... then [enter] to continue..."].

(** What was made in [foo] is gone after the first [enter]. *)
Lemma run_to_symlink k o :
  I !! n = None →
  k () (at_ (made ∅) (<[foo := MODE_755]> M) I (n + 1) c F (tail inp) (out ++ take 1 EXPLORE)) = o →
  (example_make;; print (chars "Explore directory ... then [enter] to continue...");; getchar;;
   example_unmake ≫= k) (at_ D M I n c F inp out) = (o : outcome fsys ()).
Proof.
  intros Hn Ho. eapply run_bind_eq; [apply run_make|].
  eapply run_bind_eq; [done|]. eapply run_bind_eq; [done|].
  eapply run_bind_eq; [by apply run_unmake|exact Ho].
Qed.

Lemma run_example_file :
  I !! n = None → D !! foo = None → M !! foo = None → d !! "symfoo"%string = None →
  example_file (at_ D M I n c F inp out) = Ok () (at_ D M I (n + 1) c F (tail (tail inp)) (out ++ EXPLORE)).
Proof.
  intros Hn HD HM Hsym. pose proof foo_here as Hne.
  apply run_to_symlink; [done|].
  next. { by rewrite Hsym. }
  eapply run_bind_eq; [done|]. eapply run_bind_eq; [done|].
  next. rewrite delete_insert_id by (by rewrite lookup_insert_ne).
  next.
  rewrite !delete_insert_id by done.
  rewrite (insert_insert_ne _ c), insert_insert_eq, (insert_id D c d Hd), delete_insert_id by done.
  by rewrite <- app_assoc.
Qed.

Lemma run_example_no_symlink x :
  I !! n = None → d !! "symfoo"%string = Some x →
  example_file (at_ D M I n c F inp out) =
  Exit 2 (add_error (Some "symlink() failure"%string)
    (at_ (made ∅) (<[foo := MODE_755]> M) I (n + 1) c F (tail inp) (out ++ take 1 EXPLORE))).
Proof.
  intros Hn Hx. pose proof foo_here as Hne.
  apply run_to_symlink; [done|]. apply require_stops; [done|]. parts. looks. by rewrite Hx.
Qed.
End free_name.

Lemma run_example_no_mkdir x :
  d !! "foo"%string = Some x →
  example_file (at_ D M I n c F inp out) =
  Exit 1 (add_error (Some "mkdir() failure"%string) (at_ D M I n c F inp out)).
Proof.
  intros Hx. apply run_bind_exit, require_stops; [done|]. parts. rewrite Hd. simpl. by rewrite Hx.
Qed.


(** ** basicio *)

(** The descriptor is the lowest free one; a new file takes the next number. *)
Lemma run_basicio_new :
  d !! "file.txt"%string = None →
  basicio (at_ D M I n c F inp out) =
  Ok () (at_ (<[c := <["file.txt"%string := EFile n]> d]> D) M
           (<[n := Inode 1 (Z.ldiff S_IRWXU u) (LOVE ++ [NEWLINE])]> I) (n + 1) c F inp
           (out ++ [chars "wrote 9 bytes"])).
Proof.
  intros Hx. destruct (lowest_fd_free F) as [Hfd Hpos].
  unfold basicio. eapply run_bind_eq.
  { runs. rewrite Hd. simpl. rewrite Hx. done. }
  parts. rewrite (proj2 (Z.ltb_ge _ _)) by lia.
  eapply run_bind_eq; [runs|]. parts.
  eapply run_bind_eq; [done|]. parts.
  eapply run_bind_eq; [runs|]. parts.
  by rewrite delete_insert_id.
Qed.

(** A file that is there keeps its links and its mode; its old text is gone. *)
Lemma run_basicio_old i f :
  d !! "file.txt"%string = Some (EFile i) → I !! i = Some f →
  basicio (at_ D M I n c F inp out) =
  Ok () (at_ D M (<[i := Inode (i_nlink f) (i_mode f) (LOVE ++ [NEWLINE])]> I) n c F inp
           (out ++ [chars "wrote 9 bytes"])).
Proof.
  intros Hx Hf. destruct (lowest_fd_free F) as [Hfd Hpos].
  unfold basicio. eapply run_bind_eq.
  { runs. rewrite Hd. simpl. rewrite Hx, Hf. done. }
  parts. rewrite (proj2 (Z.ltb_ge _ _)) by lia.
  eapply run_bind_eq; [runs|]. parts.
  eapply run_bind_eq; [done|]. parts.
  eapply run_bind_eq; [runs|]. parts.
  by rewrite delete_insert_id.
Qed.
End example.
