(* ===== verification/Processes.v ===== *)
(** * Processes: the examples with [fork], [execlp], [wait] and signals

    [fork-1.c], [fork-2.c] and [fork-signal.c] have a parent and a child, whose calls
    are interleaved by a schedule; their output is that of a terminal, line by line.
    [execute.c], [helloWorld-pid.c] and [memory.c] are one process.  What the
    program [/bin/ls] writes is a parameter. *)
From Stdlib Require Import Ascii String.
From stdpp Require Import prelude list strings.
From S2P Require Import Prelude CMonad CString.

(** What is left for a process to do.  [Count i] is the endless loop of
    [fork-signal.c], where the variable has the value [i]; [Sleep] is
    [while (1) sleep(1)]. *)
Inductive act :=
  | Say (line : list ascii)
  | SayPid (text : list ascii)
  | SayParent (text : list ascii)
  | Exec (writes : option (list (list ascii)))   (* [None]: the call fails *)
  | WaitChild
  | Handle                                       (* [signal(SIGUSR1, signal_handler)] *)
  | Kill
  | Count (i : Z)
  | Sleep.

Inductive ending := Returned | Stopped | Killed | Overflowed.
#[export] Instance ending_eq_dec : EqDecision ending.
Proof. solve_decision. Defined.

Record family := Family {
  parent_acts : list act;
  child_acts : list act;
  child_end : option ending;
  handled : bool;                     (* the child has its handler *)
  pending : bool;                     (* a signal for the child *)
  shown : list (bool * list ascii)    (* [true] for a line of the child *)
}.

Section family.
(** The process numbers: the parent of the parent, the parent, the child, and the
    process that takes over a child whose parent has ended. *)
Context (grandparent parent child reaper : Z).

Definition set_parent x f := Family x (child_acts f) (child_end f) (handled f) (pending f) (shown f).
Definition set_child_acts x f := Family (parent_acts f) x (child_end f) (handled f) (pending f) (shown f).
Definition end_child x f := Family (parent_acts f) [] (Some x) (handled f) false (shown f).
Definition set_handled f := Family (parent_acts f) (child_acts f) (child_end f) true (pending f) (shown f).
Definition set_pending f := Family (parent_acts f) (child_acts f) (child_end f) (handled f) true (shown f).
Definition show who l f := Family (parent_acts f) (child_acts f) (child_end f) (handled f) (pending f) (shown f ++ [(who, l)]).
Definition shows who ls f := foldl (λ f l, show who l f) f ls.

(** The next call of the parent; [WaitChild] waits. *)
Definition parent_step (f : family) : family :=
  match parent_acts f with
  | [] => f
  | a :: rest =>
      let f' := set_parent rest f in
      match a with
      | Say l => show false l f'
      | SayPid t => show false (t ++ print_d parent) f'
      | SayParent t => show false (t ++ print_d grandparent) f'
      | WaitChild => match child_end f with Some _ => f' | None => f end
      | Kill => match child_end f with Some _ => f' | None => set_pending f' end
      | Handle => f'
      | Exec (Some ls) => shows false ls (set_parent [] f)
      | Exec None => f'
      | Count _ | Sleep => f
      end
  end.

(** The next call of the child, which returns after its last one. *)
Definition child_step (f : family) : family :=
  match child_end f with
  | Some _ => f
  | None =>
      match child_acts f with
      | [] => end_child Returned f
      | a :: rest =>
          let f' := set_child_acts rest f in
          match a with
          | Say l => show true l f'
          | SayPid t => show true (t ++ print_d child) f'
          | SayParent t =>
              show true (t ++ print_d (match parent_acts f with [] => reaper | _ => parent end)) f'
          | WaitChild | Kill => f'
          | Handle => set_handled f'
          | Exec (Some ls) => shows true ls (set_child_acts [] f)
          | Exec None => f'
          | Count i =>
              if i =? INT_MAX then end_child Overflowed f
              else show true (print_d (i + 1)) (set_child_acts (Count (i + 1) :: rest) f)
          | Sleep => f
          end
      end
  end.

Definition TIME_TO_STOP : list (list ascii) := [[]; chars "Time to stop."].

(** The signal arrives: the handler writes and exits; without it the child is
    killed. *)
Definition signal_handler (f : family) : family := end_child Stopped (shows true TIME_TO_STOP f).
Definition deliver (f : family) : family :=
  match child_end f with
  | None => if pending f then if handled f then signal_handler f else end_child Killed f else f
  | Some _ => f
  end.

Inductive turn := ParentTurn | ChildTurn | SignalTurn.
Definition fam_step (t : turn) : family → family :=
  match t with ParentTurn => parent_step | ChildTurn => child_step | SignalTurn => deliver end.
Definition fam_run (ts : list turn) (f : family) : family := foldl (λ f t, fam_step t f) f ts.

(** What [fork] gives: a family, or the lines and the value of [main] when it
    fails. *)
Definition fork (works : bool) (p c : list act) : family + (list (list ascii) * Z) :=
  if works then inl (Family p c None false false []) else inr ([chars "Fork failed"], 1).

Definition pids : list act := [SayPid (chars "PID = "); SayParent (chars "parent PID = ")].

Definition fork_1 (works : bool) : family + (list (list ascii) * Z) :=
  fork works ([Say []; Say (chars "Parent process")] ++ pids) ([Say []; Say (chars "Child process")] ++ pids).

Definition fork_2 (works : bool) (ls : option (list (list ascii))) : family + (list (list ascii) * Z) :=
  fork works [Say []; Say (chars "Parent process"); WaitChild; Say (chars "Child complete")]
    [Say (chars "Child process"); Say []; Exec ls].

(** [sleep(1)] before [Kill] orders nothing by itself. *)
Definition fork_signal (works : bool) : family + (list (list ascii) * Z) :=
  fork works [Handle; Say (chars "Parent waiting..."); Kill] [Handle; Count 0].

(** The programs with one process. *)
Definition execute (ls : option (list (list ascii))) : list act := [Exec ls].
Definition hello_world_pid : list act := Say (chars "Hello world") :: pids ++ [Sleep].
Definition memory_main (code heap stack : list ascii) : list act :=
  [Say (chars "location of code = " ++ code); Say (chars "location of heap = " ++ heap);
   Say (chars "location of stack = " ++ stack); Say (chars "value of x = " ++ print_d 3); Sleep].

(** ** Output *)
Definition lines_of (who : bool) (f : family) : list (list ascii) :=
  (filter (λ x, x.1 = who) (shown f)).*2.

Lemma lines_show w who l f : lines_of w (show who l f) = lines_of w f ++ (if bool_decide (who = w) then [l] else []).
Proof.
  unfold lines_of, show. simpl. rewrite filter_app, fmap_app. f_equal. simpl.
  rewrite filter_cons. simpl. rewrite <- decide_bool_decide. by destruct (decide (who = w)).
Qed.

Lemma shows_shown who ls f : shown (shows who ls f) = shown f ++ ((λ l, (who, l)) <$> ls).
Proof.
  unfold shows. revert f. induction ls as [|l ls IH]; intros f; simpl; [by rewrite app_nil_r|].
  rewrite IH. simpl. by rewrite <- app_assoc.
Qed.

Lemma shows_rest who ls f :
  parent_acts (shows who ls f) = parent_acts f ∧ child_acts (shows who ls f) = child_acts f ∧
  child_end (shows who ls f) = child_end f ∧ pending (shows who ls f) = pending f.
Proof.
  unfold shows. revert f. induction ls as [|l ls IH]; intros f; simpl; [done|].
  destruct (IH (show who l f)) as (-> & -> & -> & ->). done.
Qed.

Lemma lines_shows who ls f : lines_of who (shows who ls f) = lines_of who f ++ ls.
Proof.
  unfold shows. revert f. induction ls as [|l ls IH]; intros f; simpl; [by rewrite app_nil_r|].
  rewrite IH, lines_show, bool_decide_true, <- app_assoc by done. done.
Qed.

Lemma lines_shows_other w who ls f : who ≠ w → lines_of w (shows who ls f) = lines_of w f.
Proof.
  intros Hw. unfold shows. revert f. induction ls as [|l ls IH]; intros f; simpl; [done|].
  rewrite IH, lines_show, bool_decide_false, app_nil_r by done. done.
Qed.

(** ** A parent that waits for its child *)

(** What a process has still to write. *)
Fixpoint said (p : list act) : list (list ascii) :=
  match p with
  | [] => []
  | Say l :: p => l :: said p
  | Exec (Some ls) :: _ => ls
  | _ :: p => said p
  end.

(** The calls of [fork-2.c]. *)
Definition plain (child : bool) (a : act) : bool :=
  match a with Say _ => true | WaitChild => negb child | Exec _ => child | _ => false end.

(** The parent has [P] to write in all and the child [K]; the parent ends with a line
    [x] that follows the end of the child. *)
Record waiting (P K : list (list ascii)) (x : list ascii) (f : family) : Prop := {
  waiting_parent : lines_of false f ++ said (parent_acts f) = P;
  waiting_child : lines_of true f ++ said (child_acts f) = K;
  waiting_plain : forallb (plain false) (parent_acts f) ∧ forallb (plain true) (child_acts f);
  waiting_passed : WaitChild ∉ parent_acts f → child_end f ≠ None;
  waiting_over : child_end f ≠ None → child_end f = Some Returned ∧ child_acts f = [];
  waiting_quiet : pending f = false;
  waiting_last : (∃ q, parent_acts f = q ++ [Say x]) ∨ (parent_acts f = [] ∧ last (shown f) = Some (false, x))
}.

Lemma waiting_parent_step P K x f : waiting P K x f → waiting P K x (parent_step f).
Proof.
  intros [HP HK [Hp Hc] Hw Ho Hq Hl]. unfold parent_step.
  destruct (parent_acts f) as [|a p] eqn:Ep; [constructor; rewrite ?Ep; auto|].
  destruct Hl as [[q Hl]|[? _]]; [|done].
  destruct a as [l|t|t|ls| | | |i|]; simpl in Hp; try done.
  - constructor; simpl; auto; rewrite ?lines_show; simpl.
    + by rewrite <- app_assoc.
    + by rewrite app_nil_r.
    + intros Hx. apply Hw. rewrite not_elem_of_cons. by split.
    + destruct q as [|b q]; simplify_eq/=; [right; by rewrite last_snoc|left; by exists q].
  - destruct (child_end f) eqn:Ec; [|constructor; rewrite ?Ep; eauto; by rewrite Ec].
    constructor; simpl; rewrite ?Ec; auto. left.
    destruct q as [|b q]; simplify_eq/=. by exists q.
Qed.

Lemma waiting_child_step P K x f : waiting P K x f → waiting P K x (child_step f).
Proof.
  intros [HP HK [Hp Hc] Hw Ho Hq Hl]. unfold child_step.
  destruct (child_end f) as [e|] eqn:Ec; [constructor; rewrite ?Ec; auto|].
  destruct Hl as [Hl|[Hnil _]]; [|destruct Hw; [rewrite Hnil; apply not_elem_of_nil|done]].
  destruct (child_acts f) as [|a p] eqn:Ep; [constructor; simpl; auto|].
  destruct a as [l|t|t|[ls|]| | | |i|]; simpl in Hc; try done.
  - constructor; simpl; rewrite ?lines_show, ?Ec; simpl; auto; try congruence.
    + by rewrite app_nil_r.
    + by rewrite <- app_assoc.
  - destruct (shows_rest true ls (set_child_acts [] f)) as (Hpa & Hca & Hce & Hpe).
    constructor; rewrite ?Hpa, ?Hca, ?Hce, ?Hpe; simpl; rewrite ?Ec; auto; try congruence.
    + by rewrite lines_shows_other.
    + by rewrite lines_shows, app_nil_r.
  - constructor; simpl; rewrite ?Ec; auto; try congruence.
Qed.

Lemma waiting_run P K x ts f : waiting P K x f → waiting P K x (fam_run ts f).
Proof.
  revert f. unfold fam_run. induction ts as [|t ts IH]; intros f Hf; simpl; [done|]. apply IH.
  destruct t; simpl; auto using waiting_parent_step, waiting_child_step.
  unfold deliver. rewrite (waiting_quiet _ _ _ _ Hf). by destruct (child_end f).
Qed.

(** Once the child has ended, the parent has written all it writes, and its last line
    is the last of all. *)
Lemma waiting_done P K x f :
  waiting P K x f → parent_acts f = [] →
  child_end f = Some Returned ∧ lines_of false f = P ∧ lines_of true f = K ∧ last (shown f) = Some (false, x).
Proof.
  intros [HP HK _ Hw Ho _ Hl] Hnil. rewrite Hnil in *.
  destruct Ho as [Hc Hk]; [apply Hw, not_elem_of_nil|]. rewrite Hk in HK. simpl in *.
  rewrite app_nil_r in *. destruct Hl as [[q Hl]|[_ Hl]]; [by destruct q|]. done.
Qed.

(** It does come to that: the child runs to its end, then the parent. *)
Definition rest_of_child (f : family) : nat := match child_end f with Some _ => 0 | None => S (length (child_acts f)) end.

Lemma child_runs P K x n f :
  waiting P K x f → (rest_of_child f ≤ n)%nat → child_end (fam_run (replicate n ChildTurn) f) ≠ None.
Proof.
  revert f. induction n as [|n IH]; intros f Hf Hn.
  { unfold rest_of_child in Hn. simpl. destruct (child_end f); [done|lia]. }
  change (child_end (fam_run (replicate n ChildTurn) (child_step f)) ≠ None).
  apply IH; [by apply waiting_child_step|].
  unfold child_step, rest_of_child in *. destruct (child_end f) eqn:Ec; [rewrite Ec; lia|].
  destruct (waiting_plain _ _ _ _ Hf) as [_ Hc].
  destruct (child_acts f) as [|a p] eqn:Ep; [simpl; lia|].
  destruct a as [l|t|t|[ls|]| | | |i|]; simpl in Hc, Hn; try done; simpl; rewrite ?Ec; try (simpl; lia).
  destruct (shows_rest true ls (set_child_acts [] f)) as (_ & -> & -> & _). simpl. rewrite Ec. lia.
Qed.

Lemma parent_runs P K x f :
  waiting P K x f → child_end f ≠ None →
  parent_acts (fam_run (replicate (length (parent_acts f)) ParentTurn) f) = [].
Proof.
  remember (length (parent_acts f)) as n eqn:Hn. revert f Hn.
  induction n as [|n IH]; intros f Hn Hf Hc; [by apply nil_length_inv|].
  change (parent_acts (fam_run (replicate n ParentTurn) (parent_step f)) = []).
  destruct (waiting_plain _ _ _ _ Hf) as [Hp _].
  assert (n = length (parent_acts (parent_step f)) ∧ child_end (parent_step f) ≠ None) as [Hn' Hc'].
  { unfold parent_step. destruct (parent_acts f) as [|a p]; [done|].
    destruct a; simpl in Hp, Hn; try done; simpl; [by split; [lia|]|].
    destruct (child_end f) eqn:Ec; [|done]. simpl. rewrite Ec. split; [lia|done]. }
  apply IH; [done|by apply waiting_parent_step|done].
Qed.

Lemma waiting_finishes P K x f :
  waiting P K x f → ∃ ts, parent_acts (fam_run ts f) = [].
Proof.
  intros Hf. set (f' := fam_run (replicate (rest_of_child f) ChildTurn) f).
  assert (waiting P K x f') as Hf' by by apply waiting_run.
  exists (replicate (rest_of_child f) ChildTurn ++ replicate (length (parent_acts f')) ParentTurn).
  unfold fam_run at 1. rewrite foldl_app. apply (parent_runs P K x f'); [done|].
  by eapply child_runs.
Qed.

Definition PARENT_LINES : list (list ascii) := [[]; chars "Parent process"; chars "Child complete"].
Definition CHILD_LINES (ls : option (list (list ascii))) : list (list ascii) :=
  [chars "Child process"; []] ++ default [] ls.

Lemma waiting_start ls f :
  fork_2 true ls = inl f → waiting PARENT_LINES (CHILD_LINES ls) (chars "Child complete") f.
Proof.
  intros [= <-]. constructor; simpl; try done.
  - intros H. exfalso. apply H. apply elem_of_cons; right. apply elem_of_cons; right. apply elem_of_cons; by left.
  - left. by exists [Say []; Say (chars "Parent process"); WaitChild].
Qed.

(** ** [fork-signal.c] *)

(** The child counts up; the signal stops it, or kills it before it has its handler. *)
Definition counted (k : nat) : list (list ascii) := (λ i, print_d (Z.of_nat (S i))) <$> seq 0 k.

Definition signal_at (f : family) : Prop :=
  ∃ k, Z.of_nat k ≤ INT_MAX ∧
  match child_end f with
  | None => (handled f = false ∧ child_acts f = [Handle; Count 0] ∧ k = 0%nat ∨
             handled f = true ∧ child_acts f = [Count (Z.of_nat k)]) ∧ lines_of true f = counted k
  | Some Stopped => handled f = true ∧ lines_of true f = counted k ++ TIME_TO_STOP
  | Some Killed => handled f = false ∧ lines_of true f = []
  | Some Overflowed => Z.of_nat k = INT_MAX ∧ lines_of true f = counted k
  | Some Returned => False
  end.

Lemma counted_S k : counted (S k) = counted k ++ [print_d (Z.of_nat (S k))].
Proof. unfold counted. by rewrite seq_S, fmap_app. Qed.

Lemma signal_child_step f : signal_at f → signal_at (child_step f).
Proof.
  intros (k & Hk & Hf). unfold child_step. destruct (child_end f) eqn:Ec; [exists k; by rewrite Ec|].
  destruct Hf as [[(Hh & Ha & ->)|(Hh & Ha)] Hl]; rewrite Ha.
  - exists 0%nat. simpl. rewrite Ec. split; [done|]. split; [by right|done].
  - destruct (Z.eqb_spec (Z.of_nat k) INT_MAX) as [He|He].
    + exists k. simpl. done.
    + exists (S k). simpl. rewrite Ec. split; [lia|]. rewrite lines_show. simpl. rewrite counted_S. unfold lines_of in *. simpl.
      rewrite Hl. split; [right; split; [done|]|]; repeat f_equal; lia.
Qed.

Lemma signal_deliver f : signal_at f → signal_at (deliver f).
Proof.
  intros (k & Hk & Hf). unfold deliver. destruct (child_end f) eqn:Ec; [exists k; by rewrite Ec|].
  destruct (pending f); [|exists k; by rewrite Ec].
  destruct Hf as [[(Hh & Ha & ->)|(Hh & Ha)] Hl]; rewrite Hh; exists k || exists 0%nat; simpl.
  - done.
  - split; [done|]. split; [by rewrite Hh|]. unfold lines_of in *. simpl.
    rewrite !filter_app, !fmap_app, Hl, <- app_assoc. done.
Qed.

(** The calls of the parent do not touch the child; its signal is on the way when it
    has ended. *)
Definition signalled (f : family) : Prop :=
  parent_acts f ∈ [[Handle; Say (chars "Parent waiting..."); Kill]; [Say (chars "Parent waiting..."); Kill]; [Kill]] ∨
  parent_acts f = [] ∧ (pending f = true ∨ child_end f ≠ None).

Definition signal_inv (f : family) : Prop := signal_at f ∧ signalled f.

Lemma signal_parent_step f : signal_inv f → signal_inv (parent_step f).
Proof.
  intros [(k & Hk & Hf) Hs]. unfold parent_step.
  destruct Hs as [Hs|[Hs Hp]]; [|rewrite Hs; split; [by exists k|by right]].
  repeat (apply elem_of_cons in Hs as [Hs|Hs]); [..|by apply elem_of_nil in Hs]; rewrite Hs.
  - split; [exists k; done|left]. set_solver.
  - split; [exists k; simpl; rewrite lines_show; simpl; by rewrite app_nil_r|left]. set_solver.
  - destruct (child_end f) eqn:Ec.
    + split; [exists k; simpl; by rewrite Ec|right]. split; [done|]. right. simpl. by rewrite Ec.
    + split; [exists k; simpl; by rewrite Ec|right]. split; [done|]. by left.
Qed.

Lemma signalled_child_step f : signalled f → signalled (child_step f).
Proof.
  intros Hs. unfold child_step. destruct (child_end f) eqn:Ec; [done|].
  assert (∀ g, parent_acts g = parent_acts f → pending g = pending f ∨ child_end g ≠ None → signalled g) as Hg.
  { intros g Hp Hq. destruct Hs as [Hs|[Hs [Hs'|Hs']]]; [left; by rewrite Hp| |by rewrite Ec in Hs'].
    right. rewrite Hp. split; [done|]. rewrite <- Hs'. tauto. }
  destruct (child_acts f) as [|a p]; [apply Hg; [done|by right]|].
  destruct a as [| | |[ls|]| | | |i|]; try (apply Hg; [done|by left]).
  - destruct (shows_rest true ls (set_child_acts [] f)) as (Hpa & _ & _ & Hpe).
    apply Hg; rewrite ?Hpa, ?Hpe; [done|by left].
  - destruct (i =? INT_MAX); apply Hg; [done|by right|done|by left].
Qed.

Lemma signalled_deliver f : signalled f → signalled (deliver f).
Proof.
  intros Hs. unfold deliver. destruct (child_end f) eqn:Ec; [done|]. destruct (pending f) eqn:Ep; [|done].
  assert (∀ g, parent_acts g = parent_acts f → child_end g ≠ None → signalled g) as Hg.
  { intros g Hp Hq. destruct Hs as [Hs|[Hs _]]; [left|right]; rewrite Hp; auto. }
  destruct (handled f); by apply Hg.
Qed.

Lemma signal_run ts f : signal_inv f → signal_inv (fam_run ts f).
Proof.
  revert f. unfold fam_run. induction ts as [|t ts IH]; intros f Hf; simpl; [done|]. apply IH.
  destruct t; simpl; [by apply signal_parent_step|..]; destruct Hf;
    split; auto using signal_child_step, signalled_child_step, signal_deliver, signalled_deliver.
Qed.

Lemma signal_start f : fork_signal true = inl f → signal_inv f.
Proof.
  intros [= <-]. split; [|left; set_solver].
  exists 0%nat. split; [done|]. simpl. auto.
Qed.

(** When the parent has ended, the signal ends the child. *)
Lemma signal_ends f : signal_inv f → parent_acts f = [] → child_end (deliver f) ≠ None.
Proof.
  intros [_ Hs] Hp. unfold deliver. destruct Hs as [Hs|[_ Hs]]; [rewrite Hp in Hs; set_solver|].
  destruct (child_end f) eqn:Ec; [by rewrite Ec|]. destruct Hs as [->|]; [|done]. by destruct (handled f).
Qed.
End family.
