(* ===== verification/Labs.v ===== *)
(** * Labs: my-stat.c, badbuf.c and buggy.c

    [my-stat.c] prints what [stat] says of a file; [badbuf.c] reads a name and a
    password; [buggy.c] follows a null pointer. *)
From Stdlib Require Import Ascii String.
From stdpp Require Import prelude strings.
From S2P Require Import Prelude CMonad CString.

(** What the program writes, and what it can still read. *)
Record console := Console { c_out : list ascii; c_err : list ascii; c_in : list ascii }.
Definition put_out (t : list ascii) : C console () := modify (λ s, Console (c_out s ++ t) (c_err s) (c_in s)).
Definition put_err (t : list ascii) : C console () := modify (λ s, Console (c_out s) (c_err s ++ t) (c_in s)).

(** ** my-stat.c *)
Record stat_buf := StatBuf {
  st_ino : Z; st_size : Z; st_blocks : Z; st_nlink : Z; st_uid : Z; st_gid : Z;
  st_atime : Z; st_mtime : Z; st_ctime : Z
}.

(** [%d] prints the low 32 bits of its argument as a signed number (the fields are
    wider, or unsigned). *)
Definition low_int (z : Z) : Z := (z + 2147483648) `mod` 4294967296 - 2147483648.

Definition print_field (before : string) (z : Z) (after : string) : C console () :=
  put_out (chars before ++ print_d (low_int z) ++ chars after ++ [NEWLINE]).

(** [stat] fails for a name that is not there; [buf] then has no value, and is
    printed all the same. *)
Definition stat_main (stat : list ascii → option stat_buf) (argv : list (list ascii)) : C console Z :=
  match argv with
  | _ :: name :: _ =>
      match stat name with
      | None => put_err (chars "stat() error");; ub
      | Some buf =>
          print_field "          Inode number: " (st_ino buf) "";;
          print_field "             File size: " (st_size buf) " bytes";;
          print_field "      Blocks allocated: " (st_blocks buf) " blocks";;
          print_field "Reference (link) count: " (st_nlink buf) "";;
          print_field "               User ID: " (st_uid buf) "";;
          print_field "              Group ID: " (st_gid buf) "";;
          print_field "      Last access time: " (st_atime buf) "";;
          print_field "Last modification time: " (st_mtime buf) "";;
          print_field "    Last status change: " (st_ctime buf) "";;
          mret 0
      end
  | _ => mret 0
  end.

(** ** badbuf.c *)
Fixpoint take_word (s : list ascii) : list ascii * list ascii :=
  match s with
  | [] => ([], [])
  | c :: s' => if is_space c then ([], s) else let '(w, r) := take_word s' in (c :: w, r)
  end.

(** [scanf("%s", buf)] into an array of [size] characters: the word that was stored,
    or [None] when the input has ended; a word with its terminator that does not fit
    is written past the end. *)
Definition scanf_s (size : Z) : C console (option (list ascii)) := λ s,
  match take_word (skip_space (c_in s)) with
  | ([], r) => Ok None (Console (c_out s) (c_err s) r)
  | (w, r) => if Z.of_nat (length w) <? size then Ok (Some w) (Console (c_out s) (c_err s) r) else UB
  end.

Definition BUF_SIZE : Z := 128.
Definition GOOD : list ascii := chars "Welcome to The Machine!" ++ [NEWLINE].
Definition EVIL : list ascii := chars "Invalid identity, exiting!" ++ [NEWLINE].

(** [printf(str)]: the two texts have no conversions. *)
Definition welcome (str : list ascii) : C console () := put_out str.
Definition goodbye (str : list ascii) : C console () := put_out str;; exit 1.

(** [strcmp] of two arrays; one that was not filled has no value. *)
Definition login_main : C console Z :=
  put_out (chars "login: ");;
  name ← scanf_s BUF_SIZE;
  put_out (chars "password: ");;
  pw ← scanf_s BUF_SIZE;
  match name, pw with
  | Some name, Some pw =>
      (if bool_decide (cstr name = cstr pw) then welcome GOOD else goodbye EVIL);; mret 0
  | _, _ => ub
  end.

(** ** buggy.c *)
Definition buggy_main : C console Z :=
  let x := 7 in
  put_out (chars "x= " ++ print_d x ++ [NEWLINE]);;
  match (None : option Z) with
  | Some value => put_out (chars "value = " ++ print_d value ++ [NEWLINE]);; mret 0
  | None => ub
  end.

(** ** Numbers and words *)
Lemma low_int_fits z : low_int z = z ↔ INT_MIN ≤ z ≤ INT_MAX.
Proof.
  unfold low_int. pose proof (Z.mod_pos_bound (z + 2147483648) 4294967296).
  split; [lia|]. intros. rewrite Z.mod_small by lia. lia.
Qed.

(** A word: something, without white space. *)
Definition word (w : list ascii) : Prop := w ≠ [] ∧ Forall (λ c, is_space c = false) w.
Definition white (l : list ascii) : Prop := Forall (λ c, is_space c = true) l.

Lemma take_word_app w c r : Forall (λ c, is_space c = false) w → is_space c = true →
  take_word (w ++ c :: r) = (w, c :: r).
Proof. intros Hw Hc. induction Hw as [|x w Hx _ IH]; simpl; [by rewrite Hc|]. by rewrite Hx, IH. Qed.

Lemma skip_white l w r : white l → word w → skip_space (l ++ w ++ r) = w ++ r.
Proof.
  intros Hl [Hw Hs]. induction Hl as [|c l Hc _ IH]; simpl; [|by rewrite Hc].
  destruct Hs as [|c w Hc _]; [done|]. simpl. by rewrite Hc.
Qed.

Lemma run_scanf_s out err l w c r :
  white l → word w → is_space c = true →
  scanf_s BUF_SIZE (Console out err (l ++ w ++ c :: r)) =
  if Z.of_nat (length w) <? BUF_SIZE then Ok (Some w) (Console out err (c :: r)) else UB.
Proof.
  intros Hl Hw Hc. unfold scanf_s. cbn [c_in c_out c_err].
  rewrite skip_white, take_word_app by (done || apply Hw). destruct Hw as [Hw _]. by destruct w.
Qed.

(** Two words that fit: the login is accepted when they are equal; any other login is
    refused.  A word of 128 characters or more is written past the array. *)
Lemma run_login out err l1 w1 c1 l2 w2 c2 r :
  white l1 → word w1 → is_space c1 = true → white l2 → word w2 → is_space c2 = true →
  login_main (Console out err (l1 ++ w1 ++ c1 :: l2 ++ w2 ++ c2 :: r)) =
  (if (Z.of_nat (length w1) <? BUF_SIZE) && (Z.of_nat (length w2) <? BUF_SIZE) then
     if bool_decide (cstr w1 = cstr w2)
     then Ok 0 (Console (((out ++ chars "login: ") ++ chars "password: ") ++ GOOD) err (c2 :: r))
     else Exit 1 (Console (((out ++ chars "login: ") ++ chars "password: ") ++ EVIL) err (c2 :: r))
   else UB).
Proof.
  intros Hl1 Hw1 Hc1 Hl2 Hw2 Hc2. unfold login_main.
  eapply run_bind_eq; [done|]. cbn [c_in c_out c_err].
  destruct (Z.of_nat (length w1) <? BUF_SIZE) eqn:E1.
  2: { apply run_bind_ub. rewrite run_scanf_s by done. by rewrite E1. }
  eapply run_bind_eq; [rewrite run_scanf_s by done; by rewrite E1|].
  eapply run_bind_eq; [done|]. cbn [c_in c_out c_err].
  assert (white (c1 :: l2)) as Hl by by constructor.
  change (c1 :: l2 ++ w2 ++ c2 :: r) with ((c1 :: l2) ++ w2 ++ c2 :: r).
  destruct (Z.of_nat (length w2) <? BUF_SIZE) eqn:E2.
  2: { apply run_bind_ub. rewrite run_scanf_s by done. by rewrite E2. }
  eapply run_bind_eq; [rewrite run_scanf_s by done; by rewrite E2|]. simpl.
  by case_bool_decide.
Qed.
