(* ===== verification/TextProps.v ===== *)
(** * TextProps: the correctness of the string functions of the course

    What [tokenizer] builds and [str_array_free] gives back, and the comparison. *)
From Stdlib Require Import Ascii String.
From stdpp Require Import prelude functions gmap list strings.
From S2P Require Import Prelude CMonad CString.
From S2P Require Import StringHelpers StringHelpersRefine TokenizerRefine.

(** ** Words *)

Lemma add_tokens_lookup f ts m i t :
  ts !! i = Some t → add_tokens f ts m !! (f + Z.of_nat i) = Some (token_cells t).
Proof.
  revert f m i. induction ts as [|t' ts IH]; intros f m i Hi; [done|].
  destruct i as [|i]; simpl in Hi; simpl add_tokens.
  - simplify_eq. rewrite Z.add_0_r, add_tokens_old by lia. apply lookup_insert_eq.
  - replace (f + Z.of_nat (S i)) with (f + 1 + Z.of_nat i) by lia. by apply IH.
Qed.

(** The table has an entry for every word, and NULL. *)
Definition words_at (s : mem) (a : Z) (ws : list (list ascii)) : Prop :=
  ∃ ps, tables s !! a = Some (((λ p, Some (Some p)) <$> ps) ++ [Some None]) ∧
    Forall2 (λ p w, holds s p (w ++ [NUL])) ps ws.

Lemma tokenized_words s b str after :
  str ≠ [] → last str ≠ Some SPACE → words_at (tokenized s b str after) (fresh_block s) (fields str).
Proof.
  intros Hne Hl. set (f := fresh_block s + 1).
  pose proof (cut_length [] str Hne) as Hlen. rewrite bool_decide_false in Hlen by done.
  pose proof (cut_fields [] str Hne (not_elem_of_nil _) Hl) as Hcut. simpl in Hcut. rewrite <- Hcut. clear Hcut.
  exists (seqZ f (Z.of_nat (length (cut [] str)))). split.
  - unfold tokenized. cbn [tables]. rewrite lookup_insert_eq. f_equal. fold f.
    unfold table_cells. replace (S (S (blanks str)) - length (cut [] str))%nat with 1%nat by lia.
    rewrite insert_app_r_alt by (rewrite length_fmap, length_seqZ; lia).
    rewrite length_fmap, length_seqZ. by replace (S (blanks str) - _)%nat with 0%nat by lia.
  - apply Forall2_same_length_lookup_2; [rewrite length_seqZ; lia|].
    intros i p w Hp Hw. apply lookup_seqZ in Hp as [-> _]. unfold holds, tokenized. cbn [texts].
    by apply add_tokens_lookup.
Qed.

(** C32: [tokenizer] cuts a line at its blanks.  When the line is
    terminated twice it returns a table of the words, each in a block of its own, with
    NULL at the end, and [str_array_free] gives all of that memory back; the terminator
    of the line has become a blank.  When nothing is behind the terminator it reads
    past the end of the line; and when the line ends in a blank the table has a cell
    without a value, so that [str_array_free] is undefined. *)
Theorem tokenizer_words s b str after fuel :
  holds s b (str ++ NUL :: after) → NUL ∉ str → str ≠ [] → mallocs s = [] →
  (∀ k, fresh_block s ≤ k → texts s !! k = None ∧ tables s !! k = None) →
  Z.of_nat (length str) + 3 ≤ INT_MAX → (length str + 2 ≤ fuel)%nat →
  (after = [] → tokenizer fuel (b, 0) s = UB) ∧
  (∀ rest, after = NUL :: rest →
   ∃ a s', tokenizer fuel (b, 0) s = Ok (Some a) s' ∧
     (last str = Some SPACE → str_array_free fuel (Some a) s' = UB) ∧
     (last str ≠ Some SPACE →
      words_at s' a (fields str) ∧
      ∃ s'', str_array_free fuel (Some a) s' = Ok () s'' ∧
        texts s'' = <[b := Some <$> str ++ SPACE :: after]> (texts s) ∧ tables s'' = tables s)).
Proof.
  intros Hb Hstr Hne Hm Hfresh Hmax Hfuel. split.
  - intros ->. by eapply tokenizer_overread.
  - intros rest ->. eexists _, _. split; [by eapply tokenizer_done|].
    rewrite free_tokenized by done. split; intros Hl.
    + by rewrite bool_decide_true.
    + rewrite bool_decide_false by done. split; [by apply tokenized_words|]. by eexists.
Qed.

(** The line [ls -l], terminated twice, in the only block. *)
Definition a_line : mem := Mem {[1 := Some <$> chars "ls -l" ++ [NUL; NUL]]} ∅ 2 [].

Lemma a_line_fresh k : 2 ≤ k → texts a_line !! k = None ∧ tables a_line !! k = None.
Proof. intros Hk. split; [|done]. unfold a_line. cbn [texts]. rewrite lookup_singleton_ne by lia. done. Qed.

Lemma tokenizer_words_witness :
  ∃ a s', tokenizer 7 (1, 0) a_line = Ok (Some a) s' ∧ words_at s' a [chars "ls"; chars "-l"] ∧
    ∃ s'', str_array_free 7 (Some a) s' = Ok () s'' ∧ tables s'' = ∅.
Proof.
  destruct (tokenizer_words a_line 1 (chars "ls -l") [NUL] 7) as [_ H];
    [vm_compute; reflexivity|by apply (bool_decide_unpack _); vm_compute|done|done|apply a_line_fresh|vm_compute; congruence|vm_compute; lia|].
  destruct (H [] eq_refl) as (a & s' & Ht & _ & Hw).
  destruct Hw as (Hw & s'' & Hf & _ & Htab); [by vm_compute|].
  exists a, s'. split; [exact Ht|]. split; [exact Hw|]. exists s''. split; [exact Hf|exact Htab].
Defined.

(** ** Comparing *)

(** [m_strcmp] returns zero for equal texts, and only for them. *)
Theorem compare_decides s a b s1 s2 t1 t2 fuel :
  holds s a (s1 ++ NUL :: t1) → holds s b (s2 ++ NUL :: t2) → NUL ∉ s1 → NUL ∉ s2 → (length s1 < fuel)%nat →
  wp (m_strcmp fuel (a, 0) (b, 0)) (λ r s', (r = 0 ↔ s1 = s2) ∧ s' = s) s.
Proof.
  intros Ha Hb H1 H2 Hf. eapply wp_mono; [by eapply wp_m_strcmp|].
  intros r s' [-> ->]. split; [by apply compare_text_eq|done].
Qed.
