(* ===== verification/LabThreadsProps.v ===== *)
(** * LabThreadsProps: the correctness of the programs with threads of the course

    Counting with and without a mutex, and what the programs with semaphores print. *)
From Stdlib Require Import Ascii String.
From stdpp Require Import prelude functions list strings.
From S2P Require Import Prelude CMonad CString Threads LabThreads LabThreadsRefine.

(** ** Counting *)
Definition two_runners (n : nat) : lconfig := start [runner n; runner n].

Lemma two_runners_inv n : inv (two_runners n).
Proof. apply inv_start. repeat constructor; apply runner_disciplined. Qed.

(** C33: two threads add one [n] times each.  Under the mutex
    ([no-race-mutex.c]) every run can be brought to an end, and ends with the count
    [2 n], so that the program reports success.  Without it ([thread2.c]) a run ends
    with [2 n] at most; [2 n] happens, but so does [2], whatever [n] is, which the
    program reports as an error. *)
Theorem lab_counting n :
  (2 ≤ n)%nat → 2 * Z.of_nat n ≤ INT_MAX →
  (∀ sched c, run sched (two_runners n) = Some c →
     (∃ sched' c', run sched' c = Some c' ∧ all_ended c') ∧
     (all_ended c → value c count = 2 * Z.of_nat n ∧ norace_report n (value c count) = CountOk (2 * Z.of_nat n))) ∧
  (∀ sched c, run sched (two_workers (Z.of_nat n)) = Some c → value c count ≤ 2 * Z.of_nat n) ∧
  (∃ sched c, run sched (two_workers (Z.of_nat n)) = Some c ∧ all_ended c ∧
     thread2_report (Z.of_nat n) (value c count) = CountOk (2 * Z.of_nat n)) ∧
  (∃ sched c, run sched (two_workers (Z.of_nat n)) = Some c ∧ all_ended c ∧
     thread2_report (Z.of_nat n) (value c count) = CountError 2 (2 * Z.of_nat n)).
Proof.
  intros Hn _. split; [|split; [|split]].
  - intros sched c Hrun. pose proof (inv_run _ _ _ (two_runners_inv n) Hrun) as Hinv. split.
    + destruct (run_to_end c Hinv) as (sched' & c' & Hr & He & _). by exists sched', c'.
    + intros He. assert (value c count = 2 * Z.of_nat n) as Hv.
      { rewrite (proj1 (ended_values c Hinv He)), (run_programs _ _ _ Hrun).
        change (program <$> threads (two_runners n)) with [runner n; runner n].
        cbn [foldr]. rewrite !delta_runner. lia. }
      split; [done|]. unfold norace_report. rewrite Hv, (proj2 (Z.ltb_ge _ _)) by lia. done.
  - intros sched c. apply two_workers_bound. lia.
  - destruct (workers_in_turn (Z.of_nat n)) as (sched & c & Hr & He & Hv); [lia|].
    exists sched, c. split; [done|]. split; [done|]. unfold thread2_report. rewrite Hv, Z.mul_comm, Z.eqb_refl. done.
  - destruct (workers_lose (Z.of_nat n)) as (sched & c & Hr & He & Hv); [lia|].
    exists sched, c. split; [done|]. split; [done|]. unfold thread2_report.
    rewrite Hv, (proj2 (Z.eqb_neq _ _)) by lia. cbn [negb]. by rewrite Z.mul_comm.
Qed.

Lemma lab_counting_witness :
  ∃ sched c, run sched (two_workers 3) = Some c ∧ all_ended c ∧
    thread2_report 3 (value c count) = CountError 2 6.
Proof. exact (proj2 (proj2 (proj2 (lab_counting 3 ltac:(lia) ltac:(lia))))). Defined.

(** ** Semaphores *)

(** Until both threads exist the producer waits: only [main] takes a step. *)
Lemma pc_begin_run loopcnt sched c :
  sem_run sched (pc_begin loopcnt) = Some c →
  (shown c = [] ∧ sem_ended c = false ∧ ∃ c', sem_step 0 c = Some c') ∨
  ∃ sched', sched = 0%nat :: 0%nat :: sched' ∧ sem_run sched' (pc_start loopcnt) = Some c.
Proof.
  intros Hr. destruct sched as [|i sched]; [injection Hr as <-; left; by eauto|].
  destruct i as [|[|[|i]]]; [|done..].
  destruct sched as [|j sched]; [injection Hr as <-; left; by eauto|].
  destruct j as [|[|[|j]]]; [|destruct loopcnt; done|done..]. right. by eauto.
Qed.

(** C40: in [producer-consumer.c], wherever the threads are: the numbers printed so far are
    [0], [1], [2] and so on, some thread can go on unless all have ended, every step
    brings the end closer, and at the end the numbers below [loopcnt] have been
    printed, in order. *)
Theorem lab_turns loopcnt sched c :
  sem_run sched (pc_begin loopcnt) = Some c →
  (∃ m, shown c = numbers m ∧ (m ≤ loopcnt)%nat) ∧
  (sem_ended c = true ∨ ∃ i c', sem_step i c = Some c') ∧
  (sem_ended c = true → shown c = numbers loopcnt) ∧
  calls_left (pc_begin loopcnt) = (length sched + calls_left c)%nat.
Proof.
  intros Hb. rewrite (sem_run_left _ _ _ Hb). destruct (pc_begin_run _ _ _ Hb) as [(Hs & He & Hc)|(sched' & -> & Hr)].
  { split; [exists 0%nat; split; [done|lia]|]. rewrite He. split; [by eauto|done]. }
  destruct (pc_at_run _ _ _ _ _ (pc_at_start loopcnt) Hr) as (m & j & Hat & Hmj).
  split; [|split; [|split]]; [| | |done].
  - destruct (pc_at_shown _ _ _ Hat) as (m' & Hs & Hm). exists m'. split; [done|lia].
  - by eapply pc_progress.
  - intros He. destruct (pc_at_end _ _ _ Hat He) as (-> & _ & Hs). by replace loopcnt with m by lia.
Qed.

(** The consumer is created first. *)
Definition turns : list nat := [0; 0; 2; 2; 2; 1; 1; 1; 2; 2; 2; 1; 1; 1; 0; 0]%nat.

Lemma turns_end : ∃ c, sem_run turns (pc_begin 2) = Some c ∧ sem_ended c = true ∧ shown c = [chars "0"; chars "1"].
Proof. vm_compute. by eexists. Qed.

Lemma lab_turns_witness :
  ∃ c, sem_run turns (pc_begin 2) = Some c ∧ shown c = numbers 2 ∧ numbers 2 = [chars "0"; chars "1"] ∧
    calls_left (pc_begin 2) = (16 + calls_left c)%nat.
Proof.
  destruct turns_end as (c & Hr & He & _). exists c. split; [exact Hr|].
  destruct (lab_turns 2 turns c Hr) as (_ & _ & H3 & H4).
  split; [exact (H3 He)|]. split; [reflexivity|exact H4].
Defined.

(** In [semaphores.c] neither thread passes the barrier before both have come to it,
    and [main] reports after all; no schedule blocks. *)
Definition in_order (c : sstate ab_sem) : bool :=
  let at_line l := bool_decide (l ∈ shown c) in
  (negb (at_line after1 || at_line after2) || (at_line before1 && at_line before2)) &&
  (negb (at_line all_done) || (at_line after1 && at_line after2)).

Lemma barrier_explored : explore 13 in_order barrier_start = true.
Proof. vm_compute. reflexivity. Qed.

Theorem lab_barrier sched c :
  sem_run sched barrier_start = Some c →
  in_order c = true ∧ (sem_ended c = true ∨ ∃ i c', sem_step i c = Some c').
Proof.
  intros Hr. apply (explore_sound 13 in_order barrier_start sched c barrier_explored Hr).
  pose proof (sem_run_left _ _ _ Hr) as Hl. change (calls_left barrier_start) with 13%nat in Hl. lia.
Qed.
