(* ===== verification/NetworkProps.v ===== *)
(** * NetworkProps: the clients and the servers of the course, together

    What one program sends is what the other reads. *)
From Stdlib Require Import Ascii String.
From stdpp Require Import prelude list strings.
From S2P Require Import Prelude CMonad CString Messages Sockets SocketsRefine.

(** A program at its start: what it will read from the connection and what is typed. *)
Definition begin (arrives : list read_event) (stdin : list ascii) : peer :=
  Peer (Conn arrives [] []) [] [] true stdin [] [].

(** ** TCP1 *)

(** The client asks for a line and sends it; the server prints it and answers; the
    client prints the answer.  Each reads what the other has sent. *)
Theorem tcp1_exchange line input cname host cport crest sname sport srest :
  NEWLINE ∉ line → NUL ∉ line → (length line < 254)%nat →
  INT_MIN ≤ atoi_Z cport ≤ INT_MAX → INT_MIN ≤ atoi_Z sport ≤ INT_MAX →
  ∃ sc ss,
    tcp1_client all_work (cname :: host :: cport :: crest) (begin [Chunk (sent (p_conn ss))] (line ++ NEWLINE :: input)) = Ok () sc ∧
    tcp1_server all_work (sname :: sport :: srest) (begin [Chunk (sent (p_conn sc))] []) = Ok () ss ∧
    p_stdout ss = chars "Here is the message: " ++ line ++ [NEWLINE; NEWLINE] ∧
    p_stdout sc = PROMPT ++ ACK ++ [NEWLINE].
Proof.
  intros Hnl Hnul Hlen Hc Hs.
  assert (NUL ∉ line ++ [NEWLINE]) as Hmsg by (rewrite elem_of_app, list_elem_of_singleton; by intros [?|?]).
  destruct (proj1 (wp_run _ _ _) (tcp1_serves (begin [Chunk (line ++ [NEWLINE])] []) sname sport srest
    (line ++ [NEWLINE]) [] Hs eq_refl eq_refl Hmsg ltac:(rewrite length_app; simpl; lia))) as ([] & ss & Hss & Hout & Hsent).
  destruct (proj1 (wp_run _ _ _) (tcp1_asks (begin [Chunk ACK] (line ++ NEWLINE :: input)) cname host cport crest line input
    ACK [] Hc eq_refl Hnl Hnul Hlen eq_refl eq_refl ltac:(by apply (bool_decide_unpack _); vm_compute) ltac:(vm_compute; lia)))
    as ([] & sc & Hsc & Hcout & Hcsent).
  simpl in Hsent, Hcsent, Hout, Hcout. exists sc, ss. rewrite Hsent, Hcsent.
  split; [done|]. split; [done|]. split; [|done]. by rewrite Hout, <- app_assoc.
Qed.

(** ** TCP2 *)

(** A message is printed, and the array keeps it. *)
Lemma tcp2_one l rs fuel msg (Q : list (option ascii) → peer → Prop) (s : peer) :
  reads (p_conn s) = Chunk (l ++ [NUL]) :: rs → NUL ∉ l → (length l < length msg)%nat →
  (∀ s', reads (p_conn s') = rs → p_stdout s' = p_stdout s ++ l →
     wp (tcp2_receive fuel ((Some <$> l ++ [NUL]) ++ drop (S (length l)) msg)) Q s') →
  wp (tcp2_receive (S fuel) msg) Q s.
Proof.
  intros Hr Hl Hlen HQ. unfold tcp2_receive. cbn [iter]. apply wp_bind, wp_bind.
  eapply wp_recv; [exact Hr|rewrite length_app; simpl; lia|].
  rewrite length_app, Nat.add_1_r, (proj2 (Z.eqb_neq _ _)) by lia. rewrite text_of_message by done.
  apply wp_bind, wp_say, wp_ret. by apply HQ.
Qed.

Lemma length_concat_pos {A} (ls : list (list A)) :
  Forall (λ l, (0 < length l)%nat) ls → (length ls ≤ length (concat ls))%nat.
Proof. induction 1; simpl; rewrite ?length_app; lia. Qed.

(** C34: the client cuts what is typed into pieces of at most 24 characters and sends each
    with its terminator.  When every [recv] of the server gives one of these messages,
    the server prints exactly what was typed.  When a [recv] gives two messages at once
    the second is lost; and when it fails the last message is printed again. *)
Theorem tcp2_stream typed name host port fuel :
  INT_MIN ≤ atoi_Z port ≤ INT_MAX → NUL ∉ typed → (length typed < fuel)%nat →
  (∃ sc ms, tcp2_client all_work fuel [name; host; port] (begin [] typed) = Ok () sc ∧
     sent (p_conn sc) = concat ms ∧ Forall (λ m, (length m ≤ 25)%nat) ms ∧
     wp (tcp2_receive fuel (replicate 25 None)) (λ _ ss, p_stdout ss = typed) (begin (Chunk <$> ms) [])) ∧
  (∀ l1 l2, NUL ∉ l1 → (length l1 + length l2 + 2 ≤ 25)%nat → (2 ≤ fuel)%nat →
     wp (tcp2_receive fuel (replicate 25 None)) (λ _ ss, p_stdout ss = l1)
       (begin [Chunk ((l1 ++ [NUL]) ++ l2 ++ [NUL])] [])) ∧
  (∀ l, NUL ∉ l → (length l ≤ 24)%nat → (3 ≤ fuel)%nat →
     wp (tcp2_receive fuel (replicate 25 None)) (λ _ ss, p_stdout ss = l ++ l)
       (begin [Chunk (l ++ [NUL]); ReadErr] [])).
Proof.
  intros Hp Hnul Hf.
  destruct (pieces_concat fuel typed ltac:(lia)) as [Hcat Hlen]. split; [|split].
  - destruct (proj1 (wp_run _ _ _) (tcp2_sends (begin [] typed) name host port fuel Hp eq_refl Hnul Hf))
      as ([] & sc & Hsc & Hsent).
    exists sc, (framed (pieces fuel typed)). split; [done|]. split; [done|]. split.
    + apply Forall_fmap. eapply Forall_impl; [exact Hlen|]. intros l [? ?]. simpl. rewrite length_app. simpl. lia.
    + eapply wp_mono; [eapply (tcp2_prints (pieces fuel typed)); [done| | |done]|].
      * apply Forall_forall. intros l Hl. rewrite Forall_forall in Hlen. split; [|by apply Hlen].
        intros Hin. apply Hnul. rewrite <- Hcat. apply list_elem_of_In, in_concat. exists l. by rewrite <- !list_elem_of_In.
      * assert (length (pieces fuel typed) ≤ length typed)%nat; [|lia].
        rewrite <- Hcat at 2. apply length_concat_pos. eapply Forall_impl; [exact Hlen|]. by intros x [? _].
      * intros msg ss [-> _]. by rewrite Hcat.
  - intros l1 l2 H1 H2 Hfuel. eapply wp_mono; [eapply (tcp2_swallows l1 l2); [|done..]|by intros ? ss ->].
    simpl. by rewrite <- app_assoc.
  - intros l Hl Hlen' Hfuel. destruct fuel as [|fuel]; [lia|].
    eapply tcp2_one; [done|done|simpl; lia|]. intros s' Hr Ho.
    eapply wp_mono; [apply (tcp2_repeats l fuel _ s' Hr Hl); lia|]. intros ? ss ->. by rewrite Ho.
Qed.

Lemma tcp2_stream_witness :
  ∃ sc ms, tcp2_client all_work 40 [chars "client"; chars "localhost"; chars "5000"] (begin [] (chars "hello, this is a long line of text")) = Ok () sc ∧
    sent (p_conn sc) = concat ms ∧
    wp (tcp2_receive 40 (replicate 25 None)) (λ _ ss, p_stdout ss = chars "hello, this is a long line of text") (begin (Chunk <$> ms) []).
Proof.
  destruct (proj1 (tcp2_stream (chars "hello, this is a long line of text") (chars "client") (chars "localhost") (chars "5000") 40
    ltac:(vm_compute; split; congruence) ltac:(by apply (bool_decide_unpack _); vm_compute) ltac:(vm_compute; lia)))
    as (sc & ms & Hc & Hs & _ & Hr).
  exists sc, ms. split; [exact Hc|]. split; [exact Hs|exact Hr].
Defined.

(** ** UDP *)

(** The client sends its line as a datagram; the server prints it and answers; the
    client prints the answer. *)
Theorem udp_exchange line input cname host cport sname sport srest fuel :
  NEWLINE ∉ line → NUL ∉ line → (length line < 254)%nat → (1 < fuel)%nat →
  INT_MIN ≤ atoi_Z cport ≤ INT_MAX → INT_MIN ≤ atoi_Z sport ≤ INT_MAX →
  ∃ sc ss,
    udp_client all_work [cname; host; cport]
      (Peer (Conn [] [] []) (Datagram <$> p_sent ss) [] true (line ++ NEWLINE :: input) [] []) = Ok () sc ∧
    udp_server all_work fuel (sname :: sport :: srest)
      (Peer (Conn [] [] []) ((Datagram <$> p_sent sc) ++ [RecvErr]) [] true [] [] []) = Exit 0 ss ∧
    p_stdout ss = chars "Received a datagram: " ++ line ++ [NEWLINE] ∧
    p_stdout sc = PROMPT ++ chars "Got an ack: " ++ UDP_ACK.
Proof.
  intros Hnl Hnul Hlen Hf Hc Hs.
  pose proof (udp_serves [line ++ [NEWLINE]] sname sport srest
    (Peer (Conn [] [] []) [Datagram (line ++ [NEWLINE]); RecvErr] [] true [] [] []) Hs eq_refl eq_refl fuel Hf) as Hx.
  unfold exits in Hx. destruct (udp_server all_work fuel _ _) as [|code ss| |] eqn:Hss; [done| |done|done].
  destruct Hx as (-> & Hsent & Hout).
  destruct (proj1 (wp_run _ _ _) (udp_asks
    (Peer (Conn [] [] []) [Datagram UDP_ACK] [] true (line ++ NEWLINE :: input) [] []) cname host cport line input
    UDP_ACK [] Hc eq_refl Hnl Hnul Hlen eq_refl eq_refl ltac:(vm_compute; lia))) as ([] & sc & Hsc & Hcsent & Hcout).
  simpl in Hsent, Hcsent, Hout, Hcout. exists sc, ss. rewrite Hsent, Hcsent. split; [done|]. split; [done|].
  split; [|done]. rewrite Hout, app_nil_r. do 2 f_equal. by rewrite take_ge by (rewrite length_app; simpl; lia).
Qed.

