(* ===== verification/SystemProps.v ===== *)
(** * SystemProps: the correctness of the programs with files, processes and logins *)
From Stdlib Require Import Ascii String.
From stdpp Require Import prelude gmap list strings.
From S2P Require Import Prelude CMonad CString.
From S2P Require Import Processes Labs.
From S2P Require Import FileSystem FileSystemRefine.

(** ** Files *)

(** A state in which calls work, with a directory [d] as the working directory and
    without traces of a directory or a file that is still to be made. *)
Record ready (s : fsys) (d : gmap string entry) : Prop := {
  ready_works : broken s = [];
  ready_here : dirs s !! cwd s = Some d;
  ready_fresh : inodes s !! next_ino s = None;
  ready_free : d !! "foo"%string = None →
    dirs s !! (cwd s ++ ["foo"%string]) = None ∧ modes s !! (cwd s ++ ["foo"%string]) = None
}.

(** What the user can look at: the directories with their modes, the files, the
    working directory and the open files. *)
Definition same_files (s s' : fsys) : Prop :=
  dirs s' = dirs s ∧ modes s' = modes s ∧ inodes s' = inodes s ∧ cwd s' = cwd s ∧ fds s' = fds s.

(** C35: [example-file.c] makes the directory [foo] with a file, a symbolic and a hard
    link, and removes everything again: when [foo] and [symfoo] are free names it
    prints its two lines, and directories, modes, files, working directory and open
    files are what they were.  When [foo] exists it exits with 1 and changes nothing.
    When [symfoo] exists it exits with 2, and leaves an empty directory [foo]
    behind. *)
Theorem example_file_restores s d :
  ready s d →
  (d !! "foo"%string = None → d !! "symfoo"%string = None →
   ∃ s', example_file s = Ok () s' ∧ same_files s s' ∧ printed s' = printed s ++ EXPLORE ∧ errors s' = errors s) ∧
  (d !! "foo"%string ≠ None →
   ∃ s', example_file s = Exit 1 s' ∧ same_files s s' ∧ errors s' = errors s ++ [Some "mkdir() failure"%string]) ∧
  (d !! "foo"%string = None → d !! "symfoo"%string ≠ None →
   ∃ s', example_file s = Exit 2 s' ∧ errors s' = errors s ++ [Some "symlink() failure"%string] ∧
     cwd s' = cwd s ∧ inodes s' = inodes s ∧
     dirs s' !! cwd s = Some (<["foo"%string := EDir]> d) ∧ dirs s' !! (cwd s ++ ["foo"%string]) = Some ∅).
Proof.
  intros [Hb Hh Hf Hn]. destruct s as [D M u I n c F br inp out err]. simpl in *. subst br.
  split; [|split].
  - intros Hfoo Hsym. destruct (Hn Hfoo) as [HD HM].
    eexists. split; [by eapply run_example_file|]. done.
  - intros [x Hx]%not_eq_None_Some. eexists. split; [by eapply run_example_no_mkdir|]. done.
  - intros Hfoo [x Hx]%not_eq_None_Some. eexists. split; [by eapply run_example_no_symlink|].
    repeat split; simpl; [|apply lookup_insert_eq].
    rewrite lookup_insert_ne by (apply not_eq_sym, foo_here). apply lookup_insert_eq.
Qed.

(** A working directory with one file in it. *)
Definition a_disk : fsys :=
  Fsys {[ ["home"%string] := {[ "notes"%string := EFile 1 ]} ]} {[ ["home"%string] := 493 ]} 18
    {[ 1 := Inode 1 420 (chars "text") ]} 2 ["home"%string] ∅ [] [NEWLINE; NEWLINE] [] [].

Lemma a_disk_ready : ready a_disk {[ "notes"%string := EFile 1 ]}.
Proof. by split. Qed.

Lemma example_file_restores_witness :
  ∃ s', example_file a_disk = Ok () s' ∧ same_files a_disk s' ∧ printed s' = EXPLORE.
Proof.
  destruct (proj1 (example_file_restores a_disk _ a_disk_ready) eq_refl eq_refl) as (s' & Hr & Hs & Hp & _).
  exists s'. split; [exact Hr|]. split; [exact Hs|exact Hp].
Defined.

(** [basicio.c] leaves its line in [file.txt], whether the file was there or not, and
    closes it. *)
Theorem basicio_writes s d :
  ready s d →
  d !! "file.txt"%string = None ∨ (∃ i f, d !! "file.txt"%string = Some (EFile i) ∧ inodes s !! i = Some f) →
  ∃ s' i f, basicio s = Ok () s' ∧ dirs s' !! cwd s ≫= lookup "file.txt"%string = Some (EFile i) ∧
    inodes s' !! i = Some f ∧ i_text f = LOVE ++ [NEWLINE] ∧ fds s' = fds s ∧
    printed s' = printed s ++ [chars "wrote 9 bytes"].
Proof.
  intros [Hb Hh Hf Hn] Hfile. destruct s as [D M u I n c F br inp out err]. simpl in *. subst br.
  destruct Hfile as [Hfile|(i & f & Hi & Hfi)].
  - eexists _, n, _. split; [by eapply run_basicio_new|]. simpl. rewrite lookup_insert_eq. simpl.
    split; [apply lookup_insert_eq|]. split; [apply lookup_insert_eq|]. done.
  - eexists _, i, _. split; [by eapply run_basicio_old|]. simpl. rewrite Hh. simpl.
    split; [done|]. split; [apply lookup_insert_eq|]. done.
Qed.

(** ** Processes *)

(** [fork-2.c]: whatever the order of the two processes, the parent can end, and
    when it has, both have written all their lines, and [Child complete] is the last
    line of all. *)
Theorem fork_waits gp p ch rp ls f ts :
  fork_2 true ls = inl f →
  let f' := fam_run gp p ch rp ts f in
  (∃ ts', parent_acts (fam_run gp p ch rp ts' f') = []) ∧
  (parent_acts f' = [] →
   lines_of false f' = PARENT_LINES ∧ lines_of true f' = CHILD_LINES ls ∧
   last (shown f') = Some (false, chars "Child complete")).
Proof.
  intros Hf f'. assert (waiting PARENT_LINES (CHILD_LINES ls) (chars "Child complete") f') as Hw
    by by apply waiting_run, waiting_start.
  split; [by eapply waiting_finishes|]. intros Hp.
  by destruct (waiting_done _ _ _ _ Hw Hp) as (_ & ? & ? & ?).
Qed.

(** [fork-signal.c]: the child has written the numbers from 1 on; once the parent has
    ended, the signal ends the child: by the handler with its lines, or, when it came
    before the handler was in place, without a line. *)
Theorem fork_signal_stops gp p ch rp f ts :
  fork_signal true = inl f →
  let f' := fam_run gp p ch rp ts f in
  (child_end f' = None → ∃ k, lines_of true f' = Processes.counted k) ∧
  (child_end f' = Some Stopped → ∃ k, lines_of true f' = Processes.counted k ++ TIME_TO_STOP) ∧
  (child_end f' = Some Killed → lines_of true f' = []) ∧
  (parent_acts f' = [] → child_end (deliver f') ≠ None).
Proof.
  intros Hf f'. assert (signal_inv f') as Hi by by apply signal_run, signal_start.
  split; [|split; [|split]]; [..|by apply signal_ends];
    destruct Hi as [(k & _ & Hk) _]; intros He; rewrite He in Hk; [exists k|exists k|]; apply Hk.
Qed.

(** ** badbuf.c *)

(** With names and passwords that fit, who types the same word twice is welcome and
    everybody else is not; a word of 128 characters is written past the array. *)
Theorem login_decides out err l1 w1 c1 l2 w2 c2 r :
  white l1 → word w1 → is_space c1 = true → white l2 → word w2 → is_space c2 = true →
  NUL ∉ w1 → NUL ∉ w2 →
  let o := login_main (Console out err (l1 ++ w1 ++ c1 :: l2 ++ w2 ++ c2 :: r)) in
  (o = UB ↔ 128 ≤ Z.of_nat (length w1) ∨ 128 ≤ Z.of_nat (length w2)) ∧
  (o ≠ UB → ∃ s, o = if bool_decide (w1 = w2) then Ok 0 s else Exit 1 s).
Proof.
  intros Hl1 Hw1 Hc1 Hl2 Hw2 Hc2 Hn1 Hn2 o. unfold o. rewrite run_login by done. unfold BUF_SIZE.
  assert (∀ w, NUL ∉ w → cstr w = w) as Hcstr.
  { intros w. induction w as [|x w IH]; simpl; [done|]. rewrite not_elem_of_cons. intros [Hx Hw].
    rewrite bool_decide_false, IH by (done || congruence). done. }
  rewrite !Hcstr by done.
  destruct (Z.ltb_spec (Z.of_nat (length w1)) 128); [|split; [split; [lia|done]|done]].
  destruct (Z.ltb_spec (Z.of_nat (length w2)) 128); [|split; [split; [lia|done]|done]].
  simpl. case_bool_decide; (split; [split; [done|lia]|by eexists]).
Qed.

(** [my-stat.c] without a file that it can ask about prints a record without a
    value. *)
Theorem stat_missing stat prog name rest s :
  stat name = None → stat_main stat (prog :: name :: rest) s = UB.
Proof. intros H. unfold stat_main. by rewrite H. Qed.
