(* ===== verification/DebugPrint.v ===== *)
(** * DebugPrint: the functions that print the structures of the simulator

    [print_process_memories_list] and [print_free_memory_segments_list] of
    [memory-management.c], [print_scheduled_process] and [print_scheduled_processes] of
    [process-data-file-parser.c].  Each returns the text that it prints.  How [%p]
    writes a pointer is left to the C library: it is the parameter [pp]. *)
From Stdlib Require Import Ascii String.
From stdpp Require Import prelude gmap strings.
From S2P Require Import Prelude CMonad Chain State CString MemoryManagement Parser ParserRefine.

Section debug.
Context (pp : ptr → list ascii).

(** ** memory-management.c *)
Definition process_memory_line (p q : ptr) (v : process_memory) : list ascii :=
  chars "  [proc_mem: " ++ pp p ++ chars ", next: " ++ pp q ++ chars ", start_add: " ++ print_d (pm_start v) ++
  chars ", size: " ++ print_d (pm_size v) ++ chars ", time: " ++ print_d (pm_swap_in_time v) ++
  chars ", pid: " ++ print_d (pm_process_id v) ++ chars "]" ++ [NEWLINE].

Definition print_process_memories_list (proc_mems_list : loc) : C sim (list ascii) :=
  hd ← load (T:=process_memories_list_t) (Some proc_mems_list);
  text ← walk (V:=process_memory) (λ text c _,
    nd ← load (T:=process_memory_t) (Some c);
    mret (text ++ process_memory_line (Some c) (next nd) (data nd))) (chars "{" ++ [NEWLINE]) (pml_head hd);
  mret (text ++ chars "}" ++ [NEWLINE]).

Definition segment_line (p q : ptr) (v : segment) : list ascii :=
  chars "  [mem_seg: " ++ pp p ++ chars ", next: " ++ pp q ++ chars ", start_add: " ++ print_d (seg_start v) ++
  chars ", size: " ++ print_d (seg_size v) ++ chars "]" ++ [NEWLINE].

Definition print_free_memory_segments_list (mem_segs_list : loc) : C sim (list ascii) :=
  hd ← load (T:=free_memory_segments_list_t) (Some mem_segs_list);
  text ← walk (V:=segment) (λ text c _,
    nd ← load (T:=free_memory_segment_t) (Some c);
    mret (text ++ segment_line (Some c) (next nd) (data nd))) (chars "{" ++ [NEWLINE]) (fl_head hd);
  mret (text ++ chars "}" ++ [NEWLINE]).

(** What a list is printed as: a line for each node, with the pointer to the next. *)
Fixpoint listing {V} (line : ptr → ptr → V → list ascii) (l : list (loc * V)) : list ascii :=
  match l with
  | [] => []
  | (a, v) :: l => line (Some a) (head_ptr l) v ++ listing line l
  end.

Lemma wp_listing {V} `{HeapOf sim (node V)} (line : ptr → ptr → V → list ascii) before p l
    (Q : list ascii → sim → Prop) (s : sim) :
  chain (heap (T:=node V) s) p l NULL →
  Q (before ++ listing line l) s →
  wp (walk (V:=V) (λ text c _, nd ← load (T:=node V) (Some c); mret (text ++ line (Some c) (next nd) (data nd))) before p) Q s.
Proof.
  intros Hc HQ.
  apply wp_walk with (l := l)
    (I := λ l1 text s', s' = s ∧ ∀ l2, l = l1 ++ l2 → text ++ listing line l2 = before ++ listing line l).
  - done.
  - intros l1 a v l2 text s' Hl [-> Ht] (_ & r & Ha & Hr). apply wp_bind. eapply wp_load; [done|].
    apply wp_ret. rewrite (chain_head _ _ _ Hr) in Ha |- *. split; [|by rewrite <- (chain_head _ _ _ Hr)].
    split; [done|]. intros l2' Hl2'. rewrite Hl, <- app_assoc in Hl2'. simplify_list_eq.
    rewrite <- (Ht _ eq_refl). simpl. by rewrite <- ?app_assoc.
  - split; [done|]. by intros l2 ->.
  - intros text s' [-> Ht]. specialize (Ht [] ltac:(by rewrite app_nil_r)). simpl in Ht. rewrite app_nil_r in Ht. by rewrite Ht.
Qed.

Lemma wp_print_process_memories a p l (s : sim) :
  pm_lists s !! a = Some (PMList p) → chain (pms s) p l NULL →
  wp (print_process_memories_list a)
    (λ text s', text = chars "{" ++ [NEWLINE] ++ listing process_memory_line l ++ chars "}" ++ [NEWLINE] ∧ s' = s) s.
Proof.
  intros Ha Hc. apply wp_bind. eapply wp_load; [exact Ha|]. apply wp_bind.
  apply (wp_listing process_memory_line _ p l); [exact Hc|]. by apply wp_ret.
Qed.

Lemma wp_print_free_segments a p l (s : sim) :
  seg_lists s !! a = Some (FreeList p) → chain (segs s) p l NULL →
  wp (print_free_memory_segments_list a)
    (λ text s', text = chars "{" ++ [NEWLINE] ++ listing segment_line l ++ chars "}" ++ [NEWLINE] ∧ s' = s) s.
Proof.
  intros Ha Hc. apply wp_bind. eapply wp_load; [exact Ha|]. apply wp_bind.
  apply (wp_listing segment_line _ p l); [exact Hc|]. by apply wp_ret.
Qed.
End debug.

(** ** process-data-file-parser.c *)
Definition QUOTE : ascii := chr 34.
Definition scheduled_process_text (p : scheduled_process_t) : list ascii :=
  [QUOTE] ++ chars "Start time: " ++ print_d (sp_start_time p) ++ chars ", Process id: " ++ print_d (sp_process_id p) ++
  chars ", Memory size: " ++ print_d (sp_memory_size p) ++ chars ", Job time: " ++ print_d (sp_job_time p) ++ [QUOTE].

Definition print_scheduled_process (sp : ptr) : C sim (list ascii) :=
  v ← load (T:=scheduled_process_t) sp; mret (scheduled_process_text v).

(** The array is its own bound. *)
Definition print_scheduled_processes (sps : loc) : C sim (list ascii) :=
  cells ← load (T:=sp_array) (Some sps);
  iter (S (length cells)) (λ '(i, text),
    sp ← array_get sps i;
    match sp with
    | None => mret (inr (text ++ chars "]"))
    | Some _ =>
        let text := if negb (i =? 0) then text ++ chars "," ++ [NEWLINE] else text in
        t ← print_scheduled_process sp;
        i ← int_add i 1;
        mret (inl (i, text ++ t))
    end) (0, chars "[").

(** The processes, separated by commas. *)
Definition separated (ps : list scheduled_process_t) : list ascii :=
  match ps with
  | [] => []
  | p :: ps => scheduled_process_text p ++ concat ((λ p, chars "," ++ [NEWLINE] ++ scheduled_process_text p) <$> ps)
  end.

Lemma separated_snoc ps p :
  separated (ps ++ [p]) =
  (if decide (length ps = 0%nat) then separated ps else separated ps ++ chars "," ++ [NEWLINE]) ++ scheduled_process_text p.
Proof.
  destruct ps as [|q ps]; simpl; [by rewrite app_nil_r|].
  rewrite fmap_app, concat_app. simpl. rewrite app_nil_r, <- !app_assoc. done.
Qed.

Lemma wp_print_scheduled_processes arr ps (s : sim) :
  sp_rep arr ps s → Z.of_nat (length ps) ≤ INT_MAX →
  wp (print_scheduled_processes arr) (λ text s', text = chars "[" ++ separated ps ++ chars "]" ∧ s' = s) s.
Proof.
  intros Hrep Hlen. pose proof Hrep as (ls & junk & Ha & HF & Hnd & Hd). pose proof (Forall2_length _ _ _ HF) as HL.
  apply wp_bind. eapply wp_load; [simpl; rewrite Ha; apply lookup_singleton_eq|].
  apply (wp_iter_idx (λ k '(i, text) s', ∃ ps1 ps2, ps = ps1 ++ ps2 ∧ k = length ps2 ∧
      i = Z.of_nat (length ps1) ∧ text = chars "[" ++ separated ps1 ∧ s' = s)) with (k := length ps).
  - intros k [i text] s' (ps1 & ps2 & -> & -> & -> & -> & ->). apply wp_bind.
    eapply wp_array_get; [exact Hrep|done|].
    destruct ps2 as [|p ps2].
    + apply wp_ret. rewrite app_nil_r, <- app_assoc. done.
    + intros l Hl. apply wp_bind, wp_bind. eapply wp_load; [exact Hl|]. apply wp_ret, wp_bind.
      rewrite length_app in Hlen. simpl in Hlen. apply wp_chk; [lia|]. apply wp_ret.
      exists (length ps2). split; [simpl; lia|]. exists (ps1 ++ [p]), ps2.
      rewrite length_app, separated_snoc, <- app_assoc. split; [done|]. split; [done|]. split; [simpl; lia|].
      split; [|done]. destruct (Z.eqb_spec (Z.of_nat (length ps1)) 0); destruct (decide _); try lia; simpl;
        by rewrite <- ?app_assoc.
  - by exists [], ps.
  - rewrite !length_app, length_fmap. lia.
Qed.
